(** * trs80gpExt: breakpoint resolution, assembly invocation, emulator
      supervision, configuration, diagnostics, the run and debug commands
      and the debug session, embedded from the TypeScript sources.

    Conventions of the embedding.
    - A JavaScript string is a [string]: a sequence of code units below 256.
      The assembler's symbol, listing and diagnostic texts are ASCII.
    - A JavaScript number that holds an address, an exit code, a time or
      the line of a breakpoint is a [Z]: these stay far below 2^53, where
      double arithmetic is exact.  The line number of a diagnostic is read
      from a run of digits of any length that the assembler wrote; it is a
      [JS.number], a double.
    - [null]/[undefined] results are [None]; a thrown exception is an
      explicit constructor of the result type.
    - The host (VS Code, the file system, Node's [path] module, the operating
      system's processes) is an explicit argument of every function that
      consults it.  What can fail in the host is a field of its record; the
      other calls into the editor (the output channel, the constructors of
      [vscode.Range] and [vscode.Diagnostic]) are taken to return. *)

From Stdlib Require Import String Ascii List ZArith NArith Lia Bool Arith.
Import ListNotations.

Local Open Scope string_scope.
Local Open Scope Z_scope.

(* ================================================================== *)
(** * JavaScript string and number primitives used by the sources      *)
(* ================================================================== *)

Module JS.

Definition code (c : ascii) : N := N_of_ascii c.

Definition inRange (lo hi : N) (c : ascii) : bool :=
  ((lo <=? code c) && (code c <=? hi))%N.

(** [\s], also the set removed by [String.prototype.trim]: TAB, LF, VT, FF,
    CR, SPACE and NBSP are the white space code units below 256. *)
Definition isSpace (c : ascii) : bool :=
  inRange 9 13 c || (code c =? 32)%N || (code c =? 160)%N.

(** [\d] *)
Definition isDigit (c : ascii) : bool := inRange 48 57 c.

Definition isUpper (c : ascii) : bool := inRange 65 90 c.
Definition isLower (c : ascii) : bool := inRange 97 122 c.

(** [\w] is [[A-Za-z0-9_]] *)
Definition isWord (c : ascii) : bool :=
  isUpper c || isLower c || isDigit c || (code c =? 95)%N.

(** [[0-9A-Fa-f]] *)
Definition isHex (c : ascii) : bool :=
  isDigit c || inRange 65 70 c || inRange 97 102 c.

(** [.] without the [s] flag: anything but a line terminator. *)
Definition isDot (c : ascii) : bool :=
  negb ((code c =? 10)%N || (code c =? 13)%N).

Definition isNot (x : ascii) (c : ascii) : bool := negb (Ascii.eqb x c).

Definition tab : ascii := ascii_of_N 9.
Definition lf : ascii := ascii_of_N 10.

Definition toLower (c : ascii) : ascii :=
  if isUpper c then ascii_of_N (code c + 32) else c.
Definition toUpper (c : ascii) : ascii :=
  if isLower c then ascii_of_N (code c - 32) else c.

Fixpoint map_string (f : ascii -> ascii) (s : string) : string :=
  match s with
  | EmptyString => EmptyString
  | String c s' => String (f c) (map_string f s')
  end.

(** [String.prototype.toLowerCase] / [toUpperCase] on code units < 128;
    every string they are applied to in the sources is made of [\w]
    characters or hexadecimal digits. *)
Definition toLowerCase : string -> string := map_string toLower.
Definition toUpperCase : string -> string := map_string toUpper.

Fixpoint dropSpace (s : string) : string :=
  match s with
  | String c s' => if isSpace c then dropSpace s' else s
  | EmptyString => EmptyString
  end.

(** Removes trailing white space: the result of the tail is kept unless
    it is empty and the head is white space. *)
Fixpoint dropSpaceEnd (s : string) : string :=
  match s with
  | EmptyString => EmptyString
  | String c s' =>
      match dropSpaceEnd s' with
      | EmptyString => if isSpace c then EmptyString else String c EmptyString
      | t => String c t
      end
  end.

(** [String.prototype.trim] *)
Definition trim (s : string) : string := dropSpaceEnd (dropSpace s).

(** [s.split(sep)] for a one-character separator: never empty, the
    split of the empty string is one empty string. *)
Fixpoint split (sep : ascii) (s : string) : list string :=
  match s with
  | EmptyString => [EmptyString]
  | String c s' =>
      if Ascii.eqb c sep then EmptyString :: split sep s'
      else match split sep s' with
           | l :: ls => String c l :: ls
           | [] => [String c EmptyString]
           end
  end.

(** [s.split('\n')] *)
Definition splitLines (s : string) : list string := split lf s.

(** [s.includes(t)] *)
Fixpoint includes (t s : string) : bool :=
  if String.prefix t s then true
  else match s with
       | EmptyString => false
       | String _ s' => includes t s'
       end.

(** ** Regular expressions

    The fragment of ECMAScript regular expressions the sources use:
    character classes, greedy [*] on a class, concatenation, capturing
    groups and the end anchor.  Matching is the backtracking search of the
    language definition, written with a continuation: a greedy star first
    tries to take one more character and falls back to the continuation
    when the rest of the pattern fails. *)

Inductive regex : Type :=
| Emp                                  (* empty pattern *)
| Cls (p : ascii -> bool)              (* one character of a class *)
| Star (p : ascii -> bool)             (* greedy p* *)
| Cat (r1 r2 : regex)
| Cap (r : regex)                      (* capturing group *)
| Eos.                                 (* $ without the m flag *)

Definition Lit (c : ascii) : regex := Cls (Ascii.eqb c).
(** a literal under the [i] flag *)
Definition LitI (c : ascii) : regex :=
  Cls (fun x => Ascii.eqb (toLower x) (toLower c)).
Definition Plus (p : ascii -> bool) : regex := Cat (Cls p) (Star p).
Fixpoint Rep (n : nat) (p : ascii -> bool) : regex :=
  match n with
  | O => Emp
  | S n' => Cat (Cls p) (Rep n' p)
  end.
Fixpoint Seq (rs : list regex) : regex :=
  match rs with
  | [] => Emp
  | r :: rs' => Cat r (Seq rs')
  end.

(** the text consumed between input [s] and its suffix [s'] *)
Definition consumed (s s' : string) : string :=
  String.substring 0 (String.length s - String.length s') s.

Definition Cont : Type := string -> list string -> option (list string).

Fixpoint exec (r : regex) (s : string) (caps : list string) (k : Cont)
  {struct r} : option (list string) :=
  match r with
  | Emp => k s caps
  | Eos => match s with
           | EmptyString => k s caps
           | String _ _ => None
           end
  | Cls p => match s with
             | String c s' => if p c then k s' caps else None
             | EmptyString => None
             end
  | Star p =>
      (fix loop (t : string) : option (list string) :=
         match t with
         | String c t' =>
             if p c
             then match loop t' with
                  | Some res => Some res
                  | None => k t caps
                  end
             else k t caps
         | EmptyString => k t caps
         end) s
  | Cat r1 r2 => exec r1 s caps (fun s' caps' => exec r2 s' caps' k)
  | Cap r1 => exec r1 s caps (fun s' caps' => k s' (caps' ++ [consumed s s'])%list)
  end.

(** [s.match(/^r/)]: the captured groups, in order, or [None] for [null]. *)
Definition matchStart (r : regex) (s : string) : option (list string) :=
  exec r s [] (fun _ caps => Some caps).

(** [s.match(/r/)] for a pattern without [^]: leftmost start position. *)
Fixpoint matchAnywhere (r : regex) (s : string) : option (list string) :=
  match matchStart r s with
  | Some caps => Some caps
  | None => match s with
            | EmptyString => None
            | String _ s' => matchAnywhere r s'
            end
  end.

(** ** Numbers *)

Definition digitValue (c : ascii) : option Z :=
  if isDigit c then Some (Z.of_N (code c) - 48)
  else if inRange 65 90 c then Some (Z.of_N (code c) - 55)
  else if inRange 97 122 c then Some (Z.of_N (code c) - 87)
  else None.

(** the longest prefix of digits valid in [radix], as a value, with a flag
    telling whether at least one digit was read *)
Fixpoint readDigits (radix : Z) (s : string) (acc : Z) (seen : bool)
  : Z * bool :=
  match s with
  | EmptyString => (acc, seen)
  | String c s' =>
      match digitValue c with
      | Some d => if d <? radix
                  then readDigits radix s' (acc * radix + d) true
                  else (acc, seen)
      | None => (acc, seen)
      end
  end.

Definition stripHexPrefix (s : string) : string :=
  match s with
  | String c0 (String c1 s') =>
      if Ascii.eqb c0 "0" && (Ascii.eqb c1 "x" || Ascii.eqb c1 "X")
      then s' else s
  | _ => s
  end.

(** [parseInt(s, radix)] for radix 10 and 16; [None] is [NaN]. *)
Definition parseInt (s : string) (radix : Z) : option Z :=
  let s1 := dropSpace s in
  let '(neg, s2) :=
    match s1 with
    | String c s' =>
        if Ascii.eqb c "-" then (true, s')
        else if Ascii.eqb c "+" then (false, s')
        else (false, s1)
    | EmptyString => (false, s1)
    end in
  let s3 := if radix =? 16 then stripHexPrefix s2 else s2 in
  match readDigits radix s3 0 false with
  | (v, true) => Some (if neg then - v else v)
  | (_, false) => None
  end.

Definition digitChar (d : Z) : ascii :=
  if d <? 10 then ascii_of_N (Z.to_N (d + 48))
  else ascii_of_N (Z.to_N (d + 87)).

(** the digits of [n >= 0] in [radix], most significant first, in front
    of [acc]; [fuel] bounds the number of digits *)
Fixpoint digits (radix : Z) (fuel : nat) (n : Z) (acc : string) : string :=
  match fuel with
  | O => acc
  | S fuel' =>
      let acc' := String (digitChar (n mod radix)) acc in
      if n / radix =? 0 then acc' else digits radix fuel' (n / radix) acc'
  end.

(** [n.toString(radix)] for an integer [n]: lower-case digits, no
    padding; a number has at most [log2 n + 1] digits in any radix. *)
Definition toString (n : Z) (radix : Z) : string :=
  if n <? 0
  then String "-" (digits radix (S (Z.to_nat (Z.log2 (- n)))) (- n) "")
  else digits radix (S (Z.to_nat (Z.log2 n))) n "".

(** ** Doubles

    The Number values that arise from integers of any size: a double that
    is an integer, an infinity, or [NaN].  Zero has one sign here: the
    digits the patterns capture carry no sign. *)
Inductive number : Type :=
| Finite (z : Z)
| Infinite (positive : bool)
| NaN.

(** The double nearest to the integer [n >= 0], ties to even; [None]
    when it overflows.  Below 2^53 every integer is a double; above, a
    double keeps the 53 leading bits. *)
Definition roundNat (n : Z) : option Z :=
  if n <? 2 ^ 53 then Some n
  else
    let e := Z.log2 n - 52 in
    let q := n / 2 ^ e in
    let r := n mod 2 ^ e in
    let half := 2 ^ (e - 1) in
    let q' := if (half <? r) || ((r =? half) && Z.odd q) then q + 1 else q in
    if 2 ^ 1024 <=? q' * 2 ^ e then None else Some (q' * 2 ^ e).

(** the Number value of the integer [n] *)
Definition toNumber (n : Z) : number :=
  if n <? 0
  then match roundNat (- n) with
       | Some v => Finite (- v)
       | None => Infinite false
       end
  else match roundNat n with
       | Some v => Finite v
       | None => Infinite true
       end.

(** [parseInt(s, 10)] as a Number.  Node converts every digit and rounds
    once (the language definition would also allow an implementation to
    take the digits after the 20th for zeros). *)
Definition parseIntNumber (s : string) : number :=
  match parseInt s 10 with
  | Some v => toNumber v
  | None => NaN
  end.

(** [x - 1] *)
Definition minusOne (x : number) : number :=
  match x with
  | Finite z => toNumber (z - 1)
  | Infinite positive => Infinite positive
  | NaN => NaN
  end.

(** [Math.max(0, x)] *)
Definition maxZero (x : number) : number :=
  match x with
  | Finite z => Finite (Z.max 0 z)
  | Infinite true => Infinite true
  | Infinite false => Finite 0
  | NaN => NaN
  end.

End JS.

(* ================================================================== *)
(** * The host: editor, file system and Node's [path] module          *)
(* ================================================================== *)

Module Host.

(** An element of [vscode.debug.breakpoints]. *)
Inductive Breakpoint : Type :=
| SourceBreakpoint (fsPath : string) (startLine : Z)
    (* location.uri.fsPath, location.range.start.line (0-based) *)
| FunctionBreakpoint (functionName : string).

Record t : Type := {
  (* vscode.workspace.workspaceFolders?.[0].uri.fsPath *)
  workspaceFolder : option string;
  (* vscode.workspace.getConfiguration('trs80gp').get('defaultOutputDir', '.zout') *)
  defaultOutputDir : string;
  (* vscode.debug.breakpoints, in the order the editor reports them *)
  breakpoints : list Breakpoint;
  (* fs.existsSync *)
  existsSync : string -> bool;
  (* fs.readFileSync(p, 'utf8'); None when it throws *)
  readFileSync : string -> option string;
  (* fs.statSync(p).mtimeMs; None when statSync throws.  Only the order
     of two time stamps is used. *)
  mtimeMs : string -> option Z;
  (* fs.mkdirSync(p, { recursive: true }) throws *)
  mkdirSyncThrows : string -> bool;
  (* the text of the exception it then throws, as String(e) gives it *)
  mkdirSyncError : string -> string;
  (* path.join *)
  join : list string -> string;
  (* path.basename(f, path.extname(f)) *)
  basenameNoExt : string -> string
}.

End Host.

(* ================================================================== *)
(** * src/debugging/BreakpointManager.ts                               *)
(* ================================================================== *)

Module SymbolInfo.
Record t : Type := {
  address : Z;
  label : string;
  file : option string;
  line : option Z
}.
End SymbolInfo.

Module BreakpointInfo.
Record t : Type := {
  address : Z;
  file : string;
  line : Z;
  label : option string
}.
End BreakpointInfo.

Module BreakpointManager.
Import JS.

(** the pattern "/^([0-9A-Fa-f]{4})\s+a\s+(\w+)$/" *)
Definition labelRe : regex :=
  Seq [Cap (Rep 4 isHex); Plus isSpace; Lit "a"; Plus isSpace;
       Cap (Plus isWord); Eos].

(** the pattern "/^([0-9A-Fa-f]{4})\s+[0-9A-Fa-f]{4}\s+s\s+(.* )$/"
    (the last group is any run of non-terminator characters; a space is
    added before its closing parenthesis here) *)
Definition sourceRe : regex :=
  Seq [Cap (Rep 4 isHex); Plus isSpace; Rep 4 isHex; Plus isSpace;
       Lit "s"; Plus isSpace; Cap (Star isDot); Eos].

(** the pattern "/^\s*(\w+):\s*/" *)
Definition labelInSourceRe : regex :=
  Seq [Star isSpace; Cap (Plus isWord); Lit ":"; Star isSpace].

(** the pattern "/^([0-9A-Fa-f]{4})\s+(\w+)$/" *)
Definition simpleRe : regex :=
  Seq [Cap (Rep 4 isHex); Plus isSpace; Cap (Plus isWord); Eos].

(** the pattern "/^([0-9A-Fa-f]{4})\s+(\w+)\s*\(([^:]+):(\d+)\)$/" *)
Definition complexRe : regex :=
  Seq [Cap (Rep 4 isHex); Plus isSpace; Cap (Plus isWord); Star isSpace;
       Lit "("; Cap (Plus (isNot ":")); Lit ":"; Cap (Plus isDigit);
       Lit ")"; Eos].

(** the pattern "/^([0-9A-Fa-f]{4})\s+e\s*$/" *)
Definition entryRe : regex :=
  Seq [Cap (Rep 4 isHex); Plus isSpace; Lit "e"; Star isSpace; Eos].

(** the pattern "/^\s*(\d+):\s*[^\t]*\t([0-9A-Fa-f]{4})\s+/" *)
Definition listingRe : regex :=
  Seq [Star isSpace; Cap (Plus isDigit); Lit ":"; Star isSpace;
       Star (isNot tab); Lit tab; Cap (Rep 4 isHex); Plus isSpace].

(** the pattern "/^(\w+):/" *)
Definition lineLabelRe : regex :=
  Seq [Cap (Plus isWord); Lit ":"].

(** [parseInt] of a captured group; the groups it is applied to are
    non-empty runs of digits of the radix, so [NaN] does not arise and is
    mapped to 0 to keep the field a number.  An address has four digits.
    A line number read this way is kept as the integer its digits denote:
    it is only compared with the line of a breakpoint, far below 2^53
    (where the integer and the double agree), or stored in a field the
    program never reads. *)
Definition num (s : string) (radix : Z) : Z :=
  match parseInt s radix with
  | Some v => v
  | None => 0
  end.

Definition mkSymbol (a : Z) (l : string) (f : option string) (n : option Z)
  : SymbolInfo.t :=
  {| SymbolInfo.address := a; SymbolInfo.label := l;
     SymbolInfo.file := f; SymbolInfo.line := n |}.

(** One iteration of the loop of [parseBdsFile] on [lines[i]]: the symbol
    pushed, if any. *)
Definition parseBdsLine (i : Z) (raw : string) : option SymbolInfo.t :=
  let line := trim raw in
  match line with
  | EmptyString => None
  | _ =>
    match matchStart labelRe line with
    | Some [addressStr; label] =>
        Some (mkSymbol (num addressStr 16) label None (Some (i + 1)))
    | _ =>
      match matchStart sourceRe line with
      | Some [addressStr; sourceText] =>
          match matchStart labelInSourceRe sourceText with
          | Some [labelName] =>
              Some (mkSymbol (num addressStr 16) labelName None (Some (i + 1)))
          | _ => None
          end
      | _ =>
        match matchStart simpleRe line with
        | Some [addressStr; label] =>
            Some (mkSymbol (num addressStr 16) label None (Some (i + 1)))
        | _ =>
          match matchStart complexRe line with
          | Some [addressStr; label; file; lineStr] =>
              Some (mkSymbol (num addressStr 16) label (Some file)
                      (Some (num lineStr 10)))
          | _ => None
          end
        end
      end
    end
  end.

Fixpoint parseBdsLines (i : Z) (lines : list string) : list SymbolInfo.t :=
  match lines with
  | [] => []
  | raw :: rest =>
      match parseBdsLine i raw with
      | Some sym => sym :: parseBdsLines (i + 1) rest
      | None => parseBdsLines (i + 1) rest
      end
  end.

Definition parseBdsText (content : string) : list SymbolInfo.t :=
  parseBdsLines 0 (splitLines content).

Definition parseBdsFile (h : Host.t) (bdsFilePath : string)
  : list SymbolInfo.t :=
  if negb (Host.existsSync h bdsFilePath) then []
  else match Host.readFileSync h bdsFilePath with
       | Some content => parseBdsText content
       | None => []                       (* catch: return [] *)
       end.

(** The first loop of [getEntryPoint]: the first line that is an entry
    marker. *)
Fixpoint findEntryLine (lines : list string) : option Z :=
  match lines with
  | [] => None
  | line :: rest =>
      match matchStart entryRe (trim line) with
      | Some [addressStr] => Some (num addressStr 16)
      | _ => findEntryLine rest
      end
  end.

Definition isMain (s : SymbolInfo.t) : bool :=
  String.eqb (toLowerCase (SymbolInfo.label s)) "main".

Definition getEntryPoint (h : Host.t) (bdsFile : string) : option Z :=
  if negb (Host.existsSync h bdsFile) then None
  else match Host.readFileSync h bdsFile with
       | None => None                     (* catch, then return null *)
       | Some content =>
           match findEntryLine (splitLines content) with
           | Some a => Some a
           | None =>
               let symbolMap := parseBdsFile h bdsFile in
               match find isMain symbolMap with
               | Some mainSymbol => Some (SymbolInfo.address mainSymbol)
               | None =>
                   match symbolMap with
                   | first :: _ => Some (SymbolInfo.address first)
                   | [] => None
                   end
               end
           end
       end.

Definition hasLabel (labelName : string) (s : SymbolInfo.t) : bool :=
  String.eqb (SymbolInfo.label s) labelName.

(** The loop of strategy 2.  [nearest] is the pair
    [(nearestLabel, nearestDistance)]; [None] stands for [null] and
    [Infinity]. *)
Fixpoint nearestLoop (symbolMap : list SymbolInfo.t) (targetLine : Z)
    (i : Z) (sourceLines : list string)
    (nearest : option (SymbolInfo.t * Z)) : option (SymbolInfo.t * Z) :=
  match sourceLines with
  | [] => nearest
  | raw :: rest =>
      let next :=
        match matchStart lineLabelRe (trim raw) with
        | Some [labelName] =>
            match find (hasLabel labelName) symbolMap with
            | Some symbol =>
                let lineNumber := i + 1 in
                if lineNumber <=? targetLine then
                  let distance := targetLine - lineNumber in
                  match nearest with
                  | None => Some (symbol, distance)
                  | Some (_, nearestDistance) =>
                      if distance <? nearestDistance
                      then Some (symbol, distance) else nearest
                  end
                else nearest
            | None => nearest
            end
        | _ => nearest
        end in
      nearestLoop symbolMap targetLine (i + 1) rest next
  end.

Definition findAddressUsingNearestLabel (h : Host.t) (sourceFile : string)
    (targetLine : Z) (symbolMap : list SymbolInfo.t) : option Z :=
  match Host.readFileSync h sourceFile with
  | None => None                                   (* catch *)
  | Some sourceContent =>
      let sourceLines := splitLines sourceContent in
      if Z.of_nat (List.length sourceLines) <? targetLine then None
      else if targetLine <? 1 then None
           (* sourceLines[targetLine - 1] is undefined: .trim() throws *)
      else
        match nth_error sourceLines (Z.to_nat (targetLine - 1)) with
        | None => None
        | Some raw =>
            let targetLineText := trim raw in
            let strategy1 :=
              match matchStart lineLabelRe targetLineText with
              | Some [labelName] =>
                  match find (hasLabel labelName) symbolMap with
                  | Some symbol => Some (SymbolInfo.address symbol)
                  | None => None
                  end
              | _ => None
              end in
            match strategy1 with
            | Some a => Some a
            | None =>
                match nearestLoop symbolMap targetLine 0 sourceLines None with
                | Some (nearestLabel, _) =>
                    Some (SymbolInfo.address nearestLabel)
                | None => None
                end
            end
        end
  end.

(** The loop over the lines of the listing file. *)
Fixpoint scanListing (targetLine : Z) (lines : list string) : option Z :=
  match lines with
  | [] => None
  | line :: rest =>
      match matchStart listingRe line with
      | Some [lineStr; addressHex] =>
          if num lineStr 10 =? targetLine
          then Some (num addressHex 16)
          else scanListing targetLine rest
      | _ => scanListing targetLine rest
      end
  end.

Definition listingFileOf (h : Host.t) (workspace sourceFile : string)
  : string :=
  Host.join h [workspace; Host.defaultOutputDir h;
               Host.basenameNoExt h sourceFile ++ ".lst"].

Definition findAddressForSourceLine (h : Host.t) (sourceFile : string)
    (targetLine : Z) (symbolMap : list SymbolInfo.t) : option Z :=
  match Host.workspaceFolder h with
  | None => None
  | Some workspace =>
      let listingFile := listingFileOf h workspace sourceFile in
      if negb (Host.existsSync h listingFile)
      then findAddressUsingNearestLabel h sourceFile targetLine symbolMap
      else
        match Host.readFileSync h listingFile with
        | None =>                                   (* catch *)
            findAddressUsingNearestLabel h sourceFile targetLine symbolMap
        | Some listingContent =>
            match scanListing targetLine (splitLines listingContent) with
            | Some address => Some address
            | None =>
                findAddressUsingNearestLabel h sourceFile targetLine
                  symbolMap
            end
        end
  end.

(** The body of the loop of [getBreakpointAddresses] for one breakpoint:
    the entry pushed on [breakpointInfos], if any. *)
Definition resolveBreakpoint (h : Host.t) (symbolMap : list SymbolInfo.t)
    (breakpoint : Host.Breakpoint) : option BreakpointInfo.t :=
  match breakpoint with
  | Host.SourceBreakpoint sourceFile startLine =>
      let line := startLine + 1 in
      match findAddressForSourceLine h sourceFile line symbolMap with
      | Some address =>
          Some {| BreakpointInfo.address := address;
                  BreakpointInfo.file := sourceFile;
                  BreakpointInfo.line := line;
                  BreakpointInfo.label :=
                    Some ("line_" ++ toString line 10) |}
      | None => None
      end
  | Host.FunctionBreakpoint _ => None
  end.

Fixpoint resolveAll (h : Host.t) (symbolMap : list SymbolInfo.t)
    (bps : list Host.Breakpoint) : list BreakpointInfo.t :=
  match bps with
  | [] => []
  | breakpoint :: rest =>
      match resolveBreakpoint h symbolMap breakpoint with
      | Some info => info :: resolveAll h symbolMap rest
      | None => resolveAll h symbolMap rest
      end
  end.

Definition getBreakpointAddresses (h : Host.t) (bdsFile : string)
  : list BreakpointInfo.t :=
  let symbolMap := parseBdsFile h bdsFile in
  let breakpointInfos := resolveAll h symbolMap (Host.breakpoints h) in
  firstn 4 breakpointInfos.                        (* slice(0, 4) *)

Definition renderAddress (address : Z) : string :=
  toUpperCase (toString address 16).

Fixpoint formatBreakpointsForEmulator (breakpoints : list BreakpointInfo.t)
  : list string :=
  match breakpoints with
  | [] => []
  | bp :: rest =>
      "-b" :: renderAddress (BreakpointInfo.address bp)
           :: formatBreakpointsForEmulator rest
  end.

End BreakpointManager.

(* ================================================================== *)
(** * ZmacAssembler (src/unnamed/part_003)                             *)
(* ================================================================== *)

Inductive Severity : Type := error | warning.

Module AssemblyError.
Record t : Type := {
  file : string;
  line : JS.number;
  column : option Z;
  message : string;
  severity : Severity
}.
End AssemblyError.

Module OutputFiles.
Record t : Type := {
  bds : option string;
  cmd : option string;
  lst : option string
}.
Definition empty : t := {| bds := None; cmd := None; lst := None |}.
End OutputFiles.

Module AssemblyResult.
Record t : Type := {
  success : bool;
  stdout : string;
  stderr : string;
  outputFiles : OutputFiles.t;
  errors : list AssemblyError.t
}.
End AssemblyResult.

(** What an asynchronous function hands back: a promise that resolved,
    one that rejected (an exception was thrown), or one that never
    settles.  The [reason] of a rejection is the text of the exception as
    [String(e)] or a template literal gives it: the name of its class, a
    colon and its message. *)
Inductive Outcome (A : Type) : Type :=
| Resolved (a : A)
| Rejected (reason : string)
| Pending.
Arguments Resolved {A} a.
Arguments Rejected {A} reason.
Arguments Pending {A}.

(** The side effects the claims are about. *)
Inductive Effect : Type :=
| Mkdir (dir : string)
| Spawn (command : string) (args : list string) (cwd : string).

Module ChildProcess.

(** The events of a spawned child, in the order Node delivers them. *)
Inductive Event : Type :=
| StdoutData (text : string)
| StderrData (text : string)
| Close (code : option Z)          (* [code] is null when killed by a signal *)
| Error (message : string).        (* e.g. the binary could not be spawned *)

(** One run of a child: its events, and which files exist when the
    handlers run. *)
Record Run : Type := {
  events : list Event;
  existsAtExit : string -> bool
}.

End ChildProcess.

Module ZmacAssembler.
Import JS.

Fixpoint LitsI (s : string) : regex :=
  match s with
  | EmptyString => Emp
  | String c s' => Cat (LitI c) (LitsI s')
  end.

(** the pattern "/File\s+'([^']+)',\s+line\s+(\d+):\s*(.+)/i" *)
Definition errorRe : regex :=
  Seq [LitsI "File"; Plus isSpace; Lit "'"; Cap (Plus (isNot "'"));
       Lit "'"; Lit ","; Plus isSpace; LitsI "line"; Plus isSpace;
       Cap (Plus isDigit); Lit ":"; Star isSpace; Cap (Plus isDot)].

(** the pattern "/line\s+(\d+):\s*(.+)/i" *)
Definition simpleErrorRe : regex :=
  Seq [LitsI "line"; Plus isSpace; Cap (Plus isDigit); Lit ":";
       Star isSpace; Cap (Plus isDot)].

Definition severityOf (line : string) : Severity :=
  if includes "warning" (toLowerCase line) then warning else error.

Definition mkError (f : string) (n : number) (m : string) (sev : Severity)
  : AssemblyError.t :=
  {| AssemblyError.file := f; AssemblyError.line := n;
     AssemblyError.column := None; AssemblyError.message := m;
     AssemblyError.severity := sev |}.

(** the diagnostics one line of standard error contributes *)
Definition parseZmacErrorLine (line sourceFile : string)
  : list AssemblyError.t :=
  match matchAnywhere errorRe line with
  | Some [file; lineStr; message] =>
      [mkError file (parseIntNumber lineStr) (trim message) (severityOf line)]
  | _ =>
      match matchAnywhere simpleErrorRe line with
      | Some [lineStr; message] =>
          [mkError sourceFile (parseIntNumber lineStr) (trim message)
             (severityOf line)]
      | _ => []
      end
  end.

Definition parseZmacErrors (stderr sourceFile : string)
  : list AssemblyError.t :=
  flat_map (fun line => parseZmacErrorLine line sourceFile)
           (splitLines stderr).

Definition getOutputFiles (exists_ : string -> bool) (h : Host.t)
    (outputDir baseName : string) : OutputFiles.t :=
  let bdsFile := Host.join h [outputDir; baseName ++ ".bds"] in
  let cmdFile := Host.join h [outputDir; baseName ++ ".cmd"] in
  let lstFile := Host.join h [outputDir; baseName ++ ".lst"] in
  {| OutputFiles.bds := if exists_ bdsFile then Some bdsFile else None;
     OutputFiles.cmd := if exists_ cmdFile then Some cmdFile else None;
     OutputFiles.lst := if exists_ lstFile then Some lstFile else None |}.

Definition needsAssembly (h : Host.t) (sourceFile outputBds : string)
  : bool :=
  if negb (Host.existsSync h outputBds) then true
  else match Host.mtimeMs h sourceFile, Host.mtimeMs h outputBds with
       | Some sourceMtime, Some bdsMtime => bdsMtime <? sourceMtime
       | _, _ => true                       (* catch: assume needed *)
       end.

(** The handlers of [assemble], run over the child's events in order.
    [stdout] and [stderr] accumulate; the promise is settled by the first
    ['close'] or ['error'] (later calls of [resolve] have no effect). *)
Fixpoint settle (h : Host.t) (run : ChildProcess.Run)
    (sourceFile fullOutputDir sourceBaseName : string)
    (evs : list ChildProcess.Event) (stdout stderr : string)
  : Outcome AssemblyResult.t :=
  match evs with
  | [] => Pending
  | ChildProcess.StdoutData text :: rest =>
      settle h run sourceFile fullOutputDir sourceBaseName rest
             (stdout ++ text) stderr
  | ChildProcess.StderrData text :: rest =>
      settle h run sourceFile fullOutputDir sourceBaseName rest
             stdout (stderr ++ text)
  | ChildProcess.Close code :: _ =>
      let success := match code with
                     | Some c => c =? 0
                     | None => false
                     end in
      let errors := parseZmacErrors stderr sourceFile in
      let outputFiles :=
        getOutputFiles (ChildProcess.existsAtExit run) h fullOutputDir
                       sourceBaseName in
      Resolved {| AssemblyResult.success := success;
                  AssemblyResult.stdout := stdout;
                  AssemblyResult.stderr := stderr;
                  AssemblyResult.outputFiles := outputFiles;
                  AssemblyResult.errors := errors |}
  | ChildProcess.Error message :: _ =>
      Resolved {| AssemblyResult.success := false;
                  AssemblyResult.stdout := "";
                  AssemblyResult.stderr := message;
                  AssemblyResult.outputFiles := OutputFiles.empty;
                  AssemblyResult.errors :=
                    [mkError sourceFile (Finite 1)
                       ("Failed to start zmac: " ++ message) error] |}
  end.

(** [assemble]: the effects performed, in order, and the promise handed
    back.  [run] is what the spawned child does. *)
Definition assemble (h : Host.t) (run : ChildProcess.Run)
    (sourceFile outputDir zmacPath : string) (zmacArgs : list string)
  : list Effect * Outcome AssemblyResult.t :=
  match Host.workspaceFolder h with
  | None => ([], Rejected "Error: No workspace folder open")
  | Some workspace =>
      let fullOutputDir := Host.join h [workspace; outputDir] in
      let mk := negb (Host.existsSync h fullOutputDir) in
      if mk && Host.mkdirSyncThrows h fullOutputDir
      then ([Mkdir fullOutputDir],
            Rejected (Host.mkdirSyncError h fullOutputDir))
      else
        let sourceBaseName := Host.basenameNoExt h sourceFile in
        let args := (["--od"; fullOutputDir] ++ zmacArgs ++ [sourceFile])%list in
        ((if mk then [Mkdir fullOutputDir] else []) ++
           [Spawn zmacPath args workspace],
         settle h run sourceFile fullOutputDir sourceBaseName
                (ChildProcess.events run) "" "")%list
  end.

End ZmacAssembler.

(* ================================================================== *)
(** * EmulatorManager (src/unnamed/part_002)                           *)
(* ================================================================== *)

(** The manager is event driven: [startEmulator] and [stopEmulator] return
    promises that are settled later by the child's ['spawn'] and ['exit']
    events or by the 2000 ms timer.  The embedding is the transition
    function of the singleton over these events.  Handlers run to
    completion, one event at a time, as on Node's event loop; a promise
    continuation runs right after the handler that resolved the promise. *)

Module EmulatorInstance.
(** The [process] handle is identified with its [pid]. *)
Record t : Type := {
  pid : Z;
  startTime : Z;
  sourceFile : string;
  isDebugMode : bool
}.
End EmulatorInstance.

Module StartRequest.
(** The arguments of one call of [startEmulator]. *)
Record t : Type := {
  emulatorPath : string;
  bdsFile : string;
  cmdFile : string;
  sourceFile : string;
  modelArg : string;
  emulatorArgs : string;
  breakpointArgs : list string;
  isDebugMode : bool
}.
End StartRequest.

Module EmulatorManager.
Import JS.

Inductive Signal : Type := SIGTERM | SIGKILL.

(** What the operating system and the file system answer. *)
Record World : Type := {
  existsSync : string -> bool;
  (* process.kill(signal) throws *)
  killThrows : Z -> Signal -> bool;
  (* spawn hands back a child without pid *)
  spawnFails : StartRequest.t -> bool
}.

(** Observable actions, oldest first. *)
Inductive Obs : Type :=
| Killed (pid : Z) (signal : Signal)       (* process.kill(signal) called *)
| Spawned (pid : Z) (command : string) (args : list string)
| StartResolved (pid : Z)                  (* resolve(instance) *)
| StartRejected                            (* reject(...) *)
| StopResolved (id : nat) (time : Z) (stored : option Z).
    (* a promise of stopEmulator resolved at [time]; [stored] is the pid
       of currentInstance at that moment *)

(** One pending call of [stopEmulator]: its ['exit'] listener, its timer
    and the code that awaits its promise. *)
Record StopWait : Type := {
  id : nat;
  target : Z;                         (* the pid captured by the call *)
  deadline : Z;                       (* when the timer fires *)
  timerArmed : bool;                  (* not yet fired nor cleared *)
  settled : bool;                     (* resolve() already called *)
  continuation : option StartRequest.t
    (* Some req: the rest of startEmulator(req) awaits the promise *)
}.

Record State : Type := {
  now : Z;                            (* milliseconds *)
  currentInstance : option EmulatorInstance.t;
  waits : list StopWait;              (* oldest first *)
  spawning : list EmulatorInstance.t; (* spawned, 'spawn' not yet emitted *)
  children : list Z;                  (* pids of the live child processes *)
  nextPid : Z;
  nextId : nat;
  trace : list Obs
}.

Definition initial : State :=
  {| now := 0; currentInstance := None; waits := []; spawning := [];
     children := []; nextPid := 1; nextId := 0; trace := [] |}.

Definition setNow (t : Z) (st : State) : State :=
  {| now := t; currentInstance := currentInstance st; waits := waits st;
     spawning := spawning st; children := children st;
     nextPid := nextPid st; nextId := nextId st; trace := trace st |}.

Definition setCurrent (c : option EmulatorInstance.t) (st : State) : State :=
  {| now := now st; currentInstance := c; waits := waits st;
     spawning := spawning st; children := children st;
     nextPid := nextPid st; nextId := nextId st; trace := trace st |}.

Definition setWaits (ws : list StopWait) (st : State) : State :=
  {| now := now st; currentInstance := currentInstance st; waits := ws;
     spawning := spawning st; children := children st;
     nextPid := nextPid st; nextId := nextId st; trace := trace st |}.

Definition setSpawning (sp : list EmulatorInstance.t) (st : State) : State :=
  {| now := now st; currentInstance := currentInstance st;
     waits := waits st; spawning := sp; children := children st;
     nextPid := nextPid st; nextId := nextId st; trace := trace st |}.

Definition setChildren (cs : list Z) (st : State) : State :=
  {| now := now st; currentInstance := currentInstance st;
     waits := waits st; spawning := spawning st; children := cs;
     nextPid := nextPid st; nextId := nextId st; trace := trace st |}.

Definition log (o : Obs) (st : State) : State :=
  {| now := now st; currentInstance := currentInstance st;
     waits := waits st; spawning := spawning st; children := children st;
     nextPid := nextPid st; nextId := nextId st;
     trace := (trace st ++ [o])%list |}.

Definition freshPid (st : State) : State :=
  {| now := now st; currentInstance := currentInstance st;
     waits := waits st; spawning := spawning st; children := children st;
     nextPid := nextPid st + 1; nextId := nextId st; trace := trace st |}.

Definition freshId (st : State) : State :=
  {| now := now st; currentInstance := currentInstance st;
     waits := waits st; spawning := spawning st; children := children st;
     nextPid := nextPid st; nextId := S (nextId st); trace := trace st |}.

Definition storedPid (st : State) : option Z :=
  option_map EmulatorInstance.pid (currentInstance st).

(** [args] of [startEmulator] *)
Definition buildArgs (w : World) (req : StartRequest.t) : list string :=
  let emulatorArgs := StartRequest.emulatorArgs req in
  let userArgs :=
    if String.eqb (trim emulatorArgs) "" then []
    else split " " emulatorArgs in
  let bdsFile := StartRequest.bdsFile req in
  ([StartRequest.modelArg req] ++ userArgs ++ StartRequest.breakpointArgs req
     ++ (if negb (String.eqb bdsFile "") && existsSync w bdsFile
         then ["-ls"; bdsFile] else [])
     ++ [StartRequest.cmdFile req])%list.

(** The part of [startEmulator] after [await this.stopEmulator()]: the
    child is spawned; without a pid the promise is rejected at once. *)
Definition spawnChild (w : World) (req : StartRequest.t) (st : State)
  : State :=
  if spawnFails w req then log StartRejected st
  else
    let p := nextPid st in
    let instance :=
      {| EmulatorInstance.pid := p;
         EmulatorInstance.startTime := now st;
         EmulatorInstance.sourceFile := StartRequest.sourceFile req;
         EmulatorInstance.isDebugMode := StartRequest.isDebugMode req |} in
    log (Spawned p (StartRequest.emulatorPath req) (buildArgs w req))
      (freshPid
         (setSpawning (spawning st ++ [instance])%list
            (setChildren (children st ++ [p])%list st))).

Definition runContinuation (w : World) (k : option StartRequest.t)
    (st : State) : State :=
  match k with
  | Some req => spawnChild w req st
  | None => st
  end.

Definition timeoutMs : Z := 2000.

(** [stopEmulator] when an instance is stored; [k] is what awaits it. *)
Definition stopStored (w : World) (inst : EmulatorInstance.t)
    (k : option StartRequest.t) (st : State) : State :=
  let p := EmulatorInstance.pid inst in
  let st1 := log (Killed p SIGTERM) st in
  if killThrows w p SIGTERM then
    (* catch: cleanup() *)
    let st2 := setCurrent None st1 in
    let st3 := freshId (log (StopResolved (nextId st2) (now st2) (storedPid st2)) st2) in
    runContinuation w k st3
  else
    let wait := {| id := nextId st1; target := p;
                   deadline := now st1 + timeoutMs;
                   timerArmed := true; settled := false;
                   continuation := k |} in
    freshId (setWaits (waits st1 ++ [wait])%list st1).

Definition stopEmulator (w : World) (k : option StartRequest.t)
    (st : State) : State :=
  match currentInstance st with
  | None => runContinuation w k st          (* return; *)
  | Some inst => stopStored w inst k st
  end.

Definition startEmulator (w : World) (req : StartRequest.t) (st : State)
  : State :=
  stopEmulator w (Some req) st.

Definition markFired (i : nat) (x : StopWait) : StopWait :=
  if Nat.eqb (id x) i
  then {| id := id x; target := target x; deadline := deadline x;
          timerArmed := false; settled := true;
          continuation := continuation x |}
  else x.

(** The timer callback of one wait: SIGKILL (a throw is swallowed), then
    [cleanup()]. *)
Definition fireTimer (w : World) (x : StopWait) (st : State) : State :=
  let st1 := setNow (deadline x) st in
  let st2 := log (Killed (target x) SIGKILL) st1 in
  let st3 := setCurrent None st2 in
  let st4 := log (StopResolved (id x) (now st3) (storedPid st3)) st3 in
  let st5 := setWaits (map (markFired (id x)) (waits st4)) st4 in
  runContinuation w (continuation x) st5.

Fixpoint fireDue (w : World) (t : Z) (todo : list StopWait) (st : State)
  : State :=
  match todo with
  | [] => st
  | x :: rest =>
      if timerArmed x && (deadline x <=? t)
      then fireDue w t rest (fireTimer w x st)
      else fireDue w t rest st
  end.

(** Time passes until [t]: the timers due by then fire, oldest first. *)
Definition advance (w : World) (t : Z) (st : State) : State :=
  let st1 := fireDue w t (waits st) st in
  setNow (Z.max t (now st1)) st1.

(** The ['exit'] listeners that [stopEmulator] calls attached to child
    [p], run in order: clearTimeout; cleanup().  The listener of a promise
    that the timer already settled still runs [cleanup]. *)
Fixpoint exitListeners (p : Z) (ws : list StopWait) (st : State)
  : State * list (option StartRequest.t) :=
  match ws with
  | [] => (st, [])
  | x :: rest =>
      if target x =? p then
        let st1 := setCurrent None st in
        if settled x then exitListeners p rest st1
        else
          let st2 := log (StopResolved (id x) (now st1) (storedPid st1)) st1 in
          let '(st3, ks) := exitListeners p rest st2 in
          (st3, continuation x :: ks)
      else exitListeners p rest st
  end.

Definition hasPid (p : Z) (i : EmulatorInstance.t) : bool :=
  EmulatorInstance.pid i =? p.

Definition isChild (p : Z) (st : State) : bool :=
  existsb (Z.eqb p) (children st).

(** ['exit'] of child [p]: first the listener [startEmulator] attached,
    then those of [stopEmulator]; the awaiting continuations run
    afterwards. *)
Definition onExit (w : World) (p : Z) (st : State) : State :=
  if isChild p st && negb (existsb (hasPid p) (spawning st)) then
    let st1 := setChildren (filter (fun q => negb (q =? p)) (children st)) st in
    let st2 := match currentInstance st1 with
               | Some cur => if EmulatorInstance.pid cur =? p
                             then setCurrent None st1 else st1
               | None => st1
               end in
    let '(st3, ks) := exitListeners p (waits st2) st2 in
    let st4 := setWaits (filter (fun x => negb (target x =? p)) (waits st3)) st3 in
    fold_left (fun s k => runContinuation w k s) ks st4
  else st.

(** ['spawn'] of child [p] *)
Definition onSpawn (p : Z) (st : State) : State :=
  match find (hasPid p) (spawning st) with
  | Some instance =>
      log (StartResolved p)
        (setCurrent (Some instance)
           (setSpawning (filter (fun i => negb (hasPid p i)) (spawning st)) st))
  | None => st
  end.

Inductive Event : Type :=
| CallStart (req : StartRequest.t)        (* startEmulator(...) is called *)
| CallStop                                (* stopEmulator() is called *)
| SpawnEvent (pid : Z)                    (* child emits 'spawn' *)
| ExitEvent (pid : Z).                    (* child emits 'exit' *)

Definition handle (w : World) (e : Event) (st : State) : State :=
  match e with
  | CallStart req => startEmulator w req st
  | CallStop => stopEmulator w None st
  | SpawnEvent p => onSpawn p st
  | ExitEvent p => onExit w p st
  end.

(** An event delivered at time [t]. *)
Definition step (w : World) (st : State) (te : Z * Event) : State :=
  handle w (snd te) (advance w (fst te) st).

Definition run (w : World) (st : State) (tes : list (Z * Event)) : State :=
  fold_left (step w) tes st.

Definition getCurrentInstance (st : State) : option EmulatorInstance.t :=
  currentInstance st.

Definition isRunning (st : State) : bool :=
  match currentInstance st with
  | Some _ => true
  | None => false
  end.

Definition getEmulatorModelArgs (target : string) : list string :=
  if String.eqb target "model1" then ["-m1"]
  else if String.eqb target "model3" then ["-m3"]
  else if String.eqb target "model4" then ["-m4"]
  else ["-m3"].

(** The loop of [formatBreakpointArgs] from index [i]. *)
Fixpoint formatLoop (count : nat) (addresses : list Z) : list string :=
  match count, addresses with
  | S count', a :: rest =>
      "-b" :: toUpperCase (toString a 16) :: formatLoop count' rest
  | _, _ => []
  end.

Definition formatBreakpointArgs (addresses : list Z) : list string :=
  let maxBreakpoints := Nat.min (List.length addresses) 4 in
  formatLoop maxBreakpoints addresses.

End EmulatorManager.

(* ================================================================== *)
(** * ConfigurationManager                                             *)
(* ================================================================== *)

(** Settings and the parsed project file are untyped JavaScript values. *)
#[local] Set Warnings "-register-all".
Inductive jsval : Type :=
| JUndefined
| JNull
| JBool (b : bool)
| JNum (n : Z)
| JStr (s : string)
| JArr (items : list jsval)
| JObj (props : list (string * jsval)).

Module JSValue.

(** ToBoolean *)
Definition truthy (v : jsval) : bool :=
  match v with
  | JUndefined | JNull => false
  | JBool b => b
  | JNum n => negb (n =? 0)
  | JStr s => negb (String.eqb s "")
  | JArr _ | JObj _ => true
  end.

(** [a || b] *)
Definition or (a b : jsval) : jsval := if truthy a then a else b.

Definition nullish (v : jsval) : bool :=
  match v with
  | JUndefined | JNull => true
  | _ => false
  end.

(** [a ?? b] *)
Definition coalesce (a b : jsval) : jsval := if nullish a then b else a.

Definition isUndefined (v : jsval) : bool :=
  match v with JUndefined => true | _ => false end.

(** [typeof v === 'string'] *)
Definition isString (v : jsval) : bool :=
  match v with JStr _ => true | _ => false end.

(** [typeof v === 'boolean'] *)
Definition isBoolean (v : jsval) : bool :=
  match v with JBool _ => true | _ => false end.

Definition isArray (v : jsval) : bool :=
  match v with JArr _ => true | _ => false end.

Fixpoint lookup (key : string) (props : list (string * jsval)) : jsval :=
  match props with
  | [] => JUndefined
  | (k, v) :: rest => if String.eqb k key then v else lookup key rest
  end.

(** [v.key] for one of the configuration keys: [None] is the TypeError
    of a property read on [null] or [undefined]. *)
Definition getProp (v : jsval) (key : string) : option jsval :=
  match v with
  | JUndefined | JNull => None
  | JObj props => Some (lookup key props)
  | _ => Some JUndefined
  end.

(** [!v || v.trim() === ''] ; [None] is the TypeError of calling [trim]
    on a truthy value that is not a string. *)
Definition blank (v : jsval) : option bool :=
  if negb (truthy v) then Some true
  else match v with
       | JStr s => Some (String.eqb (JS.trim s) "")
       | _ => None
       end.

(** [['model1', 'model3', 'model4'].includes(v)] *)
Definition isModel (v : jsval) : bool :=
  match v with
  | JStr s => String.eqb s "model1" || String.eqb s "model3"
              || String.eqb s "model4"
  | _ => false
  end.

End JSValue.

(** The project file [.vscode/trs80gp.json] as [getConfiguration] finds it. *)
Inductive ProjectFile : Type :=
| NoProjectFile                (* no workspace folder, or no such file *)
| Unparseable                  (* readFileSync or JSON.parse throws *)
| Parsed (v : jsval).          (* what JSON.parse hands back *)

Module TRS80Config.
Record t : Type := {
  emulatorPath : jsval;
  zmacPath : jsval;
  outputDir : jsval;
  emulatorArgs : jsval;
  target : jsval;
  autoAssemble : jsval;
  projectConfig : jsval
}.
End TRS80Config.

(** ** src/unnamed/part_004: [emulatorArgs] is an array of strings *)
Module ConfigurationManagerPart004.
Import JSValue TRS80Config.

Definition DEFAULT_emulatorPath : jsval :=
  JStr "/Applications/trs80gp.app/Contents/MacOS/trs80gp".
Definition DEFAULT_zmacPath : jsval := JStr "zmac".
Definition DEFAULT_outputDir : jsval := JStr ".zout".
Definition DEFAULT_emulatorArgs : jsval := JArr [JStr "-m3"].
Definition DEFAULT_target : jsval := JStr "model3".
Definition DEFAULT_autoAssemble : jsval := JBool true.

Definition nonEmptyArray (v : jsval) : bool :=
  match v with
  | JArr (_ :: _) => true
  | _ => false
  end.

Definition ensureMinimalConfiguration (config : TRS80Config.t)
  : option TRS80Config.t :=
  match blank (emulatorPath config) with
  | None => None
  | Some b1 =>
    match blank (zmacPath config) with
    | None => None
    | Some b2 =>
      match blank (outputDir config) with
      | None => None
      | Some b3 =>
          Some {|
            emulatorPath :=
              if b1 then DEFAULT_emulatorPath else emulatorPath config;
            zmacPath := if b2 then DEFAULT_zmacPath else zmacPath config;
            outputDir := if b3 then DEFAULT_outputDir else outputDir config;
            emulatorArgs :=
              if nonEmptyArray (emulatorArgs config)
              then emulatorArgs config else DEFAULT_emulatorArgs;
            target :=
              if negb (truthy (target config))
                 || negb (isModel (target config))
              then DEFAULT_target else target config;
            autoAssemble :=
              if nullish (autoAssemble config)
              then DEFAULT_autoAssemble else autoAssemble config;
            projectConfig := projectConfig config |}
      end
    end
  end.

(** The body of the [try] block once the file is parsed; [None] is an
    exception, caught by the [catch] that follows.  The assignment of
    [globalConfig.projectConfig] precedes the first property read. *)
Definition applyProject (projectCfg : jsval) (g : TRS80Config.t)
  : TRS80Config.t :=
  let g0 := {| emulatorPath := emulatorPath g; zmacPath := zmacPath g;
               outputDir := outputDir g; emulatorArgs := emulatorArgs g;
               target := target g; autoAssemble := autoAssemble g;
               projectConfig := projectCfg |} in
  match getProp projectCfg "outputDir",
        getProp projectCfg "emulatorArgs",
        getProp projectCfg "target" with
  | Some od, Some ea, Some tg =>
      {| emulatorPath := emulatorPath g0; zmacPath := zmacPath g0;
         outputDir := if isUndefined od then outputDir g0 else od;
         emulatorArgs :=
           if negb (isUndefined ea) && isArray ea then ea
           else emulatorArgs g0;
         target := if isUndefined tg then target g0 else tg;
         autoAssemble := autoAssemble g0;
         projectConfig := projectCfg |}
  | _, _, _ => g0                                  (* catch *)
  end.

Definition getConfiguration (get : string -> jsval) (project : ProjectFile)
  : option TRS80Config.t :=
  let globalConfig :=
    {| emulatorPath := or (get "emulatorPath") DEFAULT_emulatorPath;
       zmacPath := or (get "zmacPath") DEFAULT_zmacPath;
       outputDir := or (get "defaultOutputDir") DEFAULT_outputDir;
       emulatorArgs := or (get "defaultEmulatorArgs") DEFAULT_emulatorArgs;
       target := or (get "defaultTarget") DEFAULT_target;
       autoAssemble := coalesce (get "autoAssemble") DEFAULT_autoAssemble;
       projectConfig := JUndefined |} in
  let g1 :=
    match project with
    | NoProjectFile | Unparseable => globalConfig
    | Parsed projectCfg => applyProject projectCfg globalConfig
    end in
  let g2 :=
    if nonEmptyArray (emulatorArgs g1) then g1
    else {| emulatorPath := emulatorPath g1; zmacPath := zmacPath g1;
            outputDir := outputDir g1; emulatorArgs := JArr [JStr "-m3"];
            target := target g1; autoAssemble := autoAssemble g1;
            projectConfig := projectConfig g1 |} in
  ensureMinimalConfiguration g2.

Definition getModelFlag (target : string) : string :=
  if String.eqb target "model1" then "-m1"
  else if String.eqb target "model3" then "-m3"
  else if String.eqb target "model4" then "-m4"
  else "-m3".

End ConfigurationManagerPart004.

(** ** src/configuration/ConfigurationManager.ts: [emulatorArgs] is one
       string *)
Module ConfigurationManager.
Import JSValue TRS80Config.

Definition DEFAULT_emulatorPath : jsval :=
  JStr "/Applications/trs80gp.app/Contents/MacOS/trs80gp".
Definition DEFAULT_zmacPath : jsval := JStr "zmac".
Definition DEFAULT_outputDir : jsval := JStr ".zout".
Definition DEFAULT_emulatorArgs : jsval := JStr "".
Definition DEFAULT_target : jsval := JStr "model3".
Definition DEFAULT_autoAssemble : jsval := JBool true.

Definition ensureMinimalConfiguration (config : TRS80Config.t)
  : option TRS80Config.t :=
  match blank (emulatorPath config) with
  | None => None
  | Some b1 =>
    match blank (zmacPath config) with
    | None => None
    | Some b2 =>
      match blank (outputDir config) with
      | None => None
      | Some b3 =>
          Some {|
            emulatorPath :=
              if b1 then DEFAULT_emulatorPath else emulatorPath config;
            zmacPath := if b2 then DEFAULT_zmacPath else zmacPath config;
            outputDir := if b3 then DEFAULT_outputDir else outputDir config;
            emulatorArgs :=
              if isString (emulatorArgs config)
              then emulatorArgs config else DEFAULT_emulatorArgs;
            target :=
              if negb (truthy (target config))
                 || negb (isModel (target config))
              then DEFAULT_target else target config;
            autoAssemble :=
              if nullish (autoAssemble config)
              then DEFAULT_autoAssemble else autoAssemble config;
            projectConfig := projectConfig config |}
      end
    end
  end.

(** [projectConfig && projectConfig.key] is only read for a truthy
    value, so no property read throws here. *)
Definition projectProp (projectCfg : jsval) (key : string) : jsval :=
  if truthy projectCfg
  then match getProp projectCfg key with
       | Some v => v
       | None => JUndefined
       end
  else JUndefined.

Definition getConfiguration (get : string -> jsval) (project : ProjectFile)
  : option TRS80Config.t :=
  let projectCfg :=
    match project with
    | Parsed v => v
    | NoProjectFile | Unparseable => JObj []
    end in
  (* project file over the extension defaults *)
  let outputDir0 :=
    if isUndefined (projectProp projectCfg "outputDir")
    then DEFAULT_outputDir else projectProp projectCfg "outputDir" in
  let emulatorArgs0 :=
    if isString (projectProp projectCfg "emulatorArgs")
    then projectProp projectCfg "emulatorArgs" else DEFAULT_emulatorArgs in
  let target0 :=
    if isUndefined (projectProp projectCfg "target")
    then DEFAULT_target else projectProp projectCfg "target" in
  (* settings.json over both *)
  let fromSetting (key : string) (current : jsval) : jsval :=
    if isString (get key) && truthy (get key) then get key else current in
  let emulatorArgs1 :=
    if isString (get "emulatorArgs") then get "emulatorArgs"
    else emulatorArgs0 in
  let emulatorArgs2 :=
    if isString emulatorArgs1 then emulatorArgs1 else JStr "-m3" in
  (* the final logging statement evaluates Object.keys(projectConfig),
     which throws a TypeError for null *)
  if nullish projectCfg then None else
  ensureMinimalConfiguration
    {| emulatorPath := fromSetting "emulatorPath" DEFAULT_emulatorPath;
       zmacPath := fromSetting "zmacPath" DEFAULT_zmacPath;
       outputDir := fromSetting "defaultOutputDir" outputDir0;
       emulatorArgs := emulatorArgs2;
       target := fromSetting "defaultTarget" target0;
       autoAssemble :=
         if isBoolean (get "autoAssemble") then get "autoAssemble"
         else DEFAULT_autoAssemble;
       projectConfig := projectCfg |}.

End ConfigurationManager.

(* ================================================================== *)
(** * Diagnostics: BreakpointManager.updateDiagnostics                  *)
(* ================================================================== *)

Module Diagnostic.

(** [vscode.DiagnosticSeverity] *)
Inductive DiagnosticSeverity : Type := Error | Warning.

(** a column; [Number.MAX_VALUE] is kept symbolic *)
Inductive Column : Type :=
| Col (n : Z)
| MAX_VALUE.

(** [new vscode.Range(startLine, startCharacter, endLine, endCharacter)] *)
Record Range : Type := {
  startLine : JS.number;
  startCharacter : Column;
  endLine : JS.number;
  endCharacter : Column
}.

Record t : Type := {
  range : Range;
  message : string;
  severity : DiagnosticSeverity;
  source : string
}.

End Diagnostic.

Module DiagnosticMap.

(** Diagnostics by key, keys in insertion order: the [Map] that groups
    them by file, and the [vscode.DiagnosticCollection] by URI. *)
Definition t : Type := list (string * list Diagnostic.t).

(** [if (!m.has(key)) m.set(key, []); m.get(key).push(d)] *)
Fixpoint push (key : string) (d : Diagnostic.t) (m : t) : t :=
  match m with
  | [] => [(key, [d])]
  | (k, ds) :: rest =>
      if String.eqb k key then (k, (ds ++ [d])%list) :: rest
      else (k, ds) :: push key d rest
  end.

(** [m.set(key, ds)]: the entry of [key] is replaced *)
Fixpoint set (key : string) (ds : list Diagnostic.t) (m : t) : t :=
  match m with
  | [] => [(key, ds)]
  | (k, old) :: rest =>
      if String.eqb k key then (k, ds) :: rest
      else (k, old) :: set key ds rest
  end.

(** [m.get(key)]; [None] is [undefined] *)
Fixpoint get (key : string) (m : t) : option (list Diagnostic.t) :=
  match m with
  | [] => None
  | (k, ds) :: rest => if String.eqb k key then Some ds else get key rest
  end.

End DiagnosticMap.

Module BreakpointManagerDiagnostics.

(** the diagnostic built in the first loop of [updateDiagnostics] *)
Definition toDiagnostic (e : AssemblyError.t) : Diagnostic.t :=
  let line := JS.maxZero (JS.minusOne (AssemblyError.line e)) in
  {| Diagnostic.range :=
       {| Diagnostic.startLine := line;
          Diagnostic.startCharacter := Diagnostic.Col 0;
          Diagnostic.endLine := line;
          Diagnostic.endCharacter := Diagnostic.MAX_VALUE |};
     Diagnostic.message := AssemblyError.message e;
     Diagnostic.severity :=
       match AssemblyError.severity e with
       | error => Diagnostic.Error
       | warning => Diagnostic.Warning
       end;
     Diagnostic.source := "zmac" |}.

(** the first loop: [errorsByFile] *)
Definition groupByFile (errors : list AssemblyError.t) : DiagnosticMap.t :=
  fold_left
    (fun m e => DiagnosticMap.push (AssemblyError.file e) (toDiagnostic e) m)
    errors [].

(** the second loop, from the collection [c]; [uriFile f] is
    [vscode.Uri.file(f)], [None] when it throws *)
Definition publish (uriFile : string -> option string)
    (groups : DiagnosticMap.t) (c : DiagnosticMap.t) : DiagnosticMap.t :=
  fold_left
    (fun acc entry =>
       match uriFile (fst entry) with
       | Some uri => DiagnosticMap.set uri (snd entry) acc
       | None => acc                                  (* catch *)
       end)
    groups c.

(** [updateDiagnostics(diagnostics, errors)]: the collection afterwards *)
Definition updateDiagnostics (uriFile : string -> option string)
    (diagnostics : DiagnosticMap.t) (errors : list AssemblyError.t)
  : DiagnosticMap.t :=
  let cleared : DiagnosticMap.t := [] in           (* diagnostics.clear() *)
  publish uriFile (groupByFile errors) cleared.

End BreakpointManagerDiagnostics.

(* ================================================================== *)
(** * ConfigurationManager.validateConfiguration                       *)
(* ================================================================== *)

Module ConfigurationValidation.
Import JSValue.

(** the text a template literal gives for a value *)
Fixpoint toStr (v : jsval) : string :=
  match v with
  | JUndefined => "undefined"
  | JNull => "null"
  | JBool true => "true"
  | JBool false => "false"
  | JNum n => JS.toString n 10
  | JStr s => s
  | JArr items =>
      (fix joined (l : list jsval) : string :=
         match l with
         | [] => ""
         | x :: rest =>
             let here := if nullish x then "" else toStr x in
             match rest with
             | [] => here
             | _ :: _ => here ++ "," ++ joined rest
             end
         end) items
  | JObj _ => "[object Object]"
  end.

(** [validateConfiguration(config)], which reads [config.emulatorPath]
    only; the same text in both versions of the class.  [fs.existsSync]
    answers [false] for an argument that is not a path. *)
Definition validateConfiguration (existsSync : string -> bool)
    (emulatorPath : jsval) : list string :=
  if negb (truthy emulatorPath) then
    ["trs80gp emulator path is not configured. Please set trs80gp.emulatorPath in settings."]
  else if match emulatorPath with
          | JStr p => existsSync p
          | _ => false
          end
  then []
  else ["trs80gp emulator not found at: " ++ toStr emulatorPath].

End ConfigurationValidation.

(* ================================================================== *)
(** * TRS80Commands (src/unnamed/part_000)                             *)
(* ================================================================== *)

Module TRS80Commands.
Import JS.

(** [TRS80Config] as the interface declares it, with the fields the
    commands read. *)
Record Config : Type := {
  emulatorPath : string;
  zmacPath : string;
  outputDir : string;
  emulatorArgs : list string;
  zmacArgs : list string;             (* config.projectConfig?.zmacArgs || [] *)
  defaultSourceFile : option string   (* config.projectConfig?.defaultSourceFile *)
}.

(** The editor, as [getSourceFile] consults it. *)
Record Editor : Type := {
  (* vscode.window.activeTextEditor?.document.fileName *)
  activeFileName : option string;
  (* path.extname *)
  extname : string -> string;
  (* the fsPath of the files vscode.workspace.findFiles hands back *)
  findFiles : list string;
  (* the filePath of the item chosen in showQuickPick, if any *)
  showQuickPick : list string -> option string
}.

(** What the commands do, oldest first.  Lines written to the output
    channel and the messages of the assembler itself are not recorded. *)
Inductive Action : Type :=
| ShowError (text : string)          (* vscode.window.showErrorMessage *)
| Did (e : Effect)                   (* of the assembler *)
| StartEmulator (emulatorPath bds cmd sourceFile : string)
    (emulatorArgs breakpointArgs : list string) (isDebugMode : bool).
    (* this.emulatorManager.startEmulator(...) is called *)

Definition isAssemblyFile (ed : Editor) (fileName : string) : bool :=
  let ext := toLowerCase (extname ed fileName) in
  existsb (String.eqb ext) [".z"; ".a80"; ".asm"; ".s"].

Definition getSourceFile (h : Host.t) (ed : Editor) (config : Config)
  : list Action * option string :=
  match Host.workspaceFolder h with
  | None => ([ShowError "No workspace folder open"], None)
  | Some workspace =>
      let fromEditor :=
        match activeFileName ed with
        | Some fileName =>
            if isAssemblyFile ed fileName then Some fileName else None
        | None => None
        end in
      match fromEditor with
      | Some fileName => ([], Some fileName)
      | None =>
          let fromDefault :=
            match defaultSourceFile config with
            | Some d =>
                if String.eqb d "" then None
                else
                  let defaultFile := Host.join h [workspace; d] in
                  if Host.existsSync h defaultFile then Some defaultFile
                  else None
            | None => None
            end in
          match fromDefault with
          | Some defaultFile => ([], Some defaultFile)
          | None =>
              match findFiles ed with
              | [] =>
                  ([ShowError "No Z-80 assembly file found. Please open a .z, .a80, or .asm file or configure defaultSourceFile."],
                   None)
              | [file] => ([], Some file)
              | files =>
                  ([], match showQuickPick ed files with
                       | Some filePath =>
                           if String.eqb filePath "" then None
                           else Some filePath        (* filePath || null *)
                       | None => None
                       end)
              end
          end
      end
  end.

(** a value read as a condition: [undefined], [null] and the empty string
    are falsy *)
Definition present (v : option string) : option string :=
  match v with
  | Some s => if String.eqb s "" then None else Some s
  | None => None
  end.

(** The rest of [performAssembly], once the source file and the
    configuration are settled (from [const workspaceFolder = ...] on):
    what it does and the promise of [AssemblyResult | null].  [run] is
    what the assembler process does. *)
Definition assembleSource (h : Host.t) (run : ChildProcess.Run)
    (sourceFile : string) (config : Config)
  : list Action * Outcome (option AssemblyResult.t) :=
  match Host.workspaceFolder h with
  | None => ([], Rejected "Error: No workspace folder open")
  | Some workspace =>
      let sourceBaseName := Host.basenameNoExt h sourceFile in
      let outputDirFull := Host.join h [workspace; outputDir config] in
      let outputBds := Host.join h [outputDirFull; sourceBaseName ++ ".bds"] in
      if negb (ZmacAssembler.needsAssembly h sourceFile outputBds)
      then
        ([], Resolved (Some
           {| AssemblyResult.success := true;
              AssemblyResult.stdout := "";
              AssemblyResult.stderr := "";
              AssemblyResult.outputFiles :=
                ZmacAssembler.getOutputFiles (Host.existsSync h) h
                  outputDirFull sourceBaseName;
              AssemblyResult.errors := [] |}))
      else
        match ZmacAssembler.assemble h run sourceFile (outputDir config)
                (zmacPath config) (zmacArgs config) with
        | (effects, Resolved result) =>
            if negb (AssemblyResult.success result)
            then (map Did effects, Resolved None)
            else (map Did effects, Resolved (Some result))
        | (effects, Rejected reason) => (map Did effects, Rejected reason)
        | (effects, Pending) => (map Did effects, Pending)
        end
  end.

(** [performAssembly(sourceFile?, config?)].  [getConfiguration] is what
    [ConfigurationManager.getConfiguration()] hands back, or the rendering
    of the exception it throws; it is only called when no [config] is
    passed. *)
Definition performAssembly (h : Host.t) (ed : Editor)
    (run : ChildProcess.Run) (getConfiguration : Config + string)
    (sourceFile : option string) (config : option Config)
  : list Action * Outcome (option AssemblyResult.t) :=
  match match config with
        | Some given => inl given
        | None => getConfiguration
        end with
  | inr rendering => ([], Rejected rendering)
  | inl config =>
      let '(asked, resolved) :=
        match present sourceFile with
        | Some given => ([], Some given)
        | None => getSourceFile h ed config           (* if (!sourceFile) *)
        end in
      match present resolved with
      | None => (asked, Resolved None)
      | Some sourceFile =>
          let '(did, promise) := assembleSource h run sourceFile config in
          ((asked ++ did)%list, promise)
      end
  end.

(** [prepareEmulatorArgs]: the [breakpointArgs] component; the
    [emulatorArgs] component is a copy of [config.emulatorArgs]. *)
Definition prepareBreakpointArgs (h : Host.t)
    (assemblyResult : AssemblyResult.t) (isDebugMode : bool)
  : list string :=
  match OutputFiles.bds (AssemblyResult.outputFiles assemblyResult) with
  | Some bds =>
      if isDebugMode && negb (String.eqb bds "") then
        let breakpoints := BreakpointManager.getBreakpointAddresses h bds in
        match breakpoints with
        | _ :: _ =>
            BreakpointManager.formatBreakpointsForEmulator breakpoints
        | [] =>
            match BreakpointManager.getEntryPoint h bds with
            | Some entryPoint =>
                ["-b"; toUpperCase (toString entryPoint 16)]
            | None => []
            end
        end
      else []
  | None => []
  end.

Definition prepareEmulatorArgs (h : Host.t) (configEmulatorArgs : list string)
    (assemblyResult : AssemblyResult.t) (isDebugMode : bool)
  : list string * list string :=
  (configEmulatorArgs, prepareBreakpointArgs h assemblyResult isDebugMode).

(** [formatUptime(ms)] for an integer number of milliseconds *)
Definition formatUptime (ms : Z) : string :=
  let seconds := ms / 1000 in                  (* Math.floor *)
  let minutes := seconds / 60 in
  let hours := minutes / 60 in
  if 0 <? hours then
    toString hours 10 ++ "h " ++ toString (Z.rem minutes 60) 10 ++ "m "
      ++ toString (Z.rem seconds 60) 10 ++ "s"
  else if 0 <? minutes then
    toString minutes 10 ++ "m " ++ toString (Z.rem seconds 60) 10 ++ "s"
  else toString seconds 10 ++ "s".

(** [startEmulator(config, assemblyResult, ...)] of the commands: the
    call it makes and its promise.  [emulatorStart] is what the promise of
    the manager's [startEmulator] does. *)
Definition startEmulator (config : Config) (assemblyResult : AssemblyResult.t)
    (sourceFile : string) (emulatorArgs breakpointArgs : list string)
    (isDebugMode : bool) (emulatorStart : Outcome unit)
  : list Action * Outcome unit :=
  let files := AssemblyResult.outputFiles assemblyResult in
  match present (OutputFiles.bds files) with
  | None => ([], Rejected "Error: No BDS file generated")
  | Some bds =>
      match present (OutputFiles.cmd files) with
      | None => ([], Rejected "Error: No CMD file generated")
      | Some cmd =>
          ([StartEmulator (emulatorPath config) bds cmd sourceFile
              emulatorArgs breakpointArgs isDebugMode],
           emulatorStart)
      end
  end.

Fixpoint joinLines (lines : list string) : string :=
  match lines with
  | [] => ""
  | [l] => l
  | l :: rest => l ++ String lf (joinLines rest)
  end.

(** the message of the [catch] of [executeWithMode]: the exception is
    interpolated in a template literal *)
Definition failed (rendering : string) : Action :=
  ShowError ("TRS-80 execution failed: " ++ rendering).

(** [executeWithMode(isDebugMode)].
    - [getConfiguration] is what [ConfigurationManager.getConfiguration()]
      hands back, or the rendering of the exception it throws;
    - [h] is the host when the command starts, [after] the host once the
      assembler has run;
    - [run] is what the assembler process does;
    - [emulatorStart] is what the promise of the manager's [startEmulator]
      does. *)
Definition executeWithMode (h after : Host.t) (ed : Editor)
    (run : ChildProcess.Run) (getConfiguration : Config + string)
    (emulatorStart : Outcome unit) (isDebugMode : bool) : list Action :=
  match getConfiguration with
  | inr rendering => [failed rendering]
  | inl config =>
      match ConfigurationValidation.validateConfiguration
              (Host.existsSync h) (JStr (emulatorPath config)) with
      | (_ :: _) as configErrors =>
          [ShowError ("Configuration errors:" ++ String lf (joinLines configErrors))]
      | [] =>
          let '(asked, chosen) := getSourceFile h ed config in
          match present chosen with
          | None => asked
          | Some sourceFile =>
              let '(assembled, promise) :=
                performAssembly h ed run getConfiguration (Some sourceFile)
                  (Some config) in
              let done := (asked ++ assembled)%list in
              match promise with
              | Pending => done
              | Rejected reason => (done ++ [failed reason])%list
              | Resolved None => done
              | Resolved (Some assemblyResult) =>
                  if negb (AssemblyResult.success assemblyResult) then done
                  else
                    let hNow := match assembled with
                                | [] => h
                                | _ :: _ => after
                                end in
                    let '(emulatorArgs, breakpointArgs) :=
                      prepareEmulatorArgs hNow (emulatorArgs config)
                        assemblyResult isDebugMode in
                    let '(calls, started) :=
                      startEmulator config assemblyResult sourceFile
                        emulatorArgs breakpointArgs isDebugMode
                        emulatorStart in
                    match started with
                    | Rejected reason =>
                        (done ++ calls ++ [failed reason])%list
                    | _ => (done ++ calls)%list
                    end
              end
          end
      end
  end.

End TRS80Commands.

(* ================================================================== *)
(** * src/debugging/TRS80DebugAdapter.ts: TRS80DebugSession            *)
(* ================================================================== *)

Module TRS80DebugSession.
Import JSValue.

(** [sendResponse(request, body)]: the message fired.  [request] is not
    nullish when it is called. *)
Definition sendResponse (request body : jsval) : jsval :=
  let prop key := match getProp request key with
                  | Some v => v
                  | None => JUndefined
                  end in
  JObj [("seq", JNum 0); ("type", JStr "response");
        ("request_seq", prop "seq"); ("command", prop "command");
        ("success", JBool true); ("body", body)].

(** [sendEvent(event)] *)
Definition sendEvent (event : string) : jsval :=
  JObj [("seq", JNum 0); ("type", JStr "event"); ("event", JStr event);
        ("body", JUndefined)].

(** [breakpoints.map(bp => ({ verified: true, line: bp.line }))]; [None]
    is the TypeError of reading [line] on [null] or [undefined] *)
Fixpoint verifyAll (breakpoints : list jsval) : option (list jsval) :=
  match breakpoints with
  | [] => Some []
  | bp :: rest =>
      match getProp bp "line" with
      | None => None
      | Some line =>
          match verifyAll rest with
          | Some answers =>
              Some (JObj [("verified", JBool true); ("line", line)] :: answers)
          | None => None
          end
      end
  end.

(** [request.arguments?.breakpoints?.map(...) || []]; [None] is a
    TypeError: [map] is missing on a value that is not an array *)
Definition breakpointsBody (request : jsval) : option jsval :=
  let arguments := match getProp request "arguments" with
                   | Some v => v
                   | None => JUndefined
                   end in
  if nullish arguments then Some (JArr [])
  else
    match getProp arguments "breakpoints" with
    | None => Some (JArr [])
    | Some breakpoints =>
        if nullish breakpoints then Some (JArr [])
        else match breakpoints with
             | JArr items => option_map JArr (verifyAll items)
             | _ => None
             end
    end.

(** [request.command === name], the test of a [case] of the [switch] *)
Definition isCommand (command : jsval) (name : string) : bool :=
  match command with
  | JStr c => String.eqb c name
  | _ => false
  end.

(** [handleMessage(message)]: the messages fired, in order; [None] when
    it throws, which it does before firing any. *)
Definition handleMessage (message : jsval) : option (list jsval) :=
  let request := message in
  match getProp request "command" with
  | None => None
  | Some command =>
      if isCommand command "initialize" then
        Some [sendResponse request
                (JObj [("supportsBreakpointLocationsRequest", JBool true);
                       ("supportsSetBreakpointsRequest", JBool true)]);
              sendEvent "initialized"]
      else if isCommand command "launch" then
        Some [sendResponse request JUndefined]
      else if isCommand command "setBreakpoints" then
        match breakpointsBody request with
        | Some breakpoints =>
            Some [sendResponse request (JObj [("breakpoints", breakpoints)])]
        | None => None
        end
      else if isCommand command "configurationDone" then
        Some [sendResponse request JUndefined]
      else if isCommand command "threads" then
        Some [sendResponse request
                (JObj [("threads",
                        JArr [JObj [("id", JNum 1);
                                    ("name", JStr "Main Thread")]])])]
      else if isCommand command "disconnect" then
        Some [sendResponse request JUndefined]
      else Some [sendResponse request JUndefined]
  end.

End TRS80DebugSession.

(* ================================================================== *)
(** * Concrete hosts used by the examples                              *)
(* ================================================================== *)

Module Fixtures.
Import JS.

Definition nl : string := String lf "".
Definition ht : string := String tab "".

Fixpoint unlines (ls : list string) : string :=
  match ls with
  | [] => ""
  | [l] => l
  | l :: rest => l ++ nl ++ unlines rest
  end.

Fixpoint fileContent (files : list (string * string)) (p : string)
  : option string :=
  match files with
  | [] => None
  | (q, c) :: rest => if String.eqb q p then Some c else fileContent rest p
  end.

Fixpoint joinWith (sep : string) (parts : list string) : string :=
  match parts with
  | [] => "."
  | [x] => x
  | x :: rest => x ++ sep ++ joinWith sep rest
  end.

(** A workspace [/ws] holding [files]; every source file is [demo.a80]. *)
Definition host (files : list (string * string))
    (mtimes : list (string * Z)) (bps : list Host.Breakpoint) : Host.t :=
  {| Host.workspaceFolder := Some "/ws";
     Host.defaultOutputDir := ".zout";
     Host.breakpoints := bps;
     Host.existsSync := fun p => match fileContent files p with
                                 | Some _ => true
                                 | None => false
                                 end;
     Host.readFileSync := fileContent files;
     Host.mtimeMs := fun p =>
       (fix look (l : list (string * Z)) : option Z :=
          match l with
          | [] => None
          | (q, t) :: rest => if String.eqb q p then Some t else look rest
          end) mtimes;
     Host.mkdirSyncThrows := fun _ => false;
     Host.mkdirSyncError := fun _ => "";
     Host.join := joinWith "/";
     Host.basenameNoExt := fun _ => "demo" |}.

(** the listing line quoted in [findAddressForSourceLine] *)
Definition listingLine7 : string :=
  "   7:   17+10" ++ ht ++ "6003  210C60  " ++ ht ++ "        ld      hl, hello_msg".

(** a listing in which source line 7 assembles to two listing lines *)
Definition listingTwice : string :=
  unlines [ "   6:    7+10" ++ ht ++ "6000  3E2A    " ++ ht ++ "start:  ld a,42";
            listingLine7;
            "   7:   27+7" ++ ht ++ "6006  3600    " ++ ht ++ "        ld (hl),0";
            "   8:   34+10" ++ ht ++ "6008  C9      " ++ ht ++ "        ret" ].

Definition hostTwice : Host.t :=
  host [("/ws/.zout/demo.lst", listingTwice)] [] [].

(** five lines with addresses, and five breakpoints on them *)
Definition listingFive : string :=
  unlines [ "   1:    0+10" ++ ht ++ "6000  00      " ++ ht ++ " nop";
            "   2:   10+10" ++ ht ++ "6001  00      " ++ ht ++ " nop";
            "   3:   20+10" ++ ht ++ "6002  00      " ++ ht ++ " nop";
            "   4:   30+10" ++ ht ++ "6003  00      " ++ ht ++ " nop";
            "   5:   40+10" ++ ht ++ "6004  00      " ++ ht ++ " nop" ].

Definition hostFive : Host.t :=
  host [("/ws/.zout/demo.lst", listingFive)] []
       [Host.SourceBreakpoint "/ws/demo.a80" 0;
        Host.SourceBreakpoint "/ws/demo.a80" 1;
        Host.FunctionBreakpoint "main";
        Host.SourceBreakpoint "/ws/demo.a80" 2;
        Host.SourceBreakpoint "/ws/demo.a80" 3;
        Host.SourceBreakpoint "/ws/demo.a80" 4].

(** [demo.a80]: a label [loop:] on line 10; the listing has no entry
    for line 10; the symbol file gives [loop] the address 0x6010. *)
Definition demoSource : string :=
  unlines [ "        org 6000h";
            "start:  ld a,42";
            "        ld b,8";
            "; fill";
            "";
            "        ld hl,3C00h";
            "        ld (hl),a";
            "";
            "; count down";
            "loop:   djnz loop";
            "        ret" ].

Definition demoListing : string :=
  unlines [ "   2:    0+7" ++ ht ++ "6000  3E2A    " ++ ht ++ "start:  ld a,42";
            "   3:    7+7" ++ ht ++ "6002  0608    " ++ ht ++ "        ld b,8" ].

Definition demoBds : string := unlines [ "6000 a start"; "6010 a loop" ].

Definition hostDemo : Host.t :=
  host [("/ws/demo.a80", demoSource);
        ("/ws/.zout/demo.lst", demoListing);
        ("/ws/.zout/demo.bds", demoBds)]
       []
       [Host.SourceBreakpoint "/ws/demo.a80" 9].

(** a symbol file with an entry marker at 0x5000 *)
Definition entryBds : string :=
  unlines [ "binary-debuggable-source";
            "0000 0000 f demo.a80";
            "5000 5000 s start:  ld a,42";
            "5000 5000 d 3e2a";
            "5002 5002 s main:   ret";
            "5002 5002 d c9";
            "5000 e";
            "5000 a start";
            "5002 a main" ].

(** no breakpoints are set *)
Definition hostEntry : Host.t :=
  host [("/ws/demo.a80", demoSource); ("/ws/.zout/demo.bds", entryBds)] [] [].

(** no entry marker, and a label spelled in upper case *)
Definition upperMainBds : string :=
  unlines [ "5000 a start"; "6000 a MAIN" ].

Definition hostUpperMain : Host.t :=
  host [("/ws/.zout/demo.bds", upperMainBds)] [] [].

(** an assembled project: [demo.bds] is newer than [demo.a80] *)
Definition hostFresh : Host.t :=
  host [("/ws/demo.a80", demoSource); ("/ws/.zout", "");
        ("/ws/.zout/demo.bds", demoBds)]
       [("/ws/demo.a80", 1000); ("/ws/.zout/demo.bds", 2000)] [].

(** the source was saved after the last assembly *)
Definition hostStale : Host.t :=
  host [("/ws/demo.a80", demoSource); ("/ws/.zout", "");
        ("/ws/.zout/demo.bds", demoBds)]
       [("/ws/demo.a80", 3000); ("/ws/.zout/demo.bds", 2000)] [].

(** zmac reports one error and exits with code 1 *)
Definition runOneError : ChildProcess.Run :=
  {| ChildProcess.events :=
       [ ChildProcess.StderrData
           ("File 'demo.a80', line 7: Undefined symbol 'foo'" ++ nl);
         ChildProcess.Close (Some 1) ];
     ChildProcess.existsAtExit := fun _ => false |}.

(** zmac prints a warning and exits with code 0 *)
Definition runWarning : ChildProcess.Run :=
  {| ChildProcess.events :=
       [ ChildProcess.StdoutData "zmac";
         ChildProcess.StderrData
           ("File 'demo.a80', line 3: warning: value truncated" ++ nl);
         ChildProcess.Close (Some 0) ];
     ChildProcess.existsAtExit := Host.existsSync hostStale |}.

(** the binary is missing: Node emits 'error', then 'close' *)
Definition runNoBinary : ChildProcess.Run :=
  {| ChildProcess.events :=
       [ ChildProcess.Error "spawn zmac ENOENT";
         ChildProcess.Close (Some (-2)) ];
     ChildProcess.existsAtExit := fun _ => false |}.

(** an operating system in which signals are delivered and spawning works *)
Definition world : EmulatorManager.World :=
  {| EmulatorManager.existsSync := fun _ => true;
     EmulatorManager.killThrows := fun _ _ => false;
     EmulatorManager.spawnFails := fun _ => false |}.

Definition request (sourceFile : string) : StartRequest.t :=
  {| StartRequest.emulatorPath := "trs80gp";
     StartRequest.bdsFile := "/ws/.zout/demo.bds";
     StartRequest.cmdFile := "/ws/.zout/demo.cmd";
     StartRequest.sourceFile := sourceFile;
     StartRequest.modelArg := "-m3";
     StartRequest.emulatorArgs := "";
     StartRequest.breakpointArgs := [];
     StartRequest.isDebugMode := false |}.

(** one emulator is running *)
Definition oneRunning : list (Z * EmulatorManager.Event) :=
  [ (0, EmulatorManager.CallStart (request "a.a80"));
    (0, EmulatorManager.SpawnEvent 1) ].

(** while the first emulator is being stopped for a second start, a third
    start is issued *)
Definition overlappingStarts : list (Z * EmulatorManager.Event) :=
  [ (0, EmulatorManager.CallStart (request "a.a80"));
    (0, EmulatorManager.SpawnEvent 1);
    (1000, EmulatorManager.CallStart (request "b.a80"));
    (1100, EmulatorManager.CallStart (request "c.a80"));
    (1500, EmulatorManager.ExitEvent 1);
    (1500, EmulatorManager.SpawnEvent 2);
    (1500, EmulatorManager.SpawnEvent 3) ].

End Fixtures.

(* ================================================================== *)
(** * Concrete projects, editors and messages used by the examples     *)
(* ================================================================== *)

Module Scenarios.

(** an assembled project, with the emulator installed *)
Definition hostReady : Host.t :=
  Fixtures.host
    [("/ws/demo.a80", Fixtures.demoSource); ("/ws/.zout", "");
     ("/ws/.zout/demo.bds", Fixtures.demoBds); ("/ws/.zout/demo.cmd", "");
     ("/opt/trs80gp", "")]
    [("/ws/demo.a80", 1000); ("/ws/.zout/demo.bds", 2000)] [].

(** the same project after the source was saved again *)
Definition hostEdited : Host.t :=
  Fixtures.host
    [("/ws/demo.a80", Fixtures.demoSource); ("/ws/.zout", "");
     ("/ws/.zout/demo.bds", Fixtures.demoBds); ("/ws/.zout/demo.cmd", "");
     ("/opt/trs80gp", "")]
    [("/ws/demo.a80", 3000); ("/ws/.zout/demo.bds", 2000)] [].

(** zmac succeeds and leaves its three output files *)
Definition runClean : ChildProcess.Run :=
  {| ChildProcess.events := [ChildProcess.Close (Some 0)];
     ChildProcess.existsAtExit := Host.existsSync hostReady |}.

Definition config : TRS80Commands.Config :=
  {| TRS80Commands.emulatorPath := "/opt/trs80gp";
     TRS80Commands.zmacPath := "zmac";
     TRS80Commands.outputDir := ".zout";
     TRS80Commands.emulatorArgs := ["-m3"];
     TRS80Commands.zmacArgs := ["-L"];
     TRS80Commands.defaultSourceFile := None |}.

(** What the manager of src/unnamed/part_002 answers to the call of the
    commands: its sixth parameter, the string [emulatorArgs], receives the
    array of breakpoint flags, so [emulatorArgs.trim()] throws. *)
Definition managerRejects : Outcome unit :=
  Rejected "TypeError: emulatorArgs.trim is not a function".

(** [demo.a80] is open in the active editor *)
Definition editor : TRS80Commands.Editor :=
  {| TRS80Commands.activeFileName := Some "/ws/demo.a80";
     TRS80Commands.extname := fun _ => ".a80";
     TRS80Commands.findFiles := [];
     TRS80Commands.showQuickPick := fun _ => None |}.

(** settings that name an output directory and a target *)
Definition settings (key : string) : jsval :=
  if String.eqb key "defaultOutputDir" then JStr "build"
  else if String.eqb key "defaultTarget" then JStr "model1"
  else JUndefined.

(** a project file that names other ones *)
Definition projectProps : list (string * jsval) :=
  [("outputDir", JStr "out"); ("target", JStr "model4")].

(** the emulator runs, is asked to stop at 1000 ms and ignores SIGTERM;
    something else happens at 4000 ms *)
Definition stopTimesOut : list (Z * EmulatorManager.Event) :=
  (Fixtures.oneRunning ++
   [ (1000, EmulatorManager.CallStop); (4000, EmulatorManager.CallStop) ])%list.

(** zmac reports two problems in [demo.a80] and one in [macros.inc] *)
Definition threeErrors : list AssemblyError.t :=
  [ ZmacAssembler.mkError "/ws/demo.a80" (JS.Finite 7)
      "Undefined symbol 'foo'" error;
    ZmacAssembler.mkError "/ws/macros.inc" (JS.Finite 2)
      "value truncated" warning;
    ZmacAssembler.mkError "/ws/demo.a80" (JS.Finite 0) "Syntax error" error ].

Definition uriFile (file : string) : option string := Some ("file://" ++ file).

(** the request VS Code sends for two breakpoints of [demo.a80] *)
Definition setBreakpointsRequest : jsval :=
  JObj [("seq", JNum 7); ("type", JStr "request");
        ("command", JStr "setBreakpoints");
        ("arguments",
         JObj [("source", JObj [("path", JStr "/ws/demo.a80")]);
               ("breakpoints",
                JArr [JObj [("line", JNum 3)]; JObj [("line", JNum 10)]])])].

Definition initializeRequest : jsval :=
  JObj [("seq", JNum 1); ("type", JStr "request");
        ("command", JStr "initialize")].

(** a start request whose arguments are separated by more than one space *)
Definition spacedRequest : StartRequest.t :=
  {| StartRequest.emulatorPath := "trs80gp";
     StartRequest.bdsFile := "";
     StartRequest.cmdFile := "/ws/.zout/demo.cmd";
     StartRequest.sourceFile := "/ws/demo.a80";
     StartRequest.modelArg := "-m3";
     StartRequest.emulatorArgs := " -mem 48  -na";
     StartRequest.breakpointArgs := ["-b"; "6000"];
     StartRequest.isDebugMode := true |}.

(** zmac reports an error in two chunks that split the line *)
Definition runSplit : ChildProcess.Run :=
  {| ChildProcess.events :=
       [ ChildProcess.StderrData "File 'demo.a80', li";
         ChildProcess.StdoutData "zmac";
         ChildProcess.StderrData "ne 7: Undefined symbol";
         ChildProcess.Close (Some 1) ];
     ChildProcess.existsAtExit := fun _ => false |}.

(** the files of the demo project opened without a workspace folder *)
(** a breakpoint resolved to 0x6ABC *)
Definition breakpoint6ABC : BreakpointInfo.t :=
  {| BreakpointInfo.address := 0x6ABC;
     BreakpointInfo.file := "/ws/demo.a80";
     BreakpointInfo.line := 10;
     BreakpointInfo.label := Some "line_10" |}.

(** a run of [n] digits 9 *)
Fixpoint nines (n : nat) : string :=
  match n with
  | O => ""
  | S n' => String "9" (nines n')
  end.

(** diagnostics whose line numbers are not doubles: 2^53 + 1, 2^53 + 3
    and a number of 310 digits *)
Definition longLineNumbers : string :=
  "File 'demo.a80', line 9007199254740993: Undefined symbol 'foo'"
    ++ String JS.lf ("line 9007199254740995: Syntax error"
    ++ String JS.lf ("line " ++ nines 310 ++ ": Syntax error")).

Definition hostNoFolder : Host.t :=
  {| Host.workspaceFolder := None;
     Host.defaultOutputDir := Host.defaultOutputDir Fixtures.hostDemo;
     Host.breakpoints := Host.breakpoints Fixtures.hostDemo;
     Host.existsSync := Host.existsSync Fixtures.hostDemo;
     Host.readFileSync := Host.readFileSync Fixtures.hostDemo;
     Host.mtimeMs := Host.mtimeMs Fixtures.hostDemo;
     Host.mkdirSyncThrows := Host.mkdirSyncThrows Fixtures.hostDemo;
     Host.mkdirSyncError := Host.mkdirSyncError Fixtures.hostDemo;
     Host.join := Host.join Fixtures.hostDemo;
     Host.basenameNoExt := Host.basenameNoExt Fixtures.hostDemo |}.

End Scenarios.

(* ================================================================== *)
(** * Vocabulary of the properties                                    *)
(* ================================================================== *)

Module Hex.
Import JS.

Fixpoint allChars (p : ascii -> bool) (s : string) : bool :=
  match s with
  | EmptyString => true
  | String c s' => p c && allChars p s'
  end.

(** the characters [renderAddress] produces *)
Definition isUpperHex (c : ascii) : bool := isDigit c || inRange 65 70 c.

End Hex.

Module Listing.
Import JS BreakpointManager.

(** A listing entry, as the data model of the specification names what
    one matching listing line yields. *)
Record ListingEntry : Type := {
  sourceLine : Z;
  address : Z
}.

Definition listingEntry (line : string) : option ListingEntry :=
  match matchStart listingRe line with
  | Some [lineStr; addressHex] =>
      Some {| sourceLine := num lineStr 10; address := num addressHex 16 |}
  | _ => None
  end.

Fixpoint entriesOf (lines : list string) : list ListingEntry :=
  match lines with
  | [] => []
  | line :: rest =>
      match listingEntry line with
      | Some e => e :: entriesOf rest
      | None => entriesOf rest
      end
  end.

Definition listingEntries (content : string) : list ListingEntry :=
  entriesOf (splitLines content).

Definition forLine (L : Z) (e : ListingEntry) : bool := sourceLine e =? L.

(** The listing is consulted: a workspace is open and the listing file of
    the source file can be read as [content]. *)
Definition listingRead (h : Host.t) (sourceFile content : string) : Prop :=
  exists workspace,
    Host.workspaceFolder h = Some workspace /\
    Host.existsSync h (listingFileOf h workspace sourceFile) = true /\
    Host.readFileSync h (listingFileOf h workspace sourceFile) = Some content.

End Listing.

Module Cap.
Import BreakpointManager.

Definition resolvable (h : Host.t) (symbolMap : list SymbolInfo.t)
    (bp : Host.Breakpoint) : bool :=
  match resolveBreakpoint h symbolMap bp with
  | Some _ => true
  | None => false
  end.

End Cap.

Module Label.
Import JS BreakpointManager Hex.

Fixpoint dropWhile (p : ascii -> bool) (s : string) : string :=
  match s with
  | String c s' => if p c then dropWhile p s' else s
  | EmptyString => EmptyString
  end.

Fixpoint takeWhile (p : ascii -> bool) (s : string) : string :=
  match s with
  | String c s' => if p c then String c (takeWhile p s') else EmptyString
  | EmptyString => EmptyString
  end.

(** what the pattern of a label at the start of a line computes *)
Definition lineLabel (text : string) : option string :=
  match text with
  | String c rest =>
      if isWord c
      then match dropWhile isWord rest with
           | String d _ =>
               if Ascii.eqb ":" d
               then Some (String c (takeWhile isWord rest)) else None
           | EmptyString => None
           end
      else None
  | EmptyString => None
  end.

(** "The text begins with an identifier immediately followed by a colon." *)
Definition beginsWithLabel (text name : string) : Prop :=
  name <> "" /\ allChars isWord name = true /\
  exists rest, text = name ++ ":" ++ rest.

(** The symbol a source line defines: the line, trimmed, begins with a
    label that some symbol carries; the first such symbol is taken. *)
Definition definedLabel (symbolMap : list SymbolInfo.t) (raw : string)
  : option SymbolInfo.t :=
  match lineLabel (trim raw) with
  | Some name => find (hasLabel name) symbolMap
  | None => None
  end.

End Label.

Module Fallback.
Import JS BreakpointManager Label.

Section Loop.
Variable symbolMap : list SymbolInfo.t.
Variable L : Z.

(** one iteration of the loop of strategy 2 on line [i + 1] *)
Definition update (i : Z) (raw : string)
    (nearest : option (SymbolInfo.t * Z)) : option (SymbolInfo.t * Z) :=
  match definedLabel symbolMap raw with
  | Some symbol =>
      if i + 1 <=? L then
        match nearest with
        | None => Some (symbol, L - (i + 1))
        | Some (_, nearestDistance) =>
            if L - (i + 1) <? nearestDistance
            then Some (symbol, L - (i + 1)) else nearest
        end
      else nearest
  | None => nearest
  end.

(** the last line at or before [L], among lines [i + 1 ..], that defines
    a known label, with its distance to [L] *)
Fixpoint lastCand (i : Z) (lines : list string)
  : option (SymbolInfo.t * Z) :=
  match lines with
  | [] => None
  | raw :: rest =>
      match lastCand (i + 1) rest with
      | Some r => Some r
      | None =>
          if i + 1 <=? L
          then option_map (fun s => (s, L - (i + 1)))
                          (definedLabel symbolMap raw)
          else None
      end
  end.

Definition farEnough (i : Z) (nearest : option (SymbolInfo.t * Z)) : Prop :=
  match nearest with
  | Some (_, d) => L - i <= d
  | None => True
  end.

End Loop.

(** No listing entry matches the line: a workspace is open and the listing
    file is absent, unreadable, or holds no entry for the line. *)
Definition noListingMatch (h : Host.t) (sourceFile : string) (L : Z) : Prop :=
  exists workspace,
    Host.workspaceFolder h = Some workspace /\
    (Host.existsSync h (listingFileOf h workspace sourceFile) = false \/
     Host.readFileSync h (listingFileOf h workspace sourceFile) = None \/
     exists content,
       Host.readFileSync h (listingFileOf h workspace sourceFile) = Some content /\
       forall e, In e (Listing.listingEntries content) ->
                 Listing.sourceLine e <> L).

(** The condition of the claim taken alone, whether a workspace folder is
    open or not: whatever listing the resolver can read holds no entry for
    the line. *)
Definition noEntryFor (h : Host.t) (sourceFile : string) (L : Z) : Prop :=
  forall workspace content,
    Host.workspaceFolder h = Some workspace ->
    Host.readFileSync h (listingFileOf h workspace sourceFile) = Some content ->
    forall e, In e (Listing.listingEntries content) ->
              Listing.sourceLine e <> L.

End Fallback.

Module Entry.
Import JS BreakpointManager.

(** the address an entry-marker line carries: the line, trimmed, is four
    hexadecimal digits, white space and the tag [e] *)
Definition entryMarker (line : string) : option Z :=
  match matchStart entryRe (trim line) with
  | Some [addressStr] => Some (num addressStr 16)
  | _ => None
  end.

(** The symbol file exists and reads as [content]. *)
Definition bdsRead (h : Host.t) (bdsFile content : string) : Prop :=
  Host.existsSync h bdsFile = true /\
  Host.readFileSync h bdsFile = Some content.

(** the label is [main] up to the case of its letters *)
Definition mainLike (s : SymbolInfo.t) : Prop :=
  toLowerCase (SymbolInfo.label s) = "main".

End Entry.

Module Assembly.
Import ZmacAssembler.

(** an event that does not settle the promise *)
Definition isData (e : ChildProcess.Event) : bool :=
  match e with
  | ChildProcess.StdoutData _ | ChildProcess.StderrData _ => true
  | ChildProcess.Close _ | ChildProcess.Error _ => false
  end.

(** the output directory exists or can be created *)
Definition outputDirReady (h : Host.t) (workspace outputDir : string) : Prop :=
  Host.existsSync h (Host.join h [workspace; outputDir]) = true \/
  Host.mkdirSyncThrows h (Host.join h [workspace; outputDir]) = false.

End Assembly.

Module Config.
Import JSValue TRS80Config.

(** a string that is not empty after [trim] *)
Definition nonBlankString (v : jsval) : Prop :=
  exists s, v = JStr s /\ JS.trim s <> "".

Definition isTarget (v : jsval) : Prop :=
  v = JStr "model1" \/ v = JStr "model3" \/ v = JStr "model4".

Definition defined (v : jsval) : Prop := v <> JUndefined /\ v <> JNull.

Definition isNonEmptyArray (v : jsval) : Prop :=
  exists x rest, v = JArr (x :: rest).

Definition isStringValue (v : jsval) : Prop := exists s, v = JStr s.


(** what holds of every configuration handed back, whichever type
    [emulatorArgs] has *)
Record minimal (c : TRS80Config.t) : Prop := {
  emulatorPath_ok : nonBlankString (emulatorPath c);
  zmacPath_ok : nonBlankString (zmacPath c);
  outputDir_ok : nonBlankString (outputDir c);
  target_ok : isTarget (target c);
  autoAssemble_ok : defined (autoAssemble c)
}.


(** the value the project file gives for a key, when it gives one *)
Definition projectValue (project : ProjectFile) (key : string) : jsval :=
  match project with
  | Parsed v => match getProp v key with
                | Some x => x
                | None => JUndefined
                end
  | NoProjectFile | Unparseable => JUndefined
  end.

End Config.

Module Supervisor.
Import EmulatorManager.

(** a resolution of [stopEmulator] observed with no instance stored *)
Definition cleared (o : Obs) : Prop :=
  match o with
  | StopResolved _ _ stored => stored = None
  | _ => True
  end.

(** [st'] extends [st]: same pending stops, same clock, a longer trace. *)
Record extends (st st' : State) : Prop := {
  ext_waits : waits st' = waits st;
  ext_now : now st' = now st;
  ext_nextId : nextId st' = nextId st;
  ext_trace : exists more, trace st' = (trace st ++ more)%list /\ Forall cleared more
}.

(** Well-formed states: identifiers of pending stops are distinct and below
    the next one; an armed timer belongs to an unsettled promise and is not
    due yet; every resolution of [stopEmulator] observed so far found no
    instance stored. *)
Record WF (st : State) : Prop := {
  wf_ids : Forall (fun x => (id x < nextId st)%nat) (waits st);
  wf_nodup : NoDup (map id (waits st));
  wf_armed : Forall (fun x => timerArmed x = true ->
                              settled x = false /\ now st < deadline x)
                    (waits st);
  wf_cleared : Forall cleared (trace st)
}.

(** a pending stop after its timer callback ran *)
Definition fired (x : StopWait) : StopWait :=
  {| id := id x; target := target x; deadline := deadline x;
     timerArmed := false; settled := true; continuation := continuation x |}.

(** the timer is armed and its deadline is not after [t] *)
Definition due (t : Z) (x : StopWait) : bool :=
  timerArmed x && (deadline x <=? t).

Definition fireIf (t : Z) (x : StopWait) : StopWait :=
  if due t x then fired x else x.

Section Pending.
Variable k : nat.          (* the identifier of the call *)
Variable t0 D : Z.         (* when it was called, and its deadline *)

(** the promise of call [k] resolved between [t0] and [D], with no
    instance stored *)
Definition resolved (st : State) : Prop :=
  exists t, In (StopResolved k t None) (trace st) /\ t0 <= t <= D.

(** call [k] still waits, its timer armed for [D] *)
Definition pending (st : State) : Prop :=
  exists x, In x (waits st) /\ id x = k /\ timerArmed x = true /\ deadline x = D.

Definition tracked (st : State) : Prop :=
  WF st /\ t0 <= now st /\ (resolved st \/ pending st).

End Pending.

(** a state the manager can be in *)
Definition reachable (w : World) (st : State) : Prop :=
  exists tes, st = run w initial tes.

End Supervisor.

(** ** Vocabulary of the further properties *)

Module Matching.
Import JS Hex.

(** The declarative reading of a pattern: [Matches r s c s' c'] when [r]
    matches a prefix of [s], leaving [s'], and extends the captured groups
    [c] to [c']. *)
Inductive Matches
  : regex -> string -> list string -> string -> list string -> Prop :=
| MEmp (s : string) (c : list string) : Matches Emp s c s c
| MEos (c : list string) : Matches Eos "" c "" c
| MCls (p : ascii -> bool) (ch : ascii) (s : string) (c : list string) :
    p ch = true -> Matches (Cls p) (String ch s) c s c
| MStarNil (p : ascii -> bool) (s : string) (c : list string) :
    Matches (Star p) s c s c
| MStarCons (p : ascii -> bool) (ch : ascii) (s s' : string)
    (c : list string) :
    p ch = true -> Matches (Star p) s c s' c ->
    Matches (Star p) (String ch s) c s' c
| MCat (r1 r2 : regex) (s s1 s2 : string) (c c1 c2 : list string) :
    Matches r1 s c s1 c1 -> Matches r2 s1 c1 s2 c2 ->
    Matches (Cat r1 r2) s c s2 c2
| MCap (r : regex) (s s' : string) (c c' : list string) :
    Matches r s c s' c' ->
    Matches (Cap r) s c s' (c' ++ [consumed s s'])%list.

(** the number of capturing groups of a pattern *)
Fixpoint captures (r : regex) : nat :=
  match r with
  | Emp | Eos | Cls _ | Star _ => 0
  | Cat r1 r2 => captures r1 + captures r2
  | Cap r1 => S (captures r1)
  end.

(** four hexadecimal digits *)
Definition hex4 (a : string) : Prop :=
  String.length a = 4%nat /\ allChars isHex a = true.

(** a 16-bit address *)
Definition word16 (a : Z) : Prop := 0 <= a <= 0xFFFF.

(** the number a string of hexadecimal digits denotes *)
Fixpoint valueFrom (acc : Z) (s : string) : Z :=
  match s with
  | EmptyString => acc
  | String c s' =>
      valueFrom (acc * 16 + match digitValue c with
                            | Some d => d
                            | None => 0
                            end) s'
  end.

Definition hexValue (s : string) : Z := valueFrom 0 s.

(** a non-empty run of characters of a class *)
Definition run (p : ascii -> bool) (s : string) : Prop :=
  s <> "" /\ allChars p s = true.

End Matching.

Module Origin.
Import JS BreakpointManager.

(** Where the address of a resolved breakpoint comes from: an entry of
    the listing of its file for its line, or a symbol of the symbol map. *)
Definition fromListing (h : Host.t) (sourceFile : string) (L a : Z) : Prop :=
  exists content e,
    Listing.listingRead h sourceFile content /\
    In e (Listing.listingEntries content) /\
    Listing.sourceLine e = L /\ Listing.address e = a.

Definition fromSymbol (symbolMap : list SymbolInfo.t) (a : Z) : Prop :=
  exists sym, In sym symbolMap /\ SymbolInfo.address sym = a.

Definition known (h : Host.t) (symbolMap : list SymbolInfo.t)
    (info : BreakpointInfo.t) : Prop :=
  fromListing h (BreakpointInfo.file info) (BreakpointInfo.line info)
              (BreakpointInfo.address info)
  \/ fromSymbol symbolMap (BreakpointInfo.address info).

(** the candidate of the nearest-label loop is a symbol of the map *)
Definition inMap (symbolMap : list SymbolInfo.t)
    (nearest : option (SymbolInfo.t * Z)) : Prop :=
  match nearest with
  | Some (sym, _) => In sym symbolMap
  | None => True
  end.

(** a flag value: one to four upper-case hexadecimal digits *)
Definition isAddressText (s : string) : Prop :=
  (1 <= String.length s <= 4)%nat /\ Hex.allChars Hex.isUpperHex s = true.

(** the flags of the addresses [addrs]: "-b" and the address, for each *)
Fixpoint flagsOf (addrs : list Z) : list string :=
  match addrs with
  | [] => []
  | a :: rest => "-b" :: renderAddress a :: flagsOf rest
  end.

End Origin.

Module Flow.
Import TRS80Commands.

Definition isSpawn (e : Effect) : bool :=
  match e with
  | Spawn _ _ _ => true
  | Mkdir _ => false
  end.

(** a process was spawned *)
Definition spawns (effects : list Effect) : bool := existsb isSpawn effects.

Definition isSpawned (a : Action) : bool :=
  match a with
  | Did e => isSpawn e
  | _ => false
  end.

(** among the actions, a process was spawned *)
Definition spawned (actions : list Action) : bool := existsb isSpawned actions.

Definition isMessage (a : Action) : bool :=
  match a with
  | ShowError _ => true
  | _ => false
  end.

(** the emulator is asked to start, or a process is spawned *)
Definition launches (a : Action) : bool :=
  match a with
  | ShowError _ => false
  | Did _ | StartEmulator _ _ _ _ _ _ _ => true
  end.


End Flow.

Module Precedence.
Import JSValue.

(** a setting that is a non-empty string: the only settings the later
    version of [getConfiguration] takes *)
Definition given (v : jsval) : bool := isString v && truthy v.

(** a value on which [!v || v.trim() === ''] throws: truthy and not a
    string *)
Definition unreadable (v : jsval) : bool := truthy v && negb (isString v).

End Precedence.

Module Tidy.
Import EmulatorManager.

(** SIGTERM was sent to process [p] *)
Definition termed (tr : list Obs) (p : Z) : Prop := In (Killed p SIGTERM) tr.

(** every SIGKILL follows a SIGTERM to the same process *)
Definition orderly (tr : list Obs) : Prop :=
  forall pre post p,
    tr = (pre ++ Killed p SIGKILL :: post)%list -> termed pre p.

(** the trace only grows *)
Definition grows (st st' : State) : Prop :=
  exists more, trace st' = (trace st ++ more)%list.

(** the process of an instance has been spawned and has not exited *)
Definition live (st : State) (i : EmulatorInstance.t) : Prop :=
  In (EmulatorInstance.pid i) (children st).

Record Inv (st : State) : Prop := {
  inv_current : match currentInstance st with
                | Some i => live st i
                | None => True
                end;
  inv_spawning : Forall (live st) (spawning st);
  inv_orderly : orderly (trace st);
  inv_waits : Forall (fun x => termed (trace st) (target x)) (waits st)
}.

End Tidy.

Module Grouping.
Import BreakpointManagerDiagnostics.

Definition fromFile (file : string) (e : AssemblyError.t) : bool :=
  String.eqb (AssemblyError.file e) file.

(** the diagnostics of the errors reported for [file], in the order of
    the errors; none at all when there is no such error *)
Definition expected (file : string) (errors : list AssemblyError.t)
  : option (list Diagnostic.t) :=
  match filter (fromFile file) errors with
  | [] => None
  | es => Some (map toDiagnostic es)
  end.

(** what a group becomes when the diagnostics [more] are pushed on it *)
Definition extended (group : option (list Diagnostic.t))
    (more : list Diagnostic.t) : option (list Diagnostic.t) :=
  match group, more with
  | None, [] => None
  | None, _ :: _ => Some more
  | Some ds, _ => Some (ds ++ more)%list
  end.

End Grouping.

Module Uptime.

(** hours, minutes and seconds that add up to [seconds] *)
Definition splits (seconds h m s : Z) : Prop :=
  seconds = 3600 * h + 60 * m + s /\ 0 <= h /\ 0 <= m < 60 /\ 0 <= s < 60.

Definition shown (h m s : Z) : string :=
  if 0 <? h then
    JS.toString h 10 ++ "h " ++ JS.toString m 10 ++ "m "
      ++ JS.toString s 10 ++ "s"
  else if 0 <? m then JS.toString m 10 ++ "m " ++ JS.toString s 10 ++ "s"
  else JS.toString s 10 ++ "s".

End Uptime.

Module Protocol.
Import JSValue TRS80DebugSession.

(** [v.key], [undefined] when there is no such property *)
Definition field (v : jsval) (key : string) : jsval :=
  match getProp v key with
  | Some x => x
  | None => JUndefined
  end.

(** [response] is a successful response to the request [message] *)
Definition answers (message response : jsval) : Prop :=
  field response "type" = JStr "response" /\
  field response "request_seq" = field message "seq" /\
  field response "command" = field message "command" /\
  field response "success" = JBool true.

(** the answer for one requested breakpoint *)
Definition verified (bp : jsval) : jsval :=
  JObj [("verified", JBool true); ("line", field bp "line")].

Definition isObject (bp : jsval) : bool := negb (nullish bp).

End Protocol.

Module Words.

(** the number of occurrences of [c] in [s] *)
Fixpoint count (c : ascii) (s : string) : nat :=
  match s with
  | EmptyString => 0
  | String x s' => (if Ascii.eqb x c then 1 else 0) + count c s'
  end.

(** the words joined by single spaces *)
Fixpoint unwords (ws : list string) : string :=
  match ws with
  | [] => ""
  | [w] => w
  | w :: rest => w ++ " " ++ unwords rest
  end.

Definition spaceFree (s : string) : Prop := count " " s = 0%nat.

End Words.

Module LineNumber.
Import JS.

(** a natural number or [Infinity]: neither negative nor [NaN] *)
Definition natural (x : number) : Prop :=
  match x with
  | Finite z => 0 <= z
  | Infinite positive => positive = true
  | NaN => False
  end.

End LineNumber.

Module ErrorLine.
Import JS Hex.

(** the number a string of decimal digits denotes *)
Fixpoint decFrom (acc : Z) (s : string) : Z :=
  match s with
  | EmptyString => acc
  | String c s' =>
      decFrom (acc * 10 + match digitValue c with
                          | Some d => d
                          | None => 0
                          end) s'
  end.

Definition decValue (s : string) : Z := decFrom 0 s.

(** the part of the pattern of a diagnostic up to the colon:
    "File\s+'([^']+)',\s+line\s+(\d+):" *)
Definition location : list regex :=
  [ZmacAssembler.LitsI "File"; Plus isSpace; Lit "'"; Cap (Plus (isNot "'"));
   Lit "'"; Lit ","; Plus isSpace; ZmacAssembler.LitsI "line"; Plus isSpace;
   Cap (Plus isDigit); Lit ":"].

(** and the rest of it: "\s*(.+)" *)
Definition text : list regex := [Star isSpace; Cap (Plus isDot)].

(** a line in the format of zmac:
    File 'FILE', line NUMBER: MESSAGE *)
Definition formatted (file number message : string)
    (ws1 ws2 ws3 sp : string) : string :=
  "File" ++ ws1 ++ String "'" (file ++ String "'" (String ","
    (ws2 ++ "line" ++ ws3 ++ number ++ String ":" (sp ++ message)))).

(** a message: it does not start with white space and holds no line
    terminator *)
Definition isMessage (m : string) : Prop :=
  allChars isDot m = true /\
  exists m0 m', m = String m0 m' /\ isSpace m0 = false.

End ErrorLine.

Module Chunks.

(** what the child wrote to standard output, chunk after chunk *)
Fixpoint stdoutOf (evs : list ChildProcess.Event) : string :=
  match evs with
  | [] => ""
  | ChildProcess.StdoutData text :: rest => text ++ stdoutOf rest
  | _ :: rest => stdoutOf rest
  end.

(** what it wrote to standard error *)
Fixpoint stderrOf (evs : list ChildProcess.Event) : string :=
  match evs with
  | [] => ""
  | ChildProcess.StderrData text :: rest => text ++ stderrOf rest
  | _ :: rest => stderrOf rest
  end.

End Chunks.

Module ListingLine.
Import JS Hex.

(** a line of the listing in the format of zmac:
    the line number, a colon, the cycle counts, a tab, the address *)
Definition formatted (indent number gap cycles address ws rest : string)
  : string :=
  indent ++ number ++ String ":" ((gap ++ cycles)
    ++ String tab (address ++ ws ++ rest)).

(** the field of the cycle counts: it holds no tab and does not start with
    white space *)
Definition isField (cycles : string) : Prop :=
  allChars (isNot tab) cycles = true /\
  exists b0 b', cycles = String b0 b' /\ isSpace b0 = false.

(** white space without a tab *)
Definition isGap (gap : string) : Prop :=
  allChars isSpace gap = true /\ allChars (isNot tab) gap = true.

End ListingLine.

(* ================================================================== *)
(** * Properties                                                       *)
(* ================================================================== *)

(** ** Addresses: rendering and parsing *)

Module AddressFacts.
Import JS Hex.

Lemma digit_cases (d : Z) :
  0 <= d < 16 ->
  d = 0 \/ d = 1 \/ d = 2 \/ d = 3 \/ d = 4 \/ d = 5 \/ d = 6 \/ d = 7 \/
  d = 8 \/ d = 9 \/ d = 10 \/ d = 11 \/ d = 12 \/ d = 13 \/ d = 14 \/ d = 15.
Proof. lia. Qed.

Ltac each_digit H :=
  destruct (digit_cases _ H) as
    [->|[->|[->|[->|[->|[->|[->|[->|[->|[->|[->|[->|[->|[->|[->| ->]]]]]]]]]]]]]]].

Lemma digitValue_upper_digitChar (d : Z) :
  0 <= d < 16 -> digitValue (toUpper (digitChar d)) = Some d.
Proof. intros H; each_digit H; reflexivity. Qed.

Lemma upperHex_upper_digitChar (d : Z) :
  0 <= d < 16 -> isUpperHex (toUpper (digitChar d)) = true.
Proof. intros H; each_digit H; reflexivity. Qed.

(** Reading back the rendered digits of [n] continues with value [n]. *)
Lemma readDigits_digits (fuel : nat) :
  forall (n : Z) (acc : string) (seen : bool),
    0 <= n < 16 ^ Z.of_nat (S fuel) ->
    readDigits 16 (toUpperCase (digits 16 (S fuel) n acc)) 0 seen
    = readDigits 16 (toUpperCase acc) n true.
Proof.
  induction fuel as [|fuel IH]; intros n acc seen Hn.
  - (* one digit *)
    assert (Hd : 0 <= n < 16) by (change (16 ^ Z.of_nat 1) with 16 in Hn; lia).
    cbn [digits]. rewrite (Z.div_small n 16 Hd), (Z.mod_small n 16 Hd).
    cbn [Z.eqb toUpperCase map_string readDigits].
    rewrite (digitValue_upper_digitChar n Hd).
    destruct (Z.ltb_spec n 16); [|lia]. f_equal.
  - change (digits 16 (S (S fuel)) n acc)
      with (let acc' := String (digitChar (n mod 16)) acc in
            if n / 16 =? 0 then acc' else digits 16 (S fuel) (n / 16) acc').
    cbv zeta.
    assert (Hm : 0 <= n mod 16 < 16) by (apply Z.mod_pos_bound; lia).
    assert (Hq : 0 <= n / 16) by (apply Z.div_pos; lia).
    assert (Hdm : n = 16 * (n / 16) + n mod 16) by (apply Z.div_mod; lia).
    destruct (Z.eqb_spec (n / 16) 0) as [E|E].
    + cbn [toUpperCase map_string readDigits].
      rewrite (digitValue_upper_digitChar _ Hm).
      destruct (Z.ltb_spec (n mod 16) 16); [|lia].
      f_equal. lia.
    + rewrite IH.
      * cbn [toUpperCase map_string readDigits].
        rewrite (digitValue_upper_digitChar _ Hm).
        destruct (Z.ltb_spec (n mod 16) 16); [|lia].
        f_equal. lia.
      * split; [lia|].
        apply Z.div_lt_upper_bound; [lia|].
        replace (Z.of_nat (S (S fuel))) with (Z.succ (Z.of_nat (S fuel))) in Hn by lia.
        rewrite Z.pow_succ_r in Hn by lia. lia.
Qed.

Lemma upperHex_digits (fuel : nat) :
  forall (n : Z) (acc : string),
    0 <= n ->
    allChars isUpperHex (toUpperCase acc) = true ->
    allChars isUpperHex (toUpperCase (digits 16 fuel n acc)) = true.
Proof.
  induction fuel as [|fuel IH]; intros n acc Hn Hacc; [exact Hacc|].
  cbn [digits].
  assert (Hm : 0 <= n mod 16 < 16) by (apply Z.mod_pos_bound; lia).
  assert (Hstep : allChars isUpperHex
                    (toUpperCase (String (digitChar (n mod 16)) acc)) = true).
  { cbn [toUpperCase map_string allChars].
    rewrite (upperHex_upper_digitChar _ Hm). exact Hacc. }
  destruct (n / 16 =? 0); [exact Hstep|].
  apply IH; [apply Z.div_pos; lia | exact Hstep].
Qed.

Lemma digits_nonempty (fuel : nat) (n : Z) (acc : string) :
  digits 16 (S fuel) n acc <> "".
Proof.
  revert n acc. induction fuel as [|fuel IH]; intros n acc.
  - cbn [digits]. destruct (n / 16 =? 0); discriminate.
  - change (digits 16 (S (S fuel)) n acc)
      with (let acc' := String (digitChar (n mod 16)) acc in
            if n / 16 =? 0 then acc' else digits 16 (S fuel) (n / 16) acc').
    cbv zeta. destruct (n / 16 =? 0); [discriminate | apply IH].
Qed.

Ltac by_char c :=
  destruct c as [[] [] [] [] [] [] [] []]; vm_compute; try reflexivity;
  try discriminate; auto.

Lemma upperHex_not_space (c : ascii) :
  isUpperHex c = true -> isSpace c = false.
Proof. by_char c. Qed.

Lemma upperHex_not_sign (c : ascii) :
  isUpperHex c = true -> Ascii.eqb c "-" = false /\ Ascii.eqb c "+" = false.
Proof. by_char c. Qed.

Lemma upperHex_not_x (c : ascii) :
  isUpperHex c = true -> Ascii.eqb c "x" || Ascii.eqb c "X" = false.
Proof. by_char c. Qed.

(** On a non-empty string of upper-case hexadecimal digits [parseInt]
    skips nothing: no white space, no sign, no [0x] prefix. *)
Lemma parseInt_upperHex (s : string) :
  s <> "" -> allChars isUpperHex s = true ->
  parseInt s 16 =
  match readDigits 16 s 0 false with
  | (v, true) => Some v
  | (_, false) => None
  end.
Proof.
  intros Hne Hall. destruct s as [|c s]; [congruence|].
  cbn [allChars] in Hall. apply andb_prop in Hall as [Hc Hs].
  unfold parseInt. cbn [dropSpace].
  rewrite (upperHex_not_space c Hc).
  destruct (upperHex_not_sign c Hc) as [-> ->].
  change (16 =? 16) with true. cbv iota.
  assert (Hstrip : stripHexPrefix (String c s) = String c s).
  { destruct s as [|c1 s1]; [reflexivity|].
    cbn [allChars] in Hs. apply andb_prop in Hs as [Hc1 _].
    cbn [stripHexPrefix]. rewrite (upperHex_not_x c1 Hc1).
    rewrite andb_false_r. reflexivity. }
  rewrite Hstrip.
  destruct (readDigits 16 (String c s) 0 false) as [v []]; reflexivity.
Qed.

Lemma fuel_enough (n : Z) :
  0 <= n -> n < 16 ^ Z.of_nat (S (Z.to_nat (Z.log2 n))).
Proof.
  intros Hn.
  replace (Z.of_nat (S (Z.to_nat (Z.log2 n)))) with (Z.succ (Z.log2 n))
    by (pose proof (Z.log2_nonneg n); lia).
  destruct (Z.eq_dec n 0) as [->|Hz]; [reflexivity|].
  pose proof (Z.log2_spec n ltac:(lia)) as [_ Hlt].
  eapply Z.lt_le_trans; [exact Hlt|].
  apply Z.pow_le_mono_l. lia.
Qed.

(** Rendering a non-negative integer in upper-case hexadecimal and parsing
    it back with [parseInt(_, 16)] is the identity. *)
Lemma parseInt_render (n : Z) :
  0 <= n -> parseInt (toUpperCase (toString n 16)) 16 = Some n.
Proof.
  intros Hn. unfold toString.
  destruct (Z.ltb_spec n 0); [lia|].
  set (fuel := Z.to_nat (Z.log2 n)).
  rewrite parseInt_upperHex.
  - rewrite readDigits_digits by (split; [lia | apply fuel_enough; lia]).
    reflexivity.
  - intros E. apply (digits_nonempty fuel n "").
    destruct (digits 16 (S fuel) n "") ; [reflexivity | discriminate E].
  - apply upperHex_digits; [lia | reflexivity].
Qed.

End AddressFacts.

(** ** Breakpoint resolution from the listing *)

Module ListingFacts.
Import JS BreakpointManager Listing.

(** The loop over the listing returns the address of the first entry for
    the target line. *)
Lemma scanListing_first (L : Z) (lines : list string) :
  scanListing L lines = option_map address (find (forLine L) (entriesOf lines)).
Proof.
  induction lines as [|line rest IH]; [reflexivity|].
  cbn [scanListing entriesOf]. unfold listingEntry.
  destruct (matchStart listingRe line) as [[|s1 [|s2 [|s3 caps]]]|];
    try exact IH.
  cbn [find]. unfold forLine at 1. cbn [sourceLine].
  destruct (num s1 10 =? L); [reflexivity | exact IH].
Qed.

Lemma find_first {A} (p : A -> bool) (pre : list A) (x : A) (post : list A) :
  (forall y, In y pre -> p y = false) -> p x = true ->
  find p (pre ++ x :: post) = Some x.
Proof.
  intros Hpre Hx. induction pre as [|y pre IH]; cbn.
  - now rewrite Hx.
  - rewrite (Hpre y (or_introl eq_refl)). apply IH.
    intros z Hz. apply Hpre. now right.
Qed.

End ListingFacts.

(** C1 (as amended). When the listing text holds entries for source line
    [L], a breakpoint at [L] resolves to the address of the first of them,
    whatever the symbol table and the source text hold. *)
Theorem C1_listing_entry_wins
    (h : Host.t) (sourceFile content : string) (L : Z)
    (pre post : list Listing.ListingEntry) (e : Listing.ListingEntry)
    (symbolMap : list SymbolInfo.t) :
  Listing.listingRead h sourceFile content ->
  Listing.listingEntries content = (pre ++ e :: post)%list ->
  Listing.sourceLine e = L ->
  (forall e', In e' pre -> Listing.sourceLine e' <> L) ->
  BreakpointManager.findAddressForSourceLine h sourceFile L symbolMap
  = Some (Listing.address e).
Proof.
  intros (workspace & Hws & Hex & Hread) Hentries HL Hpre.
  unfold BreakpointManager.findAddressForSourceLine.
  rewrite Hws, Hex, Hread. cbn [negb].
  rewrite ListingFacts.scanListing_first.
  fold (Listing.listingEntries content). rewrite Hentries.
  rewrite ListingFacts.find_first; [reflexivity | |].
  - intros y Hy. unfold Listing.forLine.
    apply Z.eqb_neq. now apply Hpre.
  - unfold Listing.forLine. now apply Z.eqb_eq.
Qed.

Lemma C1_listing_entry_wins_witness :
  BreakpointManager.findAddressForSourceLine Fixtures.hostTwice
    "/ws/demo.a80" 7
    [BreakpointManager.mkSymbol 0x7000 "start" None (Some 1)]
  = Some 0x6003.
Proof.
  apply (C1_listing_entry_wins Fixtures.hostTwice "/ws/demo.a80"
           Fixtures.listingTwice 7
           [ {| Listing.sourceLine := 6; Listing.address := 0x6000 |} ]
           [ {| Listing.sourceLine := 7; Listing.address := 0x6006 |};
             {| Listing.sourceLine := 8; Listing.address := 0x6008 |} ]
           {| Listing.sourceLine := 7; Listing.address := 0x6003 |}).
  - exists "/ws". repeat split; reflexivity.
  - reflexivity.
  - reflexivity.
  - intros e' [<-|[]]. cbn. lia.
Defined.

(** C1 as stated fails: the listing may hold two entries for one source
    line (line 7 at 0x6003 and at 0x6006); resolution returns the first
    address, so it does not return "exactly A" for the second entry. *)
Lemma C1_second_entry_counterexample :
  ~ (forall (h : Host.t) (sourceFile content : string) (L A : Z)
            (symbolMap : list SymbolInfo.t),
        Listing.listingRead h sourceFile content ->
        In {| Listing.sourceLine := L; Listing.address := A |}
           (Listing.listingEntries content) ->
        BreakpointManager.findAddressForSourceLine h sourceFile L symbolMap
        = Some A).
Proof.
  intros H.
  specialize (H Fixtures.hostTwice "/ws/demo.a80" Fixtures.listingTwice
                7 0x6006 []).
  assert (Hread : Listing.listingRead Fixtures.hostTwice "/ws/demo.a80"
                    Fixtures.listingTwice)
    by (exists "/ws"; repeat split; reflexivity).
  assert (Hin : In {| Listing.sourceLine := 7;
                      Listing.address := 0x6006 |}
                   (Listing.listingEntries Fixtures.listingTwice))
    by (vm_compute; tauto).
  specialize (H Hread Hin). vm_compute in H. discriminate H.
Qed.

(** ** The cap of four breakpoints *)

Module CapFacts.
Import BreakpointManager Cap.

Section Resolve.
Variable h : Host.t.
Variable symbolMap : list SymbolInfo.t.

Lemma resolveAll_length (bps : list Host.Breakpoint) :
  List.length (resolveAll h symbolMap bps)
  = List.length (filter (resolvable h symbolMap) bps).
Proof.
  induction bps as [|bp bps IH]; [reflexivity|].
  cbn [resolveAll filter]. unfold resolvable at 1.
  destruct (resolveBreakpoint h symbolMap bp); cbn [List.length]; congruence.
Qed.

(** Truncating the resolved list is resolving the first resolvable
    breakpoints, in the order the host reports them. *)
Lemma firstn_resolveAll (n : nat) (bps : list Host.Breakpoint) :
  firstn n (resolveAll h symbolMap bps)
  = resolveAll h symbolMap (firstn n (filter (resolvable h symbolMap) bps)).
Proof.
  revert n. induction bps as [|bp bps IH]; intros n.
  - now destruct n.
  - cbn [resolveAll filter]. unfold resolvable at 1.
    destruct (resolveBreakpoint h symbolMap bp) as [info|] eqn:E.
    + destruct n as [|n]; [reflexivity|].
      cbn [firstn resolveAll]. rewrite E. f_equal. apply IH.
    + apply IH.
Qed.
End Resolve.

Lemma formatBreakpoints_length (bps : list BreakpointInfo.t) :
  List.length (formatBreakpointsForEmulator bps) = (2 * List.length bps)%nat.
Proof.
  induction bps as [|bp bps IH]; [reflexivity|].
  cbn [formatBreakpointsForEmulator List.length]. rewrite IH. lia.
Qed.

Lemma formatLoop_length (count : nat) (addresses : list Z) :
  List.length (EmulatorManager.formatLoop count addresses)
  = (2 * Nat.min count (List.length addresses))%nat.
Proof.
  revert addresses. induction count as [|count IH]; intros [|a rest];
    try reflexivity.
  cbn [EmulatorManager.formatLoop List.length Nat.min]. rewrite IH. lia.
Qed.

End CapFacts.

(** C2. The list the resolver hands back never has more than four entries;
    when more than four of the host's breakpoints resolve, it has exactly
    four, the first four resolvable ones in the host's order.  The flags
    built from it, and the flags [formatBreakpointArgs] builds from any
    address list, name at most four addresses. *)
Theorem C2_at_most_four_breakpoints (h : Host.t) (bdsFile : string) :
  let symbolMap := BreakpointManager.parseBdsFile h bdsFile in
  let resolvableBps :=
    filter (Cap.resolvable h symbolMap) (Host.breakpoints h) in
  let result := BreakpointManager.getBreakpointAddresses h bdsFile in
  (List.length result <= 4)%nat /\
  ((4 < List.length resolvableBps)%nat ->
     List.length result = 4%nat /\
     result = BreakpointManager.resolveAll h symbolMap (firstn 4 resolvableBps)) /\
  (List.length (BreakpointManager.formatBreakpointsForEmulator result) <= 2 * 4)%nat /\
  (forall addresses : list Z,
     List.length (EmulatorManager.formatBreakpointArgs addresses)
     = (2 * Nat.min (List.length addresses) 4)%nat).
Proof.
  cbv zeta. unfold BreakpointManager.getBreakpointAddresses.
  set (symbolMap := BreakpointManager.parseBdsFile h bdsFile).
  set (bps := Host.breakpoints h).
  assert (Hlen : (List.length (firstn 4 (BreakpointManager.resolveAll h symbolMap bps)) <= 4)%nat)
    by apply firstn_le_length.
  repeat split.
  - exact Hlen.
  - rewrite length_firstn, CapFacts.resolveAll_length. lia.
  - apply CapFacts.firstn_resolveAll.
  - rewrite CapFacts.formatBreakpoints_length. lia.
  - intros addresses. unfold EmulatorManager.formatBreakpointArgs.
    rewrite CapFacts.formatLoop_length. lia.
Qed.

Lemma C2_at_most_four_breakpoints_witness :
  (4 < List.length
         (filter (Cap.resolvable Fixtures.hostFive
                    (BreakpointManager.parseBdsFile Fixtures.hostFive "/ws/.zout/demo.bds"))
                 (Host.breakpoints Fixtures.hostFive)))%nat /\
  map BreakpointInfo.address
      (BreakpointManager.getBreakpointAddresses Fixtures.hostFive "/ws/.zout/demo.bds")
  = [0x6000; 0x6001; 0x6002; 0x6003].
Proof.
  assert (H5 : (4 < List.length
         (filter (Cap.resolvable Fixtures.hostFive
                    (BreakpointManager.parseBdsFile Fixtures.hostFive "/ws/.zout/demo.bds"))
                 (Host.breakpoints Fixtures.hostFive)))%nat)
    by (vm_compute; lia).
  split; [exact H5|].
  destruct (C2_at_most_four_breakpoints Fixtures.hostFive "/ws/.zout/demo.bds")
    as (_ & Hfour & _).
  destruct (Hfour H5) as [_ ->]. reflexivity.
Defined.

(** ** Labels in the source text *)

Module LabelFacts.
Import JS BreakpointManager Hex Label.
Import AddressFacts.

Lemma take_drop (p : ascii -> bool) (s : string) :
  s = takeWhile p s ++ dropWhile p s.
Proof.
  induction s as [|c s IH]; [reflexivity|]. cbn.
  destruct (p c); cbn; [now rewrite <- IH | reflexivity].
Qed.

Lemma takeWhile_all (p : ascii -> bool) (s : string) :
  allChars p (takeWhile p s) = true.
Proof.
  induction s as [|c s IH]; [reflexivity|]. cbn.
  destruct (p c) eqn:E; cbn; [now rewrite E | reflexivity].
Qed.

Lemma dropWhile_app (p : ascii -> bool) (a : string) (c : ascii) (b : string) :
  allChars p a = true -> p c = false ->
  dropWhile p (a ++ String c b) = String c b
  /\ takeWhile p (a ++ String c b) = a.
Proof.
  intros Ha Hc. induction a as [|x a IH]; cbn.
  - now rewrite Hc.
  - cbn in Ha. apply andb_prop in Ha as [Hx Ha]. rewrite Hx.
    destruct (IH Ha) as [-> ->]. now split.
Qed.

Lemma app_assoc (a b c : string) : (a ++ b) ++ c = a ++ (b ++ c).
Proof. induction a as [|x a IH]; cbn; [reflexivity | now rewrite IH]. Qed.

Lemma length_app (a b : string) :
  String.length (a ++ b) = (String.length a + String.length b)%nat.
Proof. induction a as [|c a IH]; cbn; [reflexivity | now rewrite IH]. Qed.

Lemma substring_prefix (a b : string) :
  String.substring 0 (String.length a) (a ++ b) = a.
Proof.
  induction a as [|c a IH]; cbn.
  - now destruct b.
  - now rewrite IH.
Qed.

(** the text a group captured is the prefix in front of the rest *)
Lemma consumed_app (a b : string) : consumed (a ++ b) b = a.
Proof.
  unfold consumed. rewrite length_app.
  replace (String.length a + String.length b - String.length b)%nat
    with (String.length a) by lia.
  apply substring_prefix.
Qed.

(** A greedy star in front of a continuation that cannot start with a
    character of the class takes the whole run: backtracking into the run
    cannot succeed. *)
Lemma exec_star_run (p : ascii -> bool) (k : Cont) (caps : list string) :
  (forall c t cs, p c = true -> k (String c t) cs = None) ->
  forall s, exec (Star p) s caps k = k (dropWhile p s) caps.
Proof.
  intros Hk s. cbn [exec].
  induction s as [|c s IH]; [reflexivity|].
  cbn [dropWhile]. destruct (p c) eqn:E; [|reflexivity].
  rewrite IH. destruct (k (dropWhile p s) caps) eqn:K; [reflexivity|].
  now apply Hk.
Qed.

Lemma colon_not_word (c : ascii) : isWord c = true -> Ascii.eqb ":" c = false.
Proof. by_char c. Qed.

Lemma matchStart_lineLabel (text : string) :
  matchStart lineLabelRe text = option_map (fun name => [name]) (lineLabel text).
Proof.
  unfold matchStart, lineLabelRe, Seq, Plus, Lit.
  destruct text as [|c rest]; [reflexivity|].
  cbn [exec lineLabel]. destruct (isWord c) eqn:Ec; [|reflexivity].
  change ((fix loop (t : string) : option (list string) := _) rest)
    with (exec (Star isWord) rest []
            (fun s' caps' =>
               match s' with
               | String c0 s'0 =>
                   if Ascii.eqb ":" c0
                   then Some (caps' ++ [consumed (String c rest) s'])%list
                   else None
               | EmptyString => None
               end)).
  rewrite exec_star_run.
  - destruct (dropWhile isWord rest) as [|d tl] eqn:Ed; [reflexivity|].
    destruct (Ascii.eqb ":" d); [|reflexivity].
    cbn [option_map app]. do 2 f_equal.
    rewrite <- Ed.
    change (String c rest) with (String c "" ++ rest).
    rewrite (take_drop isWord rest) at 1.
    rewrite <- app_assoc. rewrite consumed_app. reflexivity.
  - intros c0 t cs Hc0. now rewrite colon_not_word.
Qed.

Lemma lineLabel_spec (text name : string) :
  lineLabel text = Some name <-> beginsWithLabel text name.
Proof.
  split.
  - destruct text as [|c rest]; [discriminate|]. cbn [lineLabel].
    destruct (isWord c) eqn:Ec; [|discriminate].
    destruct (dropWhile isWord rest) as [|d tl] eqn:Ed; [discriminate|].
    destruct (Ascii.eqb_spec ":" d) as [<-|]; [|discriminate].
    intros [= <-]. repeat split.
    + discriminate.
    + cbn. rewrite Ec. apply takeWhile_all.
    + exists tl. cbn. f_equal. rewrite <- Ed. apply take_drop.
  - intros (Hne & Hall & rest & ->).
    destruct name as [|c name]; [congruence|].
    cbn in Hall. apply andb_prop in Hall as [Hc Hall].
    cbn [append lineLabel]. rewrite Hc.
    destruct (dropWhile_app isWord name ":" rest Hall eq_refl) as [Hd Ht].
    cbn [append]. rewrite Hd, Ht. reflexivity.
Qed.

Lemma matchStart_lineLabel_some (text name : string) :
  matchStart lineLabelRe text = Some [name] <-> beginsWithLabel text name.
Proof.
  rewrite matchStart_lineLabel, <- lineLabel_spec.
  destruct (lineLabel text); cbn; split; congruence.
Qed.

Lemma word_not_space (c : ascii) : isWord c = true -> isSpace c = false.
Proof. by_char c. Qed.

Lemma dropSpaceEnd_keeps (a rest : string) :
  dropSpaceEnd (a ++ String ":" rest) = a ++ String ":" (dropSpaceEnd rest).
Proof.
  induction a as [|c a IH].
  - cbn. now destruct (dropSpaceEnd rest).
  - change (String c a ++ String ":" rest)
      with (String c (a ++ String ":" rest)).
    cbn [dropSpaceEnd]. rewrite IH.
    destruct a; reflexivity.
Qed.

(** A raw line that begins with a label still does after [trim]. *)
Lemma trim_keeps_label (raw name : string) :
  beginsWithLabel raw name -> beginsWithLabel (trim raw) name.
Proof.
  intros (Hne & Hall & rest & ->). repeat split; try assumption.
  exists (dropSpaceEnd rest). unfold trim.
  destruct name as [|c name]; [congruence|].
  cbn in Hall. apply andb_prop in Hall as [Hc _].
  cbn [append dropSpace]. rewrite (word_not_space c Hc).
  apply (dropSpaceEnd_keeps (String c name) rest).
Qed.

Lemma definedLabel_spec (symbolMap : list SymbolInfo.t) (raw : string)
    (symbol : SymbolInfo.t) :
  definedLabel symbolMap raw = Some symbol <->
  exists name, beginsWithLabel (trim raw) name /\
               find (hasLabel name) symbolMap = Some symbol.
Proof.
  unfold definedLabel. split.
  - destruct (lineLabel (trim raw)) as [name|] eqn:E; [|discriminate].
    intros H. exists name. split; [now apply lineLabel_spec | exact H].
  - intros (name & Hb & Hf). apply lineLabel_spec in Hb. now rewrite Hb.
Qed.

End LabelFacts.

(** ** The fallback chain *)

Module FallbackFacts.
Import JS BreakpointManager Label Fallback LabelFacts.

Section Loop.
Variable symbolMap : list SymbolInfo.t.
Variable L : Z.

Local Abbreviation update := (Fallback.update symbolMap L).
Local Abbreviation lastCand := (Fallback.lastCand symbolMap L).
Local Abbreviation farEnough := (Fallback.farEnough L).

Lemma nearestLoop_cons (i : Z) (raw : string) (rest : list string)
    (nearest : option (SymbolInfo.t * Z)) :
  nearestLoop symbolMap L i (raw :: rest) nearest
  = nearestLoop symbolMap L (i + 1) rest (update i raw nearest).
Proof.
  cbn [nearestLoop]. f_equal. unfold update, definedLabel.
  rewrite matchStart_lineLabel.
  destruct (lineLabel (trim raw)); reflexivity.
Qed.

(** Scanning top to bottom every later candidate is strictly nearer, so
    the loop ends with the last candidate. *)
Lemma nearestLoop_last (lines : list string) :
  forall (i : Z) (nearest : option (SymbolInfo.t * Z)),
    farEnough i nearest ->
    nearestLoop symbolMap L i lines nearest
    = match lastCand i lines with
      | Some r => Some r
      | None => nearest
      end.
Proof.
  induction lines as [|raw rest IH]; intros i nearest Hfar; [reflexivity|].
  rewrite nearestLoop_cons. cbn [lastCand].
  assert (Hfar' : farEnough (i + 1) (update i raw nearest)).
  { unfold update.
    destruct (definedLabel symbolMap raw) as [symbol|].
    - destruct (i + 1 <=? L).
      + destruct nearest as [[s d]|]; cbn in *.
        * destruct (L - (i + 1) <? d); cbn; lia.
        * lia.
      + destruct nearest as [[s d]|]; cbn in *; [lia | exact I].
    - destruct nearest as [[s d]|]; cbn in *; [lia | exact I]. }
  rewrite (IH (i + 1) _ Hfar').
  destruct (lastCand (i + 1) rest) as [r|]; [reflexivity|].
  unfold update.
  destruct (definedLabel symbolMap raw) as [symbol|];
    destruct (i + 1 <=? L); cbn [option_map]; try reflexivity.
  destruct nearest as [[s d]|]; [|reflexivity].
  cbn in Hfar. destruct (Z.ltb_spec (L - (i + 1)) d); [reflexivity | lia].
Qed.

(** A candidate that is not strictly nearer than the stored one does
    not replace it. *)
Lemma nearestLoop_keeps (lines : list string) :
  forall (i : Z) (s0 : SymbolInfo.t) (d0 : Z),
    (forall (k : nat) (raw : string) (symbol : SymbolInfo.t),
        nth_error lines k = Some raw ->
        definedLabel symbolMap raw = Some symbol ->
        i + 1 + Z.of_nat k <= L ->
        d0 <= L - (i + 1 + Z.of_nat k)) ->
    nearestLoop symbolMap L i lines (Some (s0, d0)) = Some (s0, d0).
Proof.
  induction lines as [|raw rest IH]; intros i s0 d0 Hge; [reflexivity|].
  rewrite nearestLoop_cons.
  assert (Hup : update i raw (Some (s0, d0)) = Some (s0, d0)).
  { unfold update.
    destruct (definedLabel symbolMap raw) as [symbol|] eqn:E; [|reflexivity].
    destruct (Z.leb_spec (i + 1) L); [|reflexivity].
    specialize (Hge 0%nat raw symbol eq_refl E ltac:(cbn; lia)).
    cbn in Hge. destruct (Z.ltb_spec (L - (i + 1)) d0); [lia | reflexivity]. }
  rewrite Hup. apply IH.
  intros k raw' symbol Hn Hd Hle.
  specialize (Hge (S k) raw' symbol Hn Hd). lia.
Qed.

Lemma lastCand_none (lines : list string) :
  forall i : Z,
    (forall (k : nat) (raw : string),
        i + 1 + Z.of_nat k <= L ->
        nth_error lines k = Some raw ->
        definedLabel symbolMap raw = None) ->
    lastCand i lines = None.
Proof.
  induction lines as [|raw rest IH]; intros i Hnone; [reflexivity|].
  cbn [lastCand]. rewrite IH.
  - destruct (Z.leb_spec (i + 1) L); [|reflexivity].
    rewrite (Hnone 0%nat raw); [reflexivity | cbn; lia | reflexivity].
  - intros k raw' Hle Hn. apply (Hnone (S k) raw'); [lia | exact Hn].
Qed.

Lemma lastCand_at (lines : list string) :
  forall (i : Z) (k : nat) (raw : string) (symbol : SymbolInfo.t),
    nth_error lines k = Some raw ->
    definedLabel symbolMap raw = Some symbol ->
    i + 1 + Z.of_nat k <= L ->
    (forall (k' : nat) (raw' : string),
        (k < k')%nat -> i + 1 + Z.of_nat k' <= L ->
        nth_error lines k' = Some raw' ->
        definedLabel symbolMap raw' = None) ->
    lastCand i lines = Some (symbol, L - (i + 1 + Z.of_nat k)).
Proof.
  induction lines as [|raw0 rest IH]; intros i k raw symbol Hn Hd Hle Hlater.
  - destruct k; discriminate.
  - cbn [lastCand]. destruct k as [|k].
    + injection Hn as ->.
      rewrite lastCand_none.
      * destruct (Z.leb_spec (i + 1) L); [|cbn in Hle; lia].
        rewrite Hd. cbn. do 2 f_equal. lia.
      * intros k' raw' Hle' Hn'.
        apply (Hlater (S k') raw'); [lia | lia | exact Hn'].
    + rewrite (IH (i + 1) k raw symbol Hn Hd ltac:(lia)).
      * do 2 f_equal. lia.
      * intros k' raw' Hlt Hle' Hn'.
        apply (Hlater (S k') raw'); [lia | lia | exact Hn'].
Qed.

End Loop.

Lemma find_none {A} (p : A -> bool) (l : list A) :
  (forall x, In x l -> p x = false) -> find p l = None.
Proof.
  induction l as [|x l IH]; intros H; [reflexivity|]. cbn.
  rewrite (H x (or_introl eq_refl)). apply IH. intros y Hy. apply H. now right.
Qed.

Lemma fallback_taken (h : Host.t) (sourceFile : string) (L : Z)
    (symbolMap : list SymbolInfo.t) :
  noListingMatch h sourceFile L ->
  findAddressForSourceLine h sourceFile L symbolMap
  = findAddressUsingNearestLabel h sourceFile L symbolMap.
Proof.
  intros (workspace & Hws & Hcase).
  unfold findAddressForSourceLine. rewrite Hws.
  destruct Hcase as [Hex | [Hrd | (content & Hrd & Hno)]].
  - now rewrite Hex.
  - rewrite Hrd. now destruct (Host.existsSync h _).
  - rewrite Hrd. destruct (Host.existsSync h _); [|reflexivity]. cbn [negb].
    rewrite ListingFacts.scanListing_first.
    fold (Listing.listingEntries content).
    rewrite find_none; [reflexivity|].
    intros e He. unfold Listing.forLine. apply Z.eqb_neq. now apply Hno.
Qed.

(** The whole fallback: the symbol of the last label-defining line at or
    before the target line.  A label on the target line itself is that
    line at distance 0, which is what strategy 1 returns. *)
Lemma fallback_result (h : Host.t) (sourceFile sourceContent : string)
    (L : Z) (symbolMap : list SymbolInfo.t) :
  Host.readFileSync h sourceFile = Some sourceContent ->
  1 <= L <= Z.of_nat (List.length (splitLines sourceContent)) ->
  findAddressUsingNearestLabel h sourceFile L symbolMap
  = option_map (fun r => SymbolInfo.address (fst r))
               (lastCand symbolMap L 0 (splitLines sourceContent)).
Proof.
  intros Hread [Hlo Hhi]. unfold findAddressUsingNearestLabel.
  rewrite Hread. set (lines := splitLines sourceContent) in *.
  destruct (Z.ltb_spec (Z.of_nat (List.length lines)) L); [lia|].
  destruct (Z.ltb_spec L 1); [lia|].
  destruct (nth_error lines (Z.to_nat (L - 1))) as [raw|] eqn:Hn.
  2:{ apply nth_error_None in Hn. lia. }
  rewrite matchStart_lineLabel.
  rewrite (nearestLoop_last symbolMap L lines 0 None I).
  assert (Hstrategy1 :
    forall symbol, definedLabel symbolMap raw = Some symbol ->
                   lastCand symbolMap L 0 lines = Some (symbol, 0)).
  { intros symbol Hd.
    rewrite (lastCand_at symbolMap L lines 0 (Z.to_nat (L - 1)) raw symbol Hn Hd).
    - do 2 f_equal. lia.
    - lia.
    - intros k' raw' Hlt Hle _. lia. }
  unfold definedLabel in Hstrategy1.
  destruct (lineLabel (trim raw)) as [name|]; cbn [option_map].
  - destruct (find (hasLabel name) symbolMap) as [symbol|].
    + now rewrite (Hstrategy1 symbol eq_refl).
    + destruct (lastCand symbolMap L 0 lines) as [[s d]|]; reflexivity.
  - destruct (lastCand symbolMap L 0 lines) as [[s d]|]; reflexivity.
Qed.

(** A target line past the end of the source file is dropped by the guard
    in front of the chain, whatever labels precede it. *)
Lemma fallback_past_end (h : Host.t) (sourceFile sourceContent : string)
    (L : Z) (symbolMap : list SymbolInfo.t) :
  Host.readFileSync h sourceFile = Some sourceContent ->
  Z.of_nat (List.length (splitLines sourceContent)) < L ->
  findAddressUsingNearestLabel h sourceFile L symbolMap = None.
Proof.
  intros Hread Hlong. unfold findAddressUsingNearestLabel. rewrite Hread.
  now destruct (Z.ltb_spec (Z.of_nat (List.length (splitLines sourceContent))) L);
    [|lia].
Qed.

End FallbackFacts.

(** C3 (as amended). With a workspace folder open and the source file
    readable, when no listing entry matches the breakpoint's line [L], a
    line of the source file, resolution follows the fallback chain:
    - if line [L] begins with [identifier:] and the identifier is the label
      of a known symbol, that symbol's address is returned;
    - in general the address returned is that of the symbol of the
      label-defining line nearest at or before [L]: line [j <= L] defines a
      known label and no line after [j] up to [L] does;
    - in the scan, a candidate whose distance is not strictly smaller than
      the stored one never replaces it. *)
Theorem C3_fallback_chain
    (h : Host.t) (sourceFile sourceContent : string) (L : Z)
    (symbolMap : list SymbolInfo.t) :
  Fallback.noListingMatch h sourceFile L ->
  Host.readFileSync h sourceFile = Some sourceContent ->
  1 <= L <= Z.of_nat (List.length (JS.splitLines sourceContent)) ->
  let lines := JS.splitLines sourceContent in
  let result :=
    BreakpointManager.findAddressForSourceLine h sourceFile L symbolMap in
  (forall (raw name : string) (symbol : SymbolInfo.t),
      nth_error lines (Z.to_nat (L - 1)) = Some raw ->
      Label.beginsWithLabel raw name ->
      find (BreakpointManager.hasLabel name) symbolMap = Some symbol ->
      result = Some (SymbolInfo.address symbol))
  /\
  (forall (j : Z) (raw : string) (symbol : SymbolInfo.t),
      1 <= j <= L ->
      nth_error lines (Z.to_nat (j - 1)) = Some raw ->
      Label.definedLabel symbolMap raw = Some symbol ->
      (forall (j' : Z) (raw' : string),
          j < j' <= L ->
          nth_error lines (Z.to_nat (j' - 1)) = Some raw' ->
          Label.definedLabel symbolMap raw' = None) ->
      result = Some (SymbolInfo.address symbol))
  /\
  (forall (i : Z) (rest : list string) (s0 : SymbolInfo.t) (d0 : Z),
      (forall (k : nat) (raw : string) (symbol : SymbolInfo.t),
          nth_error rest k = Some raw ->
          Label.definedLabel symbolMap raw = Some symbol ->
          i + 1 + Z.of_nat k <= L ->
          d0 <= L - (i + 1 + Z.of_nat k)) ->
      BreakpointManager.nearestLoop symbolMap L i rest (Some (s0, d0))
      = Some (s0, d0)).
Proof.
  intros Hno Hread HL lines result.
  assert (Hres : result
                 = option_map (fun r => SymbolInfo.address (fst r))
                     (Fallback.lastCand symbolMap L 0 lines)).
  { unfold result. rewrite (FallbackFacts.fallback_taken _ _ _ _ Hno).
    apply FallbackFacts.fallback_result; assumption. }
  assert (Hnearest :
    forall (j : Z) (raw : string) (symbol : SymbolInfo.t),
      1 <= j <= L ->
      nth_error lines (Z.to_nat (j - 1)) = Some raw ->
      Label.definedLabel symbolMap raw = Some symbol ->
      (forall (j' : Z) (raw' : string),
          j < j' <= L ->
          nth_error lines (Z.to_nat (j' - 1)) = Some raw' ->
          Label.definedLabel symbolMap raw' = None) ->
      result = Some (SymbolInfo.address symbol)).
  { intros j raw symbol Hj Hn Hd Hlater. rewrite Hres.
    rewrite (FallbackFacts.lastCand_at symbolMap L lines 0 (Z.to_nat (j - 1))
               raw symbol Hn Hd); [reflexivity | lia |].
    intros k' raw' Hlt Hle Hn'.
    apply (Hlater (Z.of_nat k' + 1) raw'); [lia|].
    replace (Z.to_nat (Z.of_nat k' + 1 - 1)) with k' by lia. exact Hn'. }
  repeat split.
  - intros raw name symbol Hn Hb Hf.
    apply (Hnearest L raw symbol); [lia | exact Hn | | intros; lia].
    apply LabelFacts.definedLabel_spec. exists name.
    split; [now apply LabelFacts.trim_keeps_label | exact Hf].
  - exact Hnearest.
  - intros i rest s0 d0. apply FallbackFacts.nearestLoop_keeps.
Qed.

(** The scenario of the specification: [loop:] on line 10 of [demo.a80], no
    listing entry for line 10, symbol [loop] at 0x6010. *)
Lemma C3_fallback_chain_witness :
  BreakpointManager.findAddressForSourceLine Fixtures.hostDemo "/ws/demo.a80" 10
    (BreakpointManager.parseBdsFile Fixtures.hostDemo "/ws/.zout/demo.bds")
  = Some 0x6010.
Proof.
  assert (Hno : Fallback.noListingMatch Fixtures.hostDemo "/ws/demo.a80" 10).
  { exists "/ws". split; [reflexivity|]. right. right.
    exists Fixtures.demoListing. split; [reflexivity|].
    intros e [<-|[<-|[]]]; cbn; lia. }
  assert (Hread : Host.readFileSync Fixtures.hostDemo "/ws/demo.a80"
                  = Some Fixtures.demoSource) by reflexivity.
  assert (HL : 1 <= 10 <= Z.of_nat (List.length (JS.splitLines Fixtures.demoSource)))
    by (vm_compute; split; discriminate).
  destruct (C3_fallback_chain Fixtures.hostDemo "/ws/demo.a80"
              Fixtures.demoSource 10
              (BreakpointManager.parseBdsFile Fixtures.hostDemo "/ws/.zout/demo.bds")
              Hno Hread HL) as (Hlabel & _ & _).
  apply (Hlabel "loop:   djnz loop" "loop"
           (BreakpointManager.mkSymbol 0x6010 "loop" None (Some 2))).
  - reflexivity.
  - repeat split; [discriminate | exists "   djnz loop"; reflexivity].
  - reflexivity.
Defined.

(** C3 as stated fails on the guards in front of the chain.  A line past
    the end of the source file (here line 20 of the 11 lines of [demo.a80],
    with [loop:] on line 10 the nearest label before it) is not resolved at
    all; and without a workspace folder nothing is resolved, not even a
    line that carries a known label (line 10). *)
Lemma C3_fallback_guards_counterexample :
  ~ (forall (h : Host.t) (sourceFile sourceContent : string) (L : Z)
            (symbolMap : list SymbolInfo.t),
        Fallback.noListingMatch h sourceFile L ->
        Host.readFileSync h sourceFile = Some sourceContent ->
        forall (j : Z) (raw : string) (symbol : SymbolInfo.t),
          1 <= j <= L ->
          nth_error (JS.splitLines sourceContent) (Z.to_nat (j - 1)) = Some raw ->
          Label.definedLabel symbolMap raw = Some symbol ->
          (forall (j' : Z) (raw' : string),
              j < j' <= L ->
              nth_error (JS.splitLines sourceContent) (Z.to_nat (j' - 1))
              = Some raw' ->
              Label.definedLabel symbolMap raw' = None) ->
          BreakpointManager.findAddressForSourceLine h sourceFile L symbolMap
          = Some (SymbolInfo.address symbol))
  /\
  ~ (forall (h : Host.t) (sourceFile sourceContent : string) (L : Z)
            (symbolMap : list SymbolInfo.t),
        Fallback.noEntryFor h sourceFile L ->
        Host.readFileSync h sourceFile = Some sourceContent ->
        1 <= L <= Z.of_nat (List.length (JS.splitLines sourceContent)) ->
        forall (raw name : string) (symbol : SymbolInfo.t),
          nth_error (JS.splitLines sourceContent) (Z.to_nat (L - 1)) = Some raw ->
          Label.beginsWithLabel raw name ->
          find (BreakpointManager.hasLabel name) symbolMap = Some symbol ->
          BreakpointManager.findAddressForSourceLine h sourceFile L symbolMap
          = Some (SymbolInfo.address symbol)).
Proof.
  split.
  - intros H.
    assert (Hno : Fallback.noListingMatch Fixtures.hostDemo "/ws/demo.a80" 20).
    { exists "/ws". split; [reflexivity|]. right. right.
      exists Fixtures.demoListing. split; [reflexivity|].
      intros e [<-|[<-|[]]]; cbn; lia. }
    specialize (H Fixtures.hostDemo "/ws/demo.a80" Fixtures.demoSource 20
                  (BreakpointManager.parseBdsFile Fixtures.hostDemo
                     "/ws/.zout/demo.bds")
                  Hno eq_refl 10 "loop:   djnz loop"
                  (BreakpointManager.mkSymbol 0x6010 "loop" None (Some 2))
                  ltac:(lia) eq_refl eq_refl).
    assert (Hlater : forall (j' : Z) (raw' : string),
               10 < j' <= 20 ->
               nth_error (JS.splitLines Fixtures.demoSource) (Z.to_nat (j' - 1))
               = Some raw' ->
               Label.definedLabel
                 (BreakpointManager.parseBdsFile Fixtures.hostDemo
                    "/ws/.zout/demo.bds") raw' = None).
    { intros j' raw' Hj Hn.
      assert (Hcases : j' = 11 \/ 12 <= j' <= 20) by lia.
      destruct Hcases as [->|Hfar].
      - vm_compute in Hn. injection Hn as <-. reflexivity.
      - exfalso.
        assert (Hnone : nth_error (JS.splitLines Fixtures.demoSource)
                          (Z.to_nat (j' - 1)) = None).
        { apply nth_error_None.
          change (List.length (JS.splitLines Fixtures.demoSource))
            with 11%nat. lia. }
        congruence. }
    specialize (H Hlater). vm_compute in H. discriminate H.
  - intros H.
    assert (Hno : Fallback.noEntryFor Scenarios.hostNoFolder "/ws/demo.a80" 10).
    { intros workspace content Hws. discriminate Hws. }
    specialize (H Scenarios.hostNoFolder "/ws/demo.a80" Fixtures.demoSource 10
                  (BreakpointManager.parseBdsFile Scenarios.hostNoFolder
                     "/ws/.zout/demo.bds")
                  Hno eq_refl ltac:(vm_compute; split; discriminate)
                  "loop:   djnz loop" "loop"
                  (BreakpointManager.mkSymbol 0x6010 "loop" None (Some 2))
                  eq_refl).
    assert (Hb : Label.beginsWithLabel "loop:   djnz loop" "loop")
      by (repeat split; [discriminate | exists "   djnz loop"; reflexivity]).
    specialize (H Hb eq_refl). vm_compute in H. discriminate H.
Qed.

(** ** The entry point *)

Module EntryFacts.
Import JS BreakpointManager Entry.

Lemma findEntryLine_cons (line : string) (rest : list string) :
  findEntryLine (line :: rest)
  = match entryMarker line with
    | Some a => Some a
    | None => findEntryLine rest
    end.
Proof.
  cbn [findEntryLine]. unfold entryMarker.
  destruct (matchStart entryRe (trim line)) as [[|s1 [|s2 caps]]|];
    reflexivity.
Qed.

Lemma findEntryLine_first (pre : list string) (line : string)
    (post : list string) (a : Z) :
  (forall l, In l pre -> entryMarker l = None) ->
  entryMarker line = Some a ->
  findEntryLine (pre ++ line :: post) = Some a.
Proof.
  intros Hpre Hline. induction pre as [|l pre IH].
  - cbn [app]. now rewrite findEntryLine_cons, Hline.
  - cbn [app]. rewrite findEntryLine_cons, (Hpre l (or_introl eq_refl)).
    apply IH. intros l' Hl'. apply Hpre. now right.
Qed.

Lemma findEntryLine_none (lines : list string) :
  (forall l, In l lines -> entryMarker l = None) ->
  findEntryLine lines = None.
Proof.
  induction lines as [|l lines IH]; intros H; [reflexivity|].
  rewrite findEntryLine_cons, (H l (or_introl eq_refl)).
  apply IH. intros l' Hl'. apply H. now right.
Qed.

Lemma parseBdsFile_read (h : Host.t) (bdsFile content : string) :
  bdsRead h bdsFile content -> parseBdsFile h bdsFile = parseBdsText content.
Proof. intros [He Hr]. unfold parseBdsFile. now rewrite He, Hr. Qed.

Lemma isMain_spec (s : SymbolInfo.t) : isMain s = true <-> mainLike s.
Proof. unfold isMain, mainLike. apply String.eqb_eq. Qed.

Lemma isMain_false (s : SymbolInfo.t) : isMain s = false <-> ~ mainLike s.
Proof. unfold isMain, mainLike. apply String.eqb_neq. Qed.

(** [getEntryPoint] once no line is an entry marker *)
Lemma getEntryPoint_no_marker (h : Host.t) (bdsFile content : string) :
  bdsRead h bdsFile content ->
  (forall l, In l (splitLines content) -> entryMarker l = None) ->
  getEntryPoint h bdsFile
  = match find isMain (parseBdsText content) with
    | Some mainSymbol => Some (SymbolInfo.address mainSymbol)
    | None => match parseBdsText content with
              | first :: _ => Some (SymbolInfo.address first)
              | [] => None
              end
    end.
Proof.
  intros Hread Hnone. unfold getEntryPoint.
  rewrite (parseBdsFile_read h bdsFile content Hread).
  destruct Hread as [-> ->]. cbn [negb].
  now rewrite (findEntryLine_none _ Hnone).
Qed.

End EntryFacts.

(** C4 (as amended). With the symbol file read as [content], the entry
    point is, in this order of priority: the address on the first
    entry-marker line; else the address of the first symbol whose label is
    [main] compared without regard to case; else the address of the first
    symbol in file order; else none.  In debug mode, when no breakpoint
    resolves, the breakpoint flags are one [-b] with that address in
    upper-case hexadecimal, and no flag at all when there is no entry
    point. *)
Theorem C4_entry_point_priority (h : Host.t) (bdsFile content : string) :
  Entry.bdsRead h bdsFile content ->
  let lines := JS.splitLines content in
  let symbolMap := BreakpointManager.parseBdsText content in
  let entry := BreakpointManager.getEntryPoint h bdsFile in
  (forall (pre : list string) (line : string) (post : list string) (a : Z),
      lines = (pre ++ line :: post)%list ->
      (forall l, In l pre -> Entry.entryMarker l = None) ->
      Entry.entryMarker line = Some a ->
      entry = Some a)
  /\
  ((forall l, In l lines -> Entry.entryMarker l = None) ->
   forall (pre : list SymbolInfo.t) (s : SymbolInfo.t) (post : list SymbolInfo.t),
     symbolMap = (pre ++ s :: post)%list ->
     (forall s', In s' pre -> ~ Entry.mainLike s') ->
     Entry.mainLike s ->
     entry = Some (SymbolInfo.address s))
  /\
  ((forall l, In l lines -> Entry.entryMarker l = None) ->
   (forall s, In s symbolMap -> ~ Entry.mainLike s) ->
   forall (first : SymbolInfo.t) (rest : list SymbolInfo.t),
     symbolMap = first :: rest ->
     entry = Some (SymbolInfo.address first))
  /\
  ((forall l, In l lines -> Entry.entryMarker l = None) ->
   symbolMap = [] -> entry = None)
  /\
  (forall assemblyResult : AssemblyResult.t,
      OutputFiles.bds (AssemblyResult.outputFiles assemblyResult) = Some bdsFile ->
      bdsFile <> "" ->
      BreakpointManager.getBreakpointAddresses h bdsFile = [] ->
      TRS80Commands.prepareBreakpointArgs h assemblyResult true
      = match entry with
        | Some a => ["-b"; BreakpointManager.renderAddress a]
        | None => []
        end).
Proof.
  intros Hread lines symbolMap entry.
  repeat split.
  - intros pre line post a Hlines Hpre Hline.
    unfold entry, BreakpointManager.getEntryPoint.
    destruct Hread as [-> ->]. cbn [negb].
    fold lines. rewrite Hlines.
    now rewrite (EntryFacts.findEntryLine_first pre line post a Hpre Hline).
  - intros Hnone pre s post Hsyms Hpre Hs.
    unfold entry. rewrite (EntryFacts.getEntryPoint_no_marker h bdsFile content Hread Hnone).
    fold symbolMap. rewrite Hsyms.
    rewrite ListingFacts.find_first; [reflexivity | | now apply EntryFacts.isMain_spec].
    intros y Hy. apply EntryFacts.isMain_false. now apply Hpre.
  - intros Hnone Hnomain first rest Hsyms.
    unfold entry. rewrite (EntryFacts.getEntryPoint_no_marker h bdsFile content Hread Hnone).
    fold symbolMap. rewrite FallbackFacts.find_none.
    + now rewrite Hsyms.
    + intros s Hs. apply EntryFacts.isMain_false. now apply Hnomain.
  - intros Hnone Hsyms.
    unfold entry. rewrite (EntryFacts.getEntryPoint_no_marker h bdsFile content Hread Hnone).
    fold symbolMap. now rewrite Hsyms.
  - intros assemblyResult Hbds Hne Hnobp.
    unfold TRS80Commands.prepareBreakpointArgs. rewrite Hbds, Hnobp.
    apply String.eqb_neq in Hne. rewrite Hne. cbn [andb negb].
    fold entry. destruct entry; reflexivity.
Qed.

(** The whole resolver on that scenario: one breakpoint, at 0x6010. *)
Example demo_breakpoint_resolved :
  BreakpointManager.getBreakpointAddresses Fixtures.hostDemo "/ws/.zout/demo.bds"
  = [ {| BreakpointInfo.address := 0x6010;
         BreakpointInfo.file := "/ws/demo.a80";
         BreakpointInfo.line := 10;
         BreakpointInfo.label := Some "line_10" |} ]
  /\ BreakpointManager.formatBreakpointsForEmulator
       (BreakpointManager.getBreakpointAddresses Fixtures.hostDemo
          "/ws/.zout/demo.bds")
     = ["-b"; "6010"].
Proof. split; reflexivity. Qed.

(** The scenario of the specification: no breakpoints, an entry marker at
    0x5000: exactly one flag, for 5000. *)
Lemma C4_entry_point_priority_witness :
  TRS80Commands.prepareBreakpointArgs Fixtures.hostEntry
    {| AssemblyResult.success := true;
       AssemblyResult.stdout := ""; AssemblyResult.stderr := "";
       AssemblyResult.outputFiles :=
         {| OutputFiles.bds := Some "/ws/.zout/demo.bds";
            OutputFiles.cmd := None; OutputFiles.lst := None |};
       AssemblyResult.errors := [] |} true
  = ["-b"; "5000"].
Proof.
  assert (Hread : Entry.bdsRead Fixtures.hostEntry "/ws/.zout/demo.bds"
                    Fixtures.entryBds) by (split; reflexivity).
  destruct (C4_entry_point_priority Fixtures.hostEntry "/ws/.zout/demo.bds"
              Fixtures.entryBds Hread) as (Hmarker & _ & _ & _ & Hflags).
  rewrite Hflags; [| reflexivity | discriminate | reflexivity].
  rewrite (Hmarker
             [ "binary-debuggable-source"; "0000 0000 f demo.a80";
               "5000 5000 s start:  ld a,42"; "5000 5000 d 3e2a";
               "5002 5002 s main:   ret"; "5002 5002 d c9" ]
             "5000 e" [ "5000 a start"; "5002 a main" ] 0x5000).
  - reflexivity.
  - reflexivity.
  - intros l Hl. repeat (destruct Hl as [<-|Hl]; [reflexivity|]). destruct Hl.
  - reflexivity.
Defined.

(** C4 as stated fails on the label test: with no entry marker and no
    symbol labelled [main], the claim names the first symbol ([start],
    0x5000); the code compares labels in lower case and returns the address
    of [MAIN], 0x6000. *)
Lemma C4_literal_main_counterexample :
  ~ (forall (h : Host.t) (bdsFile content : string),
        Entry.bdsRead h bdsFile content ->
        (forall l, In l (JS.splitLines content) -> Entry.entryMarker l = None) ->
        (forall s, In s (BreakpointManager.parseBdsText content) ->
                   SymbolInfo.label s <> "main") ->
        forall (first : SymbolInfo.t) (rest : list SymbolInfo.t),
          BreakpointManager.parseBdsText content = first :: rest ->
          BreakpointManager.getEntryPoint h bdsFile
          = Some (SymbolInfo.address first)).
Proof.
  intros H.
  specialize (H Fixtures.hostUpperMain "/ws/.zout/demo.bds" Fixtures.upperMainBds).
  assert (Hread : Entry.bdsRead Fixtures.hostUpperMain "/ws/.zout/demo.bds"
                    Fixtures.upperMainBds) by (split; reflexivity).
  assert (Hnone : forall l, In l (JS.splitLines Fixtures.upperMainBds) ->
                            Entry.entryMarker l = None).
  { intros l Hl. repeat (destruct Hl as [<-|Hl]; [reflexivity|]). destruct Hl. }
  assert (Hlit : forall s, In s (BreakpointManager.parseBdsText Fixtures.upperMainBds) ->
                           SymbolInfo.label s <> "main").
  { intros s Hs. repeat (destruct Hs as [<-|Hs]; [discriminate|]). destruct Hs. }
  specialize (H Hread Hnone Hlit _ _ eq_refl).
  vm_compute in H. discriminate H.
Qed.

(** ** Assembly: staleness check and result *)

Module AssemblyFacts.
Import ZmacAssembler Assembly.

Section Settle.
Variable h : Host.t.
Variable run : ChildProcess.Run.
Variables sourceFile fullOutputDir sourceBaseName : string.

Lemma settle_close (pre post : list ChildProcess.Event) (code : option Z) :
  forallb isData pre = true ->
  forall stdout stderr,
  exists result,
    settle h run sourceFile fullOutputDir sourceBaseName
           (pre ++ ChildProcess.Close code :: post) stdout stderr
    = Resolved result /\
    AssemblyResult.success result
    = match code with Some c => c =? 0 | None => false end.
Proof.
  induction pre as [|e pre IH]; intros Hpre stdout stderr.
  - cbn. eexists. split; reflexivity.
  - cbn in Hpre. apply andb_prop in Hpre as [He Hpre].
    destruct e; try discriminate He; cbn [app settle]; now apply IH.
Qed.

Lemma settle_error (pre post : list ChildProcess.Event) (message : string) :
  forallb isData pre = true ->
  forall stdout stderr,
    settle h run sourceFile fullOutputDir sourceBaseName
           (pre ++ ChildProcess.Error message :: post) stdout stderr
    = Resolved
        {| AssemblyResult.success := false;
           AssemblyResult.stdout := "";
           AssemblyResult.stderr := message;
           AssemblyResult.outputFiles := OutputFiles.empty;
           AssemblyResult.errors :=
             [mkError sourceFile (JS.Finite 1)
                ("Failed to start zmac: " ++ message) error] |}.
Proof.
  induction pre as [|e pre IH]; intros Hpre stdout stderr; [reflexivity|].
  cbn in Hpre. apply andb_prop in Hpre as [He Hpre].
  destruct e; try discriminate He; cbn [app settle]; now apply IH.
Qed.
End Settle.

(** Once the directory is ready, [assemble] spawns the assembler and hands
    back the promise its handlers settle. *)
Lemma assemble_spawns (h : Host.t) (run : ChildProcess.Run)
    (sourceFile outputDir zmacPath workspace : string)
    (zmacArgs : list string) :
  Host.workspaceFolder h = Some workspace ->
  outputDirReady h workspace outputDir ->
  let fullOutputDir := Host.join h [workspace; outputDir] in
  In (Spawn zmacPath (["--od"; fullOutputDir] ++ zmacArgs ++ [sourceFile])%list
            workspace)
     (fst (assemble h run sourceFile outputDir zmacPath zmacArgs)) /\
  snd (assemble h run sourceFile outputDir zmacPath zmacArgs)
  = settle h run sourceFile fullOutputDir (Host.basenameNoExt h sourceFile)
           (ChildProcess.events run) "" "".
Proof.
  intros Hws Hready fullOutputDir. unfold assemble. rewrite Hws.
  fold fullOutputDir.
  assert (Hno : negb (Host.existsSync h fullOutputDir)
                && Host.mkdirSyncThrows h fullOutputDir = false).
  { destruct Hready as [He | Hm].
    - fold fullOutputDir in He. now rewrite He.
    - fold fullOutputDir in Hm. rewrite Hm. apply andb_false_r. }
  rewrite Hno. cbn [fst snd]. split; [|reflexivity].
  apply in_or_app. right. now left.
Qed.

End AssemblyFacts.

(** C5. With the [.bds] artifact present and both modification times
    readable: if the source is not strictly newer than the artifact,
    [performAssembly] performs no effect at all (no child is spawned) and
    resolves to a result with [success = true] and no diagnostics; if the
    source is strictly newer, the assembler is spawned.  This is what
    [performAssembly] does from [const sourceBaseName = ...] on, and so
    what it does whenever it is passed a source file and a
    configuration. *)
Theorem C5_assembly_skipped_when_not_newer
    (h : Host.t) (run : ChildProcess.Run) (config : TRS80Commands.Config)
    (sourceFile workspace : string) (sourceMtime bdsMtime : Z) :
  let outputDir := TRS80Commands.outputDir config in
  let zmacPath := TRS80Commands.zmacPath config in
  let zmacArgs := TRS80Commands.zmacArgs config in
  let fullOutputDir := Host.join h [workspace; outputDir] in
  let outputBds :=
    Host.join h [fullOutputDir; Host.basenameNoExt h sourceFile ++ ".bds"] in
  let outcome := TRS80Commands.assembleSource h run sourceFile config in
  Host.workspaceFolder h = Some workspace ->
  Host.existsSync h outputBds = true ->
  Host.mtimeMs h sourceFile = Some sourceMtime ->
  Host.mtimeMs h outputBds = Some bdsMtime ->
  (sourceMtime <= bdsMtime ->
     ZmacAssembler.needsAssembly h sourceFile outputBds = false /\
     fst outcome = [] /\
     exists result,
       snd outcome = Resolved (Some result) /\
       AssemblyResult.success result = true /\
       AssemblyResult.errors result = [])
  /\
  (bdsMtime < sourceMtime ->
     Assembly.outputDirReady h workspace outputDir ->
     ZmacAssembler.needsAssembly h sourceFile outputBds = true /\
     In (TRS80Commands.Did
           (Spawn zmacPath
              (["--od"; fullOutputDir] ++ zmacArgs ++ [sourceFile])%list
              workspace))
        (fst outcome))
  /\
  (sourceFile <> "" ->
   forall (ed : TRS80Commands.Editor)
          (getConfiguration : TRS80Commands.Config + string),
     TRS80Commands.performAssembly h ed run getConfiguration (Some sourceFile)
       (Some config)
     = outcome).
Proof.
  intros outputDir zmacPath zmacArgs fullOutputDir outputBds outcome
         Hws Hex Hsrc Hbds.
  assert (Hneeds : ZmacAssembler.needsAssembly h sourceFile outputBds
                   = (bdsMtime <? sourceMtime)).
  { unfold ZmacAssembler.needsAssembly. now rewrite Hex, Hsrc, Hbds. }
  split; [|split].
  - intros Hle. unfold outcome, TRS80Commands.assembleSource. rewrite Hws.
    fold outputDir. fold fullOutputDir. fold outputBds. rewrite Hneeds.
    destruct (Z.ltb_spec bdsMtime sourceMtime); [lia|].
    cbn [negb fst snd]. repeat split. eexists. repeat split.
  - intros Hlt Hready. unfold outcome, TRS80Commands.assembleSource.
    rewrite Hws.
    fold outputDir. fold fullOutputDir. fold outputBds. rewrite Hneeds.
    destruct (Z.ltb_spec bdsMtime sourceMtime); [|lia].
    split; [reflexivity|]. cbn [negb].
    destruct (AssemblyFacts.assemble_spawns h run sourceFile outputDir
                zmacPath workspace zmacArgs Hws Hready) as [Hin _].
    fold fullOutputDir in Hin. fold zmacPath. fold zmacArgs.
    apply (in_map TRS80Commands.Did) in Hin.
    destruct (ZmacAssembler.assemble h run sourceFile outputDir zmacPath zmacArgs)
      as [effects [result| reason |]]; cbn [fst] in *;
      try destruct (negb (AssemblyResult.success result)); exact Hin.
  - intros Hgiven ed getConfiguration. apply String.eqb_neq in Hgiven.
    unfold TRS80Commands.performAssembly. cbn [TRS80Commands.present].
    rewrite Hgiven. cbn [TRS80Commands.present]. rewrite Hgiven.
    unfold outcome.
    now destruct (TRS80Commands.assembleSource h run sourceFile config).
Qed.

Lemma C5_assembly_skipped_when_not_newer_witness :
  (exists result,
      TRS80Commands.performAssembly Fixtures.hostFresh Scenarios.editor
        Fixtures.runOneError (inl Scenarios.config) (Some "/ws/demo.a80")
        (Some Scenarios.config)
      = ([], Resolved (Some result))
      /\ AssemblyResult.success result = true
      /\ AssemblyResult.errors result = [])
  /\
  In (TRS80Commands.Did
        (Spawn "zmac" ["--od"; "/ws/.zout"; "-L"; "/ws/demo.a80"] "/ws"))
     (fst (TRS80Commands.performAssembly Fixtures.hostStale Scenarios.editor
             Fixtures.runOneError (inl Scenarios.config) (Some "/ws/demo.a80")
             (Some Scenarios.config))).
Proof.
  split.
  - destruct (C5_assembly_skipped_when_not_newer Fixtures.hostFresh
                Fixtures.runOneError Scenarios.config "/ws/demo.a80" "/ws"
                1000 2000 eq_refl eq_refl eq_refl eq_refl)
      as (Hskip & _ & Hgiven).
    destruct (Hskip ltac:(lia)) as (_ & Hfx & result & Hres & Hs & He).
    exists result. repeat split; try assumption.
    rewrite (Hgiven ltac:(discriminate)).
    rewrite <- Hfx, <- Hres. apply surjective_pairing.
  - destruct (C5_assembly_skipped_when_not_newer Fixtures.hostStale
                Fixtures.runOneError Scenarios.config "/ws/demo.a80" "/ws"
                3000 2000 eq_refl eq_refl eq_refl eq_refl)
      as (_ & Hspawn & Hgiven).
    rewrite (Hgiven ltac:(discriminate)).
    apply Hspawn; [lia | left; reflexivity].
Defined.

(** C6. When the assembler is spawned and the first settling event is its
    ['close'], the result's [success] is true exactly when the exit code is
    0, whatever was written to standard output and standard error before.
    When the first settling event is ['error'] (the process could not be
    spawned), the promise still resolves: [success] is false and the
    diagnostics are one synthetic error for the requested source file. *)
Theorem C6_exit_code_decides_success
    (h : Host.t) (run : ChildProcess.Run)
    (sourceFile outputDir zmacPath workspace : string)
    (zmacArgs : list string)
    (pre post : list ChildProcess.Event) :
  let promise :=
    snd (ZmacAssembler.assemble h run sourceFile outputDir zmacPath zmacArgs) in
  Host.workspaceFolder h = Some workspace ->
  Assembly.outputDirReady h workspace outputDir ->
  forallb Assembly.isData pre = true ->
  (forall code : option Z,
      ChildProcess.events run = (pre ++ ChildProcess.Close code :: post)%list ->
      exists result,
        promise = Resolved result /\
        (AssemblyResult.success result = true <-> code = Some 0))
  /\
  (forall message : string,
      ChildProcess.events run = (pre ++ ChildProcess.Error message :: post)%list ->
      exists result diagnostic,
        promise = Resolved result /\
        AssemblyResult.success result = false /\
        AssemblyResult.errors result = [diagnostic] /\
        AssemblyError.file diagnostic = sourceFile /\
        AssemblyError.severity diagnostic = error).
Proof.
  intros promise Hws Hready Hpre.
  destruct (AssemblyFacts.assemble_spawns h run sourceFile outputDir zmacPath
              workspace zmacArgs Hws Hready) as [_ Hsnd].
  unfold promise. rewrite Hsnd. split.
  - intros code Hev. rewrite Hev.
    destruct (AssemblyFacts.settle_close h run sourceFile
                (Host.join h [workspace; outputDir])
                (Host.basenameNoExt h sourceFile) pre post code Hpre "" "")
      as (result & Hres & Hsucc).
    exists result. split; [exact Hres|]. rewrite Hsucc.
    destruct code as [c|].
    + rewrite Z.eqb_eq. split; congruence.
    + split; discriminate.
  - intros message Hev. rewrite Hev.
    rewrite (AssemblyFacts.settle_error h run sourceFile
               (Host.join h [workspace; outputDir])
               (Host.basenameNoExt h sourceFile) pre post message Hpre "" "").
    do 2 eexists. repeat split.
Qed.

Lemma C6_exit_code_decides_success_witness :
  (exists result,
      snd (ZmacAssembler.assemble Fixtures.hostStale Fixtures.runWarning
             "/ws/demo.a80" ".zout" "zmac" [])
      = Resolved result
      /\ (AssemblyResult.success result = true <-> Some 0 = Some 0))
  /\
  (exists result diagnostic,
      snd (ZmacAssembler.assemble Fixtures.hostStale Fixtures.runNoBinary
             "/ws/demo.a80" ".zout" "zmac" [])
      = Resolved result
      /\ AssemblyResult.success result = false
      /\ AssemblyResult.errors result = [diagnostic]
      /\ AssemblyError.file diagnostic = "/ws/demo.a80"
      /\ AssemblyError.severity diagnostic = error).
Proof.
  split.
  - destruct (C6_exit_code_decides_success Fixtures.hostStale Fixtures.runWarning
                "/ws/demo.a80" ".zout" "zmac" "/ws" []
                [ ChildProcess.StdoutData "zmac";
                  ChildProcess.StderrData
                    ("File 'demo.a80', line 3: warning: value truncated"
                       ++ Fixtures.nl) ]
                [] eq_refl (or_introl eq_refl) eq_refl) as [Hclose _].
    apply (Hclose (Some 0)). reflexivity.
  - destruct (C6_exit_code_decides_success Fixtures.hostStale Fixtures.runNoBinary
                "/ws/demo.a80" ".zout" "zmac" "/ws" []
                [] [ChildProcess.Close (Some (-2))]
                eq_refl (or_introl eq_refl) eq_refl) as [_ Herror].
    apply (Herror "spawn zmac ENOENT"). reflexivity.
Defined.

(** A zero exit code with diagnostic text on standard error is a success
    that carries the diagnostic. *)
Example warning_run_succeeds :
  exists result,
    snd (ZmacAssembler.assemble Fixtures.hostStale Fixtures.runWarning
           "/ws/demo.a80" ".zout" "zmac" [])
    = Resolved result
    /\ AssemblyResult.success result = true
    /\ map AssemblyError.severity (AssemblyResult.errors result) = [warning].
Proof. eexists. repeat split. Qed.

(** The scenario of the specification: one syntax error, exit code 1. *)
Example one_error_run_fails :
  exists result,
    snd (ZmacAssembler.assemble Fixtures.hostStale Fixtures.runOneError
           "/ws/demo.a80" ".zout" "zmac" [])
    = Resolved result
    /\ AssemblyResult.success result = false
    /\ AssemblyResult.errors result
       = [ZmacAssembler.mkError "demo.a80" (JS.Finite 7)
            "Undefined symbol 'foo'" error].
Proof. eexists. repeat split. Qed.

(** ** Configuration fallback *)

Module ConfigFacts.
Import JSValue TRS80Config Config.


Lemma path_ok (v dflt : jsval) (b : bool) :
  blank v = Some b -> nonBlankString dflt ->
  nonBlankString (if b then dflt else v).
Proof.
  intros Hb Hd. destruct b; [exact Hd|].
  unfold blank in Hb. destruct (truthy v); [|discriminate].
  destruct v; try discriminate. cbn in Hb. injection Hb as Hb.
  exists s. split; [reflexivity|]. now apply String.eqb_neq.
Qed.

Lemma target_fallback (v dflt : jsval) :
  isTarget dflt ->
  isTarget (if negb (truthy v) || negb (isModel v) then dflt else v).
Proof.
  intros Hd. destruct (negb (truthy v) || negb (isModel v)) eqn:E; [exact Hd|].
  apply orb_false_elim in E as [_ E]. apply negb_false_iff in E.
  destruct v; try discriminate. cbn in E. unfold isTarget.
  apply orb_prop in E as [E|E]; [apply orb_prop in E as [E|E]|];
    apply String.eqb_eq in E; subst; auto.
Qed.

Lemma autoAssemble_fallback (v dflt : jsval) :
  defined dflt -> defined (if nullish v then dflt else v).
Proof.
  intros Hd. destruct v; cbn; try exact Hd; split; discriminate.
Qed.

Lemma default_path_ok : nonBlankString ConfigurationManagerPart004.DEFAULT_emulatorPath
                        /\ nonBlankString ConfigurationManagerPart004.DEFAULT_zmacPath
                        /\ nonBlankString ConfigurationManagerPart004.DEFAULT_outputDir.
Proof. repeat split; eexists; (split; [reflexivity | discriminate]). Qed.

Lemma ensure004_minimal (config cfg : TRS80Config.t) :
  ConfigurationManagerPart004.ensureMinimalConfiguration config = Some cfg ->
  minimal cfg /\ isNonEmptyArray (emulatorArgs cfg)
  /\ (ConfigurationManagerPart004.nonEmptyArray (emulatorArgs config) = true ->
      emulatorArgs cfg = emulatorArgs config)
  /\ (ConfigurationManagerPart004.nonEmptyArray (emulatorArgs config) = false ->
      emulatorArgs cfg = JArr [JStr "-m3"]).
Proof.
  unfold ConfigurationManagerPart004.ensureMinimalConfiguration.
  destruct (blank (emulatorPath config)) as [b1|] eqn:B1; [|discriminate].
  destruct (blank (zmacPath config)) as [b2|] eqn:B2; [|discriminate].
  destruct (blank (outputDir config)) as [b3|] eqn:B3; [|discriminate].
  intros [= <-]. destruct default_path_ok as (D1 & D2 & D3).
  repeat split; cbn [emulatorPath zmacPath outputDir target autoAssemble emulatorArgs].
  - now apply path_ok.
  - now apply path_ok.
  - now apply path_ok.
  - apply target_fallback. right. now left.
  - destruct (autoAssemble config); cbn; discriminate.
  - destruct (autoAssemble config); cbn; discriminate.
  - destruct (ConfigurationManagerPart004.nonEmptyArray (emulatorArgs config)) eqn:E.
    + destruct (emulatorArgs config) as [| | | | |[|x rest]|]; try discriminate.
      now exists x, rest.
    + now exists (JStr "-m3"), [].
  - now intros ->.
  - now intros ->.
Qed.

Lemma ensure_minimal (config cfg : TRS80Config.t) :
  ConfigurationManager.ensureMinimalConfiguration config = Some cfg ->
  minimal cfg /\ isStringValue (emulatorArgs cfg).
Proof.
  unfold ConfigurationManager.ensureMinimalConfiguration.
  destruct (blank (emulatorPath config)) as [b1|] eqn:B1; [|discriminate].
  destruct (blank (zmacPath config)) as [b2|] eqn:B2; [|discriminate].
  destruct (blank (outputDir config)) as [b3|] eqn:B3; [|discriminate].
  intros [= <-]. destruct default_path_ok as (D1 & D2 & D3).
  repeat split; cbn [emulatorPath zmacPath outputDir target autoAssemble emulatorArgs].
  - now apply path_ok.
  - now apply path_ok.
  - now apply path_ok.
  - apply target_fallback. right. now left.
  - destruct (autoAssemble config); cbn; discriminate.
  - destruct (autoAssemble config); cbn; discriminate.
  - destruct (emulatorArgs config); cbn; eexists; reflexivity.
Qed.




End ConfigFacts.

(** Blank paths in the settings, an unknown target and an empty argument
    list in the project file all fall back to the defaults. *)
Example blank_settings_fall_back :
  ConfigurationManagerPart004.getConfiguration
    (fun key => if String.eqb key "emulatorPath" then JStr "   "
                else if String.eqb key "zmacPath" then JStr ""
                else JUndefined)
    (Parsed (JObj [("target", JStr "model9"); ("emulatorArgs", JArr []);
                   ("outputDir", JStr "")]))
  = Some {| TRS80Config.emulatorPath :=
              ConfigurationManagerPart004.DEFAULT_emulatorPath;
            TRS80Config.zmacPath := JStr "zmac";
            TRS80Config.outputDir := JStr ".zout";
            TRS80Config.emulatorArgs := JArr [JStr "-m3"];
            TRS80Config.target := JStr "model3";
            TRS80Config.autoAssemble := JBool true;
            TRS80Config.projectConfig :=
              JObj [("target", JStr "model9"); ("emulatorArgs", JArr []);
                    ("outputDir", JStr "")] |}.
Proof. reflexivity. Qed.

(** A project file whose [outputDir] is a number makes [trim] throw: no
    configuration is handed back. *)
Example numeric_outputDir_throws :
  ConfigurationManagerPart004.getConfiguration (fun _ => JUndefined)
    (Parsed (JObj [("outputDir", JNum 5)])) = None.
Proof. reflexivity. Qed.

(** ** The emulator supervisor *)

Module SupervisorFacts.
Import EmulatorManager Supervisor.

Lemma extends_refl (st : State) : extends st st.
Proof.
  split; try reflexivity. exists []. split; [now rewrite app_nil_r | constructor].
Qed.

Lemma extends_trans (a b c : State) : extends a b -> extends b c -> extends a c.
Proof.
  intros [W1 N1 I1 (m1 & T1 & C1)] [W2 N2 I2 (m2 & T2 & C2)].
  split; try congruence.
  exists (m1 ++ m2)%list. split.
  - now rewrite T2, T1, app_assoc.
  - apply Forall_app. now split.
Qed.

Lemma extends_log (o : Obs) (st : State) : cleared o -> extends st (log o st).
Proof.
  intros Ho. split; try reflexivity.
  exists [o]. split; [reflexivity | now constructor].
Qed.

Lemma spawnChild_extends (w : World) (req : StartRequest.t) (st : State) :
  extends st (spawnChild w req st).
Proof.
  unfold spawnChild. destruct (spawnFails w req).
  - now apply extends_log.
  - split; try reflexivity.
    eexists. split; [reflexivity | now constructor].
Qed.

Lemma runContinuation_extends (w : World) (k : option StartRequest.t)
    (st : State) :
  extends st (runContinuation w k st).
Proof.
  destruct k; [apply spawnChild_extends | apply extends_refl].
Qed.

Lemma runAll_extends (w : World) (ks : list (option StartRequest.t)) :
  forall st, extends st (fold_left (fun s k => runContinuation w k s) ks st).
Proof.
  induction ks as [|k ks IH]; intros st; [apply extends_refl|].
  cbn [fold_left]. eapply extends_trans; [apply runContinuation_extends | apply IH].
Qed.

Lemma onSpawn_extends (p : Z) (st : State) : extends st (onSpawn p st).
Proof.
  unfold onSpawn. destruct (find (hasPid p) (spawning st)).
  - split; try reflexivity. eexists. split; [reflexivity | now constructor].
  - apply extends_refl.
Qed.

Lemma extends_in (st st' : State) (o : Obs) :
  extends st st' -> In o (trace st) -> In o (trace st').
Proof.
  intros [_ _ _ (more & -> & _)] Ho. apply in_or_app. now left.
Qed.

Lemma WF_initial : WF initial.
Proof. split; constructor. Qed.

Lemma WF_extends (st st' : State) : WF st -> extends st st' -> WF st'.
Proof.
  intros [A B C D] [W N I (more & T & M)].
  split; rewrite ?W, ?N, ?I, ?T; try assumption.
  apply Forall_app. now split.
Qed.

(** [stopEmulator] with an instance stored *)
Lemma stopStored_throws (w : World) (inst : EmulatorInstance.t)
    (k : option StartRequest.t) (st : State) :
  killThrows w (EmulatorInstance.pid inst) SIGTERM = true ->
  stopStored w inst k st
  = runContinuation w k
      (freshId
         (log (StopResolved (nextId st) (now st) None)
            (setCurrent None (log (Killed (EmulatorInstance.pid inst) SIGTERM) st)))).
Proof. intros H. unfold stopStored. now rewrite H. Qed.

Lemma stopStored_waits (w : World) (inst : EmulatorInstance.t)
    (k : option StartRequest.t) (st : State) :
  killThrows w (EmulatorInstance.pid inst) SIGTERM = false ->
  stopStored w inst k st
  = freshId
      (setWaits
         (waits st ++
            [{| id := nextId st; target := EmulatorInstance.pid inst;
                deadline := now st + timeoutMs; timerArmed := true;
                settled := false; continuation := k |}])%list
         (log (Killed (EmulatorInstance.pid inst) SIGTERM) st)).
Proof. intros H. unfold stopStored. now rewrite H. Qed.

Lemma Forall_lt_S (n : nat) (ws : list StopWait) :
  Forall (fun x => (id x < n)%nat) ws -> Forall (fun x => (id x < S n)%nat) ws.
Proof. apply Forall_impl. intros x Hx. lia. Qed.

Lemma fresh_not_in (n : nat) (ws : list StopWait) :
  Forall (fun x => (id x < n)%nat) ws -> ~ In n (map id ws).
Proof.
  intros H Hin. apply in_map_iff in Hin as (x & Hx & Hin).
  rewrite Forall_forall in H. specialize (H x Hin). lia.
Qed.

Lemma NoDup_snoc {A} (l : list A) (a : A) :
  NoDup l -> ~ In a l -> NoDup (l ++ [a]).
Proof.
  induction l as [|x l IH]; intros Hl Ha; cbn.
  - repeat constructor. intros [].
  - inversion Hl as [|? ? Hx Hl']; subst. constructor.
    + intros Hin. apply in_app_or in Hin as [Hin|[->|[]]]; [now apply Hx|].
      apply Ha. now left.
    + apply IH; [exact Hl'|]. intros Hin. apply Ha. now right.
Qed.

Lemma WF_stopStored (w : World) (inst : EmulatorInstance.t)
    (k : option StartRequest.t) (st : State) :
  WF st -> WF (stopStored w inst k st).
Proof.
  intros Hwf. destruct (killThrows w (EmulatorInstance.pid inst) SIGTERM) eqn:E.
  - rewrite (stopStored_throws w inst k st E).
    eapply WF_extends; [|apply runContinuation_extends].
    destruct Hwf as [A B C D]. split; cbn.
    + now apply Forall_lt_S.
    + exact B.
    + exact C.
    + repeat (apply Forall_app; split); try exact D; repeat constructor.
  - rewrite (stopStored_waits w inst k st E).
    destruct Hwf as [A B C D]. split; cbn.
    + apply Forall_app. split; [now apply Forall_lt_S|].
      constructor; [cbn; lia | constructor].
    + rewrite map_app. cbn. apply NoDup_snoc; [exact B | now apply fresh_not_in].
    + apply Forall_app. split; [exact C|].
      constructor; [|constructor].
      cbn. unfold timeoutMs. intros _. split; [reflexivity | lia].
    + apply Forall_app. split; [exact D|]. repeat constructor.
Qed.

Lemma WF_stopEmulator (w : World) (k : option StartRequest.t) (st : State) :
  WF st -> WF (stopEmulator w k st).
Proof.
  intros Hwf. unfold stopEmulator. destruct (currentInstance st) as [inst|].
  - now apply WF_stopStored.
  - eapply WF_extends; [exact Hwf | apply runContinuation_extends].
Qed.

(** *** Timers *)

Lemma markFired_self (x : StopWait) : markFired (id x) x = fired x.
Proof. unfold markFired. now rewrite Nat.eqb_refl. Qed.

Lemma markFired_other (i : nat) (x : StopWait) :
  id x <> i -> markFired i x = x.
Proof.
  intros H. unfold markFired. apply Nat.eqb_neq in H. now rewrite H.
Qed.

Lemma map_markFired_notin (i : nat) (ws : list StopWait) :
  ~ In i (map id ws) -> map (markFired i) ws = ws.
Proof.
  induction ws as [|x ws IH]; intros H; [reflexivity|]. cbn in *.
  rewrite markFired_other by (intros E; apply H; now left).
  rewrite IH; [reflexivity|]. intros Hin. apply H. now right.
Qed.

Lemma fireIf_id (t : Z) (x : StopWait) : id (fireIf t x) = id x.
Proof. unfold fireIf. now destruct (due t x). Qed.

Lemma map_id_fireIf (t : Z) (ws : list StopWait) :
  map id (map (fireIf t) ws) = map id ws.
Proof.
  rewrite map_map. apply map_ext. intros x. apply fireIf_id.
Qed.

(** what one timer callback does *)
Lemma fireTimer_spec (w : World) (x : StopWait) (st : State) :
  let st' := fireTimer w x st in
  waits st' = map (markFired (id x)) (waits st) /\
  nextId st' = nextId st /\
  now st' = deadline x /\
  exists more,
    trace st' = (trace st ++ more)%list /\ Forall cleared more /\
    In (Killed (target x) SIGKILL) more /\
    In (StopResolved (id x) (deadline x) None) more.
Proof.
  cbv zeta. unfold fireTimer.
  set (st5 := setWaits _ _).
  destruct (runContinuation_extends w (continuation x) st5)
    as [W N I (more & T & M)].
  rewrite W, N, I, T. repeat split.
  exists ([Killed (target x) SIGKILL; StopResolved (id x) (deadline x) None]
            ++ more)%list.
  repeat split.
  - cbn. now rewrite <- !app_assoc.
  - apply Forall_app. split; [repeat constructor | exact M].
  - now left.
  - right. now left.
Qed.

Lemma fireDue_spec (w : World) (t : Z) :
  forall (todo processed : list StopWait) (st : State),
    waits st = (map (fireIf t) processed ++ todo)%list ->
    NoDup (map id (processed ++ todo)) ->
    let st' := fireDue w t todo st in
    waits st' = map (fireIf t) (processed ++ todo) /\
    nextId st' = nextId st /\
    (now st' = now st \/
     exists x, In x todo /\ due t x = true /\ now st' = deadline x) /\
    exists more,
      trace st' = (trace st ++ more)%list /\ Forall cleared more /\
      forall x, In x todo -> due t x = true ->
                In (Killed (target x) SIGKILL) more /\
                In (StopResolved (id x) (deadline x) None) more.
Proof.
  induction todo as [|x todo IH]; intros processed st Hw Hnd; cbv zeta.
  - cbn [fireDue]. rewrite app_nil_r in *. repeat split; try assumption.
    + now left.
    + exists []. rewrite app_nil_r. repeat split; [constructor | destruct H | destruct H].
  - cbn [fireDue]. fold (due t x).
    assert (Hsplit : (processed ++ x :: todo)%list = ((processed ++ [x]) ++ todo)%list)
      by now rewrite <- app_assoc.
    destruct (due t x) eqn:Hdue.
    + destruct (fireTimer_spec w x st) as (W & I & N & more1 & T & M & K1 & R1).
      assert (Hw' : waits (fireTimer w x st)
                    = (map (fireIf t) (processed ++ [x]) ++ todo)%list).
      { rewrite W, Hw, map_app. cbn [map].
        rewrite markFired_self.
        assert (Hf : fireIf t x = fired x) by (unfold fireIf; now rewrite Hdue).
        rewrite map_app. cbn [map]. rewrite Hf.
        rewrite <- app_assoc. cbn [app].
        rewrite map_app in Hnd. apply NoDup_remove_2 in Hnd.
        rewrite !map_markFired_notin; [reflexivity | |].
        - intros Hin. apply Hnd. apply in_or_app. now right.
        - intros Hin. apply Hnd. apply in_or_app. left.
          now rewrite map_id_fireIf in Hin. }
      rewrite Hsplit in Hnd.
      destruct (IH (processed ++ [x])%list (fireTimer w x st) Hw' Hnd)
        as (W2 & I2 & N2 & more2 & T2 & M2 & L2).
      rewrite Hsplit. repeat split.
      * exact W2.
      * congruence.
      * right. destruct N2 as [N2 | (y & Hy & Hd & N2)].
        -- exists x. repeat split; [now left | exact Hdue | congruence].
        -- exists y. repeat split; [now right | exact Hd | exact N2].
      * exists (more1 ++ more2)%list. repeat split.
        -- now rewrite T2, T, app_assoc.
        -- apply Forall_app. now split.
        -- destruct H as [<-|H]; apply in_or_app;
             [left; exact K1 | right; now apply L2].
        -- destruct H as [<-|H]; apply in_or_app;
             [left; exact R1 | right; now apply L2].
    + assert (Hw' : waits st = (map (fireIf t) (processed ++ [x]) ++ todo)%list).
      { assert (Hf : fireIf t x = x) by (unfold fireIf; now rewrite Hdue).
        rewrite Hw, map_app. cbn [map]. rewrite Hf.
        now rewrite <- app_assoc. }
      rewrite Hsplit in Hnd.
      destruct (IH (processed ++ [x])%list st Hw' Hnd)
        as (W2 & I2 & N2 & more2 & T2 & M2 & L2).
      rewrite Hsplit. repeat split.
      * exact W2.
      * exact I2.
      * destruct N2 as [N2 | (y & Hy & Hd & N2)]; [now left|].
        right. exists y. repeat split; [now right | exact Hd | exact N2].
      * exists more2. repeat split; try assumption.
        -- destruct H as [<-|H]; [congruence | now apply L2].
        -- destruct H as [<-|H]; [congruence | now apply L2].
Qed.

(** Time passing keeps states well formed, never moves the clock back and
    leaves no due timer armed; every timer that was due has sent SIGKILL and
    resolved its promise at its deadline. *)
Lemma advance_spec (w : World) (t : Z) (st : State) :
  WF st ->
  let st' := advance w t st in
  WF st' /\ now st <= now st' /\ t <= now st' /\
  waits st' = map (fireIf t) (waits st) /\
  (forall o, In o (trace st) -> In o (trace st')) /\
  (forall x, In x (waits st) -> due t x = true ->
             In (Killed (target x) SIGKILL) (trace st') /\
             In (StopResolved (id x) (deadline x) None) (trace st')).
Proof.
  intros [A B C D]. cbv zeta. unfold advance.
  destruct (fireDue_spec w t (waits st) [] st eq_refl B)
    as (W & I & N & more & T & M & L).
  cbn [app] in W.
  set (st1 := fireDue w t (waits st) st) in *.
  assert (Hnow1 : now st <= now st1 /\ now st1 <= Z.max t (now st)).
  { destruct N as [-> | (y & Hy & Hd & ->)]; [lia|].
    unfold due in Hd. apply andb_prop in Hd as [Ha Hle].
    rewrite Forall_forall in C. destruct (C y Hy Ha) as [_ Hlt].
    apply Z.leb_le in Hle. lia. }
  repeat split; cbn [waits nextId now trace setNow].
  - rewrite W, I. rewrite Forall_forall in *. intros x' Hx'.
    apply in_map_iff in Hx' as (x & <- & Hx). rewrite fireIf_id. now apply A.
  - rewrite W. now rewrite map_id_fireIf.
  - rewrite W. rewrite Forall_forall in *. intros x' Hx' Harmed.
    apply in_map_iff in Hx' as (x & <- & Hx). unfold fireIf in *.
    destruct (due t x) eqn:Hd; [discriminate Harmed|].
    destruct (C x Hx Harmed) as [Hs Hlt]. split; [exact Hs|].
    unfold due in Hd. rewrite Harmed in Hd. cbn in Hd.
    apply Z.leb_gt in Hd. lia.
  - rewrite T. apply Forall_app. now split.
  - lia.
  - lia.
  - exact W.
  - intros o Ho. rewrite T. apply in_or_app. now left.
  - rewrite T. apply in_or_app. right. now apply L.
  - rewrite T. apply in_or_app. right. now apply L.
Qed.

(** *** Exit of a child *)

Lemma exitListeners_spec (p : Z) :
  forall (ws : list StopWait) (st : State),
    extends st (fst (exitListeners p ws st)) /\
    forall x, In x ws -> target x = p -> settled x = false ->
              In (StopResolved (id x) (now st) None)
                 (trace (fst (exitListeners p ws st))).
Proof.
  induction ws as [|y ws IH]; intros st.
  - split; [apply extends_refl | intros x []].
  - cbn [exitListeners]. destruct (Z.eqb_spec (target y) p) as [Ey|Ey].
    + destruct (settled y) eqn:Sy.
      * destruct (IH (setCurrent None st)) as [Hext Hlog].
        split.
        -- destruct Hext as [W N I T]. split; assumption.
        -- intros x [<-|Hx] Hp Hs; [congruence|]. now apply Hlog.
      * set (st2 := log _ _).
        destruct (IH st2) as [Hext Hlog].
        destruct (exitListeners p ws st2) as [st3 ks] eqn:E. cbn [fst] in *.
        assert (Hst2 : extends st st2).
        { split; try reflexivity. eexists. split; [reflexivity|].
          repeat constructor. }
        split; [now apply (extends_trans st st2 st3)|].
        intros x [<-|Hx] Hp Hs.
        -- apply (extends_in st2 st3 _ Hext). cbn.
           apply in_or_app. right. now left.
        -- now apply Hlog.
    + destruct (IH st) as [Hext Hlog]. split; [exact Hext|].
      intros x [<-|Hx] Hp Hs; [congruence | now apply Hlog].
Qed.

(** removing pending stops keeps their identifiers distinct *)
Lemma filter_ids_distinct (keep : StopWait -> bool) (ws : list StopWait) :
  NoDup (map id ws) -> NoDup (map id (filter keep ws)).
Proof.
  intros Hnd. induction ws as [|x ws IH]; cbn in *; [constructor|].
  apply NoDup_cons_iff in Hnd as [Hfresh Hrest].
  destruct (keep x); cbn; [|now apply IH].
  apply NoDup_cons_iff. split; [|now apply IH].
  intros Hin. apply Hfresh.
  apply in_map_iff in Hin as (y & Hy & Hin).
  apply in_map_iff. exists y. split; [exact Hy|].
  now apply (proj1 (filter_In keep y ws)).
Qed.

Lemma Forall_filter {A} (P : A -> Prop) (p : A -> bool) (l : list A) :
  Forall P l -> Forall P (filter p l).
Proof.
  rewrite !Forall_forall. intros H x Hx. apply filter_In in Hx as [Hx _].
  now apply H.
Qed.

(** what the exit of a child does to the pending stops and to the trace *)
Lemma onExit_spec (w : World) (p : Z) (st : State) :
  WF st ->
  let st' := onExit w p st in
  WF st' /\ now st' = now st /\
  (forall o, In o (trace st) -> In o (trace st')) /\
  (forall x, In x (waits st) -> target x <> p -> In x (waits st')) /\
  (isChild p st && negb (existsb (hasPid p) (spawning st)) = true ->
   forall x, In x (waits st) -> target x = p -> settled x = false ->
             In (StopResolved (id x) (now st) None) (trace st')).
Proof.
  intros Hwf. cbv zeta. unfold onExit.
  destruct (isChild p st && negb (existsb (hasPid p) (spawning st))) eqn:G.
  2:{ split; [exact Hwf|]. repeat split; auto. intros H. discriminate H. }
  set (st1 := setChildren _ st).
  set (st2 := match currentInstance st1 with
              | Some cur => if EmulatorInstance.pid cur =? p
                            then setCurrent None st1 else st1
              | None => st1
              end).
  assert (E12 : waits st2 = waits st /\ now st2 = now st
                /\ nextId st2 = nextId st /\ trace st2 = trace st).
  { unfold st2. destruct (currentInstance st1) as [cur|]; [|now repeat split].
    destruct (EmulatorInstance.pid cur =? p); now repeat split. }
  destruct E12 as (W2 & N2 & I2 & T2).
  destruct (exitListeners_spec p (waits st2) st2) as [Hext Hlog].
  destruct (exitListeners p (waits st2) st2) as [st3 ks] eqn:E. cbn [fst] in *.
  set (st4 := setWaits _ st3).
  pose proof (runAll_extends w ks st4) as Hrun.
  set (st5 := fold_left _ ks st4) in *.
  destruct Hext as [W3 N3 I3 (more3 & T3 & M3)].
  destruct Hrun as [W5 N5 I5 (more5 & T5 & M5)].
  assert (Htrace : forall o, In o (trace st) -> In o (trace st5)).
  { intros o Ho. rewrite T5. apply in_or_app. left. cbn [st4 trace setWaits].
    rewrite T3, T2. apply in_or_app. now left. }
  assert (Hwaits : waits st5 = filter (fun x => negb (target x =? p)) (waits st)).
  { rewrite W5. cbn [st4 waits setWaits]. now rewrite W3, W2. }
  destruct Hwf as [A B C D].
  repeat split.
  - rewrite Hwaits, I5. cbn [st4 nextId setWaits]. rewrite I3, I2.
    now apply Forall_filter.
  - rewrite Hwaits. now apply filter_ids_distinct.
  - rewrite Hwaits, N5. cbn [st4 now setWaits]. rewrite N3, N2.
    now apply Forall_filter.
  - rewrite T5. cbn [st4 trace setWaits]. rewrite T3, T2.
    repeat (apply Forall_app; split); assumption.
  - rewrite N5. cbn [st4 now setWaits]. now rewrite N3, N2.
  - exact Htrace.
  - intros x Hx Hp. rewrite Hwaits. apply filter_In. split; [exact Hx|].
    apply negb_true_iff. now apply Z.eqb_neq.
  - intros _ x Hx Hp Hs. rewrite T5. apply in_or_app. left.
    cbn [st4 trace setWaits]. rewrite <- N2. apply Hlog; [now rewrite W2 | exact Hp | exact Hs].
Qed.

(** *** Calls *)

Lemma stopEmulator_spec (w : World) (k : option StartRequest.t) (st : State) :
  let st' := stopEmulator w k st in
  now st' = now st /\
  (forall o, In o (trace st) -> In o (trace st')) /\
  (forall x, In x (waits st) -> In x (waits st')).
Proof.
  cbv zeta. unfold stopEmulator.
  destruct (currentInstance st) as [inst|].
  - destruct (killThrows w (EmulatorInstance.pid inst) SIGTERM) eqn:E.
    + rewrite (stopStored_throws w inst k st E).
      set (st3 := freshId _).
      destruct (runContinuation_extends w k st3) as [W N I (more & T & M)].
      rewrite W, N, T. repeat split; auto.
      intros o Ho. apply in_or_app. left. cbn.
      apply in_or_app. left. apply in_or_app. now left.
    + rewrite (stopStored_waits w inst k st E). cbn. repeat split.
      * intros o Ho. apply in_or_app. now left.
      * intros x Hx. apply in_or_app. now left.
  - destruct (runContinuation_extends w k st) as [W N I (more & T & M)].
    rewrite W, N, T. repeat split; auto.
    intros o Ho. apply in_or_app. now left.
Qed.

Lemma WF_handle (w : World) (e : Event) (st : State) :
  WF st -> WF (handle w e st).
Proof.
  intros Hwf. destruct e as [req| |p|p]; cbn [handle].
  - unfold startEmulator. now apply WF_stopEmulator.
  - now apply WF_stopEmulator.
  - eapply WF_extends; [exact Hwf | apply onSpawn_extends].
  - now apply onExit_spec.
Qed.

Lemma WF_step (w : World) (st : State) (te : Z * Event) :
  WF st -> WF (step w st te).
Proof.
  intros Hwf. unfold step. apply WF_handle. now apply advance_spec.
Qed.

Lemma WF_run (w : World) (tes : list (Z * Event)) :
  forall st, WF st -> WF (run w st tes).
Proof.
  induction tes as [|te tes IH]; intros st Hwf; [exact Hwf|].
  cbn [run fold_left]. apply IH. now apply WF_step.
Qed.

(** *** A pending stop resolves by its deadline *)

Section Pending.
Variable w : World.
Variable k : nat.          (* the identifier of the call *)
Variable t0 D : Z.         (* when it was called, and its deadline *)

Local Abbreviation resolved := (Supervisor.resolved k t0 D).
Local Abbreviation pending := (Supervisor.pending k D).
Local Abbreviation tracked := (Supervisor.tracked k t0 D).

Lemma tracked_advance (t : Z) (st : State) :
  tracked st -> tracked (advance w t st).
Proof.
  intros (Hwf & Hnow & Hcase).
  destruct (advance_spec w t st Hwf) as (Hwf' & Hmono & _ & W & Htr & Hfire).
  split; [exact Hwf' | split; [lia|]].
  destruct Hcase as [(t1 & Hin & Ht1) | (x & Hx & Hid & Ha & Hd)].
  - left. exists t1. split; [now apply Htr | exact Ht1].
  - destruct (due t x) eqn:Hdue.
    + left. exists D. destruct (Hfire x Hx Hdue) as [_ Hres].
      rewrite Hid, Hd in Hres. split; [exact Hres|].
      destruct Hwf as [_ _ C _]. rewrite Forall_forall in C.
      destruct (C x Hx Ha) as [_ Hlt]. lia.
    + right. exists x. repeat split; try assumption.
      rewrite W. apply in_map_iff. exists x. split; [|exact Hx].
      unfold fireIf. now rewrite Hdue.
Qed.

Lemma tracked_handle (e : Event) (st : State) :
  tracked st -> tracked (handle w e st).
Proof.
  intros (Hwf & Hnow & Hcase).
  split; [now apply WF_handle|].
  destruct e as [req| |p|p]; cbn [handle].
  - unfold startEmulator.
    destruct (stopEmulator_spec w (Some req) st) as (N & Htr & Hws).
    rewrite N. split; [exact Hnow|].
    destruct Hcase as [(t1 & Hin & Ht1) | (x & Hx & Hrest)].
    + left. exists t1. split; [now apply Htr | exact Ht1].
    + right. exists x. split; [now apply Hws | exact Hrest].
  - destruct (stopEmulator_spec w None st) as (N & Htr & Hws).
    rewrite N. split; [exact Hnow|].
    destruct Hcase as [(t1 & Hin & Ht1) | (x & Hx & Hrest)].
    + left. exists t1. split; [now apply Htr | exact Ht1].
    + right. exists x. split; [now apply Hws | exact Hrest].
  - destruct (onSpawn_extends p st) as [W N I (more & T & M)].
    rewrite N. split; [exact Hnow|].
    destruct Hcase as [(t1 & Hin & Ht1) | (x & Hx & Hrest)].
    + left. exists t1. split; [|exact Ht1]. rewrite T. apply in_or_app. now left.
    + right. exists x. split; [now rewrite W | exact Hrest].
  - destruct (onExit_spec w p st Hwf) as (_ & N & Htr & Hkeep & Hlog).
    rewrite N. split; [exact Hnow|].
    destruct Hcase as [(t1 & Hin & Ht1) | (x & Hx & Hid & Ha & Hd)].
    + left. exists t1. split; [now apply Htr | exact Ht1].
    + destruct (Z.eq_dec (target x) p) as [Hp|Hp].
      * destruct (isChild p st && negb (existsb (hasPid p) (spawning st))) eqn:G.
        -- left. exists (now st).
           destruct Hwf as [_ _ C _]. rewrite Forall_forall in C.
           destruct (C x Hx Ha) as [Hs Hlt].
           split; [|lia]. rewrite <- Hid. now apply Hlog.
        -- right. exists x. unfold onExit. rewrite G. now repeat split.
      * right. exists x. split; [now apply Hkeep | now repeat split].
Qed.

Lemma tracked_run (tes : list (Z * Event)) :
  forall st, tracked st -> tracked (run w st tes).
Proof.
  induction tes as [|te tes IH]; intros st H; [exact H|].
  cbn [run fold_left]. apply IH. unfold step.
  apply tracked_handle. now apply tracked_advance.
Qed.

(** Once the deadline has passed the promise is resolved. *)
Lemma tracked_resolved (T : Z) (st : State) :
  tracked st -> D <= T -> resolved (advance w T st).
Proof.
  intros H HT. pose proof (tracked_advance T st H) as (Hwf & _ & Hcase).
  destruct Hcase as [Hres | (x & Hx & _ & Ha & Hd)]; [exact Hres|].
  destruct H as (Hwf0 & _ & _).
  destruct (advance_spec w T st Hwf0) as (_ & _ & Hge & _).
  destruct Hwf as [_ _ C _]. rewrite Forall_forall in C.
  destruct (C x Hx Ha) as [_ Hlt]. lia.
Qed.

End Pending.

Lemma onExit_waits (w : World) (p : Z) (st : State) :
  isChild p st && negb (existsb (hasPid p) (spawning st)) = true ->
  waits (onExit w p st) = filter (fun x => negb (target x =? p)) (waits st).
Proof.
  intros G. unfold onExit. rewrite G.
  set (st1 := setChildren _ st).
  set (st2 := match currentInstance st1 with
              | Some cur => if EmulatorInstance.pid cur =? p
                            then setCurrent None st1 else st1
              | None => st1
              end).
  assert (W2 : waits st2 = waits st).
  { unfold st2. destruct (currentInstance st1) as [cur|]; [|reflexivity].
    now destruct (EmulatorInstance.pid cur =? p). }
  destruct (exitListeners_spec p (waits st2) st2) as [[W3 _ _ _] _].
  destruct (exitListeners p (waits st2) st2) as [st3 ks]. cbn [fst] in *.
  destruct (runAll_extends w ks
              (setWaits (filter (fun x => negb (target x =? p)) (waits st3)) st3))
    as [W5 _ _ _].
  rewrite W5. cbn [waits setWaits]. now rewrite W3, W2.
Qed.

Lemma reachable_WF (w : World) (st : State) : reachable w st -> WF st.
Proof. intros (tes & ->). apply WF_run, WF_initial. Qed.

End SupervisorFacts.

(** C7. In every state the manager can reach:
    - without a stored instance [stopEmulator] changes nothing and is done;
    - with a stored instance it first sends SIGTERM; if sending throws, the
      exception is swallowed, the instance is cleared and the promise
      resolves at once; otherwise a timer of 2000 ms is armed;
    - whatever happens afterwards, the promise has resolved at most 2000 ms
      after the call, and no instance was stored when it resolved;
    - for every pending stop: when its timer is due, SIGKILL is sent to the
      process and the promise resolves at the deadline; when the process
      reports its exit first, the promise resolves then and the timer is
      gone; in both cases no instance is stored at that moment. *)
Theorem C7_stop_emulator (w : EmulatorManager.World) (st : EmulatorManager.State) :
  Supervisor.reachable w st ->
  (EmulatorManager.currentInstance st = None ->
   EmulatorManager.stopEmulator w None st = st)
  /\
  (forall inst : EmulatorInstance.t,
      EmulatorManager.currentInstance st = Some inst ->
      let p := EmulatorInstance.pid inst in
      let st1 := EmulatorManager.stopEmulator w None st in
      (exists more,
          EmulatorManager.trace st1
          = (EmulatorManager.trace st
               ++ EmulatorManager.Killed p EmulatorManager.SIGTERM :: more)%list)
      /\
      (EmulatorManager.killThrows w p EmulatorManager.SIGTERM = true ->
       EmulatorManager.currentInstance st1 = None /\
       EmulatorManager.waits st1 = EmulatorManager.waits st /\
       In (EmulatorManager.StopResolved (EmulatorManager.nextId st)
             (EmulatorManager.now st) None)
          (EmulatorManager.trace st1))
      /\
      (EmulatorManager.killThrows w p EmulatorManager.SIGTERM = false ->
       EmulatorManager.waits st1
       = (EmulatorManager.waits st ++
            [{| EmulatorManager.id := EmulatorManager.nextId st;
                EmulatorManager.target := p;
                EmulatorManager.deadline := EmulatorManager.now st + 2000;
                EmulatorManager.timerArmed := true;
                EmulatorManager.settled := false;
                EmulatorManager.continuation := None |}])%list)
      /\
      (forall (tes : list (Z * EmulatorManager.Event)) (T : Z),
          EmulatorManager.now st + 2000 <= T ->
          exists t,
            In (EmulatorManager.StopResolved (EmulatorManager.nextId st) t None)
               (EmulatorManager.trace
                  (EmulatorManager.advance w T (EmulatorManager.run w st1 tes)))
            /\ EmulatorManager.now st <= t <= EmulatorManager.now st + 2000))
  /\
  (forall (x : EmulatorManager.StopWait) (t : Z),
      In x (EmulatorManager.waits st) ->
      EmulatorManager.timerArmed x = true ->
      EmulatorManager.deadline x <= t ->
      let st' := EmulatorManager.advance w t st in
      In (EmulatorManager.Killed (EmulatorManager.target x) EmulatorManager.SIGKILL)
         (EmulatorManager.trace st') /\
      In (EmulatorManager.StopResolved (EmulatorManager.id x)
            (EmulatorManager.deadline x) None)
         (EmulatorManager.trace st'))
  /\
  (forall (x : EmulatorManager.StopWait),
      In x (EmulatorManager.waits st) ->
      EmulatorManager.timerArmed x = true ->
      EmulatorManager.isChild (EmulatorManager.target x) st
      && negb (existsb (EmulatorManager.hasPid (EmulatorManager.target x))
                 (EmulatorManager.spawning st)) = true ->
      let st' := EmulatorManager.onExit w (EmulatorManager.target x) st in
      In (EmulatorManager.StopResolved (EmulatorManager.id x)
            (EmulatorManager.now st) None)
         (EmulatorManager.trace st') /\
      EmulatorManager.now st < EmulatorManager.deadline x /\
      forall y, In y (EmulatorManager.waits st') ->
                EmulatorManager.target y <> EmulatorManager.target x).
Proof.
  intros Hreach. pose proof (SupervisorFacts.reachable_WF w st Hreach) as Hwf.
  split; [|split; [|split]].
  - intros Hnone. unfold EmulatorManager.stopEmulator. now rewrite Hnone.
  - intros inst Hcur p st1.
    assert (Hst1 : st1 = EmulatorManager.stopStored w inst None st).
    { unfold st1, EmulatorManager.stopEmulator. now rewrite Hcur. }
    assert (Htracked :
      Supervisor.tracked (EmulatorManager.nextId st) (EmulatorManager.now st)
        (EmulatorManager.now st + 2000) st1).
    { split; [unfold st1; now apply SupervisorFacts.WF_stopEmulator|].
      destruct (SupervisorFacts.stopEmulator_spec w None st) as (N & _ & _).
      fold st1 in N. split; [lia|]. rewrite Hst1.
      destruct (EmulatorManager.killThrows w (EmulatorInstance.pid inst)
                  EmulatorManager.SIGTERM) eqn:E.
      - left. exists (EmulatorManager.now st). split; [|lia].
        rewrite (SupervisorFacts.stopStored_throws w inst None st E). cbn.
        apply in_or_app. right. now left.
      - right. rewrite (SupervisorFacts.stopStored_waits w inst None st E).
        eexists. split; [cbn; apply in_or_app; right; left; reflexivity|].
        now repeat split. }
    repeat split.
    + rewrite Hst1. unfold EmulatorManager.stopStored. fold p.
      destruct (EmulatorManager.killThrows w p EmulatorManager.SIGTERM); cbn.
      * eexists. now rewrite <- app_assoc.
      * now exists [].
    + rewrite Hst1, (SupervisorFacts.stopStored_throws w inst None st H).
      reflexivity.
    + rewrite Hst1, (SupervisorFacts.stopStored_throws w inst None st H).
      reflexivity.
    + rewrite Hst1, (SupervisorFacts.stopStored_throws w inst None st H). cbn.
      apply in_or_app. right. now left.
    + intros E. rewrite Hst1.
      now rewrite (SupervisorFacts.stopStored_waits w inst None st E).
    + intros tes T HT.
      apply (SupervisorFacts.tracked_resolved w _ _ _ T); [|exact HT].
      now apply SupervisorFacts.tracked_run.
  - intros x t Hx Ha Hd st'.
    destruct (SupervisorFacts.advance_spec w t st Hwf) as (_ & _ & _ & _ & _ & Hfire).
    apply Hfire; [exact Hx|]. unfold Supervisor.due. rewrite Ha.
    now apply Z.leb_le.
  - intros x Hx Ha G st'.
    destruct (SupervisorFacts.onExit_spec w (EmulatorManager.target x) st Hwf)
      as (_ & _ & _ & _ & Hlog).
    destruct Hwf as [_ _ C _]. rewrite Forall_forall in C.
    destruct (C x Hx Ha) as [Hs Hlt].
    repeat split.
    + now apply Hlog.
    + exact Hlt.
    + intros y Hy. unfold st' in Hy.
      rewrite (SupervisorFacts.onExit_waits w _ st G) in Hy.
      apply filter_In in Hy as [_ Hy]. apply negb_true_iff in Hy.
      now apply Z.eqb_neq.
Qed.

(** One emulator runs; it is stopped and does not react: two seconds later
    the promise is resolved. *)
Lemma C7_stop_emulator_witness :
  exists t,
    In (EmulatorManager.StopResolved 0 t None)
       (EmulatorManager.trace
          (EmulatorManager.advance Fixtures.world 5000
             (EmulatorManager.run Fixtures.world
                (EmulatorManager.stopEmulator Fixtures.world None
                   (EmulatorManager.run Fixtures.world EmulatorManager.initial
                      Fixtures.oneRunning))
                [])))
    /\ 0 <= t <= 2000.
Proof.
  destruct (C7_stop_emulator Fixtures.world
              (EmulatorManager.run Fixtures.world EmulatorManager.initial
                 Fixtures.oneRunning)
              (ex_intro _ Fixtures.oneRunning eq_refl))
    as (_ & Hstored & _).
  destruct (Hstored _ eq_refl) as (_ & _ & _ & Hbound).
  apply (Hbound [] 5000). cbn. lia.
Defined.

(** ** One start after another *)

Module PreemptFacts.
Import EmulatorManager.

(** projections of the state setters *)
Ltac state :=
  cbn [now currentInstance waits spawning children nextPid nextId trace
       setNow setCurrent setWaits setSpawning setChildren log freshPid freshId
       fst snd app negb andb orb filter existsb find option_map
       EmulatorInstance.pid].

(** The stored child exits while one start waits for it: the start goes on
    and spawns its child. *)
Lemma exit_resumes_start (w : World) (s1 : State) (inst : EmulatorInstance.t)
    (req : StartRequest.t) (x : StopWait) (tExit : Z) :
  currentInstance s1 = Some inst ->
  waits s1 = [x] ->
  target x = EmulatorInstance.pid inst ->
  timerArmed x = true -> settled x = false ->
  continuation x = Some req ->
  spawning s1 = [] ->
  In (EmulatorInstance.pid inst) (children s1) ->
  spawnFails w req = false ->
  now s1 <= tExit < deadline x ->
  let s2 := step w s1 (tExit, ExitEvent (EmulatorInstance.pid inst)) in
  children s2
  = (filter (fun q => negb (q =? EmulatorInstance.pid inst)) (children s1)
       ++ [nextPid s1])%list /\
  currentInstance s2 = None /\
  waits s2 = [] /\
  spawning s2
  = [{| EmulatorInstance.pid := nextPid s1;
        EmulatorInstance.startTime := tExit;
        EmulatorInstance.sourceFile := StartRequest.sourceFile req;
        EmulatorInstance.isDebugMode := StartRequest.isDebugMode req |}].
Proof.
  intros Hcur Hwaits Htarget Harmed Hsettled Hcont Hspawning Hchildren Hspawn
         [Hlo Hhi].
  assert (Hlive : existsb (Z.eqb (EmulatorInstance.pid inst)) (children s1) = true).
  { apply existsb_exists. exists (EmulatorInstance.pid inst).
    split; [exact Hchildren | apply Z.eqb_refl]. }
  destruct s1 as [now0 cur ws sp ch np ni tr]. cbn in * |-. subst cur ws sp.
  cbv zeta. unfold step, handle, advance. state. cbn [fireDue].
  rewrite Harmed. state.
  destruct (Z.leb_spec (deadline x) tExit) as [Hbad|_]; [lia|]. state.
  replace (Z.max tExit now0) with tExit by lia.
  unfold onExit, isChild. state. rewrite Hlive, ?Z.eqb_refl. state.
  cbn [exitListeners]. rewrite Htarget, ?Z.eqb_refl, Hsettled, Hcont. state.
  cbn [fold_left runContinuation storedPid]. state.
  rewrite ?Htarget, ?Z.eqb_refl. state.
  unfold spawnChild. rewrite Hspawn. state.
  repeat split.
Qed.

(** the spawn acknowledgement of the only child awaiting it *)
Lemma spawn_acknowledged (w : World) (s2 : State) (i : EmulatorInstance.t)
    (t : Z) :
  waits s2 = [] ->
  spawning s2 = [i] ->
  let s3 := step w s2 (t, SpawnEvent (EmulatorInstance.pid i)) in
  children s3 = children s2 /\ waits s3 = [] /\ spawning s3 = [] /\
  currentInstance s3 = Some i.
Proof.
  intros Hwaits Hspawning.
  destruct s2 as [now0 cur ws sp ch np ni tr]. cbn in * |-. subst ws sp.
  cbv zeta. unfold step, handle, advance. state. cbn [fireDue]. state.
  unfold onSpawn, hasPid. state. rewrite ?Z.eqb_refl. state.
  rewrite ?Z.eqb_refl. state. repeat split.
Qed.

End PreemptFacts.

(** C8 (as amended). A start issued while an instance is stored, its
    child alive, and nothing else is in flight (no pending stop, no child
    awaiting its spawn acknowledgement), when SIGTERM can be sent and the
    spawn yields a pid: the stored child is sent SIGTERM and nothing is
    spawned yet; when that child reports its exit before the 2000 ms
    timeout, the new child is spawned after the old one is gone and takes
    its place among the live children, and once its spawn is acknowledged
    it is the stored instance.  It is the only live child exactly when the
    old one was the only live child before the call: children left alive
    by earlier overlapping starts stay alive.  Starts are not serialized
    against each other. *)
Theorem C8_start_preempts_stored_instance
    (w : EmulatorManager.World) (st : EmulatorManager.State)
    (inst : EmulatorInstance.t) (req : StartRequest.t) (tExit tSpawn : Z) :
  EmulatorManager.currentInstance st = Some inst ->
  In (EmulatorInstance.pid inst) (EmulatorManager.children st) ->
  EmulatorManager.waits st = [] ->
  EmulatorManager.spawning st = [] ->
  EmulatorManager.killThrows w (EmulatorInstance.pid inst)
    EmulatorManager.SIGTERM = false ->
  EmulatorManager.spawnFails w req = false ->
  EmulatorManager.now st <= tExit < EmulatorManager.now st + 2000 ->
  tExit <= tSpawn ->
  let old := EmulatorInstance.pid inst in
  let new := EmulatorManager.nextPid st in
  let others :=
    filter (fun q => negb (q =? old)) (EmulatorManager.children st) in
  let s1 := EmulatorManager.startEmulator w req st in
  let s2 := EmulatorManager.step w s1 (tExit, EmulatorManager.ExitEvent old) in
  let s3 := EmulatorManager.step w s2 (tSpawn, EmulatorManager.SpawnEvent new) in
  (EmulatorManager.children s1 = EmulatorManager.children st /\
   EmulatorManager.spawning s1 = [] /\
   EmulatorManager.trace s1
   = (EmulatorManager.trace st
        ++ [EmulatorManager.Killed old EmulatorManager.SIGTERM])%list)
  /\
  (EmulatorManager.children s2 = (others ++ [new])%list /\
   EmulatorManager.currentInstance s2 = None)
  /\
  (EmulatorManager.children s3 = (others ++ [new])%list /\
   EmulatorManager.waits s3 = [] /\
   EmulatorManager.spawning s3 = [] /\
   EmulatorManager.currentInstance s3
   = Some {| EmulatorInstance.pid := new;
             EmulatorInstance.startTime := tExit;
             EmulatorInstance.sourceFile := StartRequest.sourceFile req;
             EmulatorInstance.isDebugMode := StartRequest.isDebugMode req |})
  /\
  (EmulatorManager.children s3 = [new] <-> others = []).
Proof.
  intros Hcur Hlive Hwaits Hspawning Hkill Hspawn Ht Hle. cbv zeta.
  set (s1 := EmulatorManager.startEmulator w req st).
  set (s2 := EmulatorManager.step w s1
               (tExit, EmulatorManager.ExitEvent (EmulatorInstance.pid inst))).
  assert (Hs1 : s1 = EmulatorManager.stopStored w inst (Some req) st).
  { unfold s1, EmulatorManager.startEmulator, EmulatorManager.stopEmulator.
    now rewrite Hcur. }
  rewrite (SupervisorFacts.stopStored_waits w inst (Some req) st Hkill) in Hs1.
  rewrite Hwaits in Hs1. cbn [app] in Hs1.
  assert (F1 : EmulatorManager.children s1 = EmulatorManager.children st
               /\ EmulatorManager.spawning s1 = []
               /\ EmulatorManager.currentInstance s1 = Some inst
               /\ EmulatorManager.nextPid s1 = EmulatorManager.nextPid st
               /\ EmulatorManager.now s1 = EmulatorManager.now st
               /\ EmulatorManager.trace s1
                  = (EmulatorManager.trace st
                       ++ [EmulatorManager.Killed (EmulatorInstance.pid inst)
                             EmulatorManager.SIGTERM])%list)
    by (rewrite Hs1; cbn; now repeat split).
  destruct F1 as (C1 & S1 & I1 & P1 & N1 & T1).
  split; [now repeat split|].
  destruct (PreemptFacts.exit_resumes_start w s1 inst req
              {| EmulatorManager.id := EmulatorManager.nextId st;
                 EmulatorManager.target := EmulatorInstance.pid inst;
                 EmulatorManager.deadline :=
                   EmulatorManager.now st + EmulatorManager.timeoutMs;
                 EmulatorManager.timerArmed := true;
                 EmulatorManager.settled := false;
                 EmulatorManager.continuation := Some req |} tExit)
    as (C2 & I2 & W2 & S2); try reflexivity; try assumption.
  { now rewrite Hs1. }
  { now rewrite C1. }
  { rewrite N1. cbn. unfold EmulatorManager.timeoutMs. lia. }
  fold s2 in C2, I2, W2, S2. rewrite P1 in C2, S2. rewrite C1 in C2.
  split; [now split|].
  destruct (PreemptFacts.spawn_acknowledged w s2 _ tSpawn W2 S2)
    as (C3 & W3 & S3 & I3).
  cbn [EmulatorInstance.pid] in C3, W3, S3, I3.
  rewrite C2 in C3.
  split; [now repeat split|].
  rewrite C3. split.
  - intros E.
    destruct (filter _ (EmulatorManager.children st)) as [|q [|q' rest]];
      [reflexivity | discriminate E | discriminate E].
  - now intros ->.
Qed.

Lemma C8_start_preempts_stored_instance_witness :
  let st := EmulatorManager.run Fixtures.world EmulatorManager.initial
              Fixtures.oneRunning in
  let s3 :=
    EmulatorManager.step Fixtures.world
      (EmulatorManager.step Fixtures.world
         (EmulatorManager.startEmulator Fixtures.world
            (Fixtures.request "b.a80") st)
         (1500, EmulatorManager.ExitEvent 1))
      (1600, EmulatorManager.SpawnEvent 2) in
  EmulatorManager.children s3 = [2] /\
  option_map EmulatorInstance.pid (EmulatorManager.currentInstance s3) = Some 2.
Proof.
  destruct (C8_start_preempts_stored_instance Fixtures.world
              (EmulatorManager.run Fixtures.world EmulatorManager.initial
                 Fixtures.oneRunning)
              {| EmulatorInstance.pid := 1; EmulatorInstance.startTime := 0;
                 EmulatorInstance.sourceFile := "a.a80";
                 EmulatorInstance.isDebugMode := false |}
              (Fixtures.request "b.a80") 1500 1600
              eq_refl (or_introl eq_refl) eq_refl eq_refl eq_refl eq_refl
              ltac:(cbn; lia) ltac:(lia))
    as (_ & _ & (_ & _ & _ & Hcurrent) & Honly).
  split.
  - apply Honly. reflexivity.
  - exact (f_equal (option_map EmulatorInstance.pid) Hcurrent).
Defined.

(** after the overlapping starts, child 2 is alive beside the stored
    child 3: the next start replaces child 3 only *)
Example start_after_overlapping_starts :
  let st := EmulatorManager.run Fixtures.world EmulatorManager.initial
              Fixtures.overlappingStarts in
  let s3 :=
    EmulatorManager.step Fixtures.world
      (EmulatorManager.step Fixtures.world
         (EmulatorManager.startEmulator Fixtures.world
            (Fixtures.request "d.a80") st)
         (2000, EmulatorManager.ExitEvent 3))
      (2100, EmulatorManager.SpawnEvent 4) in
  EmulatorManager.children st = [2; 3] /\
  EmulatorManager.waits st = [] /\ EmulatorManager.spawning st = [] /\
  EmulatorManager.children s3 = [2; 4] /\
  option_map EmulatorInstance.pid (EmulatorManager.currentInstance s3) = Some 4.
Proof. repeat split. Qed.

(** C8 as stated fails: a start issued while an earlier start is still
    waiting for the old child to exit finds the old instance still stored,
    signals it again and waits too; when the old child exits both starts go
    on and each spawns a child. *)
Lemma C8_overlapping_starts_counterexample :
  ~ (forall (w : EmulatorManager.World) (tes : list (Z * EmulatorManager.Event)),
        (List.length
           (EmulatorManager.children
              (EmulatorManager.run w EmulatorManager.initial tes)) <= 1)%nat).
Proof.
  intros H. specialize (H Fixtures.world Fixtures.overlappingStarts).
  vm_compute in H. lia.
Qed.

(** the end of that schedule: children 2 and 3 are alive, 3 is stored *)
Example overlapping_starts_end :
  let final := EmulatorManager.run Fixtures.world EmulatorManager.initial
                 Fixtures.overlappingStarts in
  EmulatorManager.children final = [2; 3] /\
  option_map EmulatorInstance.pid (EmulatorManager.currentInstance final) = Some 3.
Proof. split; reflexivity. Qed.

(** When the old child ignores SIGTERM, the start goes on after the timer
    has sent SIGKILL; the ['exit'] listener of that stop is still attached,
    and the late exit of the old child clears the instance stored for the
    new one, which stays alive. *)
Example late_exit_clears_new_instance :
  let final :=
    EmulatorManager.run Fixtures.world EmulatorManager.initial
      (Fixtures.oneRunning ++
         [ (1000, EmulatorManager.CallStart (Fixtures.request "b.a80"));
           (3000, EmulatorManager.SpawnEvent 2);
           (3100, EmulatorManager.ExitEvent 1) ])%list in
  EmulatorManager.children final = [2] /\
  EmulatorManager.currentInstance final = None /\
  In (EmulatorManager.Killed 1 EmulatorManager.SIGKILL)
     (EmulatorManager.trace final).
Proof. repeat split. vm_compute. tauto. Qed.

(* ================================================================== *)
(** * Further properties of the sources                                *)
(* ================================================================== *)

(** ** The matcher against the declarative reading of a pattern *)

Module MatchingFacts.
Import JS Hex Matching.

Lemma star_nil (p : ascii -> bool) (c : list string) (k : Cont) :
  exec (Star p) "" c k = k "" c.
Proof. reflexivity. Qed.

Lemma star_cons (p : ascii -> bool) (ch : ascii) (s : string)
    (c : list string) (k : Cont) :
  exec (Star p) (String ch s) c k =
  if p ch
  then match exec (Star p) s c k with
       | Some res => Some res
       | None => k (String ch s) c
       end
  else k (String ch s) c.
Proof. reflexivity. Qed.

(** Whenever the backtracking matcher succeeds, the continuation was
    entered after a match of the pattern. *)
Lemma exec_sound (r : regex) :
  forall (s : string) (c : list string) (k : Cont) (res : list string),
    exec r s c k = Some res ->
    exists s' c', Matches r s c s' c' /\ k s' c' = Some res.
Proof.
  induction r as [| p | p | r1 IH1 r2 IH2 | r IH |]; intros s c k res H.
  - exists s, c. split; [constructor | exact H].
  - cbn in H. destruct s as [|ch s]; [discriminate|].
    destruct (p ch) eqn:E; [|discriminate].
    exists s, c. split; [now constructor | exact H].
  - induction s as [|ch s IHs].
    + rewrite star_nil in H. exists "", c. split; [constructor | exact H].
    + rewrite star_cons in H. destruct (p ch) eqn:E.
      * destruct (exec (Star p) s c k) as [res'|] eqn:L.
        -- injection H as <-.
           destruct (IHs eq_refl) as (s' & c' & M & K).
           inversion M; subst.
           ++ exists s', c'. split; [|exact K].
              apply MStarCons; [exact E | constructor].
           ++ exists s', c'. split; [|exact K].
              apply MStarCons; [exact E | exact M].
        -- exists (String ch s), c. split; [constructor | exact H].
      * exists (String ch s), c. split; [constructor | exact H].
  - cbn [exec] in H.
    apply IH1 in H as (s1 & c1 & M1 & H).
    apply IH2 in H as (s2 & c2 & M2 & H).
    exists s2, c2. split; [econstructor; eassumption | exact H].
  - cbn [exec] in H.
    apply IH in H as (s' & c' & M & H).
    exists s', (c' ++ [consumed s s'])%list. split; [now constructor | exact H].
  - cbn in H. destruct s; [|discriminate].
    exists "", c. split; [constructor | exact H].
Qed.

Lemma matchStart_sound (r : regex) (s : string) (caps : list string) :
  matchStart r s = Some caps -> exists s', Matches r s [] s' caps.
Proof.
  unfold matchStart. intros H.
  apply exec_sound in H as (s' & c' & M & K).
  injection K as <-. now exists s'.
Qed.

Lemma matchAnywhere_sound (r : regex) (s : string) (caps : list string) :
  matchAnywhere r s = Some caps ->
  exists pre t s', s = pre ++ t /\ Matches r t [] s' caps.
Proof.
  induction s as [|ch s IH]; cbn [matchAnywhere]; intros H.
  - destruct (matchStart r "") eqn:E; [|discriminate].
    injection H as <-. apply matchStart_sound in E as (s' & M).
    now exists "", "", s'.
  - destruct (matchStart r (String ch s)) eqn:E.
    + injection H as <-. apply matchStart_sound in E as (s' & M).
      now exists "", (String ch s), s'.
    + destruct (IH H) as (pre & t & s' & -> & M).
      now exists (String ch pre), t, s'.
Qed.

(** a match consumes a prefix and only appends groups *)
Lemma Matches_shape (r : regex) (s s' : string) (c c' : list string) :
  Matches r s c s' c' ->
  (exists pre, s = pre ++ s') /\
  (exists more, c' = (c ++ more)%list /\ List.length more = captures r).
Proof.
  induction 1 as [s c | c | p ch s c E | p s c | p ch s s' c E M IH
                 | r1 r2 s s1 s2 c c1 c2 M1 IH1 M2 IH2 | r s s' c c' M IH].
  - split; [now exists "" | exists []; now rewrite app_nil_r].
  - split; [now exists "" | exists []; now rewrite app_nil_r].
  - split; [now exists (String ch "") | exists []; now rewrite app_nil_r].
  - split; [now exists "" | exists []; now rewrite app_nil_r].
  - destruct IH as [(pre & ->) Hc]. split; [now exists (String ch pre) | exact Hc].
  - destruct IH1 as [(p1 & ->) (m1 & -> & L1)].
    destruct IH2 as [(p2 & ->) (m2 & -> & L2)]. split.
    + exists (p1 ++ p2). symmetry. apply LabelFacts.app_assoc.
    + exists (m1 ++ m2)%list. split.
      * now rewrite List.app_assoc.
      * cbn. rewrite List.length_app. lia.
  - destruct IH as [Hs (m & -> & L)]. split; [exact Hs|].
    exists (m ++ [consumed s s'])%list. split.
    + now rewrite List.app_assoc.
    + cbn. rewrite List.length_app. cbn. lia.
Qed.

Lemma Matches_Emp_inv (s s' : string) (c c' : list string) :
  Matches Emp s c s' c' -> s' = s /\ c' = c.
Proof. intros M. inversion M; subst. now split. Qed.

Lemma Matches_Eos_inv (s s' : string) (c c' : list string) :
  Matches Eos s c s' c' -> s = "" /\ s' = "" /\ c' = c.
Proof. intros M. inversion M; subst. now repeat split. Qed.

Lemma Matches_Cls_inv (p : ascii -> bool) (s s' : string) (c c' : list string) :
  Matches (Cls p) s c s' c' ->
  exists ch, s = String ch s' /\ p ch = true /\ c' = c.
Proof. intros M. inversion M; subst. eexists. now repeat split. Qed.

Lemma Matches_Cat_inv (r1 r2 : regex) (s s' : string) (c c' : list string) :
  Matches (Cat r1 r2) s c s' c' ->
  exists s1 c1, Matches r1 s c s1 c1 /\ Matches r2 s1 c1 s' c'.
Proof. intros M. inversion M; subst. eexists. eexists. split; eassumption. Qed.

Lemma Matches_Cap_inv (r : regex) (s s' : string) (c c' : list string) :
  Matches (Cap r) s c s' c' ->
  exists c0, Matches r s c s' c0 /\ c' = (c0 ++ [consumed s s'])%list.
Proof. intros M. inversion M; subst. eexists. split; [eassumption | reflexivity]. Qed.

Lemma Matches_nocap (r : regex) (s s' : string) (c c' : list string) :
  captures r = 0%nat -> Matches r s c s' c' -> c' = c.
Proof.
  intros Hr M. apply Matches_shape in M as [_ (more & -> & L)].
  rewrite Hr in L. destruct more; [now rewrite app_nil_r | discriminate].
Qed.

Lemma Matches_cap (r : regex) (s s' : string) (c c' : list string) :
  captures r = 0%nat -> Matches (Cap r) s c s' c' ->
  c' = (c ++ [consumed s s'])%list /\ Matches r s c s' c.
Proof.
  intros Hr M. apply Matches_Cap_inv in M as (c0 & M & ->).
  pose proof (Matches_nocap _ _ _ _ _ Hr M) as ->. now split.
Qed.

Lemma Matches_rep (n : nat) (p : ascii -> bool) :
  forall (s s' : string) (c c' : list string),
    Matches (Rep n p) s c s' c' ->
    exists a, s = a ++ s' /\ String.length a = n /\ allChars p a = true.
Proof.
  induction n as [|n IH]; cbn [Rep]; intros s s' c c' M.
  - apply Matches_Emp_inv in M as [-> _]. now exists "".
  - apply Matches_Cat_inv in M as (s1 & c1 & M1 & M2).
    apply Matches_Cls_inv in M1 as (ch & -> & E & ->).
    apply IH in M2 as (a & -> & L & A).
    exists (String ch a). cbn. rewrite E, A, L. now repeat split.
Qed.

(** the group of the pattern "([0-9A-Fa-f]{4})" holds four hexadecimal
    digits *)
Lemma Matches_hex4 (s s' : string) (c c' : list string) :
  Matches (Cap (Rep 4 isHex)) s c s' c' ->
  exists a, c' = (c ++ [a])%list /\ hex4 a.
Proof.
  intros M. apply Matches_cap in M as [-> M]; [|reflexivity].
  apply Matches_rep in M as (a & -> & L & A).
  exists a. rewrite LabelFacts.consumed_app. now repeat split.
Qed.

End MatchingFacts.

(** ** Every address the resolver hands out is a 16-bit address *)

Module BoundFacts.
Import JS Hex Matching MatchingFacts BreakpointManager.

Ltac each_char c :=
  destruct c as [[] [] [] [] [] [] [] []].

Lemma hex_digit (c : ascii) :
  isHex c = true -> exists d, digitValue c = Some d /\ 0 <= d < 16.
Proof.
  each_char c; intros H; try discriminate H;
    eexists; (split; [vm_compute; reflexivity | lia]).
Qed.

Lemma hex_not_space (c : ascii) : isHex c = true -> isSpace c = false.
Proof. each_char c; intros H; try discriminate H; reflexivity. Qed.

Lemma hex_not_sign (c : ascii) :
  isHex c = true -> Ascii.eqb c "-" = false /\ Ascii.eqb c "+" = false.
Proof. each_char c; intros H; try discriminate H; split; reflexivity. Qed.

Lemma hex_not_x (c : ascii) :
  isHex c = true -> Ascii.eqb c "x" || Ascii.eqb c "X" = false.
Proof. each_char c; intros H; try discriminate H; reflexivity. Qed.

Lemma readDigits_hex (s : string) :
  forall (acc : Z) (seen : bool),
    allChars isHex s = true ->
    exists v,
      readDigits 16 s acc seen
      = (acc * 16 ^ Z.of_nat (String.length s) + v,
         match s with EmptyString => seen | String _ _ => true end)
      /\ 0 <= v < 16 ^ Z.of_nat (String.length s).
Proof.
  induction s as [|ch s IH]; intros acc seen H.
  - exists 0. cbn. split; [f_equal; lia | lia].
  - cbn [allChars] in H. apply andb_prop in H as [Hc Hs].
    destruct (hex_digit ch Hc) as (d & Hd & Hr).
    destruct (IH (acc * 16 + d) true Hs) as (v & E & Hv).
    exists (d * 16 ^ Z.of_nat (String.length s) + v).
    cbn [readDigits]. rewrite Hd.
    replace (d <? 16) with true by (symmetry; apply Z.ltb_lt; lia).
    rewrite E.
    replace (Z.of_nat (String.length (String ch s)))
      with (Z.succ (Z.of_nat (String.length s))) by (cbn [String.length]; lia).
    rewrite Z.pow_succ_r by lia.
    split.
    + f_equal; [ring | now destruct s].
    + nia.
Qed.

Lemma parseInt_hex (s : string) :
  s <> "" -> allChars isHex s = true ->
  exists v, parseInt s 16 = Some v /\ 0 <= v < 16 ^ Z.of_nat (String.length s).
Proof.
  intros Hne H. destruct s as [|c0 rest]; [congruence|].
  pose proof H as H0. cbn [allChars] in H0. apply andb_prop in H0 as [Hc0 Hrest].
  destruct (readDigits_hex (String c0 rest) 0 false H) as (v & E & Hv).
  exists v. split; [|exact Hv].
  unfold parseInt. cbn [dropSpace].
  rewrite (hex_not_space c0 Hc0).
  destruct (hex_not_sign c0 Hc0) as [-> ->].
  replace (16 =? 16) with true by reflexivity.
  assert (Hstrip : stripHexPrefix (String c0 rest) = String c0 rest).
  { destruct rest as [|c1 rest']; [reflexivity|].
    cbn [allChars] in Hrest. apply andb_prop in Hrest as [Hc1 _].
    cbn [stripHexPrefix]. rewrite (hex_not_x c1 Hc1).
    now rewrite andb_false_r. }
  rewrite Hstrip, E. f_equal; lia.
Qed.

Lemma num_hex4 (a : string) : hex4 a -> word16 (num a 16).
Proof.
  intros [L A]. unfold num, word16.
  destruct (parseInt_hex a) as (v & -> & Hv); [|exact A|].
  - intros ->. discriminate L.
  - rewrite L in Hv. change (16 ^ Z.of_nat 4) with 65536 in Hv. lia.
Qed.

(** the first group of a pattern that begins with "([0-9A-Fa-f]{4})" *)
Lemma first_group_hex4 (r : regex) (line : string) (caps : list string) :
  matchStart (Cat (Cap (Rep 4 isHex)) r) line = Some caps ->
  exists a more, caps = a :: more /\ hex4 a.
Proof.
  intros H. apply matchStart_sound in H as (s' & M).
  apply Matches_Cat_inv in M as (s1 & c1 & M1 & M2).
  apply Matches_hex4 in M1 as (a & -> & Ha).
  apply Matches_shape in M2 as [_ (more & -> & _)].
  now exists a, more.
Qed.

Ltac first_group E :=
  apply first_group_hex4 in E as (? & ? & E & ?);
  injection E as <- _; now apply num_hex4.

Lemma parseBdsLine_word16 (i : Z) (raw : string) (sym : SymbolInfo.t) :
  parseBdsLine i raw = Some sym -> word16 (SymbolInfo.address sym).
Proof.
  unfold parseBdsLine. destruct (trim raw) as [|c0 line0]; [discriminate|].
  set (line := String c0 line0).
  intros H.
  repeat match type of H with
  | context [match matchStart ?r ?l with _ => _ end] =>
      let E := fresh "E" in
      destruct (matchStart r l) as [[|? [|? [|? [|? [|? ?]]]]]|] eqn:E
  end; try discriminate H; injection H as <-; cbn [SymbolInfo.address mkSymbol].
  all: match goal with
       | E : matchStart labelRe _ = Some (_ :: _) |- _ => first_group E
       | E : matchStart sourceRe _ = Some (_ :: _) |- _ => first_group E
       | E : matchStart simpleRe _ = Some (_ :: _) |- _ => first_group E
       | E : matchStart complexRe _ = Some (_ :: _) |- _ => first_group E
       end.
Qed.

End BoundFacts.

Module ResolverFacts.
Import JS Hex Matching MatchingFacts BoundFacts BreakpointManager Origin.

Ltac peel M :=
  let s1 := fresh "s" in
  let c1 := fresh "c" in
  let M1 := fresh "M" in
  apply Matches_Cat_inv in M as (s1 & c1 & M1 & M);
  first [ apply Matches_hex4 in M1 as (? & -> & ?)
        | apply Matches_cap in M1 as [-> _]; [|reflexivity]
        | apply Matches_nocap in M1 as ->; [|reflexivity] ].

(** the groups of a listing line: the line number and four hexadecimal
    digits *)
Lemma listing_groups (line : string) (caps : list string) :
  matchStart listingRe line = Some caps ->
  exists lineStr a, caps = [lineStr; a] /\ hex4 a.
Proof.
  intros H. apply matchStart_sound in H as (s' & M).
  unfold listingRe in M. cbn [Seq] in M.
  do 7 peel M.
  apply Matches_nocap in M as ->; [|reflexivity].
  cbn [app]. eexists. eexists. split; [reflexivity | assumption].
Qed.

Lemma listingEntry_word16 (line : string) (e : Listing.ListingEntry) :
  Listing.listingEntry line = Some e -> word16 (Listing.address e).
Proof.
  unfold Listing.listingEntry.
  destruct (matchStart listingRe line) as [caps|] eqn:E; [|discriminate].
  destruct (listing_groups _ _ E) as (l & a & -> & Ha).
  intros H. injection H as <-. cbn. now apply num_hex4.
Qed.

Lemma entriesOf_word16 (lines : list string) :
  Forall (fun e => word16 (Listing.address e)) (Listing.entriesOf lines).
Proof.
  induction lines as [|line rest IH]; cbn [Listing.entriesOf]; [constructor|].
  destruct (Listing.listingEntry line) as [e|] eqn:E; [|exact IH].
  constructor; [now apply (listingEntry_word16 line) | exact IH].
Qed.

(** a successful scan of the listing hands back the address of one of its
    entries for the line *)
Lemma scanListing_entry (L : Z) (lines : list string) (a : Z) :
  scanListing L lines = Some a ->
  exists e, In e (Listing.entriesOf lines) /\
            Listing.sourceLine e = L /\ Listing.address e = a.
Proof.
  rewrite ListingFacts.scanListing_first.
  destruct (find (Listing.forLine L) (Listing.entriesOf lines)) as [e|] eqn:F;
    [|discriminate].
  intros H. injection H as <-.
  apply find_some in F as [Hin Hl].
  exists e. repeat split; [exact Hin|]. now apply Z.eqb_eq.
Qed.

Lemma parseBdsLines_word16 (lines : list string) :
  forall i, Forall (fun s => word16 (SymbolInfo.address s))
                   (parseBdsLines i lines).
Proof.
  induction lines as [|raw rest IH]; intros i; cbn [parseBdsLines];
    [constructor|].
  destruct (parseBdsLine i raw) as [sym|] eqn:E; [|apply IH].
  constructor; [now apply (parseBdsLine_word16 i raw) | apply IH].
Qed.

Lemma parseBdsFile_word16 (h : Host.t) (bdsFile : string) :
  Forall (fun s => word16 (SymbolInfo.address s)) (parseBdsFile h bdsFile).
Proof.
  unfold parseBdsFile.
  destruct (negb (Host.existsSync h bdsFile)); [constructor|].
  destruct (Host.readFileSync h bdsFile); [|constructor].
  apply parseBdsLines_word16.
Qed.

Section Nearest.
Variable symbolMap : list SymbolInfo.t.
Variable L : Z.

Local Abbreviation inMap := (Origin.inMap symbolMap).

Lemma nearestLoop_inMap (lines : list string) :
  forall (i : Z) (nearest : option (SymbolInfo.t * Z)),
    inMap nearest -> inMap (nearestLoop symbolMap L i lines nearest).
Proof.
  induction lines as [|raw rest IH]; intros i nearest H; [exact H|].
  cbn [nearestLoop]. apply IH.
  destruct (matchStart lineLabelRe (trim raw)) as [[|l [|? ?]]|]; try exact H.
  destruct (find (hasLabel l) symbolMap) as [sym|] eqn:F; [|exact H].
  apply find_some in F as [Hin _].
  destruct (i + 1 <=? L); [|exact H].
  destruct nearest as [[old d]|]; [|exact Hin].
  destruct (L - (i + 1) <? d); [exact Hin | exact H].
Qed.

End Nearest.

(** the label strategies hand back the address of a symbol of the map *)
Lemma nearestLabel_symbol (h : Host.t) (sourceFile : string) (L : Z)
    (symbolMap : list SymbolInfo.t) (a : Z) :
  findAddressUsingNearestLabel h sourceFile L symbolMap = Some a ->
  fromSymbol symbolMap a.
Proof.
  unfold findAddressUsingNearestLabel.
  destruct (Host.readFileSync h sourceFile) as [content|]; [|discriminate].
  cbv zeta.
  destruct (Z.of_nat (List.length (splitLines content)) <? L); [discriminate|].
  destruct (L <? 1); [discriminate|].
  destruct (nth_error (splitLines content) (Z.to_nat (L - 1))) as [raw|];
    [|discriminate].
  destruct (matchStart lineLabelRe (trim raw)) as [[|l [|? ?]]|] eqn:E.
  all: try (destruct (find (hasLabel l) symbolMap) as [sym|] eqn:F;
            [ intros H; injection H as <-;
              apply find_some in F as [Hin _]; now exists sym | ]).
  all: pose proof (nearestLoop_inMap symbolMap L (splitLines content) 0 None I)
         as Hn;
       destruct (nearestLoop symbolMap L 0 (splitLines content) None)
         as [[sym d]|]; [|discriminate];
       intros H; injection H as <-; now exists sym.
Qed.

Lemma findAddress_origin (h : Host.t) (sourceFile : string) (L : Z)
    (symbolMap : list SymbolInfo.t) (a : Z) :
  findAddressForSourceLine h sourceFile L symbolMap = Some a ->
  fromListing h sourceFile L a \/ fromSymbol symbolMap a.
Proof.
  unfold findAddressForSourceLine.
  destruct (Host.workspaceFolder h) as [workspace|] eqn:W; [|discriminate].
  cbv zeta.
  destruct (Host.existsSync h (listingFileOf h workspace sourceFile)) eqn:X;
    cbn [negb]; [|right; eapply nearestLabel_symbol; eassumption].
  destruct (Host.readFileSync h (listingFileOf h workspace sourceFile))
    as [content|] eqn:R; [|right; eapply nearestLabel_symbol; eassumption].
  destruct (scanListing L (splitLines content)) as [a'|] eqn:S;
    [|right; eapply nearestLabel_symbol; eassumption].
  intros H. injection H as <-. left.
  apply scanListing_entry in S as (e & Hin & Hl & Ha).
  exists content, e. repeat split; try assumption.
  exists workspace. now repeat split.
Qed.

Lemma fromListing_word16 (h : Host.t) (sourceFile : string) (L a : Z) :
  fromListing h sourceFile L a -> word16 a.
Proof.
  intros (content & e & _ & Hin & _ & <-).
  pose proof (entriesOf_word16 (splitLines content)) as F.
  rewrite Forall_forall in F. now apply F.
Qed.

Lemma fromSymbol_word16 (symbolMap : list SymbolInfo.t) (a : Z) :
  Forall (fun s => word16 (SymbolInfo.address s)) symbolMap ->
  fromSymbol symbolMap a -> word16 a.
Proof.
  intros F (sym & Hin & <-). rewrite Forall_forall in F. now apply F.
Qed.

Lemma resolveBreakpoint_known (h : Host.t) (symbolMap : list SymbolInfo.t)
    (bp : Host.Breakpoint) (info : BreakpointInfo.t) :
  resolveBreakpoint h symbolMap bp = Some info -> known h symbolMap info.
Proof.
  destruct bp as [f n|name]; cbn [resolveBreakpoint]; [|discriminate].
  destruct (findAddressForSourceLine h f (n + 1) symbolMap) as [a|] eqn:E;
    [|discriminate].
  intros H. injection H as <-. unfold known. cbn.
  now apply findAddress_origin.
Qed.

Lemma resolveAll_known (h : Host.t) (symbolMap : list SymbolInfo.t)
    (bps : list Host.Breakpoint) :
  Forall (known h symbolMap) (resolveAll h symbolMap bps).
Proof.
  induction bps as [|bp rest IH]; cbn [resolveAll]; [constructor|].
  destruct (resolveBreakpoint h symbolMap bp) as [info|] eqn:E; [|exact IH].
  constructor; [now apply (resolveBreakpoint_known h symbolMap bp) | exact IH].
Qed.

Lemma getBreakpointAddresses_known (h : Host.t) (bdsFile : string) :
  Forall (known h (parseBdsFile h bdsFile)) (getBreakpointAddresses h bdsFile).
Proof.
  unfold getBreakpointAddresses.
  pose proof (resolveAll_known h (parseBdsFile h bdsFile) (Host.breakpoints h))
    as F.
  rewrite <- (firstn_skipn 4) in F. apply Forall_app in F. exact (proj1 F).
Qed.

Lemma known_word16 (h : Host.t) (bdsFile : string) (info : BreakpointInfo.t) :
  known h (parseBdsFile h bdsFile) info -> word16 (BreakpointInfo.address info).
Proof.
  intros [Hl|Hs].
  - eapply fromListing_word16. exact Hl.
  - eapply fromSymbol_word16; [apply parseBdsFile_word16 | exact Hs].
Qed.

Lemma findEntryLine_word16 (lines : list string) (a : Z) :
  findEntryLine lines = Some a -> word16 a.
Proof.
  induction lines as [|line rest IH]; cbn [findEntryLine]; [discriminate|].
  destruct (matchStart entryRe (trim line)) as [[|x [|? ?]]|] eqn:E;
    try exact IH.
  intros H. injection H as <-.
  apply first_group_hex4 in E as (x' & more & E & Hx).
  injection E as <- _. now apply num_hex4.
Qed.

Lemma getEntryPoint_word16 (h : Host.t) (bdsFile : string) (a : Z) :
  getEntryPoint h bdsFile = Some a -> word16 a.
Proof.
  unfold getEntryPoint.
  destruct (negb (Host.existsSync h bdsFile)); [discriminate|].
  destruct (Host.readFileSync h bdsFile) as [content|]; [|discriminate].
  destruct (findEntryLine (splitLines content)) as [e|] eqn:E.
  - intros H. injection H as <-. now apply (findEntryLine_word16 _ _ E).
  - pose proof (parseBdsFile_word16 h bdsFile) as F.
    rewrite Forall_forall in F. cbv zeta.
    destruct (find isMain (parseBdsFile h bdsFile)) as [m|] eqn:M.
    + intros H. injection H as <-. apply F.
      now apply find_some in M as [Hin _].
    + destruct (parseBdsFile h bdsFile) as [|first rest]; [discriminate|].
      intros H. injection H as <-. apply F. now left.
Qed.

End ResolverFacts.

Module FlagFacts.
Import JS Hex Matching BreakpointManager Origin.

Lemma map_string_length (f : ascii -> ascii) (s : string) :
  String.length (map_string f s) = String.length s.
Proof. induction s as [|c s IH]; cbn; [reflexivity | now rewrite IH]. Qed.

Lemma digits_length (fuel : nat) :
  forall (n : Z) (acc : string) (k : nat),
    (1 <= k)%nat -> 0 <= n < 16 ^ Z.of_nat k ->
    (String.length (digits 16 fuel n acc) <= k + String.length acc)%nat.
Proof.
  induction fuel as [|fuel IH]; intros n acc k Hk Hn; cbn [digits]; [lia|].
  destruct (Z.eqb_spec (n / 16) 0) as [E|E]; [cbn [String.length]; lia|].
  destruct k as [|[|k]]; [lia | |].
  - exfalso. apply E. apply Z.div_small. change (16 ^ Z.of_nat 1) with 16 in Hn. lia.
  - specialize (IH (n / 16) (String (digitChar (n mod 16)) acc) (S k)).
    cbn [String.length] in IH.
    assert (0 <= n / 16 < 16 ^ Z.of_nat (S k)).
    { replace (Z.of_nat (S (S k))) with (Z.succ (Z.of_nat (S k))) in Hn by lia.
      rewrite Z.pow_succ_r in Hn by lia.
      split; [apply Z.div_pos; lia | apply Z.div_lt_upper_bound; lia]. }
    specialize (IH ltac:(lia) H). lia.
Qed.

(** an address is rendered as one to four upper-case hexadecimal digits,
    which [parseInt] reads back *)
Lemma render_word16 (a : Z) :
  word16 a ->
  isAddressText (renderAddress a) /\ parseInt (renderAddress a) 16 = Some a.
Proof.
  intros [Hlo Hhi]. split; [|now apply AddressFacts.parseInt_render].
  unfold isAddressText, renderAddress, toString.
  destruct (Z.ltb_spec a 0); [lia|].
  set (fuel := Z.to_nat (Z.log2 a)).
  repeat split.
  - unfold toUpperCase. rewrite map_string_length.
    pose proof (AddressFacts.digits_nonempty fuel a "") as Hne.
    destruct (digits 16 (S fuel) a ""); [congruence | cbn; lia].
  - unfold toUpperCase. rewrite map_string_length.
    pose proof (digits_length (S fuel) a "" 4 ltac:(lia)) as Hlen.
    cbn [String.length] in Hlen. rewrite Nat.add_0_r in Hlen. apply Hlen.
    change (16 ^ Z.of_nat 4) with 65536. lia.
  - apply AddressFacts.upperHex_digits; [lia | reflexivity].
Qed.

Lemma formatBreakpoints_flagsOf (bps : list BreakpointInfo.t) :
  formatBreakpointsForEmulator bps = flagsOf (map BreakpointInfo.address bps).
Proof.
  induction bps as [|bp rest IH]; cbn; [reflexivity | now rewrite IH].
Qed.

End FlagFacts.

(** X1. Every address the debugging support reads is a 16-bit address:
    the address of each symbol parsed from a symbol file, the address of
    each breakpoint [getBreakpointAddresses] reports, and the entry point
    [getEntryPoint] finds.  Each comes from a group of four hexadecimal
    digits of a line of the symbol file or of the listing. *)
Theorem X1_addresses_are_16_bit (h : Host.t) (bdsFile : string) :
  Forall (fun sym => Matching.word16 (SymbolInfo.address sym))
         (BreakpointManager.parseBdsFile h bdsFile) /\
  Forall (fun info => Matching.word16 (BreakpointInfo.address info))
         (BreakpointManager.getBreakpointAddresses h bdsFile) /\
  match BreakpointManager.getEntryPoint h bdsFile with
  | Some a => Matching.word16 a
  | None => True
  end.
Proof.
  split; [apply ResolverFacts.parseBdsFile_word16 | split].
  - pose proof (ResolverFacts.getBreakpointAddresses_known h bdsFile) as F.
    rewrite Forall_forall in *. intros info Hin.
    apply (ResolverFacts.known_word16 h bdsFile). now apply F.
  - destruct (BreakpointManager.getEntryPoint h bdsFile) as [a|] eqn:E;
      [|exact I].
    now apply (ResolverFacts.getEntryPoint_word16 h bdsFile).
Qed.

(** X2. The address of a reported breakpoint is never computed: it is the
    address of an entry of the listing of the breakpoint's file for the
    breakpoint's line, or the address of a symbol of the symbol file. *)
Theorem X2_breakpoint_address_origin (h : Host.t) (bdsFile : string) :
  Forall (Origin.known h (BreakpointManager.parseBdsFile h bdsFile))
         (BreakpointManager.getBreakpointAddresses h bdsFile).
Proof. apply ResolverFacts.getBreakpointAddresses_known. Qed.

(** X3. The breakpoint flags [prepareEmulatorArgs] hands to the emulator
    are "-b" followed by an address, for at most four addresses; each
    address is written as one to four upper-case hexadecimal digits that
    [parseInt(_, 16)] reads back as the address.  Outside debug mode there
    are none. *)
Theorem X3_breakpoint_flags_shape (h : Host.t)
    (configEmulatorArgs : list string) (assemblyResult : AssemblyResult.t)
    (isDebugMode : bool) :
  exists addrs : list Z,
    snd (TRS80Commands.prepareEmulatorArgs h configEmulatorArgs
           assemblyResult isDebugMode)
    = Origin.flagsOf addrs /\
    (List.length addrs <= 4)%nat /\
    Forall (fun a =>
              Matching.word16 a /\
              Origin.isAddressText (BreakpointManager.renderAddress a) /\
              JS.parseInt (BreakpointManager.renderAddress a) 16 = Some a)
           addrs /\
    (if isDebugMode then True else addrs = []).
Proof.
  unfold TRS80Commands.prepareEmulatorArgs. cbn [snd].
  unfold TRS80Commands.prepareBreakpointArgs.
  assert (Hnone : exists addrs : list Z,
             @nil string = Origin.flagsOf addrs /\
             (List.length addrs <= 4)%nat /\
             Forall (fun a =>
                       Matching.word16 a /\
                       Origin.isAddressText (BreakpointManager.renderAddress a) /\
                       JS.parseInt (BreakpointManager.renderAddress a) 16 = Some a)
                    addrs /\
             (if isDebugMode then True else addrs = [])).
  { exists []. repeat split; [cbn; lia | constructor | now destruct isDebugMode]. }
  destruct (OutputFiles.bds (AssemblyResult.outputFiles assemblyResult))
    as [bds|]; [|exact Hnone].
  destruct isDebugMode; cbn [andb]; [|exact Hnone].
  destruct (negb (bds =? "")%string); [|exact Hnone].
  pose proof (Hknown := ResolverFacts.getBreakpointAddresses_known h bds).
  destruct (BreakpointManager.getBreakpointAddresses h bds) as [|b0 bs] eqn:E.
  - destruct (BreakpointManager.getEntryPoint h bds) as [a|] eqn:G;
      [|exact Hnone].
    exists [a]. repeat split; [cbn; lia|].
    constructor; [|constructor].
    pose proof (ResolverFacts.getEntryPoint_word16 h bds a G) as Ha.
    split; [exact Ha | now apply FlagFacts.render_word16].
  - exists (map BreakpointInfo.address (b0 :: bs)). repeat split.
    + apply FlagFacts.formatBreakpoints_flagsOf.
    + rewrite length_map, <- E.
      unfold BreakpointManager.getBreakpointAddresses. apply firstn_le_length.
    + rewrite Forall_forall in *. intros a Ha.
      apply in_map_iff in Ha as (info & <- & Hin).
      pose proof (ResolverFacts.known_word16 h bds info (Hknown info Hin)) as Hw.
      split; [exact Hw | now apply FlagFacts.render_word16].
Qed.

(** ** The run and debug commands *)

Module FlowFacts.
Import TRS80Commands Flow.

Lemma validate_string (existsSync : string -> bool) (p : string) :
  ConfigurationValidation.validateConfiguration existsSync (JStr p) = [] <->
  p <> "" /\ existsSync p = true.
Proof.
  unfold ConfigurationValidation.validateConfiguration. cbn [JSValue.truthy].
  destruct (String.eqb_spec p "") as [->|Hp]; cbn [negb].
  - split; [discriminate | now intros [? _]].
  - destruct (existsSync p); split; try discriminate; auto.
    now intros [_ ?].
Qed.

Lemma present_some (v : option string) (s : string) :
  present v = Some s <-> v = Some s /\ s <> "".
Proof.
  unfold present. destruct v as [x|]; [|split; [discriminate | now intros [? _]]].
  destruct (String.eqb_spec x "") as [->|Hx]; split.
  - discriminate.
  - intros [[= <-] H]. congruence.
  - intros [= <-]. now split.
  - now intros [-> _].
Qed.

(** [getSourceFile] shows a message only when it hands back [null] *)
Lemma getSourceFile_quiet (h : Host.t) (ed : Editor) (config : Config) :
  match snd (getSourceFile h ed config) with
  | Some _ => fst (getSourceFile h ed config) = []
  | None => forallb isMessage (fst (getSourceFile h ed config)) = true
  end /\
  (snd (getSourceFile h ed config) <> None -> Host.workspaceFolder h <> None).
Proof.
  unfold getSourceFile.
  destruct (Host.workspaceFolder h) as [workspace|]; [|split; [reflexivity | now cbn]].
  split; [|discriminate].
  destruct (match activeFileName ed with
            | Some fileName => if isAssemblyFile ed fileName then Some fileName else None
            | None => None
            end); [reflexivity|].
  destruct (match defaultSourceFile config with
            | Some d => _
            | None => None
            end); [reflexivity|].
  destruct (findFiles ed) as [|f [|g rest]]; try reflexivity.
  cbn [fst snd]. now destruct (match showQuickPick ed (f :: g :: rest) with
                               | Some filePath => _
                               | None => None
                               end).
Qed.

Lemma no_launch_in_messages (asked : list Action) (a : Action) :
  forallb isMessage asked = true -> In a asked -> launches a = false.
Proof.
  intros H Hin. rewrite forallb_forall in H. specialize (H a Hin).
  now destruct a.
Qed.

Section Settle.
Variable h : Host.t.
Variable run : ChildProcess.Run.
Variables sourceFile fullOutputDir sourceBaseName : string.

(** the handlers never reject, and leave the promise pending only when
    the child neither closed nor failed *)
Lemma settle_cases (evs : list ChildProcess.Event) :
  forall stdout stderr,
    match ZmacAssembler.settle h run sourceFile fullOutputDir sourceBaseName
            evs stdout stderr with
    | Resolved _ => True
    | Rejected _ => False
    | Pending => forallb Assembly.isData evs = true
    end.
Proof.
  induction evs as [|e evs IH]; intros stdout stderr; [reflexivity|].
  destruct e; cbn [ZmacAssembler.settle forallb Assembly.isData andb];
    try apply IH; exact I.
Qed.

End Settle.

Lemma spawns_app (a b : list Effect) :
  spawns (a ++ b) = spawns a || spawns b.
Proof. apply existsb_app. Qed.

Lemma assemble_cases (h : Host.t) (run : ChildProcess.Run)
    (sourceFile outputDir zmacPath : string) (zmacArgs : list string) :
  match snd (ZmacAssembler.assemble h run sourceFile outputDir zmacPath zmacArgs) with
  | Resolved _ =>
      spawns (fst (ZmacAssembler.assemble h run sourceFile outputDir zmacPath
                     zmacArgs)) = true
  | Rejected _ =>
      spawns (fst (ZmacAssembler.assemble h run sourceFile outputDir zmacPath
                     zmacArgs)) = false
  | Pending =>
      spawns (fst (ZmacAssembler.assemble h run sourceFile outputDir zmacPath
                     zmacArgs)) = true
      /\ forallb Assembly.isData (ChildProcess.events run) = true
  end.
Proof.
  unfold ZmacAssembler.assemble.
  destruct (Host.workspaceFolder h) as [workspace|]; [|reflexivity].
  cbv zeta.
  destruct (negb (Host.existsSync h (Host.join h [workspace; outputDir]))
            && Host.mkdirSyncThrows h (Host.join h [workspace; outputDir]));
    [reflexivity|].
  cbn [fst snd].
  pose proof (settle_cases h run sourceFile
                (Host.join h [workspace; outputDir])
                (Host.basenameNoExt h sourceFile)
                (ChildProcess.events run) "" "") as S.
  assert (Hs : forall pre args,
             spawns (pre ++ [Spawn zmacPath args workspace]) = true).
  { intros pre args. rewrite spawns_app. cbn. apply orb_true_r. }
  destruct (ZmacAssembler.settle h run sourceFile
              (Host.join h [workspace; outputDir])
              (Host.basenameNoExt h sourceFile)
              (ChildProcess.events run) "" "");
    [apply Hs | contradiction | split; [apply Hs | exact S]].
Qed.

Lemma spawned_did (effects : list Effect) :
  spawned (map Did effects) = spawns effects.
Proof.
  unfold spawned, spawns. induction effects as [|e rest IH]; [reflexivity|].
  cbn [map existsb isSpawned]. now rewrite IH.
Qed.

Lemma spawned_messages (asked : list Action) :
  forallb isMessage asked = true -> spawned asked = false.
Proof.
  unfold spawned. induction asked as [|a rest IH]; [reflexivity|].
  cbn [forallb existsb]. intros H. apply andb_prop in H as [Ha Hrest].
  rewrite (IH Hrest). now destruct a.
Qed.

(** What the rest of [performAssembly] can hand back for a settled source
    file; its actions are the effects of the assembler. *)
Lemma assembleSource_cases (h : Host.t) (run : ChildProcess.Run)
    (sourceFile : string) (config : Config) :
  exists effects,
    fst (assembleSource h run sourceFile config) = map Did effects /\
    match snd (assembleSource h run sourceFile config) with
    | Resolved (Some result) =>
        AssemblyResult.success result = true /\
        (if spawns effects then True
         else effects = [] /\ AssemblyResult.errors result = [])
    | Resolved None => spawns effects = true
    | Rejected _ => spawns effects = false
    | Pending =>
        spawns effects = true /\
        forallb Assembly.isData (ChildProcess.events run) = true
    end.
Proof.
  unfold assembleSource.
  destruct (Host.workspaceFolder h) as [workspace|];
    [|exists []; split; reflexivity].
  cbv zeta.
  destruct (ZmacAssembler.needsAssembly h sourceFile _); cbn [negb fst snd].
  - pose proof (assemble_cases h run sourceFile (outputDir config)
                  (zmacPath config) (zmacArgs config)) as A.
    destruct (ZmacAssembler.assemble h run sourceFile (outputDir config)
                (zmacPath config) (zmacArgs config))
      as [effects [result| reason |]]; cbn [fst snd] in *; exists effects.
    + destruct (AssemblyResult.success result) eqn:S; cbn [negb fst snd].
      * rewrite A. now repeat split.
      * now split.
    + now split.
    + now split.
  - exists []. now repeat split.
Qed.


Lemma present_keeps (v : option string) (s : string) :
  present v = Some s -> present (Some s) = Some s.
Proof.
  intros H. apply present_some in H as [_ Hs]. cbn [present].
  apply String.eqb_neq in Hs. now rewrite Hs.
Qed.

End FlowFacts.

(** X4. What [performAssembly] can hand back, whatever it is called
    with.  A result that is not [null] is a successful one, so the test of
    [success] that follows in [executeWithMode] never decides anything;
    without a spawned process it is the result made up for an unchanged
    source, which carries no diagnostics, and nothing was done.  [null] is
    handed back in two cases only: after the assembler ran, or when no
    source file was passed and [getSourceFile] found none, and then only
    the messages of [getSourceFile] were shown.  The promise rejects only
    before any process is spawned, and stays pending only while the
    spawned assembler has neither closed nor failed. *)
Theorem X4_performAssembly_outcomes (h : Host.t) (ed : TRS80Commands.Editor)
    (run : ChildProcess.Run)
    (getConfiguration : TRS80Commands.Config + string)
    (sourceFile : option string) (config : option TRS80Commands.Config) :
  let outcome :=
    TRS80Commands.performAssembly h ed run getConfiguration sourceFile
      config in
  let actions := fst outcome in
  match snd outcome with
  | Resolved (Some result) =>
      AssemblyResult.success result = true /\
      (if Flow.spawned actions then True
       else actions = [] /\ AssemblyResult.errors result = [])
  | Resolved None =>
      Flow.spawned actions = true \/
      (TRS80Commands.present sourceFile = None /\
       exists used found,
         TRS80Commands.getSourceFile h ed used = (actions, found) /\
         TRS80Commands.present found = None /\
         forallb Flow.isMessage actions = true)
  | Rejected _ => Flow.spawned actions = false
  | Pending =>
      Flow.spawned actions = true /\
      forallb Assembly.isData (ChildProcess.events run) = true
  end
  /\
  (forall used : TRS80Commands.Config,
      match config with
      | Some given => inl given
      | None => getConfiguration
      end = inl used ->
      TRS80Commands.present sourceFile = None ->
      TRS80Commands.present (snd (TRS80Commands.getSourceFile h ed used))
      = None ->
      outcome
      = (fst (TRS80Commands.getSourceFile h ed used), Resolved None)).
Proof.
  cbv zeta. split.
  2:{ intros used Hused Hnone Hfound.
      unfold TRS80Commands.performAssembly. rewrite Hused, Hnone.
      destruct (TRS80Commands.getSourceFile h ed used) as [asked found].
      cbn [fst snd] in Hfound |- *. now rewrite Hfound. }
  unfold TRS80Commands.performAssembly.
  destruct (match config with
            | Some given => inl given
            | None => getConfiguration
            end) as [used|rendering]; [|reflexivity].
  pose proof (FlowFacts.getSourceFile_quiet h ed used) as [Q _].
  assert (Htail : forall f,
    let '(did, promise) := TRS80Commands.assembleSource h run f used in
    match promise with
    | Resolved (Some result) =>
        AssemblyResult.success result = true /\
        (if Flow.spawned did then True
         else did = [] /\ AssemblyResult.errors result = [])
    | Resolved None => Flow.spawned did = true
    | Rejected _ => Flow.spawned did = false
    | Pending =>
        Flow.spawned did = true /\
        forallb Assembly.isData (ChildProcess.events run) = true
    end).
  { intros f.
    destruct (FlowFacts.assembleSource_cases h run f used) as (effects & E & C).
    destruct (TRS80Commands.assembleSource h run f used) as [did promise].
    cbn [fst snd] in E, C. subst did. rewrite FlowFacts.spawned_did.
    destruct promise as [[result|]| |]; try exact C.
    destruct C as [S C]. split; [exact S|].
    destruct (Flow.spawns effects); [exact I|].
    destruct C as [-> C]. now split. }
  destruct (TRS80Commands.present sourceFile) as [given|] eqn:PS.
  - rewrite (FlowFacts.present_keeps _ _ PS).
    specialize (Htail given).
    destruct (TRS80Commands.assembleSource h run given used) as [did promise].
    cbn [fst snd app].
    destruct promise as [[result|]| |];
      [exact Htail | left; exact Htail | exact Htail | exact Htail].
  - destruct (TRS80Commands.getSourceFile h ed used) as [asked found] eqn:G.
    cbn [fst snd] in Q.
    destruct (TRS80Commands.present found) as [f|] eqn:PF.
    + apply FlowFacts.present_some in PF as [-> _]. subst asked.
      specialize (Htail f).
      destruct (TRS80Commands.assembleSource h run f used) as [did promise].
      cbn [fst snd app].
    destruct promise as [[result|]| |];
      [exact Htail | left; exact Htail | exact Htail | exact Htail].
    + cbn [fst snd]. right. split; [reflexivity|].
      exists used, found. repeat split; try assumption.
      destruct found; [now subst asked | exact Q].
Qed.

(** the assemble-only command, which passes no file: without a workspace
    folder nothing is assembled and [null] is handed back *)
Example assemble_only_without_folder :
  TRS80Commands.performAssembly Scenarios.hostNoFolder Scenarios.editor
    Scenarios.runClean (inl Scenarios.config) None None
  = ([TRS80Commands.ShowError "No workspace folder open"], Resolved None).
Proof. reflexivity. Qed.

Module ExecuteFacts.
Import TRS80Commands Flow.



End ExecuteFacts.



(** what the user sees in that run: the call, then the message *)
Example debug_run_with_the_manager :
  TRS80Commands.executeWithMode Scenarios.hostReady Scenarios.hostReady
    Scenarios.editor Scenarios.runClean (inl Scenarios.config)
    Scenarios.managerRejects true
  = [ TRS80Commands.StartEmulator "/opt/trs80gp" "/ws/.zout/demo.bds"
        "/ws/.zout/demo.cmd" "/ws/demo.a80" ["-m3"] ["-b"; "6000"] true;
      TRS80Commands.ShowError
        "TRS-80 execution failed: TypeError: emulatorArgs.trim is not a function" ].
Proof. reflexivity. Qed.

(** X6. [executeWithMode] neither creates a directory, nor spawns the
    assembler, nor asks for the emulator unless the configured emulator
    binary exists, a workspace folder is open and [getSourceFile] chose a
    source file: a missing emulator stops the command before anything is
    assembled. *)
Theorem X6_nothing_launched_unconfigured
    (h after : Host.t) (ed : TRS80Commands.Editor) (run : ChildProcess.Run)
    (config : TRS80Commands.Config) (emulatorStart : Outcome unit)
    (isDebugMode : bool) (a : TRS80Commands.Action) :
  In a (TRS80Commands.executeWithMode h after ed run (inl config) emulatorStart
          isDebugMode) ->
  Flow.launches a = true ->
  (TRS80Commands.emulatorPath config <> "" /\
   Host.existsSync h (TRS80Commands.emulatorPath config) = true) /\
  Host.workspaceFolder h <> None /\
  exists src,
    TRS80Commands.getSourceFile h ed config = ([], Some src) /\ src <> "".
Proof.
  unfold TRS80Commands.executeWithMode.
  destruct (ConfigurationValidation.validateConfiguration (Host.existsSync h)
              (JStr (TRS80Commands.emulatorPath config))) as [|e0 es] eqn:V.
  2:{ intros [<-|[]] L. discriminate L. }
  apply FlowFacts.validate_string in V.
  pose proof (FlowFacts.getSourceFile_quiet h ed config) as [Q W].
  destruct (TRS80Commands.getSourceFile h ed config) as [asked chosen] eqn:G.
  cbn [fst snd] in Q, W.
  destruct (TRS80Commands.present chosen) as [sourceFile|] eqn:P.
  - apply FlowFacts.present_some in P as [-> Hsrc]. subst asked.
    intros _ _. split; [exact V | split].
    + now apply W.
    + now exists sourceFile.
  - intros H L. exfalso. destruct chosen as [x|].
    + subst asked. destruct H.
    + rewrite (FlowFacts.no_launch_in_messages asked a Q H) in L.
      discriminate L.
Qed.

Lemma X6_nothing_launched_unconfigured_witness :
  (TRS80Commands.emulatorPath Scenarios.config <> "" /\
   Host.existsSync Scenarios.hostEdited (TRS80Commands.emulatorPath Scenarios.config)
   = true) /\
  Host.workspaceFolder Scenarios.hostEdited <> None /\
  exists src,
    TRS80Commands.getSourceFile Scenarios.hostEdited Scenarios.editor Scenarios.config
    = ([], Some src) /\ src <> "".
Proof.
  apply (X6_nothing_launched_unconfigured Scenarios.hostEdited
           Scenarios.hostReady Scenarios.editor Scenarios.runClean
           Scenarios.config (Resolved tt) false
           (TRS80Commands.Did (Spawn "zmac" ["--od"; "/ws/.zout"; "-L"; "/ws/demo.a80"]
                            "/ws"))).
  - vm_compute. left. reflexivity.
  - reflexivity.
Defined.

(** ** Configuration: validation, precedence, failure *)

Module SettingsFacts.
Import JSValue TRS80Config Config Precedence.

Lemma nonBlank_truthy (v : jsval) :
  nonBlankString v -> exists p, v = JStr p /\ p <> "".
Proof.
  intros (s & -> & Hs). exists s. split; [reflexivity|].
  intros ->. now apply Hs.
Qed.

Lemma returned_minimal (get : string -> jsval) (project : ProjectFile)
    (c : TRS80Config.t) :
  ConfigurationManagerPart004.getConfiguration get project = Some c \/
  ConfigurationManager.getConfiguration get project = Some c ->
  minimal c.
Proof.
  intros [H|H].
  - unfold ConfigurationManagerPart004.getConfiguration in H. cbv zeta in H.
    now destruct (ConfigFacts.ensure004_minimal _ _ H) as [Hm _].
  - unfold ConfigurationManager.getConfiguration in H. cbv zeta in H.
    destruct (nullish _); [discriminate|].
    now destruct (ConfigFacts.ensure_minimal _ _ H) as [Hm _].
Qed.

Lemma blank_string (s : string) :
  JS.trim s <> "" -> blank (JStr s) = Some false.
Proof.
  intros Hs. unfold blank. cbn [truthy].
  destruct (String.eqb_spec s "") as [->|Hne]; [now elim Hs|].
  cbn [negb]. f_equal. now apply String.eqb_neq.
Qed.

Lemma blank_throws (v : jsval) : blank v = None <-> unreadable v = true.
Proof.
  unfold blank, unreadable. destruct (truthy v); cbn [negb andb].
  - destruct v; cbn; split; congruence.
  - split; discriminate.
Qed.

Lemma blank_given (v dflt : jsval) :
  blank dflt <> None ->
  blank (if given v then v else dflt) <> None.
Proof.
  unfold given. intros Hd. destruct (isString v && truthy v) eqn:E; [|exact Hd].
  apply andb_prop in E as [Es Et]. destruct v; try discriminate Es.
  unfold blank. rewrite Et. discriminate.
Qed.

End SettingsFacts.

(** X7. After [getConfiguration], of either version of the class,
    [validateConfiguration] cannot report that the emulator path is not
    configured: the path is a non-empty string, and the only error left
    is that no file exists at that path. *)
Theorem X7_validation_after_getConfiguration
    (existsSync : string -> bool) (get : string -> jsval)
    (project : ProjectFile) (c : TRS80Config.t) :
  ConfigurationManagerPart004.getConfiguration get project = Some c \/
  ConfigurationManager.getConfiguration get project = Some c ->
  exists p,
    TRS80Config.emulatorPath c = JStr p /\ p <> "" /\
    ConfigurationValidation.validateConfiguration existsSync
      (TRS80Config.emulatorPath c)
    = if existsSync p then []
      else ["trs80gp emulator not found at: " ++ p].
Proof.
  intros H. apply SettingsFacts.returned_minimal in H as [Hp _ _ _ _].
  apply SettingsFacts.nonBlank_truthy in Hp as (p & -> & Hne).
  exists p. repeat split; [exact Hne|].
  unfold ConfigurationValidation.validateConfiguration. cbn [JSValue.truthy].
  apply String.eqb_neq in Hne. rewrite Hne. cbn [negb].
  now destruct (existsSync p).
Qed.

Lemma X7_validation_after_getConfiguration_witness :
  exists p,
    TRS80Config.emulatorPath
      {| TRS80Config.emulatorPath := JStr "/opt/trs80gp";
         TRS80Config.zmacPath := JStr "zmac";
         TRS80Config.outputDir := JStr ".zout";
         TRS80Config.emulatorArgs := JStr "";
         TRS80Config.target := JStr "model3";
         TRS80Config.autoAssemble := JBool true;
         TRS80Config.projectConfig := JObj [] |} = JStr p /\ p <> "" /\
    ConfigurationValidation.validateConfiguration (fun _ => false)
      (JStr "/opt/trs80gp")
    = if false then []
      else ["trs80gp emulator not found at: " ++ p].
Proof.
  apply (X7_validation_after_getConfiguration (fun _ => false)
           (fun key => if String.eqb key "emulatorPath"
                       then JStr "/opt/trs80gp" else JUndefined)
           NoProjectFile).
  right. reflexivity.
Defined.

(** X8. The two versions of [getConfiguration] settle a conflict between
    the settings and the project file in opposite ways.  With an output
    directory and a target given in both, the version whose
    [emulatorArgs] is an array hands back the values of the project file,
    and the version whose [emulatorArgs] is a string hands back the values
    of the settings. *)
Theorem X8_settings_versus_project
    (get : string -> jsval) (props : list (string * jsval))
    (dirS dirP targetS targetP : string) :
  get "defaultOutputDir" = JStr dirS -> JS.trim dirS <> "" ->
  JSValue.lookup "outputDir" props = JStr dirP -> JS.trim dirP <> "" ->
  get "defaultTarget" = JStr targetS -> JSValue.isModel (JStr targetS) = true ->
  JSValue.lookup "target" props = JStr targetP ->
  JSValue.isModel (JStr targetP) = true ->
  (forall c,
      ConfigurationManagerPart004.getConfiguration get (Parsed (JObj props))
      = Some c ->
      TRS80Config.outputDir c = JStr dirP /\
      TRS80Config.target c = JStr targetP) /\
  (exists c,
      ConfigurationManager.getConfiguration get (Parsed (JObj props)) = Some c /\
      TRS80Config.outputDir c = JStr dirS /\
      TRS80Config.target c = JStr targetS).
Proof.
  intros HdS HtrimS HdP HtrimP HtS HmS HtP HmP.
  assert (HneS : dirS <> "") by (intros ->; now apply HtrimS).
  assert (truthy_model : forall t, JSValue.isModel (JStr t) = true ->
                                   JSValue.truthy (JStr t) = true).
  { intros t Ht. cbn. destruct (String.eqb_spec t ""); [subst; discriminate Ht|reflexivity]. }
  split.
  - intros c H.
    unfold ConfigurationManagerPart004.getConfiguration in H. cbv zeta in H.
    unfold ConfigurationManagerPart004.applyProject in H.
    cbn [JSValue.getProp] in H. rewrite HdP, HtP in H.
    cbn [JSValue.isUndefined] in H.
    unfold ConfigurationManagerPart004.ensureMinimalConfiguration in H.
    destruct (ConfigurationManagerPart004.nonEmptyArray _) in H;
      cbn [TRS80Config.emulatorPath TRS80Config.zmacPath TRS80Config.outputDir
           TRS80Config.target TRS80Config.emulatorArgs TRS80Config.autoAssemble
           TRS80Config.projectConfig] in H;
      destruct (JSValue.blank _) in H; try discriminate H;
      destruct (JSValue.blank _) in H; try discriminate H;
      rewrite (SettingsFacts.blank_string dirP HtrimP) in H;
      rewrite HmP, (truthy_model targetP HmP) in H;
      cbn [negb orb] in H; injection H as <-; now split.
  - unfold ConfigurationManager.getConfiguration. cbv zeta.
    cbn [JSValue.nullish].
    rewrite HdS, HtS. cbn [JSValue.isString andb].
    rewrite (truthy_model targetS HmS).
    assert (Ht : JSValue.truthy (JStr dirS) = true).
    { cbn. apply String.eqb_neq in HneS. now rewrite HneS. }
    rewrite Ht.
    unfold ConfigurationManager.ensureMinimalConfiguration.
    cbn [TRS80Config.emulatorPath TRS80Config.zmacPath TRS80Config.outputDir
         TRS80Config.target TRS80Config.emulatorArgs TRS80Config.autoAssemble
         TRS80Config.projectConfig].
    rewrite (SettingsFacts.blank_string dirS HtrimS).
    rewrite HmS, (truthy_model targetS HmS). cbn [negb orb].
    pose proof (SettingsFacts.blank_given (get "emulatorPath")
                  ConfigurationManager.DEFAULT_emulatorPath) as B1.
    pose proof (SettingsFacts.blank_given (get "zmacPath")
                  ConfigurationManager.DEFAULT_zmacPath) as B2.
    unfold Precedence.given in B1, B2.
    destruct (JSValue.blank (if JSValue.isString (get "emulatorPath")
                                && JSValue.truthy (get "emulatorPath")
                             then get "emulatorPath"
                             else ConfigurationManager.DEFAULT_emulatorPath));
      [|exfalso; now apply B1].
    destruct (JSValue.blank (if JSValue.isString (get "zmacPath")
                                && JSValue.truthy (get "zmacPath")
                             then get "zmacPath"
                             else ConfigurationManager.DEFAULT_zmacPath));
      [|exfalso; now apply B2].
    eexists. split; [reflexivity|]. now split.
Qed.

Lemma X8_settings_versus_project_witness :
  (forall c,
      ConfigurationManagerPart004.getConfiguration Scenarios.settings
        (Parsed (JObj Scenarios.projectProps)) = Some c ->
      TRS80Config.outputDir c = JStr "out" /\
      TRS80Config.target c = JStr "model4") /\
  (exists c,
      ConfigurationManager.getConfiguration Scenarios.settings
        (Parsed (JObj Scenarios.projectProps)) = Some c /\
      TRS80Config.outputDir c = JStr "build" /\
      TRS80Config.target c = JStr "model1").
Proof.
  apply (X8_settings_versus_project Scenarios.settings Scenarios.projectProps
           "build" "out" "model1" "model4");
    try reflexivity; vm_compute; discriminate.
Defined.

Module FailureFacts.
Import JSValue TRS80Config Precedence.

Lemma ensure_throws (config : TRS80Config.t) :
  ConfigurationManager.ensureMinimalConfiguration config = None <->
  unreadable (emulatorPath config) || unreadable (zmacPath config)
  || unreadable (outputDir config) = true.
Proof.
  unfold ConfigurationManager.ensureMinimalConfiguration.
  pose proof (SettingsFacts.blank_throws (emulatorPath config)) as B1.
  pose proof (SettingsFacts.blank_throws (zmacPath config)) as B2.
  pose proof (SettingsFacts.blank_throws (outputDir config)) as B3.
  destruct (blank (emulatorPath config)) as [b1|].
  - destruct (unreadable (emulatorPath config));
      [now (destruct B1 as [_ B1]; specialize (B1 eq_refl))|].
    destruct (blank (zmacPath config)) as [b2|].
    + destruct (unreadable (zmacPath config));
        [now (destruct B2 as [_ B2]; specialize (B2 eq_refl))|].
      destruct (blank (outputDir config)) as [b3|].
      * destruct (unreadable (outputDir config));
          [now (destruct B3 as [_ B3]; specialize (B3 eq_refl))|].
        split; discriminate.
      * destruct B3 as [B3 _]. rewrite (B3 eq_refl). now split.
    + destruct B2 as [B2 _]. rewrite (B2 eq_refl). now split.
  - destruct B1 as [B1 _]. rewrite (B1 eq_refl). now split.
Qed.

Lemma given_readable (v dflt : jsval) :
  unreadable (if given v then v else dflt) = negb (given v) && unreadable dflt.
Proof.
  unfold given, unreadable.
  destruct (isString v) eqn:S; cbn [andb]; [|reflexivity].
  destruct (truthy v) eqn:T; cbn [andb negb]; [|reflexivity].
  now rewrite T, S.
Qed.

Lemma projectProp_value (v : jsval) (key : string) :
  nullish v = false ->
  ConfigurationManager.projectProp v key = Config.projectValue (Parsed v) key.
Proof.
  unfold ConfigurationManager.projectProp, Config.projectValue.
  destruct v; cbn; try discriminate; try reflexivity.
  - now destruct b.
  - now destruct (n =? 0).
  - now destruct (s =? "")%string.
Qed.

Lemma default_or_value (v : jsval) :
  unreadable (if isUndefined v then ConfigurationManager.DEFAULT_outputDir else v)
  = unreadable v.
Proof. now destruct v. Qed.

End FailureFacts.

(** X9. When the later version of [getConfiguration] throws.  It throws
    exactly in two cases: the project file parses to [null] (the final
    logging statement lists the keys of the parsed value), or the project
    file gives an [outputDir] that is truthy and not a string while the
    settings give no output directory ([trim] is then called on that
    value).  In every other case a configuration is handed back. *)
Theorem X9_getConfiguration_throws (get : string -> jsval)
    (project : ProjectFile) :
  ConfigurationManager.getConfiguration get project = None <->
  (exists v, project = Parsed v /\ JSValue.nullish v = true) \/
  (Precedence.given (get "defaultOutputDir") = false /\
   Precedence.unreadable (Config.projectValue project "outputDir") = true).
Proof.
  unfold ConfigurationManager.getConfiguration. cbv zeta.
  set (projectCfg := match project with
                     | Parsed v => v
                     | _ => JObj []
                     end).
  assert (Hvalue : JSValue.nullish projectCfg = false ->
                   ConfigurationManager.projectProp projectCfg "outputDir"
                   = Config.projectValue project "outputDir").
  { intros Hn. destruct project; try reflexivity.
    now apply FailureFacts.projectProp_value. }
  destruct (JSValue.nullish projectCfg) eqn:N.
  - split; [intros _|reflexivity]. left.
    destruct project as [| |v]; try discriminate N. now exists v.
  - rewrite FailureFacts.ensure_throws.
    cbn [TRS80Config.emulatorPath TRS80Config.zmacPath TRS80Config.outputDir].
    fold (Precedence.given (get "emulatorPath")).
    fold (Precedence.given (get "zmacPath")).
    fold (Precedence.given (get "defaultOutputDir")).
    rewrite !FailureFacts.given_readable.
    rewrite FailureFacts.default_or_value, (Hvalue eq_refl).
    replace (Precedence.unreadable ConfigurationManager.DEFAULT_emulatorPath)
      with false by reflexivity.
    replace (Precedence.unreadable ConfigurationManager.DEFAULT_zmacPath)
      with false by reflexivity.
    rewrite !andb_false_r. cbn [orb].
    split.
    + intros H. right. apply andb_prop in H as [H1 H2].
      split; [now apply negb_true_iff | exact H2].
    + intros [(v & -> & Hv)|[H1 H2]].
      * unfold projectCfg in N. congruence.
      * rewrite H1, H2. reflexivity.
Qed.

(** a project file that holds [null] *)
Lemma X9_getConfiguration_throws_witness :
  ConfigurationManager.getConfiguration (fun _ => JUndefined) (Parsed JNull)
  = None.
Proof.
  apply (X9_getConfiguration_throws (fun _ => JUndefined) (Parsed JNull)).
  left. exists JNull. split; reflexivity.
Defined.

(** ** What every configuration satisfies *)

Module MinimalFacts.
Import JSValue TRS80Config Config Precedence.








End MinimalFacts.




(** the arguments of the project file, handed back as they are *)
Example untyped_arguments_kept :
  option_map TRS80Config.emulatorArgs
    (ConfigurationManagerPart004.getConfiguration (fun _ => JUndefined)
       (Parsed (JObj [("emulatorArgs", JArr [JNum 5; JNull])])))
  = Some (JArr [JNum 5; JNull]).
Proof. reflexivity. Qed.

(** X10. The model flag.  [EmulatorManager.getEmulatorModelArgs] and
    [ConfigurationManager.getModelFlag] agree on every target; for the
    three targets a configuration can hold the flag is "-m" followed by
    the digit that ends the target, and for anything else it is "-m3". *)
Theorem X10_model_flag (target : string) :
  EmulatorManager.getEmulatorModelArgs target
  = [ConfigurationManagerPart004.getModelFlag target] /\
  ConfigurationManagerPart004.getModelFlag target
  = (if JSValue.isModel (JStr target)
     then "-m" ++ String.substring 5 1 target
     else "-m3").
Proof.
  unfold EmulatorManager.getEmulatorModelArgs,
    ConfigurationManagerPart004.getModelFlag, JSValue.isModel.
  destruct (String.eqb_spec target "model1") as [->|H1]; [now split|].
  destruct (String.eqb_spec target "model3") as [->|H3]; [now split|].
  destruct (String.eqb_spec target "model4") as [->|H4]; now split.
Qed.

(** ** The supervisor: live instances and the order of signals *)

Module TidyFacts.
Import EmulatorManager Tidy PreemptFacts.

Lemma grows_refl (st : State) : grows st st.
Proof. exists []. now rewrite app_nil_r. Qed.

Lemma grows_trans (a b c : State) : grows a b -> grows b c -> grows a c.
Proof.
  intros [m1 H1] [m2 H2]. exists (m1 ++ m2)%list.
  now rewrite H2, H1, app_assoc.
Qed.

Lemma grows_log (o : Obs) (st : State) : grows st (log o st).
Proof. now exists [o]. Qed.

Lemma termed_grows (st st' : State) (p : Z) :
  grows st st' -> termed (trace st) p -> termed (trace st') p.
Proof.
  intros [more H] T. unfold termed. rewrite H. apply in_or_app. now left.
Qed.

Lemma orderly_snoc (tr : list Obs) (o : Obs) :
  orderly tr ->
  (forall p, o = Killed p SIGKILL -> termed tr p) ->
  orderly (tr ++ [o]).
Proof.
  intros Htr Ho pre post p E.
  destruct (exists_last (l := Killed p SIGKILL :: post)) as (body & z & Hz);
    [discriminate|].
  destruct post as [|y post].
  - apply (app_inj_tail tr pre o (Killed p SIGKILL)) in E as [-> ->].
    now apply Ho.
  - destruct (exists_last (l := y :: post)) as (body' & z' & Hz');
      [discriminate|].
    rewrite Hz' in E.
    change (pre ++ Killed p SIGKILL :: body' ++ [z'])%list
      with (pre ++ (Killed p SIGKILL :: body') ++ [z'])%list in E.
    rewrite app_assoc in E.
    apply app_inj_tail in E as [-> _].
    now apply (Htr pre body' p).
Qed.

Lemma Inv_log (o : Obs) (st : State) :
  Inv st -> (forall p, o = Killed p SIGKILL -> termed (trace st) p) ->
  Inv (log o st).
Proof.
  intros [A B C D] Ho. split; state.
  - exact A.
  - exact B.
  - now apply orderly_snoc.
  - eapply Forall_impl; [|exact D].
    intros x Hx. apply (termed_grows st (log o st)); [apply grows_log | exact Hx].
Qed.

Lemma spawnChild_grows (w : World) (req : StartRequest.t) (st : State) :
  grows st (spawnChild w req st).
Proof.
  unfold spawnChild. destruct (spawnFails w req); [apply grows_log|].
  eexists. state. reflexivity.
Qed.

Lemma runContinuation_grows (w : World) (k : option StartRequest.t)
    (st : State) : grows st (runContinuation w k st).
Proof. destruct k; [apply spawnChild_grows | apply grows_refl]. Qed.

Lemma Inv_spawnChild (w : World) (req : StartRequest.t) (st : State) :
  Inv st -> Inv (spawnChild w req st).
Proof.
  intros H. unfold spawnChild. destruct (spawnFails w req).
  - apply Inv_log; [exact H | discriminate].
  - apply Inv_log; [|discriminate].
    destruct H as [A B C D]. split; state.
    + destruct (currentInstance st) as [i|]; [|exact I].
      unfold live in *. state. apply in_or_app. now left.
    + apply Forall_app. split.
      * eapply Forall_impl; [|exact B]. intros i Hi.
        unfold live in *. state. apply in_or_app. now left.
      * constructor; [|constructor]. unfold live. state.
        apply in_or_app. right. now left.
    + exact C.
    + exact D.
Qed.

Lemma Inv_runContinuation (w : World) (k : option StartRequest.t)
    (st : State) : Inv st -> Inv (runContinuation w k st).
Proof. destruct k; [apply Inv_spawnChild | trivial]. Qed.

Lemma Inv_clear (st : State) : Inv st -> Inv (setCurrent None st).
Proof. intros [A B C D]. split; state; [exact I | exact B | exact C | exact D]. Qed.

Lemma Inv_stopStored (w : World) (inst : EmulatorInstance.t)
    (k : option StartRequest.t) (st : State) :
  Inv st -> Inv (stopStored w inst k st).
Proof.
  intros H. unfold stopStored.
  assert (H1 : Inv (log (Killed (EmulatorInstance.pid inst) SIGTERM) st))
    by (apply Inv_log; [exact H | discriminate]).
  destruct (killThrows w (EmulatorInstance.pid inst) SIGTERM).
  - apply Inv_runContinuation.
    assert (H2 : Inv (log (StopResolved (nextId st) (now st) None)
                        (setCurrent None
                           (log (Killed (EmulatorInstance.pid inst) SIGTERM) st))))
      by (apply Inv_log; [now apply Inv_clear | discriminate]).
    destruct H2 as [A B C D]. split; exact A || exact B || exact C || exact D.
  - destruct H1 as [A B C D]. split; state.
    + exact A.
    + exact B.
    + exact C.
    + apply Forall_app. split; [exact D|].
      constructor; [|constructor]. state. unfold termed. state.
      apply in_or_app. right. now left.
Qed.

Lemma Inv_stopEmulator (w : World) (k : option StartRequest.t) (st : State) :
  Inv st -> Inv (stopEmulator w k st).
Proof.
  intros H. unfold stopEmulator. destruct (currentInstance st).
  - now apply Inv_stopStored.
  - now apply Inv_runContinuation.
Qed.

Lemma target_markFired (i : nat) (x : StopWait) :
  target (markFired i x) = target x.
Proof. unfold markFired. now destruct (Nat.eqb (id x) i). Qed.

Lemma fireTimer_grows (w : World) (x : StopWait) (st : State) :
  grows st (fireTimer w x st).
Proof.
  unfold fireTimer. eapply grows_trans; [|apply runContinuation_grows].
  eexists. state. rewrite <- app_assoc. reflexivity.
Qed.

Lemma Inv_fireTimer (w : World) (x : StopWait) (st : State) :
  Inv st -> termed (trace st) (target x) -> Inv (fireTimer w x st).
Proof.
  intros H T. unfold fireTimer. apply Inv_runContinuation.
  assert (H1 : Inv (log (Killed (target x) SIGKILL) (setNow (deadline x) st))).
  { apply Inv_log.
    - destruct H as [A B C D]. split; state; assumption.
    - intros p [= <-]. exact T. }
  assert (H2 : Inv (log (StopResolved (id x) (deadline x) None)
                      (setCurrent None
                         (log (Killed (target x) SIGKILL)
                            (setNow (deadline x) st)))))
    by (apply Inv_log; [now apply Inv_clear | discriminate]).
  destruct H2 as [A B C D]. split; state.
  - exact A.
  - exact B.
  - exact C.
  - apply Forall_map. eapply Forall_impl; [|exact D].
    intros y Hy. now rewrite target_markFired.
Qed.

Lemma Inv_fireDue (w : World) (t : Z) (todo : list StopWait) :
  forall st,
    Inv st -> Forall (fun x => termed (trace st) (target x)) todo ->
    Inv (fireDue w t todo st).
Proof.
  induction todo as [|x rest IH]; intros st H T; [exact H|].
  cbn [fireDue]. inversion T as [|? ? Tx Trest]; subst.
  destruct (timerArmed x && (deadline x <=? t)).
  - apply IH; [now apply Inv_fireTimer|].
    eapply Forall_impl; [|exact Trest].
    intros y Hy. eapply termed_grows; [apply fireTimer_grows | exact Hy].
  - now apply IH.
Qed.

Lemma Inv_advance (w : World) (t : Z) (st : State) :
  Inv st -> Inv (advance w t st).
Proof.
  intros H. unfold advance.
  pose proof (Inv_fireDue w t (waits st) st H (inv_waits st H)) as [A B C D].
  split; state; assumption.
Qed.

Lemma Inv_exitListeners (p : Z) (ws : list StopWait) :
  forall st, Inv st -> Inv (fst (exitListeners p ws st)).
Proof.
  induction ws as [|x rest IH]; intros st H; [exact H|].
  cbn [exitListeners]. destruct (target x =? p); [|now apply IH].
  destruct (settled x).
  - apply IH. now apply Inv_clear.
  - specialize (IH (log (StopResolved (id x) (now (setCurrent None st))
                           (storedPid (setCurrent None st)))
                      (setCurrent None st))).
    destruct (exitListeners p rest _) as [st3 ks]. cbn [fst] in *.
    apply IH. apply Inv_log; [now apply Inv_clear | discriminate].
Qed.

Lemma Inv_continuations (w : World) (ks : list (option StartRequest.t)) :
  forall st, Inv st -> Inv (fold_left (fun s k => runContinuation w k s) ks st).
Proof.
  induction ks as [|k ks IH]; intros st H; [exact H|].
  cbn [fold_left]. apply IH. now apply Inv_runContinuation.
Qed.

Lemma in_others (p q : Z) (cs : list Z) :
  In q cs -> q <> p -> In q (filter (fun c => negb (c =? p)) cs).
Proof.
  intros Hin Hne. apply filter_In. split; [exact Hin|].
  apply negb_true_iff. now apply Z.eqb_neq.
Qed.

Lemma Inv_onExit (w : World) (p : Z) (st : State) :
  Inv st -> Inv (onExit w p st).
Proof.
  intros H. unfold onExit.
  destruct (isChild p st && negb (existsb (hasPid p) (spawning st))) eqn:G;
    [|exact H].
  apply andb_prop in G as [_ G]. apply negb_true_iff in G.
  set (st1 := setChildren (filter (fun q => negb (q =? p)) (children st)) st).
  set (st2 := match currentInstance st1 with
              | Some cur => if EmulatorInstance.pid cur =? p
                            then setCurrent None st1 else st1
              | None => st1
              end).
  assert (H2 : Inv st2).
  { destruct H as [A B C D].
    assert (Bs : Forall (live st1) (spawning st)).
    { rewrite Forall_forall in *. intros i Hi. unfold live, st1. state.
      apply in_others; [now apply B|].
      intros E.
      assert (Ht : existsb (hasPid p) (spawning st) = true).
      { apply existsb_exists. exists i. split; [exact Hi|].
        unfold hasPid. now apply Z.eqb_eq. }
      congruence. }
    unfold st2. unfold st1 at 1. state.
    destruct (currentInstance st) as [cur|] eqn:Ec.
    - destruct (Z.eqb_spec (EmulatorInstance.pid cur) p) as [E|E].
      + split; state; [exact I | exact Bs | exact C | exact D].
      + split; unfold st1; state; try assumption.
        rewrite Ec. unfold live. state. now apply in_others.
    - split; unfold st1; state; try assumption. now rewrite Ec. }
  pose proof (Inv_exitListeners p (waits st2) st2 H2) as H3.
  destruct (exitListeners p (waits st2) st2) as [st3 ks]. cbn [fst] in H3.
  apply Inv_continuations.
  destruct H3 as [A B C D]. split; state; try assumption.
  rewrite Forall_forall in *. intros x Hx.
  apply filter_In in Hx as [Hx _]. now apply D.
Qed.

Lemma Inv_onSpawn (p : Z) (st : State) : Inv st -> Inv (onSpawn p st).
Proof.
  intros H. unfold onSpawn.
  destruct (find (hasPid p) (spawning st)) as [instance|] eqn:F; [|exact H].
  apply Inv_log; [|discriminate].
  destruct H as [A B C D]. apply find_some in F as [Hin _].
  split; state; try assumption.
  - rewrite Forall_forall in B. apply (B instance Hin).
  - rewrite Forall_forall in *. intros i Hi.
    apply filter_In in Hi as [Hi _]. apply (B i Hi).
Qed.

Lemma Inv_handle (w : World) (e : Event) (st : State) :
  Inv st -> Inv (handle w e st).
Proof.
  intros H. destruct e as [req| |p|p]; cbn [handle].
  - unfold startEmulator. now apply Inv_stopEmulator.
  - now apply Inv_stopEmulator.
  - now apply Inv_onSpawn.
  - now apply Inv_onExit.
Qed.

Lemma Inv_initial : Inv initial.
Proof.
  split; cbn; try constructor.
  intros pre post p E. destruct pre; discriminate E.
Qed.

Lemma Inv_run (w : World) (tes : list (Z * Event)) :
  forall st, Inv st -> Inv (run w st tes).
Proof.
  induction tes as [|te tes IH]; intros st H; [exact H|].
  cbn [run fold_left]. apply IH. unfold step.
  apply Inv_handle. now apply Inv_advance.
Qed.

End TidyFacts.

(** X11. In every state the manager can reach, the stored instance, if
    any, belongs to a process that was spawned and has not reported its
    exit; the same holds of the instances whose ['spawn'] event is still
    awaited.  A stale handle is never kept. *)
Theorem X11_stored_instance_is_live (w : EmulatorManager.World)
    (tes : list (Z * EmulatorManager.Event)) :
  let st := EmulatorManager.run w EmulatorManager.initial tes in
  match EmulatorManager.getCurrentInstance st with
  | Some instance => Tidy.live st instance
  | None => True
  end /\
  Forall (Tidy.live st) (EmulatorManager.spawning st).
Proof.
  intros st.
  destruct (TidyFacts.Inv_run w tes _ TidyFacts.Inv_initial) as [A B _ _].
  split; [exact A | exact B].
Qed.

(** X12. The manager sends SIGKILL to a process only after it has sent
    SIGTERM to that process: in the trace of every run, each SIGKILL is
    preceded by a SIGTERM to the same pid. *)
Theorem X12_sigkill_follows_sigterm (w : EmulatorManager.World)
    (tes : list (Z * EmulatorManager.Event))
    (pre post : list EmulatorManager.Obs) (p : Z) :
  EmulatorManager.trace (EmulatorManager.run w EmulatorManager.initial tes)
  = (pre ++ EmulatorManager.Killed p EmulatorManager.SIGKILL :: post)%list ->
  In (EmulatorManager.Killed p EmulatorManager.SIGTERM) pre.
Proof.
  intros E.
  destruct (TidyFacts.Inv_run w tes _ TidyFacts.Inv_initial) as [_ _ C _].
  exact (C pre post p E).
Qed.

(** a stop that ends with the timer *)
Lemma X12_sigkill_follows_sigterm_witness :
  In (EmulatorManager.Killed 1 EmulatorManager.SIGTERM)
     (firstn 3 (EmulatorManager.trace
                  (EmulatorManager.run Fixtures.world EmulatorManager.initial
                     Scenarios.stopTimesOut))).
Proof.
  apply (X12_sigkill_follows_sigterm Fixtures.world Scenarios.stopTimesOut
           (firstn 3 (EmulatorManager.trace
                        (EmulatorManager.run Fixtures.world
                           EmulatorManager.initial Scenarios.stopTimesOut)))
           (skipn 4 (EmulatorManager.trace
                       (EmulatorManager.run Fixtures.world
                          EmulatorManager.initial Scenarios.stopTimesOut)))
           1).
  vm_compute. reflexivity.
Defined.

(** ** The status line *)

(** X13. [formatUptime] shows the whole seconds of a non-negative number
    of milliseconds split into hours, minutes below 60 and seconds below
    60 that add up to them; the hours, and then the minutes, are left out
    when they are zero. *)
Theorem X13_uptime_adds_up (ms : Z) :
  0 <= ms ->
  exists h m s,
    Uptime.splits (ms / 1000) h m s /\
    TRS80Commands.formatUptime ms = Uptime.shown h m s.
Proof.
  intros Hms.
  set (seconds := ms / 1000).
  assert (Hs : 0 <= seconds) by (apply Z.div_pos; lia).
  exists (seconds / 60 / 60), ((seconds / 60) mod 60), (seconds mod 60).
  assert (Hm : 0 <= seconds / 60) by (apply Z.div_pos; lia).
  assert (Hh : 0 <= seconds / 60 / 60) by (apply Z.div_pos; lia).
  split.
  - unfold Uptime.splits.
    pose proof (Z.div_mod seconds 60 ltac:(lia)) as E1.
    pose proof (Z.div_mod (seconds / 60) 60 ltac:(lia)) as E2.
    pose proof (Z.mod_pos_bound seconds 60 ltac:(lia)).
    pose proof (Z.mod_pos_bound (seconds / 60) 60 ltac:(lia)).
    repeat split; lia.
  - unfold TRS80Commands.formatUptime, Uptime.shown. fold seconds.
    rewrite !Z.rem_mod_nonneg by lia.
    destruct (Z.ltb_spec 0 (seconds / 60 / 60)) as [H|H]; [reflexivity|].
    assert (Hsmall : seconds / 60 < 60).
    { destruct (Z.lt_ge_cases (seconds / 60) 60) as [L|L]; [exact L|].
      exfalso. assert (1 <= seconds / 60 / 60); [|lia].
      apply Z.div_le_lower_bound; lia. }
    rewrite (Z.mod_small (seconds / 60) 60) by lia.
    destruct (Z.ltb_spec 0 (seconds / 60)) as [H'|H']; [reflexivity|].
    assert (Hss : seconds < 60).
    { destruct (Z.lt_ge_cases seconds 60) as [L|L]; [exact L|].
      exfalso. assert (1 <= seconds / 60); [|lia].
      apply Z.div_le_lower_bound; lia. }
    now rewrite (Z.mod_small seconds 60) by lia.
Qed.

Lemma X13_uptime_adds_up_witness :
  exists h m s,
    Uptime.splits (3725999 / 1000) h m s /\
    TRS80Commands.formatUptime 3725999 = Uptime.shown h m s.
Proof. apply (X13_uptime_adds_up 3725999). lia. Defined.

Example uptime_shown : TRS80Commands.formatUptime 3725999 = "1h 2m 5s".
Proof. reflexivity. Qed.

(** ** Diagnostics *)

Module GroupingFacts.
Import DiagnosticMap BreakpointManagerDiagnostics Grouping.

Lemma get_push_same (key : string) (d : Diagnostic.t) (m : DiagnosticMap.t) :
  get key (push key d m) = extended (get key m) [d].
Proof.
  induction m as [|[k ds] rest IH]; cbn [push get].
  - now rewrite String.eqb_refl.
  - destruct (String.eqb_spec k key) as [->|N]; cbn [get].
    + now rewrite String.eqb_refl.
    + apply String.eqb_neq in N. now rewrite N.
Qed.

Lemma get_push_other (key other : string) (d : Diagnostic.t)
    (m : DiagnosticMap.t) :
  other <> key -> get key (push other d m) = get key m.
Proof.
  intros N. induction m as [|[k ds] rest IH]; cbn [push get].
  - apply String.eqb_neq in N. now rewrite N.
  - destruct (String.eqb_spec k other) as [->|N']; cbn [get].
    + apply String.eqb_neq in N. now rewrite N.
    + now rewrite IH.
Qed.

Lemma keys_push (key : string) (d : Diagnostic.t) (m : DiagnosticMap.t) :
  map fst (push key d m)
  = if existsb (String.eqb key) (map fst m) then map fst m
    else (map fst m ++ [key])%list.
Proof.
  induction m as [|[k ds] rest IH]; cbn [push map fst existsb app];
    [reflexivity|].
  rewrite (String.eqb_sym key k).
  destruct (String.eqb k key); cbn [map fst orb]; [reflexivity|].
  rewrite IH. now destruct (existsb (String.eqb key) (map fst rest)).
Qed.

Lemma extended_assoc (g : option (list Diagnostic.t))
    (a b : list Diagnostic.t) :
  extended (extended g a) b = extended g (a ++ b).
Proof.
  destruct g as [ds|]; destruct a, b; cbn [extended app];
    rewrite ?app_nil_r; try reflexivity.
  now rewrite <- List.app_assoc.
Qed.

(** the first loop: a group holds the diagnostics of its file, in order *)
Lemma group_of (file : string) (errors : list AssemblyError.t) :
  forall m,
    get file (fold_left
                (fun m e => push (AssemblyError.file e) (toDiagnostic e) m)
                errors m)
    = extended (get file m) (map toDiagnostic (filter (fromFile file) errors)).
Proof.
  induction errors as [|e errors IH]; intros m; cbn [fold_left filter map].
  - destruct (get file m); cbn; now rewrite ?app_nil_r.
  - rewrite IH. unfold fromFile at 2.
    destruct (String.eqb_spec (AssemblyError.file e) file) as [E|N].
    + rewrite E, get_push_same, extended_assoc. reflexivity.
    + now rewrite get_push_other.
Qed.

Lemma keys_distinct (errors : list AssemblyError.t) :
  forall m, NoDup (map fst m) ->
            NoDup (map fst (fold_left
                              (fun m e => push (AssemblyError.file e)
                                               (toDiagnostic e) m)
                              errors m)).
Proof.
  induction errors as [|e errors IH]; intros m H; [exact H|].
  cbn [fold_left]. apply IH. rewrite keys_push.
  destruct (existsb (String.eqb (AssemblyError.file e)) (map fst m)) eqn:X;
    [exact H|].
  apply SupervisorFacts.NoDup_snoc; [exact H|].
  intros Hin.
  assert (Ht : existsb (String.eqb (AssemblyError.file e)) (map fst m) = true).
  { apply existsb_exists. exists (AssemblyError.file e).
    split; [exact Hin | apply String.eqb_refl]. }
  congruence.
Qed.

Lemma keys_reported (errors : list AssemblyError.t) :
  forall m key,
    In key (map fst (fold_left
                       (fun m e => push (AssemblyError.file e)
                                        (toDiagnostic e) m)
                       errors m)) ->
    In key (map fst m) \/ exists e, In e errors /\ AssemblyError.file e = key.
Proof.
  induction errors as [|e errors IH]; intros m key H; [now left|].
  cbn [fold_left] in H. apply IH in H as [H|(e' & Hin & E)].
  - rewrite keys_push in H.
    destruct (existsb (String.eqb (AssemblyError.file e)) (map fst m));
      [now left|].
    apply in_app_or in H as [H|[<-|[]]]; [now left|].
    right. exists e. split; [now left | reflexivity].
  - right. exists e'. split; [now right | exact E].
Qed.

Lemma get_set_same (key : string) (ds : list Diagnostic.t)
    (c : DiagnosticMap.t) : get key (set key ds c) = Some ds.
Proof.
  induction c as [|[k old] rest IH]; cbn [set get].
  - now rewrite String.eqb_refl.
  - destruct (String.eqb_spec k key) as [->|N]; cbn [get].
    + now rewrite String.eqb_refl.
    + apply String.eqb_neq in N. now rewrite N.
Qed.

Lemma get_set_other (key other : string) (ds : list Diagnostic.t)
    (c : DiagnosticMap.t) :
  other <> key -> get key (set other ds c) = get key c.
Proof.
  intros N. induction c as [|[k old] rest IH]; cbn [set get].
  - apply String.eqb_neq in N. now rewrite N.
  - destruct (String.eqb_spec k other) as [->|N']; cbn [get].
    + apply String.eqb_neq in N. now rewrite N.
    + now rewrite IH.
Qed.

Lemma get_absent (key : string) (m : DiagnosticMap.t) :
  ~ In key (map fst m) -> get key m = None.
Proof.
  induction m as [|[k ds] rest IH]; intros H; [reflexivity|].
  cbn [get]. destruct (String.eqb_spec k key) as [->|N].
  - exfalso. apply H. now left.
  - apply IH. intros Hin. apply H. now right.
Qed.

(** the second loop, when [file] is the only key published under [uri] *)
Lemma published (uriFile : string -> option string) (file uri : string)
    (groups : DiagnosticMap.t) :
  uriFile file = Some uri ->
  NoDup (map fst groups) ->
  (forall key, In key (map fst groups) -> uriFile key = Some uri -> key = file) ->
  forall c,
    get uri (publish uriFile groups c)
    = match get file groups with
      | Some ds => Some ds
      | None => get uri c
      end.
Proof.
  intros Hu. unfold publish.
  induction groups as [|[k ds] rest IH]; intros Hnd Hinj c; [reflexivity|].
  cbn [fold_left fst snd get]. cbn [map fst] in Hnd, Hinj.
  inversion Hnd as [|? ? Hk Hrest]; subst.
  rewrite IH; [|exact Hrest | intros key Hin; apply Hinj; now right].
  destruct (String.eqb_spec k file) as [->|N].
  - rewrite Hu, (get_absent file rest Hk). apply get_set_same.
  - destruct (get file rest); [reflexivity|].
    destruct (uriFile k) as [u|] eqn:Uk; [|reflexivity].
    apply get_set_other. intros ->. apply N. apply Hinj; [now left | exact Uk].
Qed.

End GroupingFacts.

(** X14. [updateDiagnostics] publishes, under the URI of a file, exactly
    the diagnostics of the errors reported for that file, in the order of
    the errors, and nothing when no error names the file, whatever the
    collection held before; this for every file that does not share its
    URI with another file named in the errors. *)
Theorem X14_diagnostics_by_file
    (uriFile : string -> option string) (diagnostics : DiagnosticMap.t)
    (errors : list AssemblyError.t) (file uri : string) :
  uriFile file = Some uri ->
  (forall e, In e errors -> uriFile (AssemblyError.file e) = Some uri ->
             AssemblyError.file e = file) ->
  DiagnosticMap.get uri
    (BreakpointManagerDiagnostics.updateDiagnostics uriFile diagnostics errors)
  = Grouping.expected file errors.
Proof.
  intros Hu Hinj. unfold BreakpointManagerDiagnostics.updateDiagnostics.
  cbv zeta. unfold BreakpointManagerDiagnostics.groupByFile.
  rewrite (GroupingFacts.published uriFile file uri); [|exact Hu| |].
  - rewrite GroupingFacts.group_of. cbn [DiagnosticMap.get].
    unfold Grouping.expected, Grouping.extended.
    destruct (filter (Grouping.fromFile file) errors); reflexivity.
  - apply GroupingFacts.keys_distinct. constructor.
  - intros key Hin Hk.
    apply GroupingFacts.keys_reported in Hin as [[]|(e & He & <-)].
    now apply Hinj.
Qed.

Lemma X14_diagnostics_by_file_witness :
  DiagnosticMap.get "file:///ws/demo.a80"
    (BreakpointManagerDiagnostics.updateDiagnostics Scenarios.uriFile
       [("file:///ws/old.a80", [])] Scenarios.threeErrors)
  = Grouping.expected "/ws/demo.a80" Scenarios.threeErrors.
Proof.
  apply (X14_diagnostics_by_file Scenarios.uriFile
           [("file:///ws/old.a80", [])] Scenarios.threeErrors
           "/ws/demo.a80" "file:///ws/demo.a80").
  - reflexivity.
  - intros e [<-|[<-|[<-|[]]]]; vm_compute; congruence.
Defined.

(** the two diagnostics of [demo.a80]: lines 6 and 0 *)
Example diagnostics_of_demo :
  option_map (map (fun d => Diagnostic.startLine (Diagnostic.range d)))
    (DiagnosticMap.get "file:///ws/demo.a80"
       (BreakpointManagerDiagnostics.updateDiagnostics Scenarios.uriFile []
          Scenarios.threeErrors))
  = Some [JS.Finite 6; JS.Finite 0].
Proof. reflexivity. Qed.

(** ** The debug session *)

Module ProtocolFacts.
Import JSValue TRS80DebugSession Protocol.

Lemma sendResponse_answers (message body : jsval) :
  answers message (sendResponse message body).
Proof. repeat split. Qed.

Lemma verifyAll_objects (bps : list jsval) :
  verifyAll bps
  = if forallb isObject bps then Some (map verified bps) else None.
Proof.
  induction bps as [|bp rest IH]; [reflexivity|].
  cbn [verifyAll forallb map]. rewrite IH.
  destruct bp; destruct (forallb isObject rest); reflexivity.
Qed.

End ProtocolFacts.

(** X15. Whenever [handleMessage] does not throw it fires exactly one
    response, marked successful, that carries the sequence number and the
    command of the request; the only other message is the [initialized]
    event that follows the response to [initialize]. *)
Theorem X15_one_response_per_request (message : jsval) (fired : list jsval) :
  TRS80DebugSession.handleMessage message = Some fired ->
  exists response,
    Protocol.answers message response /\
    fired = response ::
            (if TRS80DebugSession.isCommand (Protocol.field message "command")
                  "initialize"
             then [TRS80DebugSession.sendEvent "initialized"] else []).
Proof.
  unfold TRS80DebugSession.handleMessage, Protocol.field.
  destruct (JSValue.getProp message "command") as [command|]; [|discriminate].
  destruct (TRS80DebugSession.isCommand command "initialize").
  { intros [= <-]. eexists. split; [apply ProtocolFacts.sendResponse_answers | reflexivity]. }
  destruct (TRS80DebugSession.isCommand command "launch").
  { intros [= <-]. eexists. split; [apply ProtocolFacts.sendResponse_answers | reflexivity]. }
  destruct (TRS80DebugSession.isCommand command "setBreakpoints").
  { destruct (TRS80DebugSession.breakpointsBody message); [|discriminate].
    intros [= <-]. eexists. split; [apply ProtocolFacts.sendResponse_answers | reflexivity]. }
  destruct (TRS80DebugSession.isCommand command "configurationDone").
  { intros [= <-]. eexists. split; [apply ProtocolFacts.sendResponse_answers | reflexivity]. }
  destruct (TRS80DebugSession.isCommand command "threads").
  { intros [= <-]. eexists. split; [apply ProtocolFacts.sendResponse_answers | reflexivity]. }
  destruct (TRS80DebugSession.isCommand command "disconnect").
  { intros [= <-]. eexists. split; [apply ProtocolFacts.sendResponse_answers | reflexivity]. }
  intros [= <-]. eexists. split; [apply ProtocolFacts.sendResponse_answers | reflexivity].
Qed.

Lemma X15_one_response_per_request_witness :
  exists response,
    Protocol.answers Scenarios.initializeRequest response /\
    [TRS80DebugSession.sendResponse Scenarios.initializeRequest
       (JObj [("supportsBreakpointLocationsRequest", JBool true);
              ("supportsSetBreakpointsRequest", JBool true)]);
     TRS80DebugSession.sendEvent "initialized"]
    = response ::
      (if TRS80DebugSession.isCommand
            (Protocol.field Scenarios.initializeRequest "command") "initialize"
       then [TRS80DebugSession.sendEvent "initialized"] else []).
Proof.
  apply (X15_one_response_per_request Scenarios.initializeRequest).
  reflexivity.
Defined.

(** X16. A [setBreakpoints] request whose arguments hold an array of
    breakpoints is answered with one entry per requested breakpoint, in
    order, each marked verified and carrying the requested line, whatever
    that line is; unless an element of the array is [null], in which case
    [handleMessage] throws and the request gets no response. *)
Theorem X16_breakpoints_all_verified (message : jsval) (bps : list jsval) :
  Protocol.field message "command" = JStr "setBreakpoints" ->
  Protocol.field (Protocol.field message "arguments") "breakpoints" = JArr bps ->
  TRS80DebugSession.handleMessage message
  = if forallb Protocol.isObject bps
    then Some [TRS80DebugSession.sendResponse message
                 (JObj [("breakpoints", JArr (map Protocol.verified bps))])]
    else None.
Proof.
  unfold Protocol.field, TRS80DebugSession.handleMessage.
  destruct (JSValue.getProp message "command") as [command|]; [|discriminate].
  intros -> Hb. cbn [TRS80DebugSession.isCommand String.eqb Ascii.eqb Bool.eqb].
  unfold TRS80DebugSession.breakpointsBody.
  destruct (JSValue.getProp message "arguments") as [arguments|];
    [|discriminate Hb].
  destruct (JSValue.nullish arguments) eqn:N;
    [destruct arguments; discriminate|].
  destruct (JSValue.getProp arguments "breakpoints") as [b|];
    [|discriminate Hb].
  subst b. cbn [JSValue.nullish].
  rewrite ProtocolFacts.verifyAll_objects.
  now destruct (forallb Protocol.isObject bps).
Qed.

Lemma X16_breakpoints_all_verified_witness :
  TRS80DebugSession.handleMessage Scenarios.setBreakpointsRequest
  = if forallb Protocol.isObject
         [JObj [("line", JNum 3)]; JObj [("line", JNum 10)]]
    then Some [TRS80DebugSession.sendResponse Scenarios.setBreakpointsRequest
                 (JObj [("breakpoints",
                         JArr (map Protocol.verified
                                 [JObj [("line", JNum 3)];
                                  JObj [("line", JNum 10)]]))])]
    else None.
Proof.
  apply (X16_breakpoints_all_verified Scenarios.setBreakpointsRequest
           [JObj [("line", JNum 3)]; JObj [("line", JNum 10)]]);
    reflexivity.
Defined.

(** ** The arguments of the emulator *)

Module WordsFacts.
Import JS Words.

Lemma split_cons (sep c : ascii) (s : string) :
  split sep (String c s)
  = if Ascii.eqb c sep then "" :: split sep s
    else match split sep s with
         | l :: ls => String c l :: ls
         | [] => [String c ""]
         end.
Proof. reflexivity. Qed.

Lemma split_nonempty (sep : ascii) (s : string) : split sep s <> [].
Proof.
  induction s as [|c s IH]; [discriminate|].
  rewrite split_cons. destruct (Ascii.eqb c sep); [discriminate|].
  destruct (split sep s); [congruence | discriminate].
Qed.

Lemma unwords_cons (w : string) (rest : list string) :
  rest <> [] -> unwords (w :: rest) = w ++ " " ++ unwords rest.
Proof. destruct rest; [congruence | reflexivity]. Qed.

Lemma unwords_head (c : ascii) (l : string) (ls : list string) :
  unwords (String c l :: ls) = String c (unwords (l :: ls)).
Proof. destruct ls; reflexivity. Qed.

(** splitting at the spaces loses nothing *)
Lemma unwords_split (s : string) : unwords (split " " s) = s.
Proof.
  induction s as [|c s IH]; [reflexivity|].
  rewrite split_cons. destruct (Ascii.eqb_spec c " ") as [->|N].
  - rewrite unwords_cons by apply split_nonempty. cbn. now rewrite IH.
  - pose proof (split_nonempty " " s) as Hne.
    destruct (split " " s) as [|l ls]; [congruence|].
    rewrite unwords_head. now rewrite IH.
Qed.

Lemma length_split (s : string) :
  List.length (split " " s) = S (count " " s).
Proof.
  induction s as [|c s IH]; [reflexivity|].
  rewrite split_cons. cbn [count].
  destruct (Ascii.eqb c " "); cbn [List.length Nat.add]; [now rewrite IH|].
  pose proof (split_nonempty " " s) as Hne.
  destruct (split " " s) as [|l ls]; [congruence|]. exact IH.
Qed.

Lemma spaceFree_split (s : string) : Forall spaceFree (split " " s).
Proof.
  induction s as [|c s IH]; [repeat constructor|].
  rewrite split_cons. destruct (Ascii.eqb c " ") eqn:E.
  - constructor; [reflexivity | exact IH].
  - pose proof (split_nonempty " " s) as Hne.
    destruct (split " " s) as [|l ls]; [congruence|].
    inversion IH as [|? ? Hl Hls]; subst.
    constructor; [|exact Hls].
    unfold spaceFree in *. cbn [count]. now rewrite E.
Qed.

End WordsFacts.

(** X17. The arguments [startEmulator] passes to the emulator are the
    model flag, the user's arguments, the breakpoint flags, "-ls" with the
    symbol file when it exists, and the program file, in this order.  The
    user's arguments are none when the configured string is blank;
    otherwise they are the fields the string has between its spaces: none
    of them holds a space, joined by single spaces they give the string
    back, and there is one more of them than there are spaces, so that a
    leading, trailing or doubled space passes an empty argument. *)
Theorem X17_emulator_arguments (w : EmulatorManager.World)
    (req : StartRequest.t) :
  exists userArgs : list string,
    EmulatorManager.buildArgs w req
    = ([StartRequest.modelArg req] ++ userArgs
         ++ StartRequest.breakpointArgs req
         ++ (if negb (StartRequest.bdsFile req =? "")%string
                && EmulatorManager.existsSync w (StartRequest.bdsFile req)
             then ["-ls"; StartRequest.bdsFile req] else [])
         ++ [StartRequest.cmdFile req])%list /\
    if (JS.trim (StartRequest.emulatorArgs req) =? "")%string
    then userArgs = []
    else Words.unwords userArgs = StartRequest.emulatorArgs req /\
         List.length userArgs
         = S (Words.count " " (StartRequest.emulatorArgs req)) /\
         Forall Words.spaceFree userArgs.
Proof.
  unfold EmulatorManager.buildArgs. cbv zeta.
  destruct (JS.trim (StartRequest.emulatorArgs req) =? "")%string.
  - exists []. now split.
  - exists (JS.split " " (StartRequest.emulatorArgs req)).
    split; [reflexivity|]. repeat split.
    + apply WordsFacts.unwords_split.
    + apply WordsFacts.length_split.
    + apply WordsFacts.spaceFree_split.
Qed.

(** two empty arguments reach the emulator *)
Example spaced_arguments :
  EmulatorManager.buildArgs Fixtures.world Scenarios.spacedRequest
  = ["-m3"; ""; "-mem"; "48"; ""; "-na"; "-b"; "6000"; "/ws/.zout/demo.cmd"].
Proof. reflexivity. Qed.

(** ** Lines of the symbol file, read forwards *)

Module ParseFacts.
Import JS Hex Matching MatchingFacts.

(** The matcher finds a match whenever the pattern has one that the
    continuation accepts. *)
Lemma exec_complete (r : regex) (s s' : string) (c c' : list string) :
  Matches r s c s' c' ->
  forall k : Cont, k s' c' <> None -> exec r s c k <> None.
Proof.
  induction 1 as [s c | c | p ch s c E | p s c | p ch s s' c E M IH
                 | r1 r2 s s1 s2 c c1 c2 M1 IH1 M2 IH2 | r s s' c c' M IH];
    intros k Hk.
  - exact Hk.
  - exact Hk.
  - cbn. now rewrite E.
  - destruct s as [|ch s]; [exact Hk|].
    rewrite star_cons. destruct (p ch); [|exact Hk].
    now destruct (exec (Star p) s c k).
  - rewrite star_cons, E. specialize (IH k Hk).
    now destruct (exec (Star p) s c k).
  - cbn [exec]. apply IH1. now apply IH2.
  - cbn [exec]. now apply IH.
Qed.

(** a pattern with one match only hands that match to its continuation *)
Lemma exec_unique (r : regex) (s t : string) (c d : list string) :
  Matches r s c t d ->
  (forall s1 c1, Matches r s c s1 c1 -> s1 = t /\ c1 = d) ->
  forall k : Cont, exec r s c k = k t d.
Proof.
  intros M U k. destruct (exec r s c k) as [res|] eqn:E.
  - apply exec_sound in E as (s1 & c1 & M1 & K).
    destruct (U s1 c1 M1) as [-> ->]. now symmetry.
  - destruct (k t d) as [res|] eqn:K; [|reflexivity].
    exfalso. apply (exec_complete r s t c d M k); [congruence | exact E].
Qed.

Lemma matchStart_unique (r : regex) (s t : string) (caps : list string) :
  Matches r s [] t caps ->
  (forall s1 c1, Matches r s [] s1 c1 -> c1 = caps) ->
  matchStart r s = Some caps.
Proof.
  intros M U. unfold matchStart.
  destruct (exec r s [] (fun _ caps0 => Some caps0)) as [res|] eqn:E.
  - apply exec_sound in E as (s1 & c1 & M1 & K). injection K as <-.
    f_equal. now apply (U s1).
  - exfalso. apply (exec_complete r s t [] caps M (fun _ caps0 => Some caps0));
      [discriminate | exact E].
Qed.

Lemma matchStart_none (r : regex) (s : string) :
  (forall s1 c1, ~ Matches r s [] s1 c1) -> matchStart r s = None.
Proof.
  intros U. destruct (matchStart r s) as [caps|] eqn:E; [|reflexivity].
  apply matchStart_sound in E as (s' & M). exfalso. exact (U _ _ M).
Qed.

(** *** Building matches *)

Lemma Matches_rep_intro (p : ascii -> bool) (a rest : string)
    (c : list string) :
  allChars p a = true -> Matches (Rep (String.length a) p) (a ++ rest) c rest c.
Proof.
  induction a as [|x a IH]; cbn [allChars String.length Rep append]; intros H.
  - constructor.
  - apply andb_prop in H as [Hx Ha].
    eapply MCat; [now apply MCls | now apply IH].
Qed.

Lemma Matches_star_intro (p : ascii -> bool) (a rest : string)
    (c : list string) :
  allChars p a = true -> Matches (Star p) (a ++ rest) c rest c.
Proof.
  induction a as [|x a IH]; cbn [allChars append]; intros H.
  - constructor.
  - apply andb_prop in H as [Hx Ha]. apply MStarCons; [exact Hx | now apply IH].
Qed.

Lemma Matches_plus_intro (p : ascii -> bool) (a rest : string)
    (c : list string) :
  run p a -> Matches (Plus p) (a ++ rest) c rest c.
Proof.
  intros [Hne H]. destruct a as [|x a]; [congruence|].
  cbn [allChars] in H. apply andb_prop in H as [Hx Ha].
  unfold Plus. cbn [append].
  eapply MCat; [now apply MCls | now apply Matches_star_intro].
Qed.

Lemma Matches_cap_intro (r : regex) (a rest : string) (c : list string) :
  Matches r (a ++ rest) c rest c ->
  Matches (Cap r) (a ++ rest) c rest (c ++ [a]).
Proof.
  intros M. pose proof (MCap r (a ++ rest) rest c c M) as H.
  now rewrite LabelFacts.consumed_app in H.
Qed.

Lemma Matches_lit_intro (x : ascii) (rest : string) (c : list string) :
  Matches (Lit x) (String x rest) c rest c.
Proof. apply MCls. apply Ascii.eqb_refl. Qed.

(** *** Reading matches *)

Lemma Matches_star_inv (p : ascii -> bool) (s s' : string)
    (c c' : list string) :
  Matches (Star p) s c s' c' ->
  c' = c /\ exists a, s = a ++ s' /\ allChars p a = true.
Proof.
  remember (Star p) as r eqn:R.
  induction 1 as [ | | | q s c | q ch s s' c E M IH | | ]; try discriminate R.
  - split; [reflexivity|]. now exists "".
  - injection R as ->. destruct (IH eq_refl) as [_ (a & -> & Ha)].
    split; [reflexivity|]. exists (String ch a). cbn. now rewrite E, Ha.
Qed.

Lemma Matches_plus_inv (p : ascii -> bool) (s s' : string)
    (c c' : list string) :
  Matches (Plus p) s c s' c' ->
  c' = c /\ exists a, s = a ++ s' /\ run p a.
Proof.
  unfold Plus. intros M.
  apply Matches_Cat_inv in M as (s1 & c1 & M1 & M2).
  apply Matches_Cls_inv in M1 as (ch & -> & E & ->).
  apply Matches_star_inv in M2 as [-> (a & -> & Ha)].
  split; [reflexivity|]. exists (String ch a). repeat split.
  - discriminate.
  - cbn. now rewrite E, Ha.
Qed.

Lemma Matches_lit_inv (x : ascii) (s s' : string) (c c' : list string) :
  Matches (Lit x) s c s' c' -> s = String x s' /\ c' = c.
Proof.
  intros M. apply Matches_Cls_inv in M as (ch & -> & E & ->).
  apply Ascii.eqb_eq in E. now subst.
Qed.

Lemma Matches_cap_plus_inv (p : ascii -> bool) (s s' : string)
    (c c' : list string) :
  Matches (Cap (Plus p)) s c s' c' ->
  exists a, s = a ++ s' /\ run p a /\ c' = (c ++ [a])%list.
Proof.
  intros M. apply Matches_Cap_inv in M as (c0 & M & ->).
  apply Matches_plus_inv in M as [-> (a & -> & Ha)].
  exists a. rewrite LabelFacts.consumed_app.
  split; [reflexivity | split; [exact Ha | reflexivity]].
Qed.

Lemma Matches_cap_rep_inv (n : nat) (p : ascii -> bool) (s s' : string)
    (c c' : list string) :
  Matches (Cap (Rep n p)) s c s' c' ->
  exists a, s = a ++ s' /\ String.length a = n /\ allChars p a = true /\
            c' = (c ++ [a])%list.
Proof.
  intros M. apply Matches_Cap_inv in M as (c0 & M & ->).
  pose proof (Matches_shape _ _ _ _ _ M) as [_ (more & -> & L)].
  assert (Hcap : captures (Rep n p) = 0%nat)
    by (clear; induction n; [reflexivity | exact IHn]).
  rewrite Hcap in L. destruct more; [|discriminate]. rewrite app_nil_r.
  apply Matches_rep in M as (a & -> & La & Ha).
  exists a. rewrite LabelFacts.consumed_app. now repeat split.
Qed.

(** *** Strings *)

Lemma app_same_length (a b x y : string) :
  a ++ x = b ++ y -> String.length a = String.length b -> a = b /\ x = y.
Proof.
  revert b. induction a as [|ca a IH]; intros [|cb b] E L; try discriminate L.
  - now split.
  - cbn in E. injection E as -> E. injection L as L.
    destruct (IH b E L) as [-> ->]. now split.
Qed.

(** a run of a class in front of [s'] that starts like another run of
    the class in front of a character outside the class, is a prefix of
    that run *)
Lemma run_prefix (p : ascii -> bool) (a : string) :
  forall (s' ws : string) (x : ascii) (rest : string),
    a ++ s' = ws ++ String x rest ->
    allChars p a = true -> allChars p ws = true -> p x = false ->
    exists mid, ws = a ++ mid /\ s' = mid ++ String x rest.
Proof.
  induction a as [|ca a IH]; intros s' ws x rest E Ha Hws Hx.
  - now exists ws.
  - cbn [allChars] in Ha. apply andb_prop in Ha as [Hca Ha].
    destruct ws as [|cw ws]; cbn in E; injection E as -> E.
    + congruence.
    + cbn [allChars] in Hws. apply andb_prop in Hws as [_ Hws].
      destruct (IH s' ws x rest E Ha Hws Hx) as (mid & -> & ->).
      now exists mid.
Qed.

Lemma append_nil (a : string) : a ++ "" = a.
Proof. induction a as [|c a IH]; cbn; [reflexivity | now rewrite IH]. Qed.

Lemma allChars_app (p : ascii -> bool) (a b : string) :
  allChars p (a ++ b) = allChars p a && allChars p b.
Proof.
  induction a as [|c a IH]; cbn; [reflexivity|].
  now rewrite IH, andb_assoc.
Qed.

(** two runs of a class, each in front of a character outside the class *)
Lemma run_same (p : ascii -> bool) (a ws : string) (y x : ascii)
    (tl rest : string) :
  a ++ String y tl = ws ++ String x rest ->
  allChars p a = true -> allChars p ws = true ->
  p y = false -> p x = false ->
  a = ws /\ y = x /\ tl = rest.
Proof.
  intros E Ha Hws Hy Hx.
  destruct (run_prefix p a _ ws x rest E Ha Hws Hx) as (mid & -> & E').
  destruct mid as [|m mid]; cbn in E'; injection E' as -> E'.
  - subst. now rewrite append_nil.
  - exfalso. rewrite allChars_app in Hws. apply andb_prop in Hws as [_ Hm].
    cbn in Hm. apply andb_prop in Hm as [Hm _]. congruence.
Qed.

End ParseFacts.

Module BdsLineFacts.
Import JS Hex Matching MatchingFacts ParseFacts BreakpointManager.

Lemma word_start (l : string) :
  run isWord l -> exists l0 l', l = String l0 l' /\ isSpace l0 = false /\
                                allChars isWord l' = true.
Proof.
  intros [Hne H]. destruct l as [|l0 l']; [congruence|].
  cbn in H. apply andb_prop in H as [H0 H'].
  exists l0, l'. repeat split; [|exact H'].
  now apply LabelFacts.word_not_space.
Qed.

Lemma hex4_nonempty (a rest : string) : hex4 a -> a ++ rest <> "".
Proof. intros [L _]. destruct a; [discriminate L | discriminate]. Qed.

Section LabelLine.
Variables a ws1 ws2 l : string.
Hypothesis Ha : hex4 a.
Hypothesis H1 : run isSpace ws1.
Hypothesis H2 : run isSpace ws2.
Hypothesis Hl : run isWord l.

Local Abbreviation line := (a ++ ws1 ++ String "a" (ws2 ++ l)).

Lemma labelRe_matches : Matches labelRe line [] "" [a; l].
Proof.
  unfold labelRe. cbn [Seq].
  eapply MCat.
  { apply (Matches_cap_intro (Rep 4 isHex)).
    destruct Ha as [L A]. rewrite <- L. now apply Matches_rep_intro. }
  eapply MCat; [now apply Matches_plus_intro|].
  eapply MCat; [apply Matches_lit_intro|].
  eapply MCat; [now apply Matches_plus_intro|].
  rewrite <- (append_nil l) at 1.
  eapply MCat.
  { apply (Matches_cap_intro (Plus isWord)). now apply Matches_plus_intro. }
  eapply MCat; constructor.
Qed.

Lemma labelRe_unique (s1 : string) (c1 : list string) :
  Matches labelRe line [] s1 c1 -> c1 = [a; l].
Proof.
  unfold labelRe. cbn [Seq]. intros M.
  apply Matches_Cat_inv in M as (s & c & M1 & M).
  apply Matches_cap_rep_inv in M1 as (a' & E & L & _ & ->).
  apply app_same_length in E as [<- <-]; [|destruct Ha; congruence].
  apply Matches_Cat_inv in M as (s2 & c2 & M2 & M).
  apply Matches_plus_inv in M2 as [-> (r1 & E1 & _ & R1)].
  apply Matches_Cat_inv in M as (s3 & c3 & M3 & M).
  apply Matches_lit_inv in M3 as [-> ->].
  symmetry in E1.
  apply (run_same isSpace) in E1 as (-> & _ & ->);
    try reflexivity; try assumption; [|apply H1].
  apply Matches_Cat_inv in M as (s4 & c4 & M4 & M).
  apply Matches_plus_inv in M4 as [-> (r2 & E2 & _ & R2)].
  apply Matches_Cat_inv in M as (s5 & c5 & M5 & M).
  apply Matches_cap_plus_inv in M5 as (w & -> & Hw & ->).
  apply Matches_Cat_inv in M as (s6 & c6 & M6 & M).
  apply Matches_Eos_inv in M6 as (-> & -> & ->).
  apply Matches_Emp_inv in M as [_ ->].
  rewrite append_nil in E2.
  destruct (word_start l Hl) as (l0 & l' & -> & Hl0 & _).
  destruct (word_start w Hw) as (w0 & w' & -> & Hw0 & _).
  symmetry in E2.
  apply (run_same isSpace) in E2 as (_ & -> & ->);
    try assumption; [reflexivity | apply H2].
Qed.

Lemma labelRe_line : matchStart labelRe line = Some [a; l].
Proof.
  eapply matchStart_unique; [apply labelRe_matches | apply labelRe_unique].
Qed.

End LabelLine.

Lemma readDigits_value (s : string) :
  forall (acc : Z) (seen : bool),
    allChars isHex s = true ->
    readDigits 16 s acc seen
    = (valueFrom acc s,
       match s with EmptyString => seen | String _ _ => true end).
Proof.
  induction s as [|ch s IH]; intros acc seen H; [reflexivity|].
  cbn [allChars] in H. apply andb_prop in H as [Hc Hs].
  destruct (BoundFacts.hex_digit ch Hc) as (d & Hd & Hr).
  cbn [readDigits valueFrom]. rewrite Hd.
  replace (d <? 16) with true by (symmetry; apply Z.ltb_lt; lia).
  rewrite (IH _ true Hs). now destruct s.
Qed.

(** [parseInt(_, 16)] of four hexadecimal digits is the number they
    denote *)
Lemma num_hexValue (a : string) : hex4 a -> num a 16 = hexValue a.
Proof.
  intros [L A]. unfold num.
  destruct (BoundFacts.parseInt_hex a) as (v & E & _);
    [intros ->; discriminate L | exact A |].
  rewrite E.
  destruct a as [|c0 rest]; [discriminate L|].
  pose proof A as A0. cbn [allChars] in A0. apply andb_prop in A0 as [Hc0 Hrest].
  unfold parseInt in E. cbn [dropSpace] in E.
  rewrite (BoundFacts.hex_not_space c0 Hc0) in E.
  destruct (BoundFacts.hex_not_sign c0 Hc0) as [E1 E2]. rewrite E1, E2 in E.
  replace (16 =? 16) with true in E by reflexivity.
  assert (Hstrip : stripHexPrefix (String c0 rest) = String c0 rest).
  { destruct rest as [|c1 rest']; [reflexivity|].
    cbn [allChars] in Hrest. apply andb_prop in Hrest as [Hc1 _].
    cbn [stripHexPrefix]. rewrite (BoundFacts.hex_not_x c1 Hc1).
    now rewrite andb_false_r. }
  rewrite Hstrip, (readDigits_value _ 0 false A) in E.
  injection E as <-. reflexivity.
Qed.

Section EntryLine.
Variables a ws : string.
Hypothesis Ha : hex4 a.
Hypothesis Hw : run isSpace ws.

Local Abbreviation line := (a ++ ws ++ "e").

(** what is left of the line after the address and some white space *)
Lemma after_space (r : regex) (s1 : string) (c1 : list string) :
  Matches (Cat (Cap (Rep 4 isHex)) (Cat (Plus isSpace) r)) line [] s1 c1 ->
  exists mid, allChars isSpace mid = true /\
              Matches r (mid ++ "e") [a] s1 c1.
Proof.
  intros M.
  apply Matches_Cat_inv in M as (s & c & M1 & M).
  apply Matches_cap_rep_inv in M1 as (a' & E & L & _ & ->).
  apply app_same_length in E as [<- <-]; [|destruct Ha; congruence].
  apply Matches_Cat_inv in M as (s2 & c2 & M2 & M).
  apply Matches_plus_inv in M2 as [-> (r1 & E1 & _ & R1)].
  symmetry in E1.
  apply (run_prefix isSpace) in E1 as (mid & Ews & ->);
    [|exact R1 | apply Hw | reflexivity].
  exists mid. split; [|exact M].
  destruct Hw as [_ Hall]. rewrite Ews, allChars_app in Hall.
  now apply andb_prop in Hall as [_ Hall].
Qed.

Lemma labelRe_none (s1 : string) (c1 : list string) :
  ~ Matches labelRe line [] s1 c1.
Proof.
  unfold labelRe. cbn [Seq]. intros M.
  apply after_space in M as (mid & Hmid & M).
  apply Matches_Cat_inv in M as (s3 & c3 & M3 & _).
  apply Matches_lit_inv in M3 as [E _].
  destruct mid as [|m mid]; cbn in E; [discriminate E|].
  injection E as -> _. cbn in Hmid. discriminate Hmid.
Qed.

Lemma sourceRe_none (s1 : string) (c1 : list string) :
  ~ Matches sourceRe line [] s1 c1.
Proof.
  unfold sourceRe. cbn [Seq]. intros M.
  apply after_space in M as (mid & Hmid & M).
  apply Matches_Cat_inv in M as (s3 & c3 & M3 & _).
  apply Matches_rep in M3 as (b & E & L & B).
  destruct mid as [|m mid]; cbn in E.
  - destruct b as [|b0 [|b1 b]]; try discriminate L. cbn in E. discriminate E.
  - destruct b as [|b0 b]; [discriminate L|]. cbn in E. injection E as -> _.
    cbn in Hmid, B. apply andb_prop in Hmid as [Hm _].
    apply andb_prop in B as [Hb _].
    rewrite (BoundFacts.hex_not_space _ Hb) in Hm. discriminate Hm.
Qed.

Lemma simpleRe_matches : Matches simpleRe line [] "" [a; "e"].
Proof.
  unfold simpleRe. cbn [Seq].
  eapply MCat.
  { apply (Matches_cap_intro (Rep 4 isHex)).
    destruct Ha as [L A]. rewrite <- L. now apply Matches_rep_intro. }
  eapply MCat; [now apply Matches_plus_intro|].
  eapply MCat.
  { apply (Matches_cap_intro (Plus isWord) "e" "").
    apply (Matches_plus_intro isWord "e" ""). split; [discriminate | reflexivity]. }
  eapply MCat; constructor.
Qed.

Lemma simpleRe_unique (s1 : string) (c1 : list string) :
  Matches simpleRe line [] s1 c1 -> c1 = [a; "e"].
Proof.
  unfold simpleRe. cbn [Seq]. intros M.
  apply after_space in M as (mid & Hmid & M).
  apply Matches_Cat_inv in M as (s3 & c3 & M3 & M).
  apply Matches_cap_plus_inv in M3 as (w & E & Hword & ->).
  apply Matches_Cat_inv in M as (s4 & c4 & M4 & M).
  apply Matches_Eos_inv in M4 as (-> & -> & ->).
  apply Matches_Emp_inv in M as [_ ->].
  rewrite append_nil in E. subst w.
  destruct mid as [|m mid]; [reflexivity|].
  exfalso. destruct Hword as [_ Hword]. cbn in Hword, Hmid.
  apply andb_prop in Hword as [Hm _]. apply andb_prop in Hmid as [Hs _].
  rewrite (LabelFacts.word_not_space _ Hm) in Hs. discriminate Hs.
Qed.

Lemma entryRe_matches : Matches entryRe line [] "" [a].
Proof.
  unfold entryRe. cbn [Seq].
  eapply MCat.
  { apply (Matches_cap_intro (Rep 4 isHex)).
    destruct Ha as [L A]. rewrite <- L. now apply Matches_rep_intro. }
  eapply MCat; [now apply Matches_plus_intro|].
  eapply MCat; [apply Matches_lit_intro|].
  eapply MCat; [apply MStarNil|].
  eapply MCat; constructor.
Qed.

Lemma entryRe_unique (s1 : string) (c1 : list string) :
  Matches entryRe line [] s1 c1 -> c1 = [a].
Proof.
  unfold entryRe. cbn [Seq]. intros M.
  apply after_space in M as (mid & _ & M).
  now apply Matches_nocap in M.
Qed.

End EntryLine.

End BdsLineFacts.

(** X18. A line of the symbol file that, once trimmed, is four
    hexadecimal digits, white space, the tag [a], white space and a label
    made of word characters, yields the symbol with that label, the
    address the digits denote and the number of the line. *)
Theorem X18_label_line_parsed (i : Z) (raw a ws1 ws2 l : string) :
  Matching.hex4 a ->
  Matching.run JS.isSpace ws1 -> Matching.run JS.isSpace ws2 ->
  Matching.run JS.isWord l ->
  JS.trim raw = a ++ ws1 ++ String "a" (ws2 ++ l) ->
  BreakpointManager.parseBdsLine i raw
  = Some {| SymbolInfo.address := Matching.hexValue a;
            SymbolInfo.label := l;
            SymbolInfo.file := None;
            SymbolInfo.line := Some (i + 1) |}.
Proof.
  intros Ha H1 H2 Hl Htrim. unfold BreakpointManager.parseBdsLine.
  rewrite Htrim.
  pose proof (BdsLineFacts.labelRe_line a ws1 ws2 l Ha H1 H2 Hl) as HM.
  pose proof (BdsLineFacts.hex4_nonempty a (ws1 ++ String "a" (ws2 ++ l)) Ha)
    as Hne.
  destruct (a ++ ws1 ++ String "a" (ws2 ++ l)) as [|c0 rest]; [congruence|].
  rewrite HM. unfold BreakpointManager.mkSymbol.
  now rewrite (BdsLineFacts.num_hexValue a Ha).
Qed.

Lemma X18_label_line_parsed_witness :
  BreakpointManager.parseBdsLine 1 "  6010 a loop "
  = Some {| SymbolInfo.address := Matching.hexValue "6010";
            SymbolInfo.label := "loop";
            SymbolInfo.file := None;
            SymbolInfo.line := Some (1 + 1) |}.
Proof.
  apply (X18_label_line_parsed 1 "  6010 a loop " "6010" " " " " "loop");
    first [ split; [discriminate | reflexivity] | split; reflexivity
          | reflexivity ].
Defined.

(** X19. The line that marks the entry point (four hexadecimal digits,
    white space and the tag [e]) is not only read by [getEntryPoint]:
    [parseBdsFile] also takes it for a line in the older "ADDRESS LABEL"
    format and adds a symbol labelled [e] at the entry address. *)
Theorem X19_entry_marker_is_a_symbol (i : Z) (raw a ws : string) :
  Matching.hex4 a -> Matching.run JS.isSpace ws ->
  JS.trim raw = a ++ ws ++ "e" ->
  Entry.entryMarker raw = Some (Matching.hexValue a) /\
  BreakpointManager.parseBdsLine i raw
  = Some {| SymbolInfo.address := Matching.hexValue a;
            SymbolInfo.label := "e";
            SymbolInfo.file := None;
            SymbolInfo.line := Some (i + 1) |}.
Proof.
  intros Ha Hw Htrim.
  assert (HE : JS.matchStart BreakpointManager.entryRe (a ++ ws ++ "e")
               = Some [a]).
  { eapply ParseFacts.matchStart_unique;
      [now apply BdsLineFacts.entryRe_matches
      | now apply BdsLineFacts.entryRe_unique]. }
  assert (HL : JS.matchStart BreakpointManager.labelRe (a ++ ws ++ "e") = None).
  { apply ParseFacts.matchStart_none. intros s1 c1.
    now apply BdsLineFacts.labelRe_none. }
  assert (HS : JS.matchStart BreakpointManager.sourceRe (a ++ ws ++ "e") = None).
  { apply ParseFacts.matchStart_none. intros s1 c1.
    now apply BdsLineFacts.sourceRe_none. }
  assert (HP : JS.matchStart BreakpointManager.simpleRe (a ++ ws ++ "e")
               = Some [a; "e"]).
  { eapply ParseFacts.matchStart_unique;
      [now apply BdsLineFacts.simpleRe_matches
      | now apply BdsLineFacts.simpleRe_unique]. }
  split.
  - unfold Entry.entryMarker. rewrite Htrim, HE.
    now rewrite (BdsLineFacts.num_hexValue a Ha).
  - unfold BreakpointManager.parseBdsLine. rewrite Htrim.
    pose proof (BdsLineFacts.hex4_nonempty a (ws ++ "e") Ha) as Hne.
    destruct (a ++ ws ++ "e") as [|c0 rest]; [congruence|].
    rewrite HL, HS, HP. unfold BreakpointManager.mkSymbol.
    now rewrite (BdsLineFacts.num_hexValue a Ha).
Qed.

Lemma X19_entry_marker_is_a_symbol_witness :
  Entry.entryMarker "5000 e" = Some (Matching.hexValue "5000") /\
  BreakpointManager.parseBdsLine 6 "5000 e"
  = Some {| SymbolInfo.address := Matching.hexValue "5000";
            SymbolInfo.label := "e";
            SymbolInfo.file := None;
            SymbolInfo.line := Some (6 + 1) |}.
Proof.
  apply (X19_entry_marker_is_a_symbol 6 "5000 e" "5000" " ");
    first [ split; [discriminate | reflexivity] | split; reflexivity
          | reflexivity ].
Defined.

(** in the symbol file of the fixture the marker is the first symbol
    after the source lines *)
Example entry_marker_symbol :
  map SymbolInfo.label (BreakpointManager.parseBdsText Fixtures.entryBds)
  = ["start"; "main"; "e"; "start"; "main"].
Proof. reflexivity. Qed.

(** ** Addresses in the flags and in the symbol file *)

Module RoundTripFacts.
Import JS Hex Matching MatchingFacts ParseFacts BreakpointManager.

Lemma digits_grows (fuel : nat) :
  forall (n : Z) (acc : string),
    (String.length acc <= String.length (digits 16 fuel n acc))%nat.
Proof.
  induction fuel as [|fuel IH]; intros n acc; cbn [digits]; [lia|].
  destruct (n / 16 =? 0); [cbn [String.length]; lia|].
  specialize (IH (n / 16) (String (digitChar (n mod 16)) acc)).
  cbn [String.length] in IH. lia.
Qed.

(** a number of at least 16^k has more than [k] digits *)
Lemma digits_long (fuel : nat) :
  forall (n : Z) (acc : string) (k : nat),
    (S k <= fuel)%nat -> 16 ^ Z.of_nat k <= n ->
    (S k + String.length acc <= String.length (digits 16 fuel n acc))%nat.
Proof.
  induction fuel as [|fuel IH]; intros n acc k Hk Hn; [lia|].
  assert (Hpos : 0 < 16 ^ Z.of_nat k) by (apply Z.pow_pos_nonneg; lia).
  cbn [digits].
  destruct (Z.eqb_spec (n / 16) 0) as [E|E].
  - assert (Hsmall : n < 16).
    { pose proof (Z.div_mod n 16 ltac:(lia)) as D.
      pose proof (Z.mod_pos_bound n 16 ltac:(lia)). lia. }
    destruct k as [|k]; [cbn [String.length]; lia|].
    exfalso.
    assert (16 ^ 1 <= 16 ^ Z.of_nat (S k)) by (apply Z.pow_le_mono_r; lia).
    change (16 ^ 1) with 16 in *. lia.
  - destruct k as [|k].
    + pose proof (digits_grows fuel (n / 16)
                    (String (digitChar (n mod 16)) acc)) as G.
      cbn [String.length] in G. lia.
    + specialize (IH (n / 16) (String (digitChar (n mod 16)) acc) k
                     ltac:(lia)).
      cbn [String.length] in IH.
      assert (16 ^ Z.of_nat k <= n / 16).
      { apply Z.div_le_lower_bound; [lia|].
        replace (Z.of_nat (S k)) with (Z.succ (Z.of_nat k)) in Hn by lia.
        rewrite Z.pow_succ_r in Hn by lia. exact Hn. }
      specialize (IH H). lia.
Qed.

Lemma upperHex_hex (s : string) :
  allChars isUpperHex s = true -> allChars isHex s = true.
Proof.
  induction s as [|c s IH]; [reflexivity|]. cbn [allChars].
  intros H. apply andb_prop in H as [Hc Hs]. rewrite (IH Hs), andb_true_r.
  unfold isUpperHex in Hc. unfold isHex.
  apply orb_prop in Hc as [-> | ->]; [reflexivity|].
  now rewrite orb_true_r.
Qed.

(** from 0x1000 on, an address is rendered as four hexadecimal digits,
    which denote it *)
Lemma render_hex4 (x : Z) :
  0x1000 <= x <= 0xFFFF ->
  hex4 (renderAddress x) /\ hexValue (renderAddress x) = x.
Proof.
  intros [Hlo Hhi].
  destruct (FlagFacts.render_word16 x) as [[[_ Hle] Hall] Hparse];
    [split; lia|].
  assert (H4 : hex4 (renderAddress x)).
  { split; [|now apply upperHex_hex].
    apply Nat.le_antisymm; [exact Hle|].
    unfold renderAddress, toString, toUpperCase.
    rewrite FlagFacts.map_string_length.
    destruct (Z.ltb_spec x 0); [lia|].
    pose proof (digits_long (S (Z.to_nat (Z.log2 x))) x "" 3) as L.
    cbn [String.length] in L. rewrite Nat.add_0_r in L. apply L.
    - pose proof (Z.log2_le_mono 0x1000 x Hlo) as M.
      change (Z.log2 0x1000) with 12 in M. lia.
    - change (16 ^ Z.of_nat 3) with 4096. lia. }
  split; [exact H4|].
  rewrite <- (BdsLineFacts.num_hexValue _ H4). unfold num. now rewrite Hparse.
Qed.

(** below 0x1000 it has one to three digits *)
Lemma render_short (x : Z) :
  0 <= x < 0x1000 ->
  (1 <= String.length (renderAddress x) <= 3)%nat /\
  allChars isHex (renderAddress x) = true.
Proof.
  intros [Hlo Hhi].
  destruct (FlagFacts.render_word16 x) as [[[Hge _] Hall] _]; [split; lia|].
  split; [split; [exact Hge|] | now apply upperHex_hex].
  unfold renderAddress, toString, toUpperCase.
  rewrite FlagFacts.map_string_length.
  destruct (Z.ltb_spec x 0); [lia|].
  pose proof (FlagFacts.digits_length (S (Z.to_nat (Z.log2 x))) x "" 3
                ltac:(lia)) as L.
  cbn [String.length] in L. rewrite Nat.add_0_r in L. apply L.
  change (16 ^ Z.of_nat 3) with 4096. lia.
Qed.

(** The patterns of [parseBdsFile] all start with a group of exactly
    four hexadecimal digits: a line that starts with fewer digits and
    white space matches none of them. *)
Lemma short_address_unread (t ws rest : string) (r : regex) :
  (1 <= String.length t <= 3)%nat -> allChars isHex t = true ->
  run isSpace ws ->
  forall s1 c1,
    ~ Matches (Cat (Cap (Rep 4 isHex)) r) (t ++ ws ++ rest) [] s1 c1.
Proof.
  intros Hlen Ht [Hne Hws] s1 c1 M.
  apply Matches_Cat_inv in M as (s & c & M1 & _).
  apply Matches_cap_rep_inv in M1 as (a & E & La & Ha & _).
  destruct ws as [|w0 ws]; [congruence|].
  cbn [allChars] in Hws. apply andb_prop in Hws as [Hw0 _].
  assert (Hhex : isHex w0 = true).
  { destruct a as [|a0 [|a1 [|a2 [|a3 [|a4 a]]]]]; try discriminate La.
    cbn [allChars] in Ha.
    apply andb_prop in Ha as [H0 Ha]. apply andb_prop in Ha as [H1 Ha].
    apply andb_prop in Ha as [H2 Ha]. apply andb_prop in Ha as [H3 _].
    destruct t as [|t0 [|t1 [|t2 [|t3 t]]]]; cbn [String.length] in Hlen;
      try lia; cbn in E; injection E; intros; subst; assumption. }
  rewrite (BoundFacts.hex_not_space w0 Hhex) in Hw0. discriminate Hw0.
Qed.

Lemma parseBdsLine_short (i : Z) (raw t ws rest : string) :
  (1 <= String.length t <= 3)%nat -> allChars isHex t = true ->
  run isSpace ws ->
  trim raw = t ++ ws ++ rest ->
  parseBdsLine i raw = None.
Proof.
  intros Hlen Ht Hws Htrim. unfold parseBdsLine. rewrite Htrim.
  assert (HL : matchStart labelRe (t ++ ws ++ rest) = None).
  { apply matchStart_none. unfold labelRe. cbn [Seq].
    now apply short_address_unread. }
  assert (HS : matchStart sourceRe (t ++ ws ++ rest) = None).
  { apply matchStart_none. unfold sourceRe. cbn [Seq].
    now apply short_address_unread. }
  assert (HP : matchStart simpleRe (t ++ ws ++ rest) = None).
  { apply matchStart_none. unfold simpleRe. cbn [Seq].
    now apply short_address_unread. }
  assert (HC : matchStart complexRe (t ++ ws ++ rest) = None).
  { apply matchStart_none. unfold complexRe. cbn [Seq].
    now apply short_address_unread. }
  destruct (t ++ ws ++ rest); [reflexivity|].
  now rewrite HL, HS, HP, HC.
Qed.

End RoundTripFacts.

(** C9 (as amended). The address of a breakpoint is rendered as
    upper-case hexadecimal digits without padding, and [parseInt(_, 16)]
    reads the rendered text back as the address.  The symbol file is read
    with patterns that take exactly four hexadecimal digits: a symbol line
    and an entry-marker line that carry the rendered address are read back
    to that address from 0x1000 on, and are not read at all for an address
    below 0x1000, whose rendering has fewer than four digits. *)
Theorem C9_address_roundtrip
    (info : BreakpointInfo.t) (i : Z) (raw marker ws1 ws2 l : string) :
  let x := BreakpointInfo.address info in
  let text := BreakpointManager.renderAddress x in
  0 <= x <= 0xFFFF ->
  Matching.run JS.isSpace ws1 -> Matching.run JS.isSpace ws2 ->
  Matching.run JS.isWord l ->
  JS.trim raw = text ++ ws1 ++ String "a" (ws2 ++ l) ->
  JS.trim marker = text ++ ws1 ++ "e" ->
  BreakpointManager.formatBreakpointsForEmulator [info] = ["-b"; text] /\
  JS.parseInt text 16 = Some x /\
  (0x1000 <= x ->
   BreakpointManager.parseBdsLine i raw
   = Some {| SymbolInfo.address := x;
             SymbolInfo.label := l;
             SymbolInfo.file := None;
             SymbolInfo.line := Some (i + 1) |} /\
   BreakpointManager.findEntryLine [marker] = Some x) /\
  (x < 0x1000 ->
   BreakpointManager.parseBdsLine i raw = None /\
   BreakpointManager.findEntryLine [marker] = None).
Proof.
  intros x text Hx H1 H2 Hl Htrim Hmarker.
  split; [reflexivity|].
  split; [apply AddressFacts.parseInt_render; lia|].
  split.
  - intros Hlong.
    destruct (RoundTripFacts.render_hex4 x ltac:(lia)) as [H4 Hvalue].
    fold text in H4, Hvalue.
    split.
    + unfold BreakpointManager.parseBdsLine. rewrite Htrim.
      pose proof (BdsLineFacts.labelRe_line text ws1 ws2 l H4 H1 H2 Hl) as HM.
      pose proof (BdsLineFacts.hex4_nonempty text
                    (ws1 ++ String "a" (ws2 ++ l)) H4) as Hne.
      destruct (text ++ ws1 ++ String "a" (ws2 ++ l)) as [|c0 rest];
        [congruence|].
      rewrite HM. unfold BreakpointManager.mkSymbol.
      now rewrite (BdsLineFacts.num_hexValue text H4), Hvalue.
    + cbn [BreakpointManager.findEntryLine]. rewrite Hmarker.
      rewrite (ParseFacts.matchStart_unique BreakpointManager.entryRe
                 (text ++ ws1 ++ "e") "" [text]
                 (BdsLineFacts.entryRe_matches text ws1 H4 H1)
                 (BdsLineFacts.entryRe_unique text ws1 H4 H1)).
      now rewrite (BdsLineFacts.num_hexValue text H4), Hvalue.
  - intros Hshort.
    destruct (RoundTripFacts.render_short x ltac:(lia)) as [Hlen Hall].
    split.
    + now apply (RoundTripFacts.parseBdsLine_short i raw text ws1
                   (String "a" (ws2 ++ l))).
    + cbn [BreakpointManager.findEntryLine]. rewrite Hmarker.
      rewrite ParseFacts.matchStart_none; [reflexivity|].
      unfold BreakpointManager.entryRe. cbn [JS.Seq].
      now apply RoundTripFacts.short_address_unread.
Qed.

Lemma C9_address_roundtrip_witness :
  BreakpointManager.formatBreakpointsForEmulator [Scenarios.breakpoint6ABC]
  = ["-b"; "6ABC"] /\
  BreakpointManager.parseBdsLine 1 "6ABC a loop"
  = Some {| SymbolInfo.address := 0x6ABC;
            SymbolInfo.label := "loop";
            SymbolInfo.file := None;
            SymbolInfo.line := Some (1 + 1) |} /\
  BreakpointManager.findEntryLine ["6ABC e"] = Some 0x6ABC.
Proof.
  destruct (C9_address_roundtrip Scenarios.breakpoint6ABC 1 "6ABC a loop"
              "6ABC e" " " " " "loop")
    as (Hflag & _ & Hlong & _);
    try (split; [discriminate | reflexivity]); try reflexivity.
  - cbn. lia.
  - split; [exact Hflag | apply Hlong; cbn; lia].
Defined.

(** C9 as stated fails below 0x1000: the flag of address 0xABC is [ABC],
    and a symbol line that carries [ABC] is not read at all. *)
Lemma C9_unpadded_address_counterexample :
  ~ (forall (x i : Z) (l : string),
        0 <= x <= 0xFFFF -> Matching.run JS.isWord l ->
        exists symbol,
          BreakpointManager.parseBdsLine i
            (BreakpointManager.renderAddress x ++ " a " ++ l)
          = Some symbol /\
          SymbolInfo.address symbol = x).
Proof.
  intros H.
  destruct (H 0xABC 0 "loop" ltac:(lia)
              ltac:(split; [discriminate | reflexivity]))
    as (symbol & E & _).
  vm_compute in E. discriminate E.
Qed.

(** the same addresses as flags and as symbol lines *)
Example flags_and_symbol_lines :
  map BreakpointManager.renderAddress [0x6ABC; 0xABC; 0]
  = ["6ABC"; "ABC"; "0"]
  /\ map (fun x => option_map SymbolInfo.address
                     (BreakpointManager.parseBdsLine 0
                        (BreakpointManager.renderAddress x ++ " a loop")))
         [0x6ABC; 0xABC; 0]
     = [Some 0x6ABC; None; None]
  /\ option_map SymbolInfo.address
       (BreakpointManager.parseBdsLine 0 "0ABC a loop") = Some 0xABC.
Proof. repeat split. Qed.

(** ** Line numbers as doubles *)

Module NumberFacts.
Import JS Hex ErrorLine.

(** below 2^53 every natural number is a double *)
Lemma toNumber_safe (n : Z) : 0 <= n < 2 ^ 53 -> toNumber n = Finite n.
Proof.
  intros [Hlo Hhi]. unfold toNumber, roundNat.
  destruct (Z.ltb_spec n 0); [lia|].
  destruct (Z.ltb_spec n (2 ^ 53)); [reflexivity | lia].
Qed.

(** the Number value of a natural number is a natural number or
    [Infinity] *)
Lemma roundNat_nonneg (n v : Z) : 0 <= n -> roundNat n = Some v -> 0 <= v.
Proof.
  intros Hn. unfold roundNat.
  destruct (Z.ltb_spec n (2 ^ 53)) as [|Hbig]; [now intros [= <-]|].
  cbv zeta. set (e := Z.log2 n - 52).
  assert (He : 0 <= e).
  { unfold e. pose proof (Z.log2_le_mono (2 ^ 53) n Hbig) as M.
    rewrite Z.log2_pow2 in M; lia. }
  assert (Hp : 0 < 2 ^ e) by (apply Z.pow_pos_nonneg; lia).
  assert (Hq : 0 <= n / 2 ^ e) by (apply Z.div_pos; lia).
  match goal with
  | |- context [if ?c then n / 2 ^ e + 1 else _] => destruct c
  end;
    match goal with
    | |- context [if ?c then None else _] => destruct c
    end; try discriminate; intros [= <-]; nia.
Qed.

Lemma toNumber_natural (n : Z) : 0 <= n -> LineNumber.natural (toNumber n).
Proof.
  intros Hn. unfold toNumber.
  destruct (Z.ltb_spec n 0); [lia|].
  destruct (roundNat n) as [v|] eqn:R; [|reflexivity].
  exact (roundNat_nonneg n v Hn R).
Qed.

Lemma decFrom_nonneg (s : string) :
  forall acc, 0 <= acc -> allChars isDigit s = true -> 0 <= decFrom acc s.
Proof.
  induction s as [|ch s IH]; intros acc Hacc H; [exact Hacc|].
  cbn [allChars] in H. apply andb_prop in H as [Hc Hs].
  cbn [decFrom]. apply IH; [|exact Hs].
  unfold digitValue. rewrite Hc.
  unfold isDigit, inRange in Hc. apply andb_prop in Hc as [Hc _].
  apply N.leb_le in Hc. lia.
Qed.

Lemma decValue_nonneg (s : string) :
  allChars isDigit s = true -> 0 <= decValue s.
Proof. apply decFrom_nonneg. lia. Qed.

(** the clamp at zero leaves a natural number or [Infinity] as it is *)
Lemma maxZero_natural (x : number) : LineNumber.natural x -> maxZero x = x.
Proof.
  destruct x as [z|[]|]; cbn [LineNumber.natural maxZero];
    try contradiction; try discriminate; try reflexivity.
  intros Hz. f_equal. lia.
Qed.

(** one less, clamped at zero: still a natural number or [Infinity] *)
Lemma zero_based_natural (x : number) :
  LineNumber.natural x -> LineNumber.natural (maxZero (minusOne x)).
Proof.
  destruct x as [z|[]|]; cbn [LineNumber.natural minusOne maxZero];
    try contradiction; try discriminate; try (intros _; reflexivity).
  intros Hz. destruct (Z.eq_dec z 0) as [->|Hnz]; [vm_compute; discriminate|].
  pose proof (toNumber_natural (z - 1) ltac:(lia)) as N.
  destruct (toNumber (z - 1)) as [v|[]|]; cbn [LineNumber.natural maxZero] in *;
    try contradiction; try discriminate; try reflexivity. lia.
Qed.

End NumberFacts.

(** ** Lines of the assembler's diagnostics, read forwards *)

Module ErrorLineFacts.
Import JS Hex Matching MatchingFacts ParseFacts ZmacAssembler ErrorLine.

Lemma exec_ext (r : regex) :
  forall (s : string) (c : list string) (k1 k2 : Cont),
    (forall s' c', k1 s' c' = k2 s' c') ->
    exec r s c k1 = exec r s c k2.
Proof.
  induction r as [| p | p | r1 IH1 r2 IH2 | r IH |]; intros s c k1 k2 H.
  - apply H.
  - cbn. destruct s as [|ch s]; [reflexivity|]. destruct (p ch); [apply H|reflexivity].
  - induction s as [|ch s IHs].
    + rewrite !star_nil. apply H.
    + rewrite !star_cons, IHs, H. reflexivity.
  - cbn [exec]. apply IH1. intros s' c'. now apply IH2.
  - cbn [exec]. apply IH. intros s' c'. apply H.
  - cbn. destruct s; [apply H | reflexivity].
Qed.

(** a sequence of patterns is matched part by part *)
Lemma exec_Seq_app (xs ys : list regex) :
  forall (s : string) (c : list string) (k : Cont),
    exec (Seq (xs ++ ys)) s c k
    = exec (Seq xs) s c (fun s' c' => exec (Seq ys) s' c' k).
Proof.
  induction xs as [|x xs IH]; intros s c k; [reflexivity|].
  cbn [app Seq exec]. apply exec_ext. intros s' c'. apply IH.
Qed.

(** a greedy star takes the whole run when the continuation accepts what
    follows the run *)
Lemma exec_star_greedy (p : ascii -> bool) (k : Cont) (c res : list string) :
  forall s,
    k (Label.dropWhile p s) c = Some res -> exec (Star p) s c k = Some res.
Proof.
  induction s as [|ch s IH]; intros H; [exact H|].
  rewrite star_cons. cbn [Label.dropWhile] in H.
  destruct (p ch); [|exact H]. now rewrite (IH H).
Qed.

Lemma dropWhile_all (p : ascii -> bool) (s : string) :
  allChars p s = true -> Label.dropWhile p s = "".
Proof.
  induction s as [|ch s IH]; [reflexivity|]. cbn.
  intros H. apply andb_prop in H as [-> H]. now apply IH.
Qed.

(** the rest of a diagnostic: the white space is skipped and the message
    taken whole *)
Lemma text_taken (sp m : string) (c : list string) :
  allChars isSpace sp = true -> isMessage m ->
  exec (Seq text) (sp ++ m) c (fun _ caps => Some caps) = Some (c ++ [m])%list.
Proof.
  intros Hsp [Hdot (m0 & m' & -> & Hm0)].
  unfold text. cbn [Seq]. change (exec (Cat (Star isSpace) ?r) ?s ?c ?k)
    with (exec (Star isSpace) s c (fun s' c' => exec r s' c' k)).
  apply exec_star_greedy.
  destruct (LabelFacts.dropWhile_app isSpace sp m0 m' Hsp Hm0) as [-> _].
  cbn [allChars] in Hdot. apply andb_prop in Hdot as [Hd0 Hd].
  change (exec (Cat (Cap (Plus isDot)) Emp) (String m0 m') c
            (fun _ caps => Some caps))
    with (if isDot m0
          then exec (Star isDot) m' c
                 (fun s' c' => Some (c' ++ [consumed (String m0 m') s'])%list)
          else None).
  rewrite Hd0. apply exec_star_greedy.
  rewrite (dropWhile_all isDot m' Hd). do 3 f_equal.
  rewrite <- (append_nil (String m0 m')) at 1.
  apply LabelFacts.consumed_app.
Qed.

Lemma Matches_litsI_intro (t rest : string) (c : list string) :
  Matches (LitsI t) (t ++ rest) c rest c.
Proof.
  induction t as [|x t IH]; cbn [LitsI append]; [constructor|].
  eapply MCat; [|exact IH]. apply MCls. apply Ascii.eqb_refl.
Qed.

Lemma Matches_litsI_inv (t : string) :
  forall (s s' : string) (c c' : list string),
    Matches (LitsI t) s c s' c' ->
    c' = c /\
    exists x, s = x ++ s' /\ String.length x = String.length t /\
              toLowerCase x = toLowerCase t.
Proof.
  induction t as [|y t IH]; cbn [LitsI]; intros s s' c c' M.
  - apply Matches_Emp_inv in M as [-> ->]. split; [reflexivity|]. now exists "".
  - apply Matches_Cat_inv in M as (s1 & c1 & M1 & M).
    apply Matches_Cls_inv in M1 as (ch & -> & E & ->).
    apply IH in M as [-> (x & -> & L & T)].
    split; [reflexivity|]. exists (String ch x). repeat split.
    + cbn. now rewrite L.
    + apply Ascii.eqb_eq in E. unfold toLowerCase in *. cbn [map_string].
      now rewrite E, T.
Qed.

Lemma digit_not_space (c : ascii) : isDigit c = true -> isSpace c = false.
Proof. BoundFacts.each_char c; intros H; try discriminate H; reflexivity. Qed.

Lemma digit_not_sign (c : ascii) :
  isDigit c = true -> Ascii.eqb c "-" = false /\ Ascii.eqb c "+" = false.
Proof. BoundFacts.each_char c; intros H; try discriminate H; split; reflexivity. Qed.

Lemma digit_value (c : ascii) :
  isDigit c = true -> exists d, digitValue c = Some d /\ 0 <= d < 10.
Proof.
  BoundFacts.each_char c; intros H; try discriminate H;
    eexists; (split; [vm_compute; reflexivity | lia]).
Qed.

Lemma lower_l_not_space (c : ascii) :
  toLower c = "l"%char -> isSpace c = false.
Proof. BoundFacts.each_char c; intros H; try discriminate H; reflexivity. Qed.

Lemma run_start (p : ascii -> bool) (s : string) :
  run p s -> exists s0 s', s = String s0 s' /\ p s0 = true /\
                           allChars p s' = true.
Proof.
  intros [Hne H]. destruct s as [|s0 s']; [congruence|].
  cbn in H. apply andb_prop in H as [H0 H']. now exists s0, s'.
Qed.

Lemma readDigits_dec (s : string) :
  forall (acc : Z) (seen : bool),
    allChars isDigit s = true ->
    readDigits 10 s acc seen
    = (decFrom acc s, match s with EmptyString => seen | String _ _ => true end).
Proof.
  induction s as [|ch s IH]; intros acc seen H; [reflexivity|].
  cbn [allChars] in H. apply andb_prop in H as [Hc Hs].
  destruct (digit_value ch Hc) as (d & Hd & Hr).
  cbn [readDigits decFrom]. rewrite Hd.
  replace (d <? 10) with true by (symmetry; apply Z.ltb_lt; lia).
  rewrite (IH _ true Hs). now destruct s.
Qed.

(** [parseInt(_, 10)] of a run of digits reads the number they denote *)
Lemma parseInt_decValue (n : string) :
  run isDigit n -> parseInt n 10 = Some (decValue n).
Proof.
  intros Hn. pose proof Hn as [_ Hall].
  destruct (run_start _ _ Hn) as (n0 & n' & -> & H0 & H').
  unfold parseInt. cbn [dropSpace].
  rewrite (digit_not_space n0 H0).
  destruct (digit_not_sign n0 H0) as [-> ->].
  replace (10 =? 16) with false by reflexivity.
  now rewrite (readDigits_dec _ 0 false Hall).
Qed.

Lemma num_decValue (n : string) :
  run isDigit n -> BreakpointManager.num n 10 = decValue n.
Proof.
  intros Hn. unfold BreakpointManager.num.
  now rewrite (parseInt_decValue n Hn).
Qed.

(** as a Number, it is the double nearest to that number *)
Lemma parseIntNumber_decValue (n : string) :
  run isDigit n -> parseIntNumber n = toNumber (decValue n).
Proof.
  intros Hn. unfold parseIntNumber. now rewrite (parseInt_decValue n Hn).
Qed.

Lemma matchAnywhere_start (r : regex) (s : string) (caps : list string) :
  matchStart r s = Some caps -> matchAnywhere r s = Some caps.
Proof. intros H. destruct s; cbn [matchAnywhere]; now rewrite H. Qed.

Section Location.
Variables file number ws1 ws2 ws3 rest : string.
Hypothesis Hfile : run (isNot "'") file.
Hypothesis Hnumber : run isDigit number.
Hypothesis H1 : run isSpace ws1.
Hypothesis H2 : run isSpace ws2.
Hypothesis H3 : run isSpace ws3.

Local Abbreviation line :=
  ("File" ++ ws1 ++ String "'" (file ++ String "'" (String ","
     (ws2 ++ "line" ++ ws3 ++ number ++ String ":" rest)))).

Lemma location_matches : Matches (Seq location) line [] rest [file; number].
Proof.
  unfold location. cbn [Seq].
  eapply MCat; [apply Matches_litsI_intro|].
  eapply MCat; [now apply Matches_plus_intro|].
  eapply MCat; [apply Matches_lit_intro|].
  eapply MCat.
  { apply (Matches_cap_intro (Plus (isNot "'"))). now apply Matches_plus_intro. }
  eapply MCat; [apply Matches_lit_intro|].
  eapply MCat; [apply Matches_lit_intro|].
  eapply MCat; [now apply Matches_plus_intro|].
  eapply MCat; [apply Matches_litsI_intro|].
  eapply MCat; [now apply Matches_plus_intro|].
  eapply MCat.
  { apply (Matches_cap_intro (Plus isDigit)). now apply Matches_plus_intro. }
  eapply MCat; [apply Matches_lit_intro | constructor].
Qed.

Lemma location_unique (s1 : string) (c1 : list string) :
  Matches (Seq location) line [] s1 c1 -> s1 = rest /\ c1 = [file; number].
Proof.
  unfold location. cbn [Seq]. intros M.
  (* File *)
  apply Matches_Cat_inv in M as (sa & ca & M0 & M).
  apply Matches_litsI_inv in M0 as [-> (x & Ea & La & _)].
  apply app_same_length in Ea as [<- <-]; [|now rewrite La].
  clear La.
  (* white space and the opening quote *)
  apply Matches_Cat_inv in M as (sb & cb & M0 & M).
  apply Matches_plus_inv in M0 as [-> (r1 & Eb & _ & Rb)].
  apply Matches_Cat_inv in M as (sc & cc & M0 & M).
  apply Matches_lit_inv in M0 as [-> ->].
  symmetry in Eb.
  apply (run_same isSpace) in Eb as (_ & _ & ->);
    [|exact Rb | apply H1 | reflexivity | reflexivity].
  (* the file name and the closing quote *)
  apply Matches_Cat_inv in M as (sd & cd & M0 & M).
  apply Matches_cap_plus_inv in M0 as (f & Ed & [_ F] & ->).
  apply Matches_Cat_inv in M as (se & ce & M0 & M).
  apply Matches_lit_inv in M0 as [-> ->].
  symmetry in Ed.
  apply (run_same (isNot "'")) in Ed as (-> & _ & ->);
    [|exact F | apply Hfile | reflexivity | reflexivity].
  (* the comma *)
  apply Matches_Cat_inv in M as (sf & cf & M0 & M).
  apply Matches_lit_inv in M0 as [Ef ->]. injection Ef as <-.
  (* white space and the word line *)
  apply Matches_Cat_inv in M as (sg & cg & M0 & M).
  apply Matches_plus_inv in M0 as [-> (r2 & Eg & _ & Rg)].
  apply Matches_Cat_inv in M as (sh & ch & M0 & M).
  apply Matches_litsI_inv in M0 as [-> (y & -> & Lh & Th)].
  destruct y as [|y0 y']; [discriminate Lh|].
  injection Lh as Lh. cbn in Th. injection Th as Th _.
  symmetry in Eg. cbn [append] in Eg.
  apply (run_same isSpace) in Eg as (_ & _ & Eg);
    [|exact Rg | apply H2 | now apply lower_l_not_space | reflexivity].
  apply (app_same_length y' "ine" sh (ws3 ++ number ++ String ":" rest))
    in Eg as [_ ->]; [|exact Lh].
  (* white space and the line number *)
  apply Matches_Cat_inv in M as (si & ci & M0 & M).
  apply Matches_plus_inv in M0 as [-> (r3 & Ei & _ & Ri)].
  apply Matches_Cat_inv in M as (sj & cj & M0 & M).
  apply Matches_cap_plus_inv in M0 as (d & -> & Hd & ->).
  destruct (run_start _ _ Hd) as (d0 & d' & -> & Hd0 & Hd').
  destruct (run_start _ _ Hnumber) as (n0 & n' & En & Hn0 & Hn').
  rewrite En in Ei. symmetry in Ei. cbn [append] in Ei.
  apply (run_same isSpace) in Ei as (_ & -> & Ei);
    [|exact Ri | apply H3 | now apply digit_not_space
     | now apply digit_not_space].
  (* the colon *)
  apply Matches_Cat_inv in M as (sk & ck & M0 & M).
  apply Matches_lit_inv in M0 as [-> ->].
  apply Matches_Emp_inv in M as [-> ->].
  apply (run_same isDigit) in Ei as (-> & _ & ->);
    [|exact Hd' | exact Hn' | reflexivity | reflexivity].
  now rewrite En.
Qed.

End Location.

End ErrorLineFacts.

(** X20. A line of standard error in the format of zmac, that is
    File 'FILE', line NUMBER: MESSAGE, yields exactly one diagnostic: for
    the file named between the quotes (not for the file that was
    assembled), with the message trimmed; it is a warning when the line
    holds the word warning in any case, and an error otherwise.  Its line
    is the double nearest to the number the digits denote: that number
    itself below 2^53, a rounded one above, [Infinity] past the largest
    double. *)
Theorem X20_diagnostic_line_parsed
    (file number message ws1 ws2 ws3 sp sourceFile : string) :
  Matching.run (JS.isNot "'") file -> Matching.run JS.isDigit number ->
  Matching.run JS.isSpace ws1 -> Matching.run JS.isSpace ws2 ->
  Matching.run JS.isSpace ws3 ->
  Hex.allChars JS.isSpace sp = true -> ErrorLine.isMessage message ->
  let line := ErrorLine.formatted file number message ws1 ws2 ws3 sp in
  ZmacAssembler.parseZmacErrorLine line sourceFile
  = [ {| AssemblyError.file := file;
         AssemblyError.line := JS.toNumber (ErrorLine.decValue number);
         AssemblyError.column := None;
         AssemblyError.message := JS.trim message;
         AssemblyError.severity := ZmacAssembler.severityOf line |} ]
  /\
  (ErrorLine.decValue number < 2 ^ 53 ->
   JS.toNumber (ErrorLine.decValue number)
   = JS.Finite (ErrorLine.decValue number)).
Proof.
  intros Hfile Hnumber H1 H2 H3 Hsp Hmessage line.
  split; [|intros Hsafe; apply NumberFacts.toNumber_safe; split;
           [apply NumberFacts.decValue_nonneg; apply Hnumber | exact Hsafe]].
  assert (HM : JS.matchAnywhere ZmacAssembler.errorRe line
               = Some [file; number; message]).
  { apply ErrorLineFacts.matchAnywhere_start. unfold JS.matchStart.
    change ZmacAssembler.errorRe
      with (JS.Seq (ErrorLine.location ++ ErrorLine.text)).
    rewrite ErrorLineFacts.exec_Seq_app.
    unfold line, ErrorLine.formatted.
    rewrite (ParseFacts.exec_unique (JS.Seq ErrorLine.location) _
               (sp ++ message) [] [file; number]).
    - now apply (ErrorLineFacts.text_taken sp message [file; number]).
    - now apply ErrorLineFacts.location_matches.
    - now apply ErrorLineFacts.location_unique. }
  unfold ZmacAssembler.parseZmacErrorLine. rewrite HM.
  unfold ZmacAssembler.mkError.
  now rewrite (ErrorLineFacts.parseIntNumber_decValue number Hnumber).
Qed.

Lemma X20_diagnostic_line_parsed_witness :
  let line :=
    ErrorLine.formatted "macros.inc" "12" "Warning: value truncated  "
      " " " " " " " " in
  ZmacAssembler.parseZmacErrorLine line "/ws/demo.a80"
  = [ {| AssemblyError.file := "macros.inc";
         AssemblyError.line := JS.toNumber (ErrorLine.decValue "12");
         AssemblyError.column := None;
         AssemblyError.message := JS.trim "Warning: value truncated  ";
         AssemblyError.severity := ZmacAssembler.severityOf line |} ]
  /\
  (ErrorLine.decValue "12" < 2 ^ 53 ->
   JS.toNumber (ErrorLine.decValue "12") = JS.Finite (ErrorLine.decValue "12")).
Proof.
  apply (X20_diagnostic_line_parsed "macros.inc" "12"
           "Warning: value truncated  " " " " " " " " " "/ws/demo.a80");
    try (split; [discriminate | reflexivity]); try reflexivity.
  split; [reflexivity|]. eexists. eexists. split; reflexivity.
Defined.

(** a line number past 2^53 is rounded to the nearest double, ties to
    even, and a run of 310 digits is read as [Infinity] *)
Example long_line_numbers :
  map AssemblyError.line
    (ZmacAssembler.parseZmacErrors Scenarios.longLineNumbers "/ws/demo.a80")
  = [JS.Finite 9007199254740992; JS.Finite 9007199254740996;
     JS.Infinite true]
  /\ map (fun e => Diagnostic.startLine
                     (Diagnostic.range
                        (BreakpointManagerDiagnostics.toDiagnostic e)))
       (ZmacAssembler.parseZmacErrors Scenarios.longLineNumbers "/ws/demo.a80")
     = [JS.Finite 9007199254740991; JS.Finite 9007199254740996;
        JS.Infinite true].
Proof. split; vm_compute; reflexivity. Qed.

(** ** The output of the assembler *)

Module ChunkFacts.
Import ZmacAssembler Assembly Chunks.

Section Settle.
Variable h : Host.t.
Variable run : ChildProcess.Run.
Variables sourceFile fullOutputDir sourceBaseName : string.

Lemma settle_collects (pre post : list ChildProcess.Event) (code : option Z) :
  forallb isData pre = true ->
  forall stdout stderr,
    settle h run sourceFile fullOutputDir sourceBaseName
           (pre ++ ChildProcess.Close code :: post) stdout stderr
    = Resolved
        {| AssemblyResult.success := match code with
                                     | Some c => c =? 0
                                     | None => false
                                     end;
           AssemblyResult.stdout := stdout ++ stdoutOf pre;
           AssemblyResult.stderr := stderr ++ stderrOf pre;
           AssemblyResult.outputFiles :=
             getOutputFiles (ChildProcess.existsAtExit run) h fullOutputDir
               sourceBaseName;
           AssemblyResult.errors :=
             parseZmacErrors (stderr ++ stderrOf pre) sourceFile |}.
Proof.
  induction pre as [|e pre IH]; intros Hpre stdout stderr.
  - cbn. now rewrite !ParseFacts.append_nil.
  - cbn in Hpre. apply andb_prop in Hpre as [He Hpre].
    destruct e; try discriminate He; cbn [app settle stdoutOf stderrOf];
      rewrite (IH Hpre); now rewrite LabelFacts.app_assoc.
Qed.

End Settle.

End ChunkFacts.

(** X21. The result of an assembly does not depend on how the output of
    the assembler is cut into chunks: when the process closes, [stdout]
    and [stderr] of the result are the chunks received so far joined in
    order, and the diagnostics are parsed from the joined standard error,
    so that a diagnostic line that arrives in two chunks is read as one
    line. *)
Theorem X21_chunks_are_joined
    (h : Host.t) (run : ChildProcess.Run)
    (sourceFile outputDir zmacPath workspace : string)
    (zmacArgs : list string)
    (pre post : list ChildProcess.Event) (code : option Z) :
  Host.workspaceFolder h = Some workspace ->
  Assembly.outputDirReady h workspace outputDir ->
  ChildProcess.events run = (pre ++ ChildProcess.Close code :: post)%list ->
  forallb Assembly.isData pre = true ->
  exists result,
    snd (ZmacAssembler.assemble h run sourceFile outputDir zmacPath zmacArgs)
    = Resolved result /\
    AssemblyResult.stdout result = Chunks.stdoutOf pre /\
    AssemblyResult.stderr result = Chunks.stderrOf pre /\
    AssemblyResult.errors result
    = ZmacAssembler.parseZmacErrors (Chunks.stderrOf pre) sourceFile.
Proof.
  intros Hws Hready Hev Hpre.
  destruct (AssemblyFacts.assemble_spawns h run sourceFile outputDir zmacPath
              workspace zmacArgs Hws Hready) as [_ ->].
  rewrite Hev, (ChunkFacts.settle_collects h run _ _ _ pre post code Hpre).
  eexists. split; [reflexivity|]. now repeat split.
Qed.

Lemma X21_chunks_are_joined_witness :
  exists result,
    snd (ZmacAssembler.assemble Fixtures.hostStale Scenarios.runSplit
           "/ws/demo.a80" ".zout" "zmac" ["-L"])
    = Resolved result /\
    AssemblyResult.stdout result
    = Chunks.stdoutOf (firstn 3 (ChildProcess.events Scenarios.runSplit)) /\
    AssemblyResult.stderr result
    = Chunks.stderrOf (firstn 3 (ChildProcess.events Scenarios.runSplit)) /\
    AssemblyResult.errors result
    = ZmacAssembler.parseZmacErrors
        (Chunks.stderrOf (firstn 3 (ChildProcess.events Scenarios.runSplit)))
        "/ws/demo.a80".
Proof.
  apply (X21_chunks_are_joined Fixtures.hostStale Scenarios.runSplit
           "/ws/demo.a80" ".zout" "zmac" "/ws" ["-L"]
           (firstn 3 (ChildProcess.events Scenarios.runSplit)) []
           (Some 1)).
  - reflexivity.
  - left. reflexivity.
  - reflexivity.
  - reflexivity.
Defined.

(** the split line is one diagnostic *)
Example split_line_is_one_diagnostic :
  option_map (map AssemblyError.line)
    match snd (ZmacAssembler.assemble Fixtures.hostStale Scenarios.runSplit
                 "/ws/demo.a80" ".zout" "zmac" ["-L"]) with
    | Resolved result => Some (AssemblyResult.errors result)
    | _ => None
    end
  = Some [JS.Finite 7].
Proof. reflexivity. Qed.

(** ** Lines of the listing, read forwards *)

Module ListingLineFacts.
Import JS Hex Matching MatchingFacts ParseFacts BreakpointManager ListingLine.

Section Line.
Variables indent number gap cycles address ws rest : string.
Hypothesis Hindent : allChars isSpace indent = true.
Hypothesis Hnumber : run isDigit number.
Hypothesis Hgap : isGap gap.
Hypothesis Hcycles : isField cycles.
Hypothesis Haddress : hex4 address.
Hypothesis Hws : run isSpace ws.

Local Abbreviation line :=
  (indent ++ number ++ String ":" ((gap ++ cycles)
     ++ String tab (address ++ ws ++ rest))).

Lemma listingRe_matches : Matches listingRe line [] rest [number; address].
Proof.
  destruct Hgap as [Gs Gt]. destruct Hcycles as [Ct _].
  unfold listingRe. cbn [Seq].
  eapply MCat; [now apply Matches_star_intro|].
  eapply MCat.
  { apply (Matches_cap_intro (Plus isDigit)). now apply Matches_plus_intro. }
  eapply MCat; [apply Matches_lit_intro|].
  rewrite LabelFacts.app_assoc.
  eapply MCat; [now apply Matches_star_intro|].
  eapply MCat; [now apply Matches_star_intro|].
  eapply MCat; [apply Matches_lit_intro|].
  eapply MCat.
  { apply (Matches_cap_intro (Rep 4 isHex)).
    destruct Haddress as [L A]. rewrite <- L. now apply Matches_rep_intro. }
  eapply MCat; [now apply Matches_plus_intro | constructor].
Qed.

Lemma listingRe_unique (s1 : string) (c1 : list string) :
  Matches listingRe line [] s1 c1 -> c1 = [number; address].
Proof.
  destruct Hgap as [Gs Gt]. destruct Hcycles as [Ct (b0 & b' & Eb & Hb0)].
  destruct (ErrorLineFacts.run_start _ _ Hnumber) as (n0 & n' & En & Hn0 & Hn').
  unfold listingRe. cbn [Seq]. intros M.
  (* the indentation *)
  apply Matches_Cat_inv in M as (sa & ca & M0 & M).
  apply Matches_star_inv in M0 as [-> (x & Ea & Xa)].
  rewrite En in Ea. symmetry in Ea. cbn [append] in Ea.
  apply (run_prefix isSpace) in Ea as (mid & Ha & ->);
    [|exact Xa | exact Hindent | now apply ErrorLineFacts.digit_not_space].
  (* the line number and the colon *)
  apply Matches_Cat_inv in M as (sb & cb & M0 & M).
  apply Matches_cap_plus_inv in M0 as (d & Eb' & Hd & ->).
  destruct (ErrorLineFacts.run_start _ _ Hd) as (d0 & d' & -> & Hd0 & Hd').
  destruct mid as [|m0 mid].
  2:{ exfalso. cbn [append] in Eb'. injection Eb' as -> _.
      rewrite Ha, allChars_app in Hindent.
      apply andb_prop in Hindent as [_ Hm]. cbn in Hm.
      apply andb_prop in Hm as [Hm _].
      rewrite (ErrorLineFacts.digit_not_space _ Hd0) in Hm. discriminate Hm. }
  cbn [append] in Eb'. injection Eb' as <- Eb'.
  apply Matches_Cat_inv in M as (sc & cc & M0 & M).
  apply Matches_lit_inv in M0 as [-> ->].
  symmetry in Eb'.
  apply (run_same isDigit) in Eb' as (-> & _ & ->);
    [|exact Hd' | exact Hn' | reflexivity | reflexivity].
  (* white space, the cycle counts and the tab *)
  apply Matches_Cat_inv in M as (sd & cd & M0 & M).
  apply Matches_star_inv in M0 as [-> (y & Ed & Yd)].
  apply Matches_Cat_inv in M as (se & ce & M0 & M).
  apply Matches_star_inv in M0 as [-> (z & -> & Zd)].
  apply Matches_Cat_inv in M as (sf & cf & M0 & M).
  apply Matches_lit_inv in M0 as [-> ->].
  rewrite Eb, LabelFacts.app_assoc in Ed. symmetry in Ed. cbn [append] in Ed.
  apply (run_prefix isSpace) in Ed as (mid & Hg & Ed);
    [|exact Yd | exact Gs | exact Hb0].
  assert (Hfield : allChars (isNot tab) (mid ++ String b0 b') = true).
  { rewrite allChars_app. rewrite Hg, allChars_app in Gt.
    apply andb_prop in Gt as [_ ->]. now rewrite <- Eb. }
  change (mid ++ String b0 (b' ++ String tab (address ++ ws ++ rest)))
    with (mid ++ (String b0 b') ++ String tab (address ++ ws ++ rest)) in Ed.
  rewrite <- LabelFacts.app_assoc in Ed.
  apply (run_same (isNot tab)) in Ed as (_ & _ & ->);
    [|exact Zd | exact Hfield | reflexivity | reflexivity].
  (* the address *)
  apply Matches_Cat_inv in M as (sg & cg & M0 & M).
  apply Matches_cap_rep_inv in M0 as (a' & Eg & Lg & _ & ->).
  apply app_same_length in Eg as [<- <-]; [|destruct Haddress; congruence].
  apply Matches_nocap in M as ->; [|reflexivity].
  now rewrite En.
Qed.

Lemma listingRe_line : matchStart listingRe line = Some [number; address].
Proof.
  eapply matchStart_unique; [apply listingRe_matches | apply listingRe_unique].
Qed.

End Line.

End ListingLineFacts.

(** X22. A line of the listing in the format of zmac (indentation, the
    number of the source line, a colon, the cycle counts, a tab, the four
    hexadecimal digits of the address, white space) is an entry for that
    source line at that address: a scan for the line it names stops there
    with the address the digits denote, and a scan for another line goes
    on with the lines that follow. *)
Theorem X22_listing_line_parsed
    (indent number gap cycles address ws rest : string)
    (targetLine : Z) (more : list string) :
  Hex.allChars JS.isSpace indent = true ->
  Matching.run JS.isDigit number ->
  ListingLine.isGap gap -> ListingLine.isField cycles ->
  Matching.hex4 address -> Matching.run JS.isSpace ws ->
  BreakpointManager.scanListing targetLine
    (ListingLine.formatted indent number gap cycles address ws rest :: more)
  = if ErrorLine.decValue number =? targetLine
    then Some (Matching.hexValue address)
    else BreakpointManager.scanListing targetLine more.
Proof.
  intros Hindent Hnumber Hgap Hcycles Haddress Hws.
  cbn [BreakpointManager.scanListing]. unfold ListingLine.formatted.
  rewrite (ListingLineFacts.listingRe_line indent number gap cycles address ws
             rest Hindent Hnumber Hgap Hcycles Haddress Hws).
  rewrite (BdsLineFacts.num_hexValue address Haddress).
  replace (BreakpointManager.num number 10) with (ErrorLine.decValue number)
    by (symmetry; exact (ErrorLineFacts.num_decValue number Hnumber)).
  reflexivity.
Qed.

(** the listing line quoted in the source *)
Lemma X22_listing_line_parsed_witness :
  BreakpointManager.scanListing 7
    (ListingLine.formatted "   " "7" "   " "17+10" "6003" "  "
       ("210C60  " ++ Fixtures.ht ++ "        ld      hl, hello_msg") :: [])
  = if ErrorLine.decValue "7" =? 7
    then Some (Matching.hexValue "6003")
    else BreakpointManager.scanListing 7 [].
Proof.
  apply (X22_listing_line_parsed "   " "7" "   " "17+10" "6003" "  "
           ("210C60  " ++ Fixtures.ht ++ "        ld      hl, hello_msg")
           7 []).
  - reflexivity.
  - split; [discriminate | reflexivity].
  - split; reflexivity.
  - split; [reflexivity|]. eexists. eexists. split; reflexivity.
  - split; reflexivity.
  - split; [discriminate | reflexivity].
Defined.

(** it is the line of the fixture *)
Example listing_line_of_fixture :
  ListingLine.formatted "   " "7" "   " "17+10" "6003" "  "
    ("210C60  " ++ Fixtures.ht ++ "        ld      hl, hello_msg")
  = Fixtures.listingLine7.
Proof. reflexivity. Qed.

(** ** The two renderings of breakpoint flags *)

(** X23. [EmulatorManager.formatBreakpointArgs], given the addresses of a
    list of breakpoints, yields the flags that
    [BreakpointManager.formatBreakpointsForEmulator] yields for the first
    four of them: the two renderings agree on every list
    [getBreakpointAddresses] can hand back. *)
Theorem X23_flag_renderings_agree (breakpoints : list BreakpointInfo.t) :
  EmulatorManager.formatBreakpointArgs
    (map BreakpointInfo.address breakpoints)
  = BreakpointManager.formatBreakpointsForEmulator (firstn 4 breakpoints).
Proof.
  unfold EmulatorManager.formatBreakpointArgs. cbv zeta.
  rewrite length_map.
  assert (H : forall (n : nat) (bps : list BreakpointInfo.t),
             EmulatorManager.formatLoop (Nat.min (List.length bps) n)
               (map BreakpointInfo.address bps)
             = BreakpointManager.formatBreakpointsForEmulator (firstn n bps)).
  { intros n. induction n as [|n IH]; intros bps.
    - rewrite Nat.min_0_r. now destruct bps.
    - destruct bps as [|bp rest]; [reflexivity|].
      cbn [List.length map firstn]. rewrite <- Nat.succ_min_distr.
      cbn [EmulatorManager.formatLoop
             BreakpointManager.formatBreakpointsForEmulator].
      unfold BreakpointManager.renderAddress. now rewrite IH. }
  apply H.
Qed.

(** ** What a diagnostic can be *)

Module DiagnosticFacts.
Import JS Hex Matching MatchingFacts ParseFacts ZmacAssembler ErrorLine.

(** the line read from a run of digits is never negative nor [NaN] *)
Lemma line_natural (n : string) :
  run isDigit n -> LineNumber.natural (parseIntNumber n).
Proof.
  intros Hn. rewrite (ErrorLineFacts.parseIntNumber_decValue n Hn).
  apply NumberFacts.toNumber_natural, NumberFacts.decValue_nonneg, Hn.
Qed.

Ltac peel M :=
  let s1 := fresh "s" in
  let c1 := fresh "c" in
  let M1 := fresh "M" in
  apply Matches_Cat_inv in M as (s1 & c1 & M1 & M);
  first [ apply Matches_cap_plus_inv in M1 as (? & _ & ? & ->)
        | apply Matches_nocap in M1 as ->; [|reflexivity] ].

(** the second group of the structured pattern is a run of digits *)
Lemma errorRe_groups (t s' : string) (caps : list string) :
  Matches errorRe t [] s' caps ->
  exists file number message, caps = [file; number; message] /\
                              run isDigit number.
Proof.
  unfold errorRe. cbn [Seq]. intros M.
  do 13 peel M. apply Matches_Emp_inv in M as [_ ->].
  cbn [app]. eexists. eexists. eexists. split; [reflexivity | assumption].
Qed.

(** so is the first group of the loose pattern *)
Lemma simpleErrorRe_groups (t s' : string) (caps : list string) :
  Matches simpleErrorRe t [] s' caps ->
  exists number message, caps = [number; message] /\ run isDigit number.
Proof.
  unfold simpleErrorRe. cbn [Seq]. intros M.
  do 6 peel M. apply Matches_Emp_inv in M as [_ ->].
  cbn [app]. eexists. eexists. split; [reflexivity | assumption].
Qed.

Lemma line_diagnostics (line sourceFile : string) :
  (List.length (parseZmacErrorLine line sourceFile) <= 1)%nat /\
  Forall (fun e => LineNumber.natural (AssemblyError.line e) /\
                   AssemblyError.column e = None)
         (parseZmacErrorLine line sourceFile).
Proof.
  unfold parseZmacErrorLine.
  destruct (matchAnywhere errorRe line) as [caps|] eqn:E.
  - apply matchAnywhere_sound in E as (pre & t & s' & _ & M).
    apply errorRe_groups in M as (f & n & m & -> & Hn).
    split; [cbn; lia|]. constructor; [|constructor].
    split; [now apply line_natural | reflexivity].
  - destruct (matchAnywhere simpleErrorRe line) as [caps|] eqn:E2.
    + apply matchAnywhere_sound in E2 as (pre & t & s' & _ & M).
      apply simpleErrorRe_groups in M as (n & m & -> & Hn).
      split; [cbn; lia|]. constructor; [|constructor].
      split; [now apply line_natural | reflexivity].
    + split; [cbn; lia | constructor].
Qed.

Lemma lines_diagnostics (lines : list string) (sourceFile : string) :
  (List.length (flat_map (fun line => parseZmacErrorLine line sourceFile) lines)
   <= List.length lines)%nat /\
  Forall (fun e => LineNumber.natural (AssemblyError.line e) /\
                   AssemblyError.column e = None)
         (flat_map (fun line => parseZmacErrorLine line sourceFile) lines).
Proof.
  induction lines as [|line rest [IHl IHf]]; [split; [cbn; lia | constructor]|].
  cbn [flat_map List.length].
  destruct (line_diagnostics line sourceFile) as [Hl Hf]. split.
  - rewrite List.length_app. lia.
  - apply Forall_app. now split.
Qed.

End DiagnosticFacts.

(** X24. Whatever the assembler writes to standard error, the diagnostics
    parsed from it are at most one for each line of the text, none has a
    column, and every line number is a double that is a natural number, or
    [Infinity] (for a run of digits past the largest double): never a
    negative number and never [NaN].  The 0-based line that
    [updateDiagnostics] computes from it is again a natural number or
    [Infinity]; the clamp at zero only acts for line 0, and up to 2^53 the
    line is exactly one less. *)
Theorem X24_diagnostics_well_formed (stderr sourceFile : string) :
  (List.length (ZmacAssembler.parseZmacErrors stderr sourceFile)
   <= List.length (JS.splitLines stderr))%nat /\
  Forall (fun e =>
            let startLine :=
              Diagnostic.startLine
                (Diagnostic.range
                   (BreakpointManagerDiagnostics.toDiagnostic e)) in
            LineNumber.natural (AssemblyError.line e) /\
            AssemblyError.column e = None /\
            LineNumber.natural startLine /\
            (AssemblyError.line e = JS.Finite 0 -> startLine = JS.Finite 0) /\
            (AssemblyError.line e <> JS.Finite 0 ->
             startLine = JS.minusOne (AssemblyError.line e)) /\
            (forall n, AssemblyError.line e = JS.Finite n -> 0 < n <= 2 ^ 53 ->
                       startLine = JS.Finite (n - 1)))
         (ZmacAssembler.parseZmacErrors stderr sourceFile).
Proof.
  unfold ZmacAssembler.parseZmacErrors.
  destruct (DiagnosticFacts.lines_diagnostics (JS.splitLines stderr) sourceFile)
    as [Hl Hf].
  split; [exact Hl|].
  eapply Forall_impl; [|exact Hf].
  intros e [Hline Hcol]. cbv zeta.
  cbn [BreakpointManagerDiagnostics.toDiagnostic Diagnostic.range
       Diagnostic.startLine].
  split; [exact Hline|]. split; [exact Hcol|].
  split; [now apply NumberFacts.zero_based_natural|].
  split; [now intros ->|].
  split.
  - intros Hnz. apply NumberFacts.maxZero_natural.
    destruct (AssemblyError.line e) as [z|[]|]; cbn [LineNumber.natural] in Hline;
      try contradiction; try discriminate; try reflexivity.
    cbn [JS.minusOne]. apply NumberFacts.toNumber_natural.
    assert (z <> 0) by congruence. lia.
  - intros n -> Hn. cbn [JS.minusOne].
    rewrite NumberFacts.toNumber_safe by lia.
    cbn [JS.maxZero]. f_equal. lia.
Qed.

(** ** Breakpoints without a workspace folder *)

(** X25. Without a workspace folder no breakpoint is resolved, whatever
    the symbol file and the source files hold: the resolver gives up
    before it looks at the listing or at the labels, so that in debug mode
    the only flag passed is the one of the entry point, if there is one. *)
Theorem X25_no_folder_no_breakpoints (h : Host.t) (bdsFile : string)
    (assemblyResult : AssemblyResult.t) :
  Host.workspaceFolder h = None ->
  BreakpointManager.getBreakpointAddresses h bdsFile = [] /\
  TRS80Commands.prepareBreakpointArgs h assemblyResult true
  = match TRS80Commands.present
            (OutputFiles.bds (AssemblyResult.outputFiles assemblyResult)) with
    | Some bds =>
        match BreakpointManager.getEntryPoint h bds with
        | Some entryPoint => Origin.flagsOf [entryPoint]
        | None => []
        end
    | None => []
    end.
Proof.
  intros Hws.
  assert (Hall : forall m l, BreakpointManager.resolveAll h m l = []).
  { intros m l. induction l as [|bp rest IH]; [reflexivity|].
    cbn [BreakpointManager.resolveAll].
    destruct bp as [f n|name]; cbn [BreakpointManager.resolveBreakpoint];
      [|exact IH].
    unfold BreakpointManager.findAddressForSourceLine. now rewrite Hws. }
  assert (Hnone : forall bds, BreakpointManager.getBreakpointAddresses h bds = []).
  { intros bds. unfold BreakpointManager.getBreakpointAddresses.
    now rewrite Hall. }
  split; [apply Hnone|].
  unfold TRS80Commands.prepareBreakpointArgs, TRS80Commands.present.
  destruct (OutputFiles.bds (AssemblyResult.outputFiles assemblyResult))
    as [bds|]; [|reflexivity].
  cbn [andb]. destruct (bds =? "")%string; cbn [negb]; [reflexivity|].
  rewrite Hnone.
  now destruct (BreakpointManager.getEntryPoint h bds).
Qed.

(** the breakpoint of the demo project, which resolves to 0x6010 with the
    folder open, is dropped, and the first symbol is taken instead *)
Lemma X25_no_folder_no_breakpoints_witness :
  BreakpointManager.getBreakpointAddresses Scenarios.hostNoFolder
    "/ws/.zout/demo.bds" = [] /\
  TRS80Commands.prepareBreakpointArgs Scenarios.hostNoFolder
    {| AssemblyResult.success := true;
       AssemblyResult.stdout := "";
       AssemblyResult.stderr := "";
       AssemblyResult.outputFiles :=
         {| OutputFiles.bds := Some "/ws/.zout/demo.bds";
            OutputFiles.cmd := None;
            OutputFiles.lst := None |};
       AssemblyResult.errors := [] |} true
  = match TRS80Commands.present (Some "/ws/.zout/demo.bds") with
    | Some bds =>
        match BreakpointManager.getEntryPoint Scenarios.hostNoFolder bds with
        | Some entryPoint => Origin.flagsOf [entryPoint]
        | None => []
        end
    | None => []
    end.
Proof.
  apply (X25_no_folder_no_breakpoints Scenarios.hostNoFolder
           "/ws/.zout/demo.bds").
  reflexivity.
Defined.

Example no_folder_flags :
  TRS80Commands.prepareBreakpointArgs Scenarios.hostNoFolder
    {| AssemblyResult.success := true;
       AssemblyResult.stdout := "";
       AssemblyResult.stderr := "";
       AssemblyResult.outputFiles :=
         {| OutputFiles.bds := Some "/ws/.zout/demo.bds";
            OutputFiles.cmd := None;
            OutputFiles.lst := None |};
       AssemblyResult.errors := [] |} true
  = ["-b"; "6000"].
Proof. reflexivity. Qed.
